(* ===== verification/_CoqProject ===== *)
-Q . S2P
Prelude.v
Threads.v
GoStd.v
Regexp.v
GoTime.v
Sha256.v
Api.v
K8s.v
Memory.v
DeepCopy.v
PluginConfig.v
DoormanConfig.v
ConfigGen.v
Specs.v
InPlace.v
Json.v
Paths.v
Kube.v
MemClient.v
Credentials.v
Controller.v
ControllerProofs.v
Watches.v
Machinery.v
Reconciler.v
Progress.v
ControlPlane.v
Recovery.v
Concurrent.v
Convergence.v
Operator.v
Lifecycle.v
Hooks.v
Os.v
WrapperFiles.v
FileWatcher.v
Rollout.v
BinarySync.v
Binaries.v
Delivery.v
Plugin.v
BinaryWatcher.v
RoleWatcher.v
Successor.v
Process.v
Supervise.v
Wrapper.v
Deployed.v
Container.v
Main.v
Interleave.v
