(* ===== verification/Prelude.v ===== *)
(** * cnpg-pg-doorman: a verification library

    cnpg-pg-doorman runs the pg_doorman connection pooler as a sidecar of
    CloudNativePG instances. It has two programs. The plugin (cmd/plugin,
    internal/{config,configgen,controller,credentials,lifecycle,operator,
    reconciler,specs}) renders a PgDoorman resource into a per-cluster Secret,
    answers the hooks of the operator and injects the sidecar into pods. The
    wrapper (cmd/wrapper, internal/wrapper) is PID 1 of the sidecar: it applies
    changes of the mounted Secret to the running pooler, upgrades its binary in
    place and restarts it when it must. The Secret is the only contract between
    the two. This library models both, and the theorems say what each promises.

    ** How the code is modelled

    - Go functions are Rocq functions of the same name (type-prefixed fields,
      [s_], [gs_], ... for record fields). A function that fails returns [res];
      one that acts on the world runs in the monad [M W] of this file, over a
      world [W]. [try_] is a call whose error the caller looks at, [ignore] one
      whose error it drops. Error values keep their format and arguments.
    - A pointer is the value it points to, except where sharing is the point: the
      generated deep copies and the defaulting that writes through pointers run
      over an explicit heap ([Memory]), with an Iris weakest precondition.
    - Maps are stdpp's [gmap]; the order in which Go ranges over a map is a
      [ranger] that every such loop takes as an argument, so a theorem holds for
      every order.
    - Integers are [Z]; where a value can leave its 64 bits the conversion is
      written out ([GoTime.v], [Process.wrap64]).
    - Third-party code is a class: [Yaml] (yaml.v3), [Crypto] (crypto/x509,
      encoding/pem), [Quantities] (resource.ParseQuantity), [Machinery] (decoding
      and patches of cnpg-i-machinery), [Metav1] (the types of apimachinery and
      their deep copies), [PgDoormanBinary] (what a pg_doorman
      binary accepts under --test-config) and [KubeClient] (the API server). What
      the code relies on is in a law class next to it. The functions of the Go
      library the code uses are modelled themselves: strings, strconv, time,
      regexp, crypto/sha256 and encoding/json.

    ** The files

    - Foundations: [Prelude] (errors, the monad, map order, [keeps_rel] frames,
      [triple]s and the tactics [inv_run], [bind_inv]), [GoStd] (strings, strconv),
      [Regexp], [GoTime] (time.ParseDuration), [Sha256].
    - Data: [Api] (api/v1alpha1: the PgDoorman spec, its defaults and the admitted
      specs), [K8s] (the objects of the API server), [Json] (the grammar and the
      strings of encoding/json), [Paths] (paths.go, binaryspec.go).
    - Memory: [Memory] (Go's pointers, slices and maps over a heap, the copy shapes of
      controller-gen, the weakest precondition and its adequacy), [DeepCopy]
      (zz_generated.deepcopy.go), [InPlace] (defaults.go and authsecrets.go as they
      write through the pointers of a spec).
    - Pure parts of the plugin: [PluginConfig] (internal/config), [DoormanConfig]
      (validator.go, restart.go), [ConfigGen] (internal/configgen), [Specs]
      (internal/specs).
    - The API server: [Kube] (the client interface as a class, its specification
      [KubeSpec] over an abstract view of the store, in which any call may fail and
      a merge patch changes exactly the fields it carries, and [KubeUp], a server
      that answers) and [MemClient] (an in-memory implementation that meets it, for examples).
    - The plugin's effects: [Credentials] (internal/credentials), [Controller] and
      [ControllerProofs] (internal/controller), [Watches] (SetupWithManager),
      [Reconciler] (internal/reconciler), [ControlPlane] (controller and hook on
      one store, step by step), [Concurrent] (any number of runs of both, interleaved
      call by call, reading from stale caches), [Progress], [Recovery] and
      [Convergence] (what they achieve once nothing fails, from any such history),
      [Operator] (internal/operator), [Machinery] and [Lifecycle]
      (internal/lifecycle), [Hooks] (internal/identity, internal/metrics and
      internal/utils, and the entry points of the hooks).
    - The wrapper: [Os] (files, processes, clock, metrics and signals, with a
      script of failing calls), [WrapperFiles] (AtomicWrite, the config tester,
      tlskey.go), [FileWatcher], [BinarySync] (binarysync.go, startup.go),
      [BinaryWatcher], [RoleWatcher], [Successor] (successor_linux.go), [Process]
      (the operations of process.go), [Supervise] (RunWithRestart as a state
      machine), [Wrapper] (cmd/wrapper: startup and the watchers), [Container]
      (cmd/wrapper: the watchers beside the loop), [Main] (main as a whole, to its
      exit) and [Interleave] (the calls of the watchers interleaved, over the
      rely-guarantee logic of [Threads]).
    - Both programs: [Deployed] (the injected sidecar and what main reads), [Rollout] (from the reconciliation to the applied config),
      [Binaries] (internal/binaries and loadBinarySpec), [Delivery] (from the
      image of the plugin to the binary a pod starts) and [Plugin] (cmd/plugin).

    ** What the theorems show

    - Controller: a reconciliation changes nothing but its own objects
      ([Reconcile_confined]); the rendered Secret changes only for a live
      PgDoorman of its cluster, with owned Secrets and a configuration the wrapper
      accepts ([Reconcile_gate]); the finalizer protocol, the meaning of the
      Rendered condition, convergence and the stability of generated passwords;
      and no event that matters is missed ([watches_complete]).
    - Hooks: the reconciler hook requeues only during creation, converges, refuses
      a foreign PgDoorman and is confined; admission and defaulting; the sidecar
      injection is idempotent, conservative, and yields a sidecar that runs;
      their metrics are exact and change nothing ([serve_all_observed]).
    - The plugin as a whole: whatever reconciliations and hook calls run at once,
      on however many replicas and however stale their caches, the rendered Secrets
      keep their type and each call stays within its cluster
      ([interleaved_stay_typed]); the manager runs what the flags say
      ([RunE_correct]).
    - Progress: whatever earlier runs left behind, cut off anywhere and interleaved
      in any way, once the API server answers, the next hook and reconciliation of
      a cluster whose inputs are in place end with its Service, its rendered
      configuration and a true condition ([control_plane_converges]).
    - Memory: every generated deep copy is deep ([generated_copies_correct]), and
      the code that fills in defaults does on its copy what the pure definitions
      say and never touches the cached object ([spec_mutations_isolated]).
    - Pure parts: defaulting, parsing and validation are characterised exactly
      and for every map order; what is generated is accepted by the wrapper, and
      the binary spec that is published is read back ([ParseBinarySpec_roundtrip]).
    - Wrapper: writes are atomic under any failing call; a check of a watcher
      installs only what was verified and accepted; one handover at a time
      ([upgrade_window]); demotion restarts once.
    - Supervision: exactly one process is supervised and signalled
      ([supervises_one]), starts are at least a second apart ([starts_paced]), the
      classification of exits, and the bounded shutdown, up to the end of main
      ([main_returns]).
    - The sidecar as a whole: under every interleaving of the loop, the watchers
      and the world the installed pair stays startable, and signals go to the one
      process the loop waits for ([container_correct]); call by call, each
      installed file was tested against the other one of some moment, and only a
      simultaneous change of both can break the pair ([interleaved_correct]).
    - Between the programs: ports, paths, volumes and probes of the patched pod
      are those of the wrapper, the controller and the Service
      ([patched_pod_agrees]); what the status calls rendered is what the pods apply
      ([rendered_is_applied]); the endpoint serves nothing but binaries
      ([handle_get_confined]), the published spec names exactly these
      ([loadBinarySpec_correct]), and a pod starts on them ([delivery_end_to_end]).

    Each theorem with hypotheses is followed, at the end of its file, by a witness
    that applies it to a concrete run; some further examples exhibit behaviour
    that contradicts a comment or an intention of the code.

    ** Interfaces

    The controller and the hooks are proved against [KubeSpec] and [KubeUp], which
    [MemClient] implements, and, where runs interleave, against [KubeLag], whose
    reads may be stale ([cached] in [Concurrent] implements it); the generated copies against the laws of [Metav1]; the watchers against [SupervisorLaws], which [Process] discharges
    ([process_supervisor_laws]). A theorem of one side thus holds for the other.

    ** Bounds

    Loops are structural, over lists and strings; [GoTime.parse_groups] has the
    length of its input as fuel and consumes a character per round, and
    [Json.parse] twice the length of the document ([Json.parse_fuel] shows that more
    does not change the result). Documents nest at most 10000 deep and downloads
    have at most 256 MiB, as in the code. The supervision loop is a transition
    function, run over explicit lists of actions.

    ** What is not modelled, and the assumptions

    - An operation of the process (which holds its mutex) is one step. [Container]
      takes a whole check of a watcher as one step, [Interleave] cuts it into its
      calls; the blocks that touch files of one watcher alone (AtomicWrite, the key
      conversion, a download) stay whole. Its example is a run in which both
      files change at once and the installed pair is a rejected one.
    - /proc is read as one snapshot; a process that died is gone from it at once;
      the exit status of the child does not matter to the model.
    - A failing system call fails for any reason at all ([ExtErr]); data survives a
      crash of the machine as written (no fsync semantics).
    - The request path of the delivery endpoint has no percent escapes, and the
      network answers a download with what the endpoint replied; TLS, timeouts
      and the shutdown of the servers belong to net/http.
    - Of controller-runtime, cobra and viper the model has the calls the code
      makes, as named steps that may fail; when an event reaches the work queue
      and how often it is retried is theirs.
    - The progress theorems assume that encoding a configuration does not fail; of
      the API server they assume [KubeUp].
    - The tickers of the watchers (each tick is a check), prctl and the stubs for
      other systems, the registration of the API types and the tests are left out.
      A signal that arrives while main starts is seen once it has started. *)

From stdpp Require Export base tactics gmap strings list fin_maps sorting.
From Stdlib Require Export ZArith Lia.
From stdpp Require Import options.

(** ** Errors and messages

    A Go error (or a message built by [fmt.Sprintf]) is kept unrendered: the
    format string of the source and its arguments.  [Wrapf] is a message that
    ends in another one ([fmt.Errorf] with a [%w] verb) and [Joined] two
    messages one after the other; the other constructors are the errors of the
    code's environment that the code itself tells apart. *)
Inductive gerr : Type :=
  | Errorf (format : string) (args : list string)
  | Wrapf (format : string) (args : list string) (cause : gerr)
  | Joined (e1 e2 : gerr)
  | NotFound (what : string)
  | AlreadyExists (what : string)
  | ENOENT (path : string)
  | ESRCH
  | ECHILD
  | Canceled
  | ExtErr (what : string).

#[export] Instance gerr_eq_dec : EqDecision gerr.
Proof. solve_decision. Defined.

(** ** Fallible computations *)
Inductive res (A : Type) : Type :=
  | Ok (a : A)
  | Err (e : gerr).
Arguments Ok {A} a.
Arguments Err {A} e.

#[export] Instance res_ret : MRet res := @Ok.
#[export] Instance res_bind : MBind res := λ A B f r,
  match r with Ok a => f a | Err e => Err e end.
#[export] Instance res_eq_dec `{EqDecision A} : EqDecision (res A).
Proof. solve_decision. Defined.

Definition is_ok {A} (r : res A) : bool :=
  match r with Ok _ => true | Err _ => false end.

(** [for x in l { s = f(s, x) }] with an early return on the first error. *)
Fixpoint foldM {S A} (f : S → A → res S) (s : S) (l : list A) : res S :=
  match l with
  | [] => Ok s
  | x :: l => s' ← f s x; foldM f s' l
  end.

(** A loop that only checks: stops at the first error. *)
Fixpoint checkM {A} (f : A → res unit) (l : list A) : res unit :=
  match l with
  | [] => Ok ()
  | x :: l => _ ← f x; checkM f l
  end.

(** ** Stateful fallible computations: Go code running against a world [W] *)
Definition M (W A : Type) : Type := W → res A * W.

#[export] Instance M_ret {W} : MRet (M W) := λ A a w, (Ok a, w).
#[export] Instance M_bind {W} : MBind (M W) := λ A B f m w,
  match m w with
  | (Ok a, w') => f a w'
  | (Err e, w') => (Err e, w')
  end.

(** [try_ m] is a call whose error the caller inspects instead of returning. *)
Definition try_ {W A} (m : M W A) : M W (res A) := λ w,
  let '(r, w') := m w in (Ok r, w').
Definition throw {W A} (e : gerr) : M W A := λ w, (Err e, w).
Definition lift {W A} (r : res A) : M W A := λ w, (r, w).
Definition gets {W A} (f : W → A) : M W A := λ w, (Ok (f w), w).
Definition modify {W} (f : W → W) : M W unit := λ w, (Ok (), f w).
(** A call whose error is dropped ([_ = f()]). *)
Definition ignore {W A} (m : M W A) : M W unit := _ ← try_ m; mret ().

Fixpoint for_each {W A} (f : A → M W unit) (l : list A) : M W unit :=
  match l with
  | [] => mret ()
  | x :: l => _ ← f x; for_each f l
  end.

Fixpoint foldMW {W S A} (f : S → A → M W S) (s : S) (l : list A) : M W S :=
  match l with
  | [] => mret s
  | x :: l => s' ← f s x; foldMW f s' l
  end.

(** ** Go map iteration

    The order in which Go ranges over a map is unspecified and differs from
    one loop to the next.  A [ranger] is one choice of order for every map;
    the definitions take the ranger of each of their loops as an argument, so
    a theorem about them holds for every order. *)
Record ranger : Type := Ranger {
  range : ∀ {A}, gmap string A → list (string * A);
  range_perm : ∀ {A} (m : gmap string A), range m ≡ₚ map_to_list m
}.

(** The order of the map representation itself, used to run examples. *)
Definition default_ranger : ranger :=
  {| range := λ A m, map_to_list m; range_perm := λ A m, Permutation_refl _ |}.
(** The opposite order. *)
Program Definition reverse_ranger : ranger :=
  {| range := λ A m, reverse (map_to_list m) |}.
Next Obligation. intros A m. apply reverse_Permutation. Qed.

(** Go's zero value for a missing key of a [map[string]string]. *)
Definition map_get (m : gmap string string) (k : string) : string :=
  default "" (m !! k).

(** [if s == "" { s = d }]. *)
Definition or_default (s d : string) : string := if decide (s = "") then d else s.
(** [if p == nil { p = ptr.To(d) }]. *)
Definition or_ptr {A} (p : option A) (d : A) : option A :=
  match p with Some _ => p | None => Some d end.

(** ** Tactics *)

(** Case split on the innermost [match] or [if] of the goal. *)
Ltac case_goal :=
  match goal with
  | |- context [match ?x with _ => _ end] =>
      lazymatch x with context [match _ with _ => _ end] => fail | _ => destruct x eqn:? end
  end.

(** Invert a bind of [res] or [M] that returned. *)
Ltac inv_bind H :=
  unfold mbind, res_bind, M_bind in H;
  repeat match type of H with
  | context [match ?x with _ => _ end] =>
      lazymatch x with
      | context [match _ with _ => _ end] => fail
      | _ => destruct x eqn:?; simplify_eq/=
      end
  end.

(** ** Lemmas on loops *)
Section loops.
Context {A S : Type}.

Lemma checkM_ok (f : A → res unit) l :
  checkM f l = Ok () ↔ Forall (λ x, f x = Ok ()) l.
Proof.
  induction l as [|x l IH]; simpl; [split; auto|].
  rewrite Forall_cons, <- IH. unfold mbind, res_bind.
  destruct (f x) as [[]|e] eqn:E; naive_solver.
Qed.

Lemma checkM_is_ok (f : A → res unit) l :
  is_ok (checkM f l) = forallb (λ x, is_ok (f x)) l.
Proof.
  induction l as [|x l IH]; simpl; [done|].
  unfold mbind, res_bind. by destruct (f x).
Qed.

(** An invariant of the accumulator that every iteration keeps. *)
Lemma foldM_ind (P : S → Prop) (f : S → A → res S) l s s' :
  (∀ s x s', P s → f s x = Ok s' → P s') →
  P s → foldM f s l = Ok s' → P s'.
Proof.
  intros Hf. revert s. induction l as [|x l IH]; intros s Hs; simpl; [by intros [= <-]|].
  unfold mbind, res_bind. destruct (f s x) eqn:E; [|done]. eauto.
Qed.
End loops.

Lemma checkM_perm {A} (f : A → res unit) l l' :
  l ≡ₚ l' → is_ok (checkM f l) = is_ok (checkM f l').
Proof.
  intros Hl. apply eq_bool_prop_intro. rewrite !checkM_is_ok, !forallb_True.
  by rewrite Hl.
Qed.

(** ** Lemmas on map iteration *)
Section ranging.
Context {A : Type} (ρ : ranger).
Implicit Types m : gmap string A.

Lemma elem_of_range m k x : (k, x) ∈ range ρ m ↔ m !! k = Some x.
Proof. by rewrite (range_perm ρ m), elem_of_map_to_list. Qed.

Lemma NoDup_range_keys m : NoDup ((range ρ m).*1).
Proof. rewrite (range_perm ρ m). apply NoDup_fst_map_to_list. Qed.

Lemma Forall_range (P : string * A → Prop) m :
  Forall P (range ρ m) ↔ map_Forall (λ k x, P (k, x)) m.
Proof.
  rewrite Forall_forall. split.
  - intros H k x Hk. by apply H, elem_of_range.
  - intros H [k x] Hk. by apply H, elem_of_range.
Qed.

Lemma list_to_map_range m : list_to_map (range ρ m) = m.
Proof.
  rewrite (list_to_map_proper (M := gmap string) _ (map_to_list m)).
  - apply list_to_map_to_list.
  - apply NoDup_range_keys.
  - apply range_perm.
Qed.
End ranging.

(** ** Reasoning about effectful code

    [triple P m Q]: from a world that satisfies [P], [m] ends with a result and a
    world that satisfy [Q]. *)
Definition triple {W A} (P : W → Prop) (m : M W A) (Q : res A → W → Prop) : Prop :=
  ∀ w r w', P w → m w = (r, w') → Q r w'.

(** [keeps_rel R m]: every run of [m] goes from a world to an [R]-related one. *)
Definition keeps_rel {W A} (R : W → W → Prop) (m : M W A) : Prop :=
  ∀ w r w', m w = (r, w') → R w w'.

Lemma bind_inv {W A B} (m : M W A) (f : A → M W B) w r w' :
  (m ≫= f) w = (r, w') →
  (∃ a w1, m w = (Ok a, w1) ∧ f a w1 = (r, w')) ∨ (∃ e, m w = (Err e, w') ∧ r = Err e).
Proof.
  unfold mbind, M_bind. destruct (m w) as [[a|e] w1]; intros Heq; [left; eauto|].
  right. simplify_eq. eauto.
Qed.

Lemma try_inv {W A} (m : M W A) w (r : res (res A)) w' :
  try_ m w = (r, w') → ∃ r', r = Ok r' ∧ m w = (r', w').
Proof. unfold try_. destruct (m w) as [r1 w1]. intros [= <- <-]. eauto. Qed.

Lemma ignore_inv {W A} (m : M W A) w r w' :
  ignore m w = (r, w') → r = Ok () ∧ ∃ r', m w = (r', w').
Proof.
  unfold ignore, try_, mbind, M_bind. destruct (m w) as [r1 w1].
  intros Heq; injection Heq as <- <-. eauto.
Qed.

(** Follow the run [H : m w = (r, w')] of a sequence: one goal per call that
    returned an error, one where it went on. *)
Ltac inv_run H :=
  lazymatch type of H with
  | mbind _ _ ?w = _ =>
      let a := fresh "a" in let w1 := fresh "w" in let Hc := fresh "Hcall" in
      let e := fresh "e" in
      apply bind_inv in H as [(a & w1 & Hc & H)|(e & Hc & H)]; cbn beta in *;
      [try inv_run Hc; try inv_run H | try inv_run Hc; try subst]
  | try_ _ _ = _ =>
      let r := fresh "r" in let Hr := fresh "Hr" in
      apply try_inv in H as (r & Hr & H); first [discriminate Hr | injection Hr as Hr]; subst
  | mret _ _ = _ => unfold mret, M_ret in H; simplify_eq
  | throw _ _ = _ => unfold throw in H; simplify_eq
  | lift _ _ = _ => unfold lift in H; simplify_eq
  | gets _ _ = _ => unfold gets in H; simplify_eq
  | modify _ _ = _ => unfold modify in H; simplify_eq
  end.

(** Code keeps a preorder when each of its calls does. *)
Section keeping.
#[local] Set Default Proof Using "Type*".
Context {W : Type} (R : W → W → Prop) `{!PreOrder R}.

Lemma keeps_ret {A} (a : A) : keeps_rel R (mret a).
Proof. intros w r w'. unfold mret, M_ret. by intros [= _ <-]. Qed.
Lemma keeps_throw {A} e : keeps_rel R (throw (A := A) e).
Proof. intros w r w'. unfold throw. by intros [= _ <-]. Qed.
Lemma keeps_lift {A} (x : res A) : keeps_rel R (lift x).
Proof. intros w r w'. unfold lift. by intros [= _ <-]. Qed.
Lemma keeps_gets {A} (f : W → A) : keeps_rel R (gets f).
Proof. intros w r w'. unfold gets. by intros [= _ <-]. Qed.
Lemma keeps_modify f : (∀ w, R w (f w)) → keeps_rel R (modify f).
Proof. intros Hf w r w'. unfold modify. by intros [= _ <-]. Qed.
Lemma keeps_bind {A B} (m : M W A) (f : A → M W B) :
  keeps_rel R m → (∀ a, keeps_rel R (f a)) → keeps_rel R (m ≫= f).
Proof.
  intros Hm Hf w r w' [(a & w1 & Hc & Hr)|(e & Hc & ->)]%bind_inv; [|by eapply Hm].
  etrans; [by eapply Hm|by eapply Hf].
Qed.
Lemma keeps_try {A} (m : M W A) : keeps_rel R m → keeps_rel R (try_ m).
Proof using Type. intros Hm w r w' (r' & -> & Hr)%try_inv. by eapply Hm. Qed.
Lemma keeps_ignore {A} (m : M W A) : keeps_rel R m → keeps_rel R (ignore m).
Proof using Type. intros Hm w r w' (-> & r' & Hr)%ignore_inv. by eapply Hm. Qed.
Lemma keeps_foldMW {S A} (f : S → A → M W S) s l : (∀ s x, keeps_rel R (f s x)) → keeps_rel R (foldMW f s l).
Proof.
  intros Hf. revert s. induction l as [|x l IH]; intros s; [apply keeps_ret|]. by apply keeps_bind.
Qed.
End keeping.

Section triples.
Context {W A B : Type}.
Implicit Types P : W → Prop.

Lemma triple_ret P (a : A) (Q : res A → W → Prop) : (∀ w, P w → Q (Ok a) w) → triple P (mret a) Q.
Proof. intros HQ w r w' HP. unfold mret, M_ret. intros [= <- <-]. auto. Qed.

Lemma triple_throw P e (Q : res A → W → Prop) : (∀ w, P w → Q (Err e) w) → triple P (throw e) Q.
Proof. intros HQ w r w' HP. unfold throw. intros [= <- <-]. auto. Qed.

Lemma triple_bind P (R : A → W → Prop) (Q : res B → W → Prop) (m : M W A) (f : A → M W B) :
  triple P m (λ r w, match r with Ok a => R a w | Err e => Q (Err e) w end) →
  (∀ a, triple (R a) (f a) Q) → triple P (m ≫= f) Q.
Proof.
  intros Hm Hf w r w' HP [(a & w1 & Hc & Hr)|(e & Hc & ->)]%bind_inv.
  - eapply Hf; [|done]. by apply (Hm w (Ok a)).
  - by apply (Hm w (Err e)).
Qed.

Lemma triple_conseq P P' (Q Q' : res A → W → Prop) (m : M W A) :
  triple P' m Q' → (∀ w, P w → P' w) → (∀ r w, Q' r w → Q r w) → triple P m Q.
Proof. intros Hm HP HQ w r w' ??. eauto. Qed.

End triples.

(** Closes the precondition side of [triple_conseq], instantiating evars. *)
Ltac same_pre := let w := fresh in let Hw := fresh in intros w Hw; exact Hw.

(** A loop with an accumulator keeps an invariant on the part already visited. *)
Lemma triple_foldMW {W A S} (I : list A → S → W → Prop) (Q : gerr → W → Prop) (f : S → A → M W S) l s :
  (∀ pre x s, x ∈ l → triple (I pre s) (f s x)
     (λ r w, match r with Ok s' => I (pre ++ [x]) s' w | Err e => Q e w end)) →
  triple (I [] s) (foldMW f s l) (λ r w, match r with Ok s' => I l s' w | Err e => Q e w end).
Proof.
  intros Hf. assert (∀ pre s, triple (I pre s) (foldMW f s l)
    (λ r w, match r with Ok s' => I (pre ++ l) s' w | Err e => Q e w end)) as Hgen; [|apply Hgen].
  clear s. induction l as [|x l IH]; intros pre s; simpl.
  - apply triple_ret. intros w. by rewrite app_nil_r.
  - apply (triple_bind _ (I (pre ++ [x]))).
    + intros w r w' HI Hr. pose proof (Hf pre x s (list_elem_of_here x l) w r w' HI Hr).
      by destruct r.
    + intros s'. eapply triple_conseq; [apply IH|done|].
      * intros. apply Hf. by right.
      * intros [s''|e] w; [|done]. by rewrite <- app_assoc.
Qed.

Create HintDb doorman.
#[export] Hint Resolve elem_of_range NoDup_range_keys : doorman.
#[export] Hint Rewrite @elem_of_range @list_to_map_range : doorman.
