(* ===== verification/Threads.v ===== *)
(** * Code as a sequence of atomic calls

    A [prog] is a computation cut into the calls it makes: between two of them
    other threads may run. [Steps m] is such a cut of the computation [m] of the
    model, derived from its definition, and the law of the class says that
    the calls one after the other are [m]. [safe] is a rely-guarantee logic:
    whatever the other threads do within [R] between the calls, each call stays
    within [G], and the results meet [Q]; assertions speak of the history. *)
From S2P Require Import Prelude.
From stdpp Require Import options.

(** ** Programs *)
Inductive prog (W A : Type) : Type :=
  | Ret (r : res A)
  | Do {X} (m : M W X) (k : res X → prog W A).
Arguments Ret {W A} r.
Arguments Do {W A X} m k.

Section programs.
  Context {W : Type}.

Fixpoint pbind {A B} (p : prog W A) (f : A → prog W B) : prog W B :=
  match p with
  | Ret (Ok a) => f a
  | Ret (Err e) => Ret (Err e)
  | Do m k => Do m (λ x, pbind (k x) f)
  end.
Fixpoint ptry {A} (p : prog W A) : prog W (res A) :=
  match p with
  | Ret r => Ret (Ok r)
  | Do m k => Do m (λ x, ptry (k x))
  end.
(** All calls of a program in a row. *)
Fixpoint alone {A} (p : prog W A) (w : W) : res A * W :=
  match p with
  | Ret r => (r, w)
  | Do m k => let '(x, w') := m w in alone (k x) w'
  end.

Lemma alone_bind {A B} (p : prog W A) (f : A → prog W B) w :
  alone (pbind p f) w = match alone p w with (Ok a, w') => alone (f a) w' | (Err e, w') => (Err e, w') end.
Proof.
  revert w. induction p as [[a|e]|X m k IH]; intros w; simpl; [done..|]. destruct (m w) as [x w']. apply IH.
Qed.
Lemma alone_try {A} (p : prog W A) w : alone (ptry p) w = try_ (alone p) w.
Proof.
  revert w. induction p as [r|X m k IH]; intros w; [done|]. simpl. unfold try_ in *. simpl.
  destruct (m w) as [x w']. apply IH.
Qed.
End programs.

(** ** The cut of a computation *)
Class Steps {W A} (m : M W A) : Type := { steps : prog W A; steps_alone w : alone steps w = m w }.
Arguments steps {W A} m {_}.
Arguments steps_alone {W A} m {_} w.

Section cuts.
  Context {W : Type}.

(** One call. *)
Program Definition one_call {A} (m : M W A) : Steps m := {| steps := Do m Ret |}.
Next Obligation. intros A m w. simpl. by destruct (m w). Qed.

#[export] Program Instance steps_ret {A} (a : A) : Steps (W := W) (mret a) := {| steps := Ret (Ok a) |}.
Next Obligation. done. Qed.
#[export] Program Instance steps_throw {A} e : Steps (W := W) (throw (A := A) e) := {| steps := Ret (Err e) |}.
Next Obligation. done. Qed.
#[export] Program Instance steps_bind {A B} (m : M W A) (f : A → M W B) `{!Steps m} `{!∀ a, Steps (f a)} : Steps (m ≫= f) :=
  {| steps := pbind (steps m) (λ a, steps (f a)) |}.
Next Obligation.
  intros A B m f Hm Hf w. rewrite alone_bind, (steps_alone m). unfold mbind, M_bind.
  destruct (m w) as [[a|e] w']; [|done]. apply (steps_alone (f a)).
Qed.
#[export] Program Instance steps_try {A} (m : M W A) `{!Steps m} : Steps (try_ m) := {| steps := ptry (steps m) |}.
Next Obligation. intros A m Hm w. rewrite alone_try. unfold try_. by rewrite (steps_alone m). Qed.
End cuts.

(** Cuts a definition at its binds; the branches of a case are cut each. *)
Ltac cut_steps :=
  repeat first
    [ apply _
    | progress cbv zeta
    | apply steps_bind; [|intros ?]
    | apply steps_try
    | lazymatch goal with |- Steps (match ?x with _ => _ end) => destruct x end ].

(** ** Histories *)

(** The present state and the earlier ones, the latest first. *)
Definition history (W : Type) : Type := W * list W.
Definition now {W} (h : history W) : W := h.1.
Definition push {W} (w : W) (h : history W) : history W := (w, now h :: h.2).
Definition seen {W} (h : history W) (w : W) : Prop := w = now h ∨ w ∈ h.2.

Lemma seen_push {W} (w w1 : W) h : seen (push w h) w1 ↔ w1 = w ∨ seen h w1.
Proof. unfold seen, push, now. simpl. rewrite elem_of_cons. tauto. Qed.

Section rely_guarantee.
  Context {W : Type} (R : W → W → Prop) (G : history W → W → Prop).

(** The other threads move on. *)
Definition others_step (h h' : history W) : Prop := ∃ w, R (now h) w ∧ h' = push w h.
Definition others : history W → history W → Prop := rtc others_step.

Fixpoint safe {A} (Q : res A → history W → Prop) (p : prog W A) (h : history W) : Prop :=
  match p with
  | Ret r => ∀ h', others h h' → Q r h'
  | Do m k => ∀ h' x w, others h h' → m (now h') = (x, w) → G h' w ∧ safe Q (k x) (push w h')
  end.

(** An assertion that the other threads keep. *)
Definition stable (P : history W → Prop) : Prop := ∀ h h', others h h' → P h → P h'.
Lemma stable_step P : (∀ h w, R (now h) w → P h → P (push w h)) → stable P.
Proof. intros Hs h h' Ho. induction Ho as [|h1 h2 h3 (w & Hw & ->) _ IH]; [done|]. intros HP. by apply IH, Hs. Qed.

Lemma safe_others {A} Q (p : prog W A) h h' : others h h' → safe Q p h → safe Q p h'.
Proof.
  destruct p as [r|X m k]; simpl.
  - intros Ho Hs h2 Ho2. apply Hs. by etrans.
  - intros Ho Hs h2 x w Ho2. apply Hs. by etrans.
Qed.
Lemma safe_mono {A} (Q Q' : res A → history W → Prop) p h : (∀ r h', Q r h' → Q' r h') → safe Q p h → safe Q' p h.
Proof.
  intros HQ. revert h. induction p as [r|X m k IH]; intros h; simpl; [by eauto|].
  intros Hs h' x w Ho Hm. destruct (Hs h' x w Ho Hm) as [? ?]. split; [done|]. by apply IH.
Qed.
Lemma safe_pbind {A B} Q (p : prog W A) (f : A → prog W B) h :
  safe (λ r h', match r with Ok a => safe Q (f a) h' | Err e => Q (Err e) h' end) p h → safe Q (pbind p f) h.
Proof.
  revert h. induction p as [[a|e]|X m k IH]; intros h Hs; simpl in *.
  - apply Hs, rtc_refl.
  - done.
  - intros h' x w Ho Hm. destruct (Hs h' x w Ho Hm) as [? ?]. split; [done|]. by apply IH.
Qed.
Lemma safe_ptry {A} Q (p : prog W A) h : safe (λ r, Q (Ok r)) p h → safe Q (ptry p) h.
Proof.
  revert h. induction p as [r|X m k IH]; intros h Hs; simpl in *; [done|].
  intros h' x w Ho Hm. destruct (Hs h' x w Ho Hm) as [? ?]. split; [done|]. by apply IH.
Qed.

(** The rules on computations; [sound m P Q] assumes [P] of the history. *)
Definition sound {A} (P : history W → Prop) (m : M W A) {cut : Steps m} (Q : res A → history W → Prop) : Prop :=
  ∀ h, P h → safe Q (steps m) h.

Lemma sound_pre {A} (P P' : history W → Prop) (m : M W A) `{!Steps m} Q :
  (∀ h, P h → P' h) → sound P' m Q → sound P m Q.
Proof. intros HP Hs h Hh. by apply Hs, HP. Qed.
Lemma sound_post {A} P (m : M W A) `{!Steps m} Q Q' : sound P m Q' → (∀ r h, Q' r h → Q r h) → sound P m Q.
Proof. intros Hs HQ h Hh. eapply safe_mono; [exact HQ|by apply Hs]. Qed.
Lemma sound_ret {A} P (a : A) Q : stable P → (∀ h, P h → Q (Ok a) h) → sound P (mret a) Q.
Proof. intros HP HQ h Hh h' Ho. by eapply HQ, HP. Qed.
Lemma sound_throw {A} P e (Q : res A → history W → Prop) : stable P → (∀ h, P h → Q (Err e) h) → sound P (throw e) Q.
Proof. intros HP HQ h Hh h' Ho. by eapply HQ, HP. Qed.
Lemma sound_bind {A B} P P' Q (m : M W A) (f : A → M W B) `{!Steps m} `{!∀ a, Steps (f a)} :
  sound P m (λ r h, match r with Ok a => P' a h | Err e => Q (Err e) h end) → (∀ a, sound (P' a) (f a) Q) →
  sound P (m ≫= f) Q.
Proof.
  intros Hm Hf h Hh. simpl. apply safe_pbind. eapply safe_mono; [|by apply Hm]. intros [a|e] h'; [apply Hf|done].
Qed.
Lemma sound_try {A} P P' (m : M W A) `{!Steps m} : sound P m P' → sound P (try_ m) (λ r h, match r with Ok r => P' r h | Err _ => False end).
Proof. intros Hm h Hh. simpl. apply safe_ptry. by apply Hm. Qed.
Lemma sound_bind_try {A B} P P' Q (m : M W A) (f : res A → M W B) `{!Steps m} `{!∀ r, Steps (f r)} :
  sound P m P' → (∀ r, sound (P' r) (f r) Q) → sound P (try_ m ≫= f) Q.
Proof.
  intros Hm Hf. apply sound_bind with (P' := P'); [|done].
  eapply sound_post; [by apply sound_try|]. by intros [r|e] h.
Qed.
(** One call, from an assertion the others keep. *)
Lemma sound_call {A} P (m : M W A) (Q : res A → history W → Prop) :
  stable P → (∀ x, stable (Q x)) → (∀ h x w, P h → m (now h) = (x, w) → G h w ∧ Q x (push w h)) →
  sound P m (cut := one_call m) Q.
Proof.
  intros HP HQ Hm h Hh h' x w Ho Hr. destruct (Hm h' x w) as [? ?]; [by eapply HP|done|]. split; [done|].
  intros h2 Ho2. by eapply HQ.
Qed.
End rely_guarantee.
