(* ===== verification/GoStd.v ===== *)
(** * The parts of Go's standard library the program uses

    [strconv] (Atoi, ParseBool, Itoa), [strings] (TrimSpace, ToLower,
    TrimSuffix, ContainsAny, Split), [sort.Strings], [encoding/hex],
    [regexp] (anchored patterns) and [time.ParseDuration].  A Go string is the
    [string] of its bytes; an [int] and a [time.Duration] are the [Z] of a
    64-bit word, the overflow checks of the library written out. *)
From S2P Require Import Prelude.
From stdpp Require Export pretty.
From Stdlib Require Import SpecFloat.
From Stdlib Require Export Ascii.
From stdpp Require Import options.

Definition int64_min : Z := - 2 ^ 63.
Definition int64_max : Z := 2 ^ 63 - 1.

(** ** Bytes *)
Abbreviation chars := String.list_ascii_of_string.
Abbreviation of_chars := String.string_of_list_ascii.
Definition code (c : ascii) : Z := Z.of_N (N_of_ascii c).
Definition byte (n : Z) : ascii := ascii_of_N (Z.to_N n).
Definition is_digit (c : ascii) : bool := (48 <=? code c)%Z && (code c <=? 57)%Z.
Definition digit (c : ascii) : Z := code c - 48.

(** ** Substrings *)
Fixpoint strip_prefix (p s : string) : option string :=
  match p, s with
  | EmptyString, _ => Some s
  | String a p, String b s => if decide (a = b) then strip_prefix p s else None
  | _, _ => None
  end.

Definition rev_string (s : string) : string :=
  of_chars (reverse (chars s)).

(** [strings.TrimSuffix]. *)
Definition TrimSuffix (s suffix : string) : string :=
  match strip_prefix (rev_string suffix) (rev_string s) with
  | Some r => rev_string r
  | None => s
  end.

(** [strings.ContainsAny] for a set of ASCII characters. *)
Fixpoint ContainsAny (s set : string) : bool :=
  match s with
  | EmptyString => false
  | String c s => bool_decide (c ∈ chars set) || ContainsAny s set
  end.

(** [strings.Split] on a one-byte separator. *)
Fixpoint Split (sep : ascii) (s : string) : list string :=
  match s with
  | EmptyString => [""]
  | String c s =>
      if decide (c = sep) then "" :: Split sep s
      else match Split sep s with
           | [] => [String c ""]
           | w :: ws => String c w :: ws
           end
  end.

(** The UTF-8 encodings of the characters [unicode.IsSpace] accepts. *)
Definition bytes (l : list Z) : string := of_chars (byte <$> l).
Definition spaces : list string :=
  ((λ n : Z, bytes [n]%Z) <$> [9; 10; 11; 12; 13; 32]%Z) ++
  ((λ n : Z, bytes [194; n]%Z) <$> [133; 160]%Z) ++
  [bytes [225; 154; 128]%Z] ++
  ((λ n : Z, bytes [226; 128; n]%Z) <$> [128; 129; 130; 131; 132; 133; 134; 135; 136; 137; 138; 168; 169; 175]%Z) ++
  [bytes [226; 129; 159]%Z; bytes [227; 128; 128]%Z].

(** Drop the leading occurrences of the words [ws]; [fuel] bounds their number
    and the length of [s] is always enough. *)
Fixpoint trim_words (fuel : nat) (ws : list string) (s : string) : string :=
  match fuel with
  | 0 => s
  | S fuel =>
      match list_find (λ w, is_Some (strip_prefix w s)) ws with
      | Some (_, w) => trim_words fuel ws (default s (strip_prefix w s))
      | None => s
      end
  end.

(** [strings.TrimSpace]. *)
Definition TrimSpace (s : string) : string :=
  let l := trim_words (String.length s) spaces s in
  rev_string (trim_words (String.length l) (rev_string <$> spaces) (rev_string l)).

(** [strings.ToLower] on ASCII letters; the other bytes are kept.  The only use
    is in front of a pattern over digits and [mshd], to which no letter outside
    ASCII lowers. *)
Definition lower (c : ascii) : ascii :=
  if (65 <=? code c)%Z && (code c <=? 90)%Z then byte (code c + 32) else c.
Definition ToLower (s : string) : string :=
  of_chars (lower <$> chars s).

(** ** strconv *)
Fixpoint parse_digits (acc : Z) (s : string) : option Z :=
  match s with
  | EmptyString => Some acc
  | String c s => if is_digit c then parse_digits (10 * acc + digit c) s else None
  end.

Definition check_int64 (n : Z) : option Z :=
  if decide (int64_min ≤ n ≤ int64_max)%Z then Some n else None.

(** [strconv.Atoi]: an optional sign, at least one digit, in the 64-bit range. *)
Definition Atoi (s : string) : option Z :=
  let '(neg, ds) :=
    match s with
    | String "-" s => (true, s)
    | String "+" s => (false, s)
    | _ => (false, s)
    end in
  match ds with
  | EmptyString => None
  | _ => n ← parse_digits 0 ds; check_int64 (if neg : bool then - n else n)%Z
  end.

Definition Itoa (n : Z) : string := pretty n.

(** [strconv.ParseBool]. *)
Definition ParseBool (s : string) : option bool :=
  if decide (s ∈ ["1"; "t"; "T"; "TRUE"; "true"; "True"]) then Some true
  else if decide (s ∈ ["0"; "f"; "F"; "FALSE"; "false"; "False"]) then Some false
  else None.

(** ** sort.Strings *)
Definition sort_strings (l : list string) : list string := merge_sort String.le l.

(** ** encoding/hex *)
Definition hex_digit (n : Z) : ascii := if (n <? 10)%Z then byte (48 + n) else byte (87 + n).
Definition hex_byte (n : Z) : string :=
  String (hex_digit (n / 16)) (String (hex_digit (n mod 16)) "").
Definition EncodeToString (l : list Z) : string := String.concat "" (hex_byte <$> l).

(** ** Lemmas on strings *)
Lemma app_String c s t : String c s +:+ t = String c (s +:+ t).
Proof. done. Qed.
Lemma app_empty_l t : "" +:+ t = t.
Proof. done. Qed.
Lemma app_empty_r s : s +:+ "" = s.
Proof. induction s as [|c s IH]; [done|]. by rewrite app_String, IH. Qed.
Lemma app_string_assoc s t u : (s +:+ t) +:+ u = s +:+ t +:+ u.
Proof. induction s as [|c s IH]; [done|]. by rewrite !app_String, IH. Qed.
Lemma str_length_app s t : String.length (s +:+ t) = String.length s + String.length t.
Proof. induction s as [|c s IH]; [done|]. rewrite app_String. simpl. by rewrite IH. Qed.
Lemma chars_app s t : chars (s +:+ t) = chars s ++ chars t.
Proof. induction s as [|c s IH]; [done|]. rewrite app_String. simpl. by rewrite IH. Qed.
Lemma app_string_inj_r s1 s2 t : s1 +:+ t = s2 +:+ t → s1 = s2.
Proof.
  intros H. apply (f_equal chars) in H. rewrite !chars_app in H.
  apply (inj (.++ chars t)) in H. apply (f_equal of_chars) in H.
  by rewrite !String.string_of_list_ascii_of_string in H.
Qed.

(** [sort.Strings] returns a sorted permutation, hence the same list for every
    order of its input. *)
Lemma sort_strings_perm l : sort_strings l ≡ₚ l.
Proof. apply merge_sort_Permutation. Qed.
Lemma sort_strings_proper l l' : l ≡ₚ l' → sort_strings l = sort_strings l'.
Proof.
  intros Hl. apply (StronglySorted_unique String.le).
  - apply StronglySorted_merge_sort; apply _.
  - apply StronglySorted_merge_sort; apply _.
  - unfold sort_strings. by rewrite !merge_sort_Permutation.
Qed.

Lemma EncodeToString_nonempty l : l ≠ [] → EncodeToString l ≠ "".
Proof. by destruct l as [|x [|y l]]. Qed.

Lemma strip_prefix_spec p s r : strip_prefix p s = Some r ↔ s = p +:+ r.
Proof.
  revert s. induction p as [|c p IH]; intros s; [rewrite app_empty_l; simpl; split; congruence|].
  rewrite app_String. destruct s as [|d s]; simpl; [done|].
  case_decide as Hc; [rewrite IH; subst; split; congruence|]. split; [done|]. by intros [= -> _].
Qed.
#[export] Instance append_inj s : Inj (=) (=) (String.append s).
Proof. induction s as [|c s IH]; intros t u; [done|]. rewrite !app_String. by intros [= ?%IH]. Qed.

Lemma str_concat_cons x l : String.concat "" (x :: l) = x +:+ String.concat "" l.
Proof. destruct l; simpl; [by rewrite app_empty_r|done]. Qed.
