(* ===== verification/Regexp.v ===== *)
(** * Anchored regular expressions ([regexp.MatchString] of [^r$])

    Patterns as syntax trees, an executable matcher by derivatives, the
    language of a pattern as an inductive predicate and the proof that the
    matcher decides it. *)
From S2P Require Import Prelude GoStd.
From stdpp Require Import options.

Inductive re : Type :=
  | RVoid
  | REps
  | RSet (p : ascii → bool)
  | RCat (r1 r2 : re)
  | RAlt (r1 r2 : re)
  | RStar (r : re).

Definition RPlus (r : re) : re := RCat r (RStar r).
Definition ROpt (r : re) : re := RAlt r REps.
Fixpoint RWord (w : string) : re :=
  match w with
  | EmptyString => REps
  | String a w => RCat (RSet (λ c, bool_decide (c = a))) (RWord w)
  end.

Fixpoint nullable (r : re) : bool :=
  match r with
  | RVoid | RSet _ => false
  | REps | RStar _ => true
  | RCat r1 r2 => nullable r1 && nullable r2
  | RAlt r1 r2 => nullable r1 || nullable r2
  end.

Fixpoint deriv (c : ascii) (r : re) : re :=
  match r with
  | RVoid | REps => RVoid
  | RSet p => if p c then REps else RVoid
  | RCat r1 r2 =>
      let d := RCat (deriv c r1) r2 in
      if nullable r1 then RAlt d (deriv c r2) else d
  | RAlt r1 r2 => RAlt (deriv c r1) (deriv c r2)
  | RStar r => RCat (deriv c r) (RStar r)
  end.

Fixpoint MatchString (r : re) (s : string) : bool :=
  match s with
  | EmptyString => nullable r
  | String c s => MatchString (deriv c r) s
  end.

(** ** The language of a pattern *)
Inductive re_in : re → string → Prop :=
  | in_eps : re_in REps ""
  | in_set p c : p c = true → re_in (RSet p) (String c "")
  | in_cat r1 r2 s1 s2 : re_in r1 s1 → re_in r2 s2 → re_in (RCat r1 r2) (s1 +:+ s2)
  | in_alt_l r1 r2 s : re_in r1 s → re_in (RAlt r1 r2) s
  | in_alt_r r1 r2 s : re_in r2 s → re_in (RAlt r1 r2) s
  | in_star_nil r : re_in (RStar r) ""
  | in_star_cons r c s1 s2 :
      re_in r (String c s1) → re_in (RStar r) s2 → re_in (RStar r) (String c (s1 +:+ s2)).
#[local] Hint Constructors re_in : core.

Lemma in_cat_eq r1 r2 s1 s2 s : re_in r1 s1 → re_in r2 s2 → s = s1 +:+ s2 → re_in (RCat r1 r2) s.
Proof. intros ?? ->. auto. Qed.
Lemma in_star_eq r c s1 s2 s :
  re_in r (String c s1) → re_in (RStar r) s2 → s = s1 +:+ s2 → re_in (RStar r) (String c s).
Proof. intros ?? ->. auto. Qed.

Lemma nullable_spec r : nullable r = true ↔ re_in r "".
Proof.
  split.
  - induction r; simpl; intros H; try done; auto.
    + apply andb_true_iff in H as [??]. by eapply in_cat_eq; eauto.
    + apply orb_true_iff in H as [?|?]; auto.
  - intros H. remember "" as s eqn:Hs. revert Hs.
    induction H as [| |r1 r2 s1 s2 _ IH1 _ IH2| | | |]; simpl; intros; simplify_eq; try done.
    + destruct s1; simplify_eq/=. by rewrite IH1, IH2.
    + by rewrite IHre_in.
    + rewrite IHre_in by done. apply orb_true_r.
Qed.

Lemma deriv_sound r c s : re_in (deriv c r) s → re_in r (String c s).
Proof.
  revert s. induction r as [| |p|r1 IH1 r2 IH2|r1 IH1 r2 IH2|r IH]; simpl; intros s H.
  - inversion H.
  - inversion H.
  - destruct (p c) eqn:Hp; inversion H; subst. auto.
  - assert (re_in (RCat (deriv c r1) r2) s → re_in (RCat r1 r2) (String c s)) as Hcat.
    { inversion 1; subst. eapply in_cat_eq; eauto. }
    destruct (nullable r1) eqn:Hn; [|auto].
    inversion H; subst; auto.
    eapply (in_cat_eq _ _ ""); eauto. by apply nullable_spec.
  - inversion H; subst; auto.
  - inversion H; subst. eapply in_star_eq; eauto.
Qed.

Lemma deriv_complete r c s : re_in r (String c s) → re_in (deriv c r) s.
Proof.
  intros H. remember (String c s) as t eqn:Ht. revert s Ht.
  induction H as [|p a Hp|r1 r2 s1 s2 H1 IH1 H2 IH2|r1 r2 s1 H1 IH1|r1 r2 s1 H1 IH1|
    |r a s1 s2 H1 IH1 H2 IH2]; intros s Ht; simplify_eq/=; auto.
  - rewrite Hp. auto.
  - destruct s1 as [|a s1].
    + apply nullable_spec in H1 as ->. apply in_alt_r. by apply IH2.
    + injection Ht as -> <-. assert (re_in (RCat (deriv c r1) r2) (s1 +:+ s2)) by auto.
      destruct (nullable r1); auto.
Qed.

(** The matcher decides membership in the language. *)
Lemma MatchString_spec r s : MatchString r s = true ↔ re_in r s.
Proof.
  revert r. induction s as [|c s IH]; intros r; simpl; [apply nullable_spec|].
  rewrite IH. split; [apply deriv_sound|apply deriv_complete].
Qed.

(** ** Languages of the derived forms *)
Lemma re_in_word w s : re_in (RWord w) s ↔ s = w.
Proof.
  revert s. induction w as [|a w IH]; intros s; simpl.
  - split; [by inversion 1|intros ->; auto].
  - split.
    + inversion 1 as [| |???? Hc Hw| | | |]; subst. apply IH in Hw as ->.
      inversion Hc as [|?? Heq| | | | |]; subst. by apply bool_decide_eq_true in Heq as ->.
    + intros ->. apply (in_cat_eq _ _ (String a "") w); [|by apply IH|done].
      apply in_set. by apply bool_decide_eq_true_2.
Qed.

Lemma re_in_alt r1 r2 s : re_in (RAlt r1 r2) s ↔ re_in r1 s ∨ re_in r2 s.
Proof. split; [inversion 1; subst; auto|intros [?|?]; auto]. Qed.

Lemma re_in_cat r1 r2 s :
  re_in (RCat r1 r2) s ↔ ∃ s1 s2, s = s1 +:+ s2 ∧ re_in r1 s1 ∧ re_in r2 s2.
Proof. split; [inversion 1; subst; eauto|intros (?&?&->&?&?); auto]. Qed.

Lemma re_in_eps s : re_in REps s ↔ s = "".
Proof. split; [by inversion 1|intros ->; auto]. Qed.

(** [p*] is the strings all of whose bytes satisfy [p]. *)
Lemma re_in_star_set p s :
  re_in (RStar (RSet p)) s ↔ Forall (λ c, p c = true) (chars s).
Proof.
  split.
  - intros H. remember (RStar (RSet p)) as r eqn:Hr. revert Hr.
    induction H as [| | | | | |r c s1 s2 H1 _ _ IH2]; intros; simplify_eq/=; [constructor|].
    inversion H1; subst. constructor; auto.
  - induction s as [|c s IH]; simpl; intros Hs; [auto|].
    apply Forall_cons in Hs as [??]. eapply (in_star_eq _ _ "" s); auto.
Qed.
