(* ===== verification/GoTime.v ===== *)
(** * [time.ParseDuration]

    The library function, its 64-bit overflow checks and its binary64
    arithmetic on fractions included, and its value on the digits-and-suffix
    strings the program's duration pattern accepts. *)
From S2P Require Import Prelude GoStd.
From Stdlib Require Import SpecFloat.
From stdpp Require Import options.
Open Scope Z_scope.

Definition Nanosecond : Z := 1.
Definition Microsecond : Z := 1000.
Definition Millisecond : Z := 1000000.
Definition Second : Z := 1000000000.
Definition Minute : Z := 60 * Second.
Definition Hour : Z := 60 * Minute.

(** ** binary64 arithmetic, for fractions of a unit *)
Definition float_of (n : Z) : spec_float := binary_normalize 53 1024 n 0 false.
Definition float_mul := SFmul 53 1024.
Definition float_div := SFdiv 53 1024.
(** Conversion to an unsigned integer truncates. *)
Definition uint_of (f : spec_float) : Z :=
  match f with
  | S754_finite _ m e => Z.shiftl (Zpos m) e
  | _ => 0
  end.

(** [leadingInt]: [None] on overflow, else the value and the rest. *)
Fixpoint leadingInt (x : Z) (s : string) : option (Z * string) :=
  match s with
  | EmptyString => Some (x, "")
  | String c s' =>
      if is_digit c then
        if (2 ^ 63 / 10 <? x) then None
        else let x := x * 10 + digit c in
             if 2 ^ 63 <? x then None else leadingInt x s'
      else Some (x, s)
  end.

(** [leadingFraction]: once a digit overflows, the following ones are skipped. *)
Fixpoint leadingFraction (x : Z) (scale : spec_float) (overflow : bool) (s : string)
    : Z * spec_float * string :=
  match s with
  | EmptyString => (x, scale, "")
  | String c s' =>
      if is_digit c then
        if overflow || (int64_max / 10 <? x) then leadingFraction x scale true s'
        else let y := x * 10 + digit c in
             if 2 ^ 63 <? y then leadingFraction x scale true s'
             else leadingFraction y (float_mul scale (float_of 10)) false s'
      else (x, scale, s)
  end.

(** The unit is everything up to the next digit or dot. *)
Fixpoint take_unit (s : string) : string * string :=
  match s with
  | EmptyString => ("", "")
  | String c s' =>
      if bool_decide (c = "."%char) || is_digit c then ("", s)
      else let '(u, r) := take_unit s' in (String c u, r)
  end.

Definition unitMap (u : string) : option Z :=
  if decide (u = "ns") then Some Nanosecond
  else if decide (u = "us") then Some Microsecond
  else if decide (u = bytes [194; 181; 115]) then Some Microsecond
  else if decide (u = bytes [206; 188; 115]) then Some Microsecond
  else if decide (u = "ms") then Some Millisecond
  else if decide (u = "s") then Some Second
  else if decide (u = "m") then Some Minute
  else if decide (u = "h") then Some Hour
  else None.

(** The loop over [number unit] groups; [fuel] above the length is enough. *)
Fixpoint parse_groups (fuel : nat) (d : Z) (s : string) : option Z :=
  match fuel, s with
  | _, EmptyString => Some d
  | O, _ => None
  | S fuel, String c _ =>
      if negb (bool_decide (c = "."%char) || is_digit c) then None else
      '(v, s1) ← leadingInt 0 s;
      let pre := bool_decide (s1 ≠ s) in
      let '(f, scale, s2, post) :=
        match s1 with
        | String "." s' =>
            let '(f, scale, r) := leadingFraction 0 (float_of 1) false s' in
            (f, scale, r, bool_decide (r ≠ s'))
        | _ => (0, float_of 1, s1, false)
        end in
      if negb (pre || post) then None else
      let '(u, s3) := take_unit s2 in
      if decide (u = "") then None else
      unit ← unitMap u;
      if 2 ^ 63 / unit <? v then None else
      let v := v * unit in
      let v := if 0 <? f
               then v + uint_of (float_mul (float_of f) (float_div (float_of unit) scale))
               else v in
      if (0 <? f) && (2 ^ 63 <? v) then None else
      let d := d + v in
      if 2 ^ 63 <? d then None else parse_groups fuel d s3
  end.

Definition ParseDuration (s : string) : option Z :=
  let '(neg, s) :=
    match s with
    | String "-" s => (true, s)
    | String "+" s => (false, s)
    | _ => (false, s)
    end in
  if decide (s = "0") then Some 0
  else if decide (s = "") then None
  else
    d ← parse_groups (String.length s) 0 s;
    if (neg : bool) then Some (- d)
    else if int64_max <? d then None else Some d.

(** ** Digits followed by a suffix *)
Definition all_digits (s : string) : Prop := Forall (λ c, is_digit c = true) (chars s).
Definition no_digit_or_dot (s : string) : Prop :=
  Forall (λ c, c ≠ "."%char ∧ is_digit c = false) (chars s).
#[export] Instance all_digits_dec s : Decision (all_digits s).
Proof. apply _. Defined.

(** The value of a digit string. *)
Fixpoint dec_value (x : Z) (s : string) : Z :=
  match s with
  | EmptyString => x
  | String c s => dec_value (x * 10 + digit c) s
  end.

Lemma digit_nonneg c : is_digit c = true → 0 ≤ digit c ≤ 9.
Proof. unfold is_digit, digit. intros [??]%andb_true_iff. lia. Qed.

Lemma dec_value_ge x s : 0 ≤ x → all_digits s → x ≤ dec_value x s.
Proof.
  unfold all_digits. revert x. induction s as [|c s IH]; simpl; intros x Hx Hs; [lia|].
  apply Forall_cons in Hs as [Hc%digit_nonneg Hs]. specialize (IH (x * 10 + digit c) ltac:(lia) Hs). lia.
Qed.

(** Reading all the digits gives their value, or an overflow above [2^63]. *)
Lemma leadingInt_digits x ds u :
  0 ≤ x → all_digits ds → no_digit_or_dot u →
  leadingInt x (ds +:+ u) =
    if decide (ds ≠ "" ∧ 2 ^ 63 < dec_value x ds) then None else Some (dec_value x ds, u).
Proof.
  intros Hx Hds Hu. revert x Hx Hds.
  induction ds as [|c ds IH]; intros x Hx Hds.
  - rewrite app_empty_l. case_decide; [naive_solver|].
    destruct u as [|a u]; simpl; [done|].
    inversion Hu as [|?? [? Ha] ?]; subst. by rewrite Ha.
  - apply Forall_cons in Hds as [Hc Hds]. rewrite app_String. simpl. rewrite Hc.
    apply digit_nonneg in Hc.
    pose proof (dec_value_ge (x * 10 + digit c) ds ltac:(lia) Hds).
    destruct (Z.ltb_spec (2 ^ 63 / 10) x).
    { change (2 ^ 63 / 10) with 922337203685477580 in *.
      rewrite decide_True; [done|]. split; [done|lia]. }
    destruct (Z.ltb_spec (2 ^ 63) (x * 10 + digit c)).
    { rewrite decide_True; [done|]. split; [done|lia]. }
    rewrite IH by (auto; lia).
    destruct ds as [|c' ds]; simpl in *; repeat case_decide; naive_solver lia.
Qed.

Lemma take_unit_all u : no_digit_or_dot u → take_unit u = (u, "").
Proof.
  unfold no_digit_or_dot. induction u as [|c u IH]; simpl; intros Hu; [done|].
  apply Forall_cons in Hu as [[??] ?]. by rewrite bool_decide_eq_false_2, H0, IH.
Qed.

Lemma app_ne_self ds u : ds ≠ "" → u ≠ ds +:+ u.
Proof.
  intros Hds Heq. apply (f_equal String.length) in Heq. revert Heq. rewrite str_length_app.
  destruct ds; simpl; [done|lia].
Qed.

Lemma unitMap_pos u n : unitMap u = Some n → 1 ≤ n.
Proof.
  unfold unitMap, Hour, Minute, Second, Millisecond, Microsecond, Nanosecond.
  repeat case_decide; intros; simplify_eq; lia.
Qed.

Lemma overflow_div v unit : 1 ≤ unit → (2 ^ 63 / unit <? v) = (2 ^ 63 <? v * unit).
Proof.
  intros Hu. apply Bool.eq_iff_eq_true. rewrite !Z.ltb_lt. split; intros H.
  - pose proof (Z.mul_succ_div_gt (2 ^ 63) unit ltac:(lia)). nia.
  - apply Z.div_lt_upper_bound; lia.
Qed.

(** The sign test of [ParseDuration] does not fire on a digit. *)
Lemma sign_digit {A} c (s : string) (a b d : A) :
  is_digit c = true →
  match String c s with String "-" _ => a | String "+" _ => b | _ => d end = d.
Proof. by destruct c as [[] [] [] [] [] [] [] []]. Qed.

Lemma dot_unit {A} u (f : string → A) (d : A) :
  no_digit_or_dot u → match u with String "." s => f s | _ => d end = d.
Proof.
  destruct u as [|c u]; [done|]. intros [[Hc _] _]%Forall_cons.
  by destruct c as [[] [] [] [] [] [] [] []].
Qed.

(** A digit string followed by a unit: the product when it fits, else nothing. *)
Definition group_value (ds u : string) : option Z :=
  if decide (u = "") then None else
  unit ← unitMap u;
  if decide (dec_value 0 ds * unit ≤ int64_max) then Some (dec_value 0 ds * unit) else None.

Lemma parse_groups_digits fuel ds u :
  ds ≠ "" → all_digits ds → no_digit_or_dot u →
  (d ← parse_groups (S fuel) 0 (ds +:+ u); if int64_max <? d then None else Some d)
  = group_value ds u.
Proof.
  intros Hne Hds Hu.
  destruct ds as [|c ds]; [done|]. rewrite app_String. cbn [parse_groups].
  pose proof Hds as [Hc _]%Forall_cons. rewrite Hc, orb_true_r. cbn [negb].
  rewrite <- app_String, leadingInt_digits by (auto; lia).
  pose proof (dec_value_ge 0 (String c ds) ltac:(lia) Hds) as Hge.
  unfold group_value. set (v := dec_value 0 (String c ds)) in *.
  assert (2 ^ 63 = int64_max + 1) as Hmax by done.
  case_decide as Hov.
  { simpl. repeat case_decide; try done. destruct (unitMap u) as [n|] eqn:Hn; [|done].
    apply unitMap_pos in Hn. simpl. rewrite decide_False; [done|]. nia. }
  cbn [mbind option_bind].
  rewrite (dot_unit u (λ s', let '(f, scale, r) := leadingFraction 0 (float_of 1) false s' in
    (f, scale, r, bool_decide (r ≠ s')))) by done.
  rewrite bool_decide_eq_true_2 by (by apply app_ne_self). cbn [orb negb].
  rewrite take_unit_all by done. case_decide; [done|].
  destruct (unitMap u) as [n|] eqn:Hn; [|done]. apply unitMap_pos in Hn. simpl.
  rewrite overflow_div by done.
  repeat match goal with |- context [?a <? ?b] => destruct (Z.ltb_spec a b); simpl end;
    try case_decide; try done; try lia;
    destruct fuel; simpl; repeat match goal with |- context [?a <? ?b] => destruct (Z.ltb_spec a b); simpl end;
    done || lia.
Qed.

(** Digits and an optional unit, as the duration pattern accepts them. *)
Lemma ParseDuration_digits ds u :
  ds ≠ "" → all_digits ds → no_digit_or_dot u →
  ParseDuration (ds +:+ u) =
    if decide (ds = "0" ∧ u = "") then Some 0 else group_value ds u.
Proof.
  intros Hne Hds Hu. rewrite <- (parse_groups_digits (pred (String.length (ds +:+ u)))) by done.
  destruct ds as [|c ds]; [done|]. pose proof Hds as [Hc _]%Forall_cons.
  unfold ParseDuration. rewrite app_String, (sign_digit c) by done. rewrite <- app_String.
  case_decide as Hz.
  - assert (ds = "" ∧ u = "") as [-> ->].
    { injection Hz as -> Hz. by destruct ds, u. }
    injection Hz as ->. done.
  - rewrite decide_False by done.
    rewrite (decide_False (P := String c ds = "0" ∧ u = "")).
    2: { intros [Heq ->]. by rewrite app_empty_r, Heq in Hz. }
    done.
Qed.

(** The order of magnitude of a unit does not matter without digits: a string
    that starts with neither a sign, a digit nor a dot is rejected. *)
Lemma ParseDuration_no_suffix ds :
  ds ≠ "" → ds ≠ "0" → all_digits ds → ParseDuration ds = None.
Proof.
  intros. rewrite <- (app_empty_r ds), ParseDuration_digits by (done || by constructor).
  rewrite decide_False by naive_solver. done.
Qed.
