(* ===== verification/Sha256.v ===== *)
(** * [crypto/sha256]

    SHA-256 (FIPS 180-4) on byte strings, on 32-bit words kept as [Z] modulo
    [2^32].  The development only uses it as a function from contents to hex
    digests; the published test vectors are checked below. *)
From S2P Require Import Prelude GoStd.
From stdpp Require Import options.
Open Scope Z_scope.

Definition w32 (n : Z) : Z := Z.land n (2 ^ 32 - 1).
Definition add32 (a b : Z) : Z := w32 (a + b).
Definition shr (n x : Z) : Z := Z.shiftr x n.
Definition rotr (n x : Z) : Z := Z.lor (Z.shiftr x n) (w32 (Z.shiftl x (32 - n))).
Definition not32 (x : Z) : Z := 2 ^ 32 - 1 - x.

Definition Ch x y z := Z.lxor (Z.land x y) (Z.land (not32 x) z).
Definition Maj x y z := Z.lxor (Z.land x y) (Z.lxor (Z.land x z) (Z.land y z)).
Definition Sigma0 x := Z.lxor (rotr 2 x) (Z.lxor (rotr 13 x) (rotr 22 x)).
Definition Sigma1 x := Z.lxor (rotr 6 x) (Z.lxor (rotr 11 x) (rotr 25 x)).
Definition sigma0 x := Z.lxor (rotr 7 x) (Z.lxor (rotr 18 x) (shr 3 x)).
Definition sigma1 x := Z.lxor (rotr 17 x) (Z.lxor (rotr 19 x) (shr 10 x)).

(** The constants of the standard, computed from their definition: the first 32
    fractional bits of the cube roots (round constants) and square roots (initial
    state) of the first primes. *)
Definition is_prime (n : Z) : bool :=
  forallb (λ d, negb (n mod Z.of_nat d =? 0)) (seq 2 (Z.to_nat (Z.sqrt n) - 1)).
Definition primes : list Z := filter is_prime (Z.of_nat <$> seq 2 310).

(** The integer cube root below [2^40], bit by bit. *)
Definition cbrt (n : Z) : Z :=
  foldr (λ k r, let t := r + 2 ^ Z.of_nat k in if t * t * t <=? n then t else r) 0 (seq 0 40).

Definition K : list Z := Eval vm_compute in (λ p, w32 (cbrt (p * 2 ^ 96))) <$> take 64 primes.
Definition H0 : list Z := Eval vm_compute in (λ p, w32 (Z.sqrt (p * 2 ^ 64))) <$> take 8 primes.

(** Big-endian bytes of a word, and words of bytes. *)
Fixpoint be_bytes (n : nat) (x : Z) : list Z :=
  match n with
  | O => []
  | S n => Z.land (Z.shiftr x (8 * Z.of_nat n)) 255 :: be_bytes n x
  end.
Fixpoint words (l : list Z) : list Z :=
  match l with
  | a :: b :: c :: d :: l => (a * 2 ^ 24 + b * 2 ^ 16 + c * 2 ^ 8 + d) :: words l
  | _ => []
  end.

Definition pad (m : list Z) : list Z :=
  let n := Z.of_nat (length m) in
  m ++ [128] ++ replicate (Z.to_nat ((55 - n) mod 64)) 0 ++ be_bytes 8 (8 * n).

(** The message schedule, most recent word first. *)
Fixpoint schedule (n : nat) (rw : list Z) : list Z :=
  match n with
  | O => rw
  | S n =>
      let at_ i := default 0 (rw !! i) in
      let w := add32 (add32 (sigma1 (at_ 1%nat)) (at_ 6%nat)) (add32 (sigma0 (at_ 14%nat)) (at_ 15%nat)) in
      schedule n (w :: rw)
  end.

Definition round (st : list Z) (kw : Z * Z) : list Z :=
  match st with
  | [a; b; c; d; e; f; g; h] =>
      let t1 := add32 (add32 (add32 h (Sigma1 e)) (Ch e f g)) (add32 kw.1 kw.2) in
      let t2 := add32 (Sigma0 a) (Maj a b c) in
      [add32 t1 t2; a; b; c; add32 d t1; e; f; g]
  | _ => st
  end.

Definition compress (h : list Z) (block : list Z) : list Z :=
  let w := reverse (schedule 48 (reverse (words block))) in
  zip_with add32 h (foldl round h (zip K w)).

Fixpoint blocks (fuel : nat) (h : list Z) (m : list Z) : list Z :=
  match fuel with
  | O => h
  | S fuel => match m with [] => h | _ => blocks fuel (compress h (take 64 m)) (drop 64 m) end
  end.

(** [sha256.New(); h.Write(s); hex(h.Sum(nil))]. *)
Definition Sum256 (s : string) : string :=
  let m := pad (code <$> chars s) in
  EncodeToString (mjoin (be_bytes 4 <$> blocks (length m) H0 m)).

(** A digest is sixty-four characters. *)
Lemma round_length st kw : length (round st kw) = length st.
Proof. by do 9 (destruct st as [|? st]; try done). Qed.
Lemma blocks_length fuel h m : length h = 8%nat → length (blocks fuel h m) = 8%nat.
Proof.
  revert h m. induction fuel as [|fuel IH]; intros h m Hh; [done|]. destruct m as [|x m]; [done|]. apply IH.
  unfold compress. rewrite length_zip_with.
  assert (∀ l st, length (foldl round st l) = length st) as ->; [|lia].
  intros l. induction l as [|kw l IHl]; intros st; simpl; [done|]. by rewrite IHl, round_length.
Qed.
Lemma EncodeToString_length l : String.length (EncodeToString l) = (2 * length l)%nat.
Proof.
  unfold EncodeToString. induction l as [|n l IH]; [done|]. rewrite fmap_cons, str_concat_cons, str_length_app, IH. simpl. lia.
Qed.
Lemma Sum256_length s : String.length (Sum256 s) = 64%nat.
Proof.
  unfold Sum256. rewrite EncodeToString_length. generalize (pad (code <$> chars s)). intros m.
  assert (∀ l : list Z, length (mjoin (be_bytes 4 <$> l)) = (4 * length l)%nat) as ->.
  { intros l. induction l as [|x l IH]; [done|].
    change (length (be_bytes 4 x ++ mjoin (be_bytes 4 <$> l)) = (4 * S (length l))%nat). rewrite length_app, IH. simpl. lia. }
  by rewrite blocks_length.
Qed.
Lemma Sum256_nonempty s : Sum256 s ≠ "".
Proof. intros H. pose proof (Sum256_length s) as Hl. by rewrite H in Hl. Qed.

Example Sum256_abc :
  Sum256 "abc" = "ba7816bf8f01cfea414140de5dae2223b00361a396177a9cb410ff61f20015ad".
Proof. vm_compute. reflexivity. Qed.
Example Sum256_empty :
  Sum256 "" = "e3b0c44298fc1c149afbf4c8996fb92427ae41e4649b934ca495991b7852b855".
Proof. vm_compute. reflexivity. Qed.
Example Sum256_two_blocks :
  Sum256 "abcdbcdecdefdefgefghfghighijhijkijkljklmklmnlmnomnopnopq"
  = "248d6a61d20638b8e5c026930c3e6039a33ce45964ff2167f6ecedd419db06c1".
Proof. vm_compute. reflexivity. Qed.
