(* ===== verification/Api.v ===== *)
(** * The PgDoorman API (api/v1alpha1)

    The custom resource's spec as records ([*int] and [*T] are options, maps
    are [gmap string]), [ApplyDefaults] and its properties: it fills exactly
    the unset fields, whatever the order the pools are visited in, and a second
    application changes nothing. *)
From S2P Require Import Prelude.
From stdpp Require Import options.
Open Scope Z_scope.

(** machinery's [SecretKeySelector]: a Secret name and a key in it. *)
Record SecretKeySelector : Type := { ref_Name : string; ref_Key : string }.

Record AuthQuerySpec : Type := {
  aq_User : string;
  aq_Query : string;
  aq_PasswordSecretRef : option SecretKeySelector;
  aq_Database : string;
  aq_PoolSize : option Z
}.

Record UserSpec : Type := {
  us_Username : string;
  us_PasswordSecretRef : SecretKeySelector;
  us_PoolSize : option Z
}.

Record PoolSpec : Type := {
  ps_PoolMode : string;
  ps_DefaultPoolSize : option Z;
  ps_AuthQuery : option AuthQuerySpec;
  ps_Users : list UserSpec
}.

Record GeneralSpec : Type := {
  gs_MaxConnections : option Z;
  gs_WorkerThreads : option Z;
  gs_ConnectTimeout : string;
  gs_IdleTimeout : string;
  gs_ServerLifetime : string;
  gs_ShutdownTimeout : string;
  gs_AdminUsername : string;
  gs_AdminPasswordSecretRef : option SecretKeySelector
}.

Record PrometheusSpec : Type := { pr_Enabled : option bool }.

Record PgDoormanSpec : Type := {
  ClusterRef : string;
  Pools : gmap string PoolSpec;
  General : option GeneralSpec;
  Prometheus : option PrometheusSpec
}.

#[export] Instance SecretKeySelector_eq_dec : EqDecision SecretKeySelector.
Proof. solve_decision. Defined.
#[export] Instance AuthQuerySpec_eq_dec : EqDecision AuthQuerySpec.
Proof. solve_decision. Defined.
#[export] Instance UserSpec_eq_dec : EqDecision UserSpec.
Proof. solve_decision. Defined.
#[export] Instance PoolSpec_eq_dec : EqDecision PoolSpec.
Proof. solve_decision. Defined.
#[export] Instance GeneralSpec_eq_dec : EqDecision GeneralSpec.
Proof. solve_decision. Defined.
#[export] Instance PrometheusSpec_eq_dec : EqDecision PrometheusSpec.
Proof. solve_decision. Defined.
#[export] Instance PgDoormanSpec_eq_dec : EqDecision PgDoormanSpec.
Proof. solve_decision. Defined.

Definition set_Pools (p : gmap string PoolSpec) (s : PgDoormanSpec) : PgDoormanSpec :=
  {| ClusterRef := ClusterRef s; Pools := p; General := General s; Prometheus := Prometheus s |}.

(** ** The defaults (defaults.go) *)
Definition DefaultPoolMode : string := "transaction".
Definition DefaultDefaultPoolSize : Z := 40.
Definition DefaultUserPoolSize : Z := 20.
Definition DefaultAuthQueryQuery : string := "SELECT * FROM public.doorman_auth_query($1)".
Definition DefaultAuthQueryDatabase : string := "postgres".
Definition DefaultAuthQueryPoolSize : Z := 2.
Definition DefaultMaxConnections : Z := 8192.
Definition DefaultWorkerThreads : Z := 4.
Definition DefaultConnectTimeout : string := "3s".
Definition DefaultIdleTimeout : string := "5m".
Definition DefaultServerLifetime : string := "5m".
Definition DefaultShutdownTimeout : string := "10s".
Definition DefaultAdminUsername : string := "admin".

(** Go's zero values [GeneralSpec{}] and [PrometheusSpec{}]. *)
Definition zero_General : GeneralSpec :=
  {| gs_MaxConnections := None; gs_WorkerThreads := None; gs_ConnectTimeout := "";
     gs_IdleTimeout := ""; gs_ServerLifetime := ""; gs_ShutdownTimeout := "";
     gs_AdminUsername := ""; gs_AdminPasswordSecretRef := None |}.
Definition zero_Prometheus : PrometheusSpec := {| pr_Enabled := None |}.

Definition default_general (g : GeneralSpec) : GeneralSpec :=
  {| gs_MaxConnections := or_ptr (gs_MaxConnections g) DefaultMaxConnections;
     gs_WorkerThreads := or_ptr (gs_WorkerThreads g) DefaultWorkerThreads;
     gs_ConnectTimeout := or_default (gs_ConnectTimeout g) DefaultConnectTimeout;
     gs_IdleTimeout := or_default (gs_IdleTimeout g) DefaultIdleTimeout;
     gs_ServerLifetime := or_default (gs_ServerLifetime g) DefaultServerLifetime;
     gs_ShutdownTimeout := or_default (gs_ShutdownTimeout g) DefaultShutdownTimeout;
     gs_AdminUsername := or_default (gs_AdminUsername g) DefaultAdminUsername;
     gs_AdminPasswordSecretRef := gs_AdminPasswordSecretRef g |}.

Definition default_authQuery (aq : AuthQuerySpec) : AuthQuerySpec :=
  {| aq_User := aq_User aq;
     aq_Query := or_default (aq_Query aq) DefaultAuthQueryQuery;
     aq_PasswordSecretRef := aq_PasswordSecretRef aq;
     aq_Database := or_default (aq_Database aq) DefaultAuthQueryDatabase;
     aq_PoolSize := or_ptr (aq_PoolSize aq) DefaultAuthQueryPoolSize |}.

Definition default_user (u : UserSpec) : UserSpec :=
  {| us_Username := us_Username u;
     us_PasswordSecretRef := us_PasswordSecretRef u;
     us_PoolSize := or_ptr (us_PoolSize u) DefaultUserPoolSize |}.

(** The body of [for name, pool := range spec.Pools]. *)
Definition default_pool (pool : PoolSpec) : PoolSpec :=
  {| ps_PoolMode := or_default (ps_PoolMode pool) DefaultPoolMode;
     ps_DefaultPoolSize := or_ptr (ps_DefaultPoolSize pool) DefaultDefaultPoolSize;
     ps_AuthQuery := default_authQuery <$> ps_AuthQuery pool;
     ps_Users := default_user <$> ps_Users pool |}.

(** [ApplyDefaults]: the general and prometheus sections are created when
    absent, then every pool is rewritten in the order [ρ] visits them.  The
    spec is a deep copy (its only caller makes one), so the pointers inside a
    pool are its own and the result is a new value; [InPlace] has the code that
    writes through them, and the proof. *)
Definition ApplyDefaults (ρ : ranger) (spec : PgDoormanSpec) : PgDoormanSpec :=
  let g := default zero_General (General spec) in
  let p := default zero_Prometheus (Prometheus spec) in
  {| ClusterRef := ClusterRef spec;
     General := Some (default_general g);
     Prometheus := Some {| pr_Enabled := or_ptr (pr_Enabled p) true |};
     Pools := fold_left (λ m '(name, pool), <[name := default_pool pool]> m)
                (range ρ (Pools spec)) (Pools spec) |}.

(** ** Properties *)
Lemma or_default_idem s d : or_default (or_default s d) d = or_default s d.
Proof. unfold or_default. by repeat case_decide. Qed.
Lemma or_default_nonempty s d : d ≠ "" → or_default s d ≠ "".
Proof. unfold or_default. by case_decide. Qed.
Lemma or_default_set s d : s ≠ "" → or_default s d = s.
Proof. unfold or_default. by case_decide. Qed.
Lemma or_ptr_idem {A} (p : option A) d : or_ptr (or_ptr p d) d = or_ptr p d.
Proof. by destruct p. Qed.
Lemma or_ptr_is_Some {A} (p : option A) d : is_Some (or_ptr p d).
Proof. destruct p; simpl; eauto. Qed.
#[export] Hint Rewrite or_default_idem @or_ptr_idem : doorman.
#[export] Hint Resolve or_ptr_is_Some or_default_nonempty : doorman.

Lemma default_general_idem g : default_general (default_general g) = default_general g.
Proof. unfold default_general; simpl. by autorewrite with doorman. Qed.
Lemma default_authQuery_idem aq : default_authQuery (default_authQuery aq) = default_authQuery aq.
Proof. unfold default_authQuery; simpl. by autorewrite with doorman. Qed.
Lemma default_user_idem u : default_user (default_user u) = default_user u.
Proof. unfold default_user; simpl. by autorewrite with doorman. Qed.
Lemma default_pool_idem p : default_pool (default_pool p) = default_pool p.
Proof.
  unfold default_pool; simpl. autorewrite with doorman. f_equal.
  - destruct (ps_AuthQuery p); simpl; [|done]. by rewrite default_authQuery_idem.
  - rewrite <- list_fmap_compose. apply list_fmap_ext. intros ? u _; simpl.
    apply default_user_idem.
Qed.

(** The loop over the pools is a map over them, for every order. *)
Lemma fold_insert_fmap {A} (ρ : ranger) (f : A → A) (m : gmap string A) :
  fold_left (λ m '(k, x), <[k := f x]> m) (range ρ m) m = f <$> m.
Proof.
  apply map_eq. intros k. rewrite lookup_fmap.
  assert (∀ l (acc : gmap string A), NoDup (l.*1) →
    fold_left (λ m '(k, x), <[k := f x]> m) l acc !! k =
      match (list_to_map l : gmap string A) !! k with Some x => Some (f x) | None => acc !! k end) as Hl.
  { induction l as [|[k' x] l IH]; intros acc Hnd; simpl; [by rewrite lookup_empty|].
    apply NoDup_cons in Hnd as [Hk Hnd]. rewrite IH by done.
    destruct (decide (k = k')) as [->|Hne].
    - rewrite lookup_insert_eq. rewrite not_elem_of_list_to_map_1 by done.
      by rewrite lookup_insert_eq.
    - by rewrite !lookup_insert_ne by done. }
  rewrite Hl by apply NoDup_range_keys. rewrite list_to_map_range.
  by destruct (m !! k).
Qed.

Lemma ApplyDefaults_Pools ρ spec : Pools (ApplyDefaults ρ spec) = default_pool <$> Pools spec.
Proof. apply fold_insert_fmap. Qed.

(** What [Generate] dereferences after defaulting is never nil. *)
Definition defaulted_pool (p : PoolSpec) : Prop :=
  ps_PoolMode p ≠ "" ∧ is_Some (ps_DefaultPoolSize p) ∧
  (∀ aq, ps_AuthQuery p = Some aq → aq_Query aq ≠ "" ∧ aq_Database aq ≠ "" ∧ is_Some (aq_PoolSize aq)) ∧
  Forall (λ u, is_Some (us_PoolSize u)) (ps_Users p).

Definition defaulted (spec : PgDoormanSpec) : Prop :=
  (∃ g, General spec = Some g ∧ is_Some (gs_MaxConnections g) ∧ is_Some (gs_WorkerThreads g) ∧
        gs_ConnectTimeout g ≠ "" ∧ gs_IdleTimeout g ≠ "" ∧ gs_ServerLifetime g ≠ "" ∧
        gs_ShutdownTimeout g ≠ "" ∧ gs_AdminUsername g ≠ "") ∧
  (∃ b, Prometheus spec = Some {| pr_Enabled := Some b |}) ∧
  map_Forall (λ _ p, defaulted_pool p) (Pools spec).

Lemma default_pool_defaulted p : defaulted_pool (default_pool p).
Proof.
  unfold defaulted_pool, default_pool; simpl. repeat split; auto with doorman.
  - destruct (ps_AuthQuery p); simpl in *; simplify_eq/=. auto with doorman.
  - destruct (ps_AuthQuery p); simpl in *; simplify_eq/=. auto with doorman.
  - destruct (ps_AuthQuery p); simpl in *; simplify_eq/=. auto with doorman.
  - apply Forall_fmap, Forall_true. intros u; simpl. auto with doorman.
Qed.

(** [b] keeps what is set in [a]. *)
Definition keeps (a b : string) : Prop := a ≠ "" → b = a.
Definition keeps_ptr {A} (a b : option A) : Prop := is_Some a → b = a.
Definition extends_general (a b : GeneralSpec) : Prop :=
  keeps_ptr (gs_MaxConnections a) (gs_MaxConnections b) ∧
  keeps_ptr (gs_WorkerThreads a) (gs_WorkerThreads b) ∧
  keeps (gs_ConnectTimeout a) (gs_ConnectTimeout b) ∧
  keeps (gs_IdleTimeout a) (gs_IdleTimeout b) ∧
  keeps (gs_ServerLifetime a) (gs_ServerLifetime b) ∧
  keeps (gs_ShutdownTimeout a) (gs_ShutdownTimeout b) ∧
  keeps (gs_AdminUsername a) (gs_AdminUsername b) ∧
  gs_AdminPasswordSecretRef b = gs_AdminPasswordSecretRef a.

(** The fields the user set are kept: a field of the result is the user's value
    when that value is set. *)
Definition extends_pool (p q : PoolSpec) : Prop :=
  keeps (ps_PoolMode p) (ps_PoolMode q) ∧
  keeps_ptr (ps_DefaultPoolSize p) (ps_DefaultPoolSize q) ∧
  (ps_AuthQuery p = None ↔ ps_AuthQuery q = None) ∧
  (∀ a b, ps_AuthQuery p = Some a → ps_AuthQuery q = Some b →
     aq_User b = aq_User a ∧ aq_PasswordSecretRef b = aq_PasswordSecretRef a ∧
     keeps (aq_Query a) (aq_Query b) ∧ keeps (aq_Database a) (aq_Database b) ∧
     keeps_ptr (aq_PoolSize a) (aq_PoolSize b)) ∧
  Forall2 (λ a b, us_Username b = us_Username a ∧ us_PasswordSecretRef b = us_PasswordSecretRef a ∧
     keeps_ptr (us_PoolSize a) (us_PoolSize b)) (ps_Users p) (ps_Users q).

Lemma or_ptr_set {A} (p : option A) d : is_Some p → or_ptr p d = p.
Proof. by intros [? ->]. Qed.
#[export] Hint Resolve or_ptr_set or_default_set : doorman.

Lemma default_general_extends g : extends_general g (default_general g).
Proof.
  unfold extends_general, keeps, keeps_ptr, default_general; simpl.
  split_and!; auto with doorman.
Qed.

Lemma default_pool_extends p : extends_pool p (default_pool p).
Proof.
  unfold extends_pool, keeps, keeps_ptr, default_pool; simpl. repeat split; auto with doorman.
  1: by intros ->.
  1: by destruct (ps_AuthQuery p).
  1-5: destruct (ps_AuthQuery p); simpl in *; simplify_eq/=; auto with doorman.
  apply Forall2_fmap_r, Forall_Forall2_diag, Forall_true. intros u; simpl. auto with doorman.
Qed.

(** [ApplyDefaults] meets its contract for every map order: all the fields
    the generator reads are set, the user's values are kept, pools are neither
    added nor dropped, a second application (in any other order) changes nothing. *)
Theorem ApplyDefaults_correct ρ ρ' spec :
  let out := ApplyDefaults ρ spec in
  defaulted out ∧ ClusterRef out = ClusterRef spec ∧
  dom (Pools out) = dom (Pools spec) ∧
  (∀ name p q, Pools spec !! name = Some p → Pools out !! name = Some q → extends_pool p q) ∧
  (∀ g g', General spec = Some g → General out = Some g' → extends_general g g') ∧
  ApplyDefaults ρ' out = out.
Proof.
  intros out. unfold out. split_and!.
  - split_and!.
    + eexists; split; [done|]. simpl. split_and!; auto with doorman.
    + simpl. destruct (default _ _) as [[b|]]; simpl; eauto.
    + rewrite ApplyDefaults_Pools. intros name q Hq.
      apply lookup_fmap_Some in Hq as (p & <- & _). apply default_pool_defaulted.
  - done.
  - rewrite ApplyDefaults_Pools. apply dom_fmap_L.
  - intros name p q Hp. rewrite ApplyDefaults_Pools, lookup_fmap, Hp. intros [= <-].
    apply default_pool_extends.
  - intros g g' Hg. simpl. rewrite Hg. intros [= <-]. apply default_general_extends.
  - unfold ApplyDefaults at 1. rewrite fold_insert_fmap, ApplyDefaults_Pools. simpl.
    unfold ApplyDefaults at 1. f_equal; simpl.
    + rewrite fold_insert_fmap. rewrite <- map_fmap_compose. apply map_fmap_ext.
      intros ? p _. apply default_pool_idem.
    + by rewrite default_general_idem.
    + by autorewrite with doorman.
Qed.
