(* ===== verification/K8s.v ===== *)
(** * The Kubernetes and CloudNativePG objects the plugin handles

    Third-party object types, restricted to the fields the code reads or
    writes: the CNPG [Cluster], [Secret], [Service], conditions, and the
    quantities of resource requirements, which stay abstract (a class). *)
From S2P Require Import Prelude Api.
From stdpp Require Import options.
Open Scope Z_scope.

(** An object is identified by its namespace and name. *)
Definition key : Type := string * string.

(** [cnpgv1.PluginConfiguration]: one entry of [spec.plugins]. *)
Record Plugin : Type := {
  pl_Name : string;
  pl_Enabled : option bool;
  pl_Parameters : gmap string string
}.

Record Cluster : Type := {
  cl_Namespace : string;
  cl_Name : string;
  cl_Plugins : list Plugin;
  cl_ServerTLSSecret : option string;   (* spec.certificates.serverTLSSecret *)
  cl_CurrentPrimary : string            (* status.currentPrimary *)
}.
Definition cluster_key (c : Cluster) : key := (cl_Namespace c, cl_Name c).

Record Secret : Type := {
  sec_Namespace : string;
  sec_Name : string;
  sec_Labels : gmap string string;
  sec_Type : string;
  sec_Data : gmap string string;
  sec_Owner : option string;            (* controller reference: the Cluster's name *)
  sec_ResourceVersion : string
}.
Definition secret_key (s : Secret) : key := (sec_Namespace s, sec_Name s).

Record ServicePort : Type := {
  sp_Name : string; sp_Port : Z; sp_TargetPort : Z; sp_Protocol : string
}.

Record Service : Type := {
  svc_Namespace : string;
  svc_Name : string;
  svc_Labels : gmap string string;
  svc_Selector : gmap string string;
  svc_Ports : list ServicePort;
  svc_Owner : option string
}.
Definition service_key (s : Service) : key := (svc_Namespace s, svc_Name s).

(** [metav1.Condition]; the transition time is not modelled. *)
Record Condition : Type := {
  cond_Type : string;
  cond_Status : bool;
  cond_Reason : string;
  cond_Message : gerr;
  cond_ObservedGeneration : Z
}.

Record PgDoorman : Type := {
  pd_Namespace : string;
  pd_Name : string;
  pd_Generation : Z;
  pd_Deleting : bool;                   (* a non-zero deletionTimestamp *)
  pd_Finalizers : list string;
  pd_Spec : PgDoormanSpec;
  pd_ObservedGeneration : Z;
  pd_Conditions : list Condition
}.
Definition pgdoorman_key (p : PgDoorman) : key := (pd_Namespace p, pd_Name p).

#[export] Instance Plugin_eq_dec : EqDecision Plugin.
Proof. solve_decision. Defined.
#[export] Instance Cluster_eq_dec : EqDecision Cluster.
Proof. solve_decision. Defined.
#[export] Instance Secret_eq_dec : EqDecision Secret.
Proof. solve_decision. Defined.
#[export] Instance ServicePort_eq_dec : EqDecision ServicePort.
Proof. solve_decision. Defined.
#[export] Instance Service_eq_dec : EqDecision Service.
Proof. solve_decision. Defined.
#[export] Instance Condition_eq_dec : EqDecision Condition.
Proof. solve_decision. Defined.
#[export] Instance PgDoorman_eq_dec : EqDecision PgDoorman.
Proof. solve_decision. Defined.

(** ** Resource quantities (apimachinery's [resource.Quantity])

    [q_le] is [a.Cmp(b) <= 0]; the code only parses, compares and prints. *)
Class Quantities : Type := {
  quantity : Type;
  ParseQuantity : string → option quantity;
  q_le : quantity → quantity → bool;
  q_String : quantity → string
}.

(** [corev1.ResourceRequirements]. *)
Record Resources `{Quantities} : Type := {
  Requests : gmap string quantity;
  Limits : gmap string quantity
}.

(** Plain numbers as quantities, to run examples. *)
Definition number_quantities (parse : string → option Z) : Quantities :=
  {| quantity := Z; ParseQuantity := parse; q_le := Z.leb; q_String := λ _, "" |}.
