(* ===== verification/Memory.v ===== *)
(** * Go's memory, for code whose correctness is about sharing

    Elsewhere a pointer to a value is the value.  This file has an explicit
    heap instead: pointers, slice headers and maps are references into it, an
    assignment through one is seen through all the others.  Programs are
    computations of the library's monad over that heap.  A weakest precondition
    in Iris over a points-to, with an adequacy lemma, gives facts about their
    runs; [frozen] is the knowledge that the cells of an old heap are read and
    never written.  The copy combinators have the shapes controller-gen emits. *)
From S2P Require Import Prelude.
From iris.base_logic.lib Require Import ghost_map.
From iris.proofmode Require Import proofmode.
From stdpp Require Import options.

Definition loc : Type := positive.
(** The cells are a sum of the types a program stores ([Stored] is one of its
    summands), so that a heap stays a first-order map. *)
Abbreviation heap cell := (gmap loc cell).

Class Stored (cell T : Type) : Type := {
  put : T → cell;
  get : cell → option T;
  get_put t : get (put t) = Some t
}.

(** A [*T] ([None] is nil). *)
Definition ptr (T : Type) : Type := option loc.
(** A non-nil [[]T]: its array, where it starts and its length ([cap] is not
    used: nothing here appends or reslices). *)
Record slice_header : Type := { sl_arr : loc; sl_off : nat; sl_len : nat }.
Definition slice (T : Type) : Type := option slice_header.

Definition nil_dereference : gerr := ExtErr "invalid memory address or nil pointer dereference".
Definition out_of_range : gerr := ExtErr "index out of range".

(** A location above all those in use. *)
Definition fresh_loc {cell} (σ : heap cell) : loc :=
  Pos.succ (map_fold (λ l _ m, Pos.max l m) 1%positive σ).

Section operations.
Context {cell : Type}.
Abbreviation prog A := (M (heap cell) A).

Definition new `{!Stored cell T} (t : T) : prog loc := λ σ,
  (Ok (fresh_loc σ), <[fresh_loc σ := put t]> σ).
Definition load `{!Stored cell T} (l : loc) : prog T := λ σ,
  match σ !! l ≫= get with Some t => (Ok t, σ) | None => (Err nil_dereference, σ) end.
Definition store `{!Stored cell T} (l : loc) (t : T) : prog unit := λ σ,
  match (σ !! l ≫= get : option T) with
  | Some _ => (Ok (), <[l := put t]> σ)
  | None => (Err nil_dereference, σ)
  end.
(** [*p] on the left or on the right of an assignment. *)
Definition deref {T} (p : ptr T) : prog loc :=
  match p with Some l => mret l | None => throw nil_dereference end.

(** [s[i]] and [s[i] = t]. *)
Definition index `{!Stored cell (list T)} (s : slice_header) (i : nat) : prog T :=
  ts ← load (T := list T) (sl_arr s);
  match ts !! (sl_off s + i) with
  | Some t => if decide (i < sl_len s) then mret t else throw out_of_range
  | None => throw out_of_range
  end.
Definition set_index `{!Stored cell (list T)} (s : slice_header) (i : nat) (t : T) : prog unit :=
  ts ← load (T := list T) (sl_arr s);
  if decide (i < sl_len s) then store (sl_arr s) (<[sl_off s + i := t]> ts) else throw out_of_range.

(** ** The shapes of a generated deep copy

    [into] is the DeepCopyInto of the pointee: it is given [*in] and returns
    what it leaves in [*out]. *)

(** [if in.X != nil], a new [T] that the pointee is copied into, and the body
    of a DeepCopy method. *)
Definition copy_ptr `{!Stored cell T} (zero : T) (into : T → prog T) (p : ptr T) : prog (ptr T) :=
  match p with
  | None => mret None
  | Some l =>
      l' ← new zero;
      t ← load (T := T) l;
      t' ← into t;
      _ ← store l' t';
      mret (Some l')
  end.

(** [*out = make([]T, len( *in)); for i := range *in { ... }]. *)
Definition copy_slice `{!Stored cell (list T)} (zero : T) (into : T → prog T) (s : slice T) : prog (slice T) :=
  match s with
  | None => mret None
  | Some h =>
      arr ← new (replicate (sl_len h) zero);
      let out := {| sl_arr := arr; sl_off := 0; sl_len := sl_len h |} in
      _ ← for_each (λ i, t ← index h i; t' ← into t; set_index out i t') (seq 0 (sl_len h));
      mret (Some out)
  end.

(** [*out = make(map[string]T); for key, val := range *in { ( *out)[key] = ... }]. *)
Definition copy_map `{!Stored cell (gmap string T)} (ρ : ranger) (each : T → prog T)
    (p : ptr (gmap string T)) : prog (ptr (gmap string T)) :=
  match p with
  | None => mret None
  | Some l =>
      l' ← new (∅ : gmap string T);
      m ← load (T := gmap string T) l;
      _ ← for_each (λ '(key, val), t ← each val;
             m' ← load (T := gmap string T) l'; store l' (<[key := t]> m')) (range ρ m);
      mret (Some l')
  end.

(** ** What a reference stands for in a heap *)
Section reads.
Context {T V : Type} (R : heap cell → T → V → Prop).

Definition reads_ptr `{!Stored cell T} (σ : heap cell) (p : ptr T) (v : option V) : Prop :=
  match p, v with
  | None, None => True
  | Some l, Some v => ∃ t : T, σ !! l = Some (put t) ∧ R σ t v
  | _, _ => False
  end.
(** A nil slice has no elements, neither has a nil map. *)
Definition reads_slice `{!Stored cell (list T)} (σ : heap cell) (s : slice T) (vs : list V) : Prop :=
  match s with
  | None => vs = []
  | Some h => ∃ ts : list T, σ !! sl_arr h = Some (put ts) ∧ sl_off h + sl_len h ≤ length ts ∧
                Forall2 (R σ) (take (sl_len h) (drop (sl_off h) ts)) vs
  end.
Definition reads_map `{!Stored cell (gmap string T)} (σ : heap cell) (p : ptr (gmap string T))
    (m : gmap string V) : Prop :=
  match p with
  | None => m = ∅
  | Some l => ∃ tm : gmap string T, σ !! l = Some (put tm) ∧ map_Forall2 (λ _, R σ) tm m
  end.

(** The contract of a deep copy: whatever [t] stands for, the copy returns,
    leaves every cell there is as it is, and what it returns stands for the
    same value in new cells alone — in [m], which shares none with [σ]. *)
Definition deep_copies (copy : T → prog T) : Prop :=
  ∀ σ t v, R σ t v → ∃ t' m, copy t σ = (Ok t', m ∪ σ) ∧ m ##ₘ σ ∧ R m t' v.
End reads.
End operations.

Lemma fresh_loc_fresh {cell} (σ : heap cell) : σ !! fresh_loc σ = None.
Proof.
  destruct (σ !! fresh_loc σ) as [c|] eqn:E; [exfalso|done].
  assert (∀ l, is_Some (σ !! l) → (l ≤ map_fold (λ l _ m, Pos.max l m) 1 σ)%positive) as H.
  { apply (map_fold_weak_ind (λ r σ, ∀ l, is_Some (σ !! l) → (l ≤ r)%positive)).
    - intros l [? H]. by rewrite lookup_empty in H.
    - intros i x m r _ IH l Hl. destruct (decide (i = l)) as [->|]; [lia|].
      rewrite lookup_insert_ne in Hl; [|done]. specialize (IH l Hl). lia. }
  specialize (H (fresh_loc σ) ltac:(by eexists)). unfold fresh_loc in H. lia.
Qed.

(** The entries of [m] whose key is among the first [i] of [l]. *)
Definition visited {A B} (l : list (string * A)) (i : nat) (m : gmap string B) : gmap string B :=
  filter (λ kv, kv.1 ∈ (take i l).*1) m.

Lemma visited_0 {A B} (l : list (string * A)) (m : gmap string B) : visited l 0 m = ∅.
Proof. apply map_empty. intros k. apply map_lookup_filter_None. right. intros b _. set_solver. Qed.
Lemma visited_S {A B} (l : list (string * A)) i k a (m : gmap string B) b :
  l !! i = Some (k, a) → m !! k = Some b → visited l (S i) m = <[k := b]> (visited l i m).
Proof.
  intros Hl Hm. apply map_eq. intros k'. apply option_eq. intros b'.
  rewrite /visited lookup_insert_Some !map_lookup_filter_Some /= (take_S_r _ _ _ Hl) fmap_app.
  rewrite elem_of_app /= list_elem_of_singleton. destruct (decide (k = k')) as [->|]; naive_solver.
Qed.
Lemma visited_fresh {A B} (l : list (string * A)) i k a (m : gmap string B) :
  NoDup l.*1 → l !! i = Some (k, a) → visited l i m !! k = None.
Proof.
  intros Hnd Hl. apply map_lookup_filter_None. right. intros b _. simpl.
  rewrite -(take_drop_middle _ _ _ Hl) fmap_app in Hnd. apply NoDup_app in Hnd as (_ & Hd & _).
  intros Hin. apply (Hd _ Hin). set_solver.
Qed.
Lemma visited_all {A B} (l : list (string * A)) (m : gmap string B) :
  (∀ k, is_Some (m !! k) → k ∈ l.*1) → visited l (length l) m = m.
Proof. intros H. rewrite /visited firstn_all. apply map_filter_id. eauto. Qed.

(** ** What survives in a larger heap *)
Section monotone.
Context {cell : Type}.
Implicit Types φ ψ : heap cell → Prop.

Definition monotone (φ : heap cell → Prop) : Prop := ∀ σ σ', σ ⊆ σ' → φ σ → φ σ'.

Lemma monotone_and φ ψ : monotone φ → monotone ψ → monotone (λ σ, φ σ ∧ ψ σ).
Proof. intros Hφ Hψ σ σ' ? []. eauto. Qed.
Lemma monotone_const (P : Prop) : monotone (λ _, P).
Proof. by intros σ σ'. Qed.
Lemma monotone_cell l c : monotone (λ σ, σ !! l = Some c).
Proof. intros σ σ' H ?. by eapply lookup_weaken. Qed.
Lemma monotone_Forall {A} (φ : A → heap cell → Prop) l :
  (∀ a, monotone (φ a)) → monotone (λ σ, Forall (λ a, φ a σ) l).
Proof. intros H σ σ' Hσ Hl. eapply Forall_impl; [exact Hl|]. intros a. by apply H. Qed.

Lemma monotone_Forall2 {A B} (φ : A → B → heap cell → Prop) l k :
  (∀ a b, monotone (φ a b)) → monotone (λ σ, Forall2 (λ a b, φ a b σ) l k).
Proof. intros H σ σ' Hσ Hl. eapply Forall2_impl; [exact Hl|]. intros a b. by apply H. Qed.
Lemma monotone_map_Forall2 {A B} (φ : A → B → heap cell → Prop) (m1 : gmap string A) (m2 : gmap string B) :
  (∀ a b, monotone (φ a b)) → monotone (λ σ, map_Forall2 (λ _ a b, φ a b σ) m1 m2).
Proof.
  intros H σ σ' Hσ Hl k. specialize (Hl k). inversion Hl; constructor. by eapply H.
Qed.

(** A representation reads only cells the value is made of. *)
Class Mono {T V} (R : heap cell → T → V → Prop) : Prop :=
  mono t v : monotone (λ σ, R σ t v).

#[export] Instance plain_mono {T} : Mono (λ _, @eq T).
Proof. intros t v. apply monotone_const. Qed.

Context {T V : Type} (R : heap cell → T → V → Prop) `{!Mono R}.
#[export] Instance reads_ptr_mono `{!Stored cell T} : Mono (reads_ptr R).
Proof using Type*.
  intros [l|] [v|] σ σ' Hσ; simpl; try done. intros (t & Hl & Ht). exists t.
  split; [by eapply monotone_cell|by eapply mono].
Qed.
#[export] Instance reads_slice_mono `{!Stored cell (list T)} : Mono (reads_slice R).
Proof using Type*.
  intros [h|] vs σ σ' Hσ; simpl; [|done]. intros (ts & Hl & ? & Hts). exists ts.
  split_and!; [by eapply monotone_cell|done|]. eapply Forall2_impl; [done|].
  intros t v. by apply mono.
Qed.
#[export] Instance reads_map_mono `{!Stored cell (gmap string T)} : Mono (reads_map R).
Proof using Type*.
  intros [l|] m σ σ' Hσ; simpl; [|done]. intros (tm & Hl & Htm). exists tm.
  split; [by eapply monotone_cell|].
  by apply (monotone_map_Forall2 (λ t v σ, R σ t v) tm m (mono (R := R)) σ).
Qed.
End monotone.
Ltac solve_monotone := repeat first [apply monotone_and|apply monotone_const|apply mono].

(** ** The logic *)
Class memG (cell : Type) (Σ : gFunctors) : Type := MemG {
  memG_map :: ghost_mapG Σ loc cell;
  mem_name : gname
}.

Section logic.
Context {cell : Type} `{!memG cell Σ}.
Implicit Types σ : heap cell.
Abbreviation prog A := (M (heap cell) A).

Definition raw (l : loc) (c : cell) : iProp Σ := (l ↪[mem_name] c)%I.
Definition points_to `{!Stored cell T} (l : loc) (t : T) : iProp Σ := raw l (put t).
Notation "l ↦ t" := (points_to l t) (at level 20).

(** The computation runs from any heap the assertions describe and establishes
    [Φ] of what it returns; it does return. *)
Definition wp {A} (m : prog A) (Φ : res A → iProp Σ) : iProp Σ :=
  (∀ σ, ghost_map_auth mem_name 1 σ ==∗
     ∃ r σ', ⌜m σ = (r, σ')⌝ ∗ ghost_map_auth mem_name 1 σ' ∗ Φ r)%I.
(** It returns a value. *)
Definition returning {A} (Φ : A → iProp Σ) (r : res A) : iProp Σ :=
  match r with Ok a => Φ a | Err _ => False%I end.

(** The cells of [σ] stay as they are for ever. *)
Definition frozen σ : iProp Σ := (□ ∀ l c, ⌜σ !! l = Some c⌝ -∗ l ↪[mem_name]□ c)%I.

(** [φ] holds of a heap made of owned cells. *)
Definition holds (φ : heap cell → Prop) : iProp Σ :=
  (∃ m, ([∗ map] l ↦ c ∈ m, raw l c) ∗ ⌜φ m⌝)%I.

Lemma wp_ret {A} (a : A) Φ : Φ (Ok a) -∗ wp (mret a) Φ.
Proof. iIntros "H" (σ) "Hσ !>". iExists _, _. by iFrame. Qed.
Lemma wp_throw {A} e (Φ : res A → iProp Σ) : Φ (Err e) -∗ wp (throw e) Φ.
Proof. iIntros "H" (σ) "Hσ !>". iExists _, _. by iFrame. Qed.
Lemma wp_bind {A B} (m : prog A) (f : A → prog B) Φ :
  wp m (λ r, match r with Ok a => wp (f a) Φ | Err e => Φ (Err e) end) -∗ wp (m ≫= f) Φ.
Proof.
  iIntros "H" (σ) "Hσ". iMod ("H" with "Hσ") as (r σ' E) "[Hσ H]".
  rewrite /mbind /M_bind E. destruct r as [a|e].
  - by iApply "H".
  - iModIntro. iExists _, _. by iFrame.
Qed.
Lemma wp_wand {A} (m : prog A) Φ Ψ : wp m Φ -∗ (∀ r, Φ r -∗ Ψ r) -∗ wp m Ψ.
Proof.
  iIntros "H HΨ" (σ) "Hσ". iMod ("H" with "Hσ") as (r σ' E) "[Hσ H]".
  iModIntro. iExists r, σ'. iFrame. iSplit; [done|by iApply "HΨ"].
Qed.
(** A step that returns a value, then the rest. *)
Lemma wp_step {A B} (m : prog A) (f : A → prog B) Φ Ψ :
  wp m (returning Φ) -∗ (∀ a, Φ a -∗ wp (f a) Ψ) -∗ wp (m ≫= f) Ψ.
Proof.
  iIntros "H Hf". iApply wp_bind. iApply (wp_wand with "H").
  iIntros ([a|e]); [by iApply "Hf"|iIntros "[]"].
Qed.

Section cells.
Context `{!Stored cell T}.
Implicit Types t : T.

Lemma wp_new t Φ : (∀ l, l ↦ t -∗ Φ (Ok l)) -∗ wp (new t) Φ.
Proof.
  iIntros "H" (σ) "Hσ". iMod (ghost_map_insert (fresh_loc σ) (put t) with "Hσ") as "[Hσ Hl]".
  { apply fresh_loc_fresh. }
  iModIntro. iExists _, _. iFrame. iSplit; [done|by iApply "H"].
Qed.
Lemma wp_load l t Φ : l ↦ t -∗ (l ↦ t -∗ Φ (Ok t)) -∗ wp (load l) Φ.
Proof.
  iIntros "Hl H" (σ) "Hσ". iDestruct (ghost_map_lookup with "Hσ Hl") as %E.
  iModIntro. iExists _, _. iFrame. iSplit; [|by iApply "H"].
  iPureIntro. by rewrite /load E /= get_put.
Qed.
Lemma wp_store l t t' Φ : l ↦ t -∗ (l ↦ t' -∗ Φ (Ok ())) -∗ wp (store l t') Φ.
Proof.
  iIntros "Hl H" (σ) "Hσ". iDestruct (ghost_map_lookup with "Hσ Hl") as %E.
  iMod (ghost_map_update (put t') with "Hσ Hl") as "[Hσ Hl]".
  iModIntro. iExists _, _. iFrame. iSplit; [|by iApply "H"].
  iPureIntro. by rewrite /store E /= get_put.
Qed.
(** A frozen cell can be read any number of times. *)
Lemma wp_load_frozen σ0 l t Φ :
  σ0 !! l = Some (put t) → frozen σ0 -∗ Φ (Ok t) -∗ wp (load l) Φ.
Proof.
  iIntros (E0) "#F H %σ Hσ". iDestruct ("F" $! l with "[//]") as "Hl".
  iDestruct (ghost_map_lookup with "Hσ Hl") as %E.
  iModIntro. iExists _, _. iFrame. iPureIntro. by rewrite /load E /= get_put.
Qed.
(** A new cell that nobody will write can be frozen with the old ones. *)
Lemma wp_new_frozen σ0 t Φ :
  frozen σ0 -∗ (∀ l, ⌜σ0 !! l = None⌝ -∗ frozen (<[l := put t]> σ0) -∗ Φ (Ok l)) -∗ wp (new t) Φ.
Proof.
  iIntros "#F H %σ Hσ". iMod (ghost_map_insert (fresh_loc σ) (put t) with "Hσ") as "[Hσ Hl]".
  { apply fresh_loc_fresh. }
  iAssert ⌜σ0 !! fresh_loc σ = None⌝%I as %Hl.
  { destruct (σ0 !! fresh_loc σ) as [c|] eqn:E; [|done]. iDestruct ("F" $! _ c E) as "Hc".
    by iDestruct (ghost_map_elem_ne with "Hl Hc") as %?. }
  iMod (ghost_map_elem_persist with "Hl") as "#Hl".
  iModIntro. iExists _, _. iFrame. iSplit; [done|]. iApply "H"; [done|].
  iIntros "!>" (l c [[<- <-]|[_ Hc]]%lookup_insert_Some); [done|]. by iApply "F".
Qed.
End cells.

Section slices.
Context `{!Stored cell (list T)}.
Implicit Types (h : slice_header) (t : T) (ts : list T).

Lemma wp_index_frozen σ0 h i ts t Φ :
  σ0 !! sl_arr h = Some (put ts) → ts !! (sl_off h + i) = Some t → i < sl_len h →
  frozen σ0 -∗ Φ (Ok t) -∗ wp (index h i) Φ.
Proof.
  iIntros (Hl Ht Hi) "F H". iApply wp_bind. iApply (wp_load_frozen with "F"); [done|].
  rewrite Ht decide_True //. by iApply wp_ret.
Qed.
Lemma wp_index h i ts t Φ :
  ts !! (sl_off h + i) = Some t → i < sl_len h →
  sl_arr h ↦ ts -∗ (sl_arr h ↦ ts -∗ Φ (Ok t)) -∗ wp (index h i) Φ.
Proof.
  iIntros (Ht Hi) "Hl H". iApply wp_bind. iApply (wp_load with "Hl"). iIntros "Hl".
  rewrite Ht decide_True //. iApply wp_ret. by iApply "H".
Qed.
Lemma wp_set_index h i ts t Φ :
  i < sl_len h →
  sl_arr h ↦ ts -∗ (sl_arr h ↦ <[sl_off h + i := t]> ts -∗ Φ (Ok ())) -∗ wp (set_index h i t) Φ.
Proof.
  iIntros (Hi) "Hl H". iApply wp_bind. iApply (wp_load with "Hl"). iIntros "Hl".
  rewrite decide_True //. by iApply (wp_store with "Hl").
Qed.
End slices.

(** A range loop whose body keeps [I], which counts the iterations done. *)
Lemma wp_for_each {X} (f : X → prog unit) l (I : nat → iProp Σ) :
  I 0 -∗ □ (∀ i x, ⌜l !! i = Some x⌝ -∗ I i -∗ wp (f x) (returning (λ _, I (S i)))) -∗
  wp (for_each f l) (returning (λ _, I (length l))).
Proof.
  iIntros "HI #Hf". iInduction l as [|x l] forall (I); simpl.
  { by iApply wp_ret. }
  iApply (wp_step with "[HI]").
  { by iApply ("Hf" $! 0). }
  iIntros (_) "HI". iApply ("IHl" $! (λ i, I (S i)) with "[] HI").
  iIntros "!>" (i y) "%Hy". by iApply ("Hf" $! (S i)).
Qed.

(** ** [holds] *)

Lemma raw_disjoint (m1 m2 : heap cell) :
  ([∗ map] l ↦ c ∈ m1, raw l c) -∗ ([∗ map] l ↦ c ∈ m2, raw l c) -∗ ⌜m1 ##ₘ m2⌝.
Proof.
  iIntros "H1 H2". iIntros (l). destruct (m1 !! l) as [c1|] eqn:E1, (m2 !! l) as [c2|] eqn:E2; try done.
  rewrite !(big_sepM_lookup _ _ l) //. iDestruct (ghost_map_elem_ne with "H1 H2") as %?. done.
Qed.

Lemma holds_weaken (φ ψ : heap cell → Prop) : (∀ m, φ m → ψ m) → holds φ ⊢ holds ψ.
Proof. iIntros (H) "(%m & Hm & %)". iExists m. iFrame. auto. Qed.
Lemma holds_True (P : Prop) : P → ⊢ holds (λ _, P).
Proof. iIntros (H). iExists ∅. by rewrite big_sepM_empty. Qed.
Lemma holds_cell l c : raw l c ⊢ holds (λ m, m !! l = Some c).
Proof. iIntros "H". iExists {[l := c]}. rewrite big_sepM_singleton lookup_singleton_eq. by iFrame. Qed.
Lemma holds_and φ ψ : monotone φ → monotone ψ → holds φ -∗ holds ψ -∗ holds (λ m, (φ m ∧ ψ m)%type).
Proof.
  iIntros (Hφ Hψ) "(%m1 & H1 & %) (%m2 & H2 & %)".
  iDestruct (raw_disjoint with "H1 H2") as %Hd.
  iExists (m1 ∪ m2). rewrite big_sepM_union //. iFrame. iPureIntro.
  split; [eapply Hφ, H|eapply Hψ, H0]; [by apply map_union_subseteq_l|by apply map_union_subseteq_r].
Qed.
Lemma holds_pure (P : Prop) : ⌜P⌝ ⊢ holds (λ _, P).
Proof. iIntros (H). by iApply holds_True. Qed.
Lemma holds_sep (P Q : iProp Σ) φ ψ :
  (P ⊢ holds φ) → (Q ⊢ holds ψ) → monotone φ → monotone ψ → P ∗ Q ⊢ holds (λ m, (φ m ∧ ψ m)%type).
Proof.
  iIntros (HP HQ Hφ Hψ) "[HP HQ]". iDestruct (HP with "HP") as "HP".
  iDestruct (HQ with "HQ") as "HQ". by iApply (holds_and with "HP HQ").
Qed.
Lemma holds_list {A} (l : list A) (φ : A → heap cell → Prop) :
  (∀ a, monotone (φ a)) → ([∗ list] a ∈ l, holds (φ a)) ⊢ holds (λ m, Forall (λ a, φ a m) l).
Proof.
  intros Hφ. induction l as [|a l IH]; simpl.
  { iIntros "_". iApply (holds_weaken (λ _, True)); [by constructor|by iApply holds_True]. }
  rewrite IH. iIntros "[Ha Hl]". iApply holds_weaken; [|iApply (holds_and with "Ha Hl")].
  - intros m []. by constructor.
  - done.
  - by apply monotone_Forall.
Qed.
Lemma holds_list2 {A B} (l : list A) (k : list B) (φ : A → B → heap cell → Prop) :
  (∀ a b, monotone (φ a b)) →
  ([∗ list] a; b ∈ l; k, holds (φ a b)) ⊢ holds (λ m, Forall2 (λ a b, φ a b m) l k).
Proof.
  iIntros (Hφ) "H". rewrite big_sepL2_alt. iDestruct "H" as "[%Hlen H]".
  iDestruct (holds_list (zip l k) (λ y, φ y.1 y.2) with "H") as "H"; [done|].
  iApply (holds_weaken with "H"). intros m HF.
  apply Forall2_same_length_lookup_2; [done|]. intros i a b Ha Hb.
  rewrite Forall_lookup in HF. apply (HF i (a, b)). by rewrite lookup_zip_Some.
Qed.
Lemma holds_map2 {A B} (m1 : gmap string A) (m2 : gmap string B) (φ : A → B → heap cell → Prop) :
  (∀ a b, monotone (φ a b)) →
  ([∗ map] a; b ∈ m1; m2, holds (φ a b)) ⊢ holds (λ m, map_Forall2 (λ _ a b, φ a b m) m1 m2).
Proof.
  iIntros (Hφ) "H". rewrite big_sepM2_alt big_sepM_map_to_list. iDestruct "H" as "[%Hdom H]".
  iDestruct (holds_list (map_to_list (map_zip m1 m2)) (λ y, φ y.2.1 y.2.2) with "H") as "H"; [done|].
  iApply (holds_weaken with "H"). intros m HF k.
  assert (is_Some (m1 !! k) ↔ is_Some (m2 !! k)) as Hk by (rewrite -!elem_of_dom; set_solver).
  rewrite Forall_forall in HF.
  destruct (m1 !! k) as [a|] eqn:Ha, (m2 !! k) as [b|] eqn:Hb; try constructor.
  - apply (HF (k, (a, b))), elem_of_map_to_list. by rewrite map_lookup_zip_Some.
  - by destruct Hk as [[] _]; eauto.
  - by destruct Hk as [_ []]; eauto.
Qed.
Lemma holds_frozen σ (φ : heap cell → Prop) :
  monotone φ → ghost_map_auth mem_name 1 σ -∗ holds φ -∗ ⌜φ σ⌝.
Proof.
  iIntros (Hφ) "Hσ (%m & Hm & %)". iDestruct (ghost_map_lookup_big with "Hσ Hm") as %?.
  iPureIntro. by eapply Hφ.
Qed.

(** ** Owned representations: the relations above, each cell owned once *)
Section owns.
Context {T V : Type} (O : T → V → iProp Σ).

Definition owns_ptr `{!Stored cell T} (p : ptr T) (v : option V) : iProp Σ :=
  match p, v with
  | None, None => emp
  | Some l, Some v => ∃ t : T, l ↦ t ∗ O t v
  | _, _ => False
  end%I.
Definition owns_slice `{!Stored cell (list T)} (s : slice T) (vs : list V) : iProp Σ :=
  match s with
  | None => ⌜vs = []⌝
  | Some h => ∃ ts : list T, sl_arr h ↦ ts ∗ ⌜sl_off h = 0 ∧ sl_len h = length ts⌝ ∗
                [∗ list] t; v ∈ ts; vs, O t v
  end%I.
Definition owns_map `{!Stored cell (gmap string T)} (p : ptr (gmap string T)) (m : gmap string V) : iProp Σ :=
  match p with
  | None => ⌜m = ∅⌝
  | Some l => ∃ tm : gmap string T, l ↦ tm ∗ [∗ map] t; v ∈ tm; m, O t v
  end%I.
End owns.

(** ** Owned representations and deep copies *)

(** Owning the cells of a [V] ([O]) is to have the value ([R]) in a heap of
    one's own. *)
Class Owned {T V : Type} (R : heap cell → T → V → Prop) (O : T → V → iProp Σ) : Prop := {
  #[global] owned_Mono :: Mono R;
  owned_holds t v : O t v ⊢ holds (λ m, R m t v)
}.
(** [into] returns a copy whose cells are owned, from any heap in which its
    argument stands for [v]. *)
Class Copies {T V : Type} (R : heap cell → T → V → Prop) (O : T → V → iProp Σ) (into : T → prog T) : Prop :=
  copies_run σ t v : R σ t v → frozen σ -∗ wp (into t) (returning (λ t', O t' v)).

(** A type without pointers. *)
#[export] Instance plain_owned T : Owned (λ _, eq) (λ t v : T, ⌜t = v⌝%I).
Proof. split; [apply _|]. iIntros (t v ->). by iApply holds_True. Qed.
#[export] Instance plain_copies T : Copies (λ _, eq) (λ t v : T, ⌜t = v⌝%I) mret.
Proof. iIntros (σ t v ->) "_". by iApply wp_ret. Qed.

Section owned.
Context {T V : Type} {R : heap cell → T → V → Prop} {O : T → V → iProp Σ}.
Context `{HO : !Owned R O}.

#[export] Instance ptr_owned `{!Stored cell T} : Owned (reads_ptr R) (owns_ptr O).
Proof using HO.
  split; [apply _|].
  iIntros ([l|] [v|]); simpl; try iIntros "[]"; [|by iIntros "_"; iApply holds_True].
  iIntros "(%t & Hl & Ht)". iDestruct (holds_cell with "Hl") as "Hl".
  iDestruct (owned_holds with "Ht") as "Ht".
  iDestruct (holds_and with "Hl Ht") as "H"; [apply monotone_cell|apply mono|].
  iApply (holds_weaken with "H"). eauto.
Qed.

#[export] Instance slice_owned `{!Stored cell (list T)} : Owned (reads_slice R) (owns_slice O).
Proof using HO.
  split; [apply _|].
  iIntros ([h|] vs); simpl; [|iIntros (->); by iApply holds_True].
  iIntros "(%ts & Hl & [%Ho %Hn] & Hts)". iDestruct (big_sepL2_length with "Hts") as %Hlen.
  iDestruct (holds_cell with "Hl") as "Hl".
  iDestruct (big_sepL2_mono _ (λ _ t v, holds (λ m, R m t v)) with "Hts") as "Hts".
  { intros. apply owned_holds. }
  iDestruct (holds_list2 with "Hts") as "Hts"; [intros; apply mono|].
  iDestruct (holds_and with "Hl Hts") as "H".
  { apply monotone_cell. }
  { apply monotone_Forall2. intros; apply mono. }
  iApply (holds_weaken with "H"). intros m [Hl Hts]. exists ts. rewrite Ho Hn drop_0 firstn_all.
  split_and!; [done|lia|done].
Qed.

#[export] Instance map_owned `{!Stored cell (gmap string T)} : Owned (reads_map R) (owns_map O).
Proof using HO.
  split; [apply _|].
  iIntros ([l|] m); simpl; [|iIntros (->); by iApply holds_True].
  iIntros "(%tm & Hl & Hts)". iDestruct (holds_cell with "Hl") as "Hl".
  iDestruct (big_sepM2_mono _ (λ _ t v, holds (λ m, R m t v)) with "Hts") as "Hts".
  { intros. apply owned_holds. }
  iDestruct (holds_map2 with "Hts") as "Hts"; [intros; apply mono|].
  iDestruct (holds_and with "Hl Hts") as "H".
  { apply monotone_cell. }
  { apply monotone_map_Forall2. intros; apply mono. }
  iApply (holds_weaken with "H"). intros ? []. by exists tm.
Qed.
End owned.

Section copies.
Context {T V : Type} {R : heap cell → T → V → Prop} {O : T → V → iProp Σ} {into : T → prog T}.
Context `{HC : !Copies R O into}.

#[export] Instance ptr_copies `{!Stored cell T} zero : Copies (reads_ptr R) (owns_ptr O) (copy_ptr zero into).
Proof using HC.
  iIntros (σ [l|] [v|]) "%HR #F"; simpl in *; try done; [|by iApply wp_ret].
  destruct HR as (t & Hl & Ht). iApply wp_bind. iApply wp_new. iIntros (l') "Hl'".
  iApply wp_bind. iApply (wp_load_frozen with "F"); [done|].
  iApply (wp_step); [by iApply (copies_run with "F")|]. iIntros (t') "Ht'".
  iApply wp_bind. iApply (wp_store with "Hl'"). iIntros "Hl'".
  iApply wp_ret; simpl. iExists t'. iFrame.
Qed.

#[export] Instance slice_copies `{!Stored cell (list T)} zero : Copies (reads_slice R) (owns_slice O) (copy_slice zero into).
Proof using HC.
  iIntros (σ [h|] vs) "%HR #F"; simpl in *; [|by iApply wp_ret].
  destruct HR as (ts & Hl & Hlen & HR). iApply wp_bind. iApply wp_new. iIntros (arr) "Harr".
  iApply (wp_step with "[Harr]").
  - iApply (wp_for_each _ _ (λ i, ∃ ts', arr ↦ ts' ∗ ⌜length ts' = sl_len h⌝ ∗
      [∗ list] t; v ∈ take i ts'; take i vs, O t v)%I with "[Harr]").
    { iExists _. iFrame. rewrite length_replicate /=. done. }
    iIntros "!>" (i j [-> Hj]%lookup_seq) "(%ts' & Harr & %Hn & Hts)"; simpl.
    assert (is_Some (ts !! (sl_off h + i))) as [t Ht] by (apply lookup_lt_is_Some; lia).
    destruct (Forall2_lookup_l _ _ _ i t HR) as (v & Hv & HRv).
    { by rewrite lookup_take_lt // lookup_drop. }
    iApply wp_bind. iApply (wp_index_frozen with "F"); [done..|].
    iApply wp_step; [by iApply (copies_run with "F")|]. iIntros (t') "Ht'".
    iApply (wp_set_index {| sl_arr := arr; sl_off := 0; sl_len := sl_len h |} with "Harr"); [done|].
    iIntros "Harr". iExists _. iFrame "Harr". rewrite length_insert. iSplit; [done|].
    rewrite (take_S_r _ _ t'); [|rewrite list_lookup_insert_eq; [done|simpl; lia]].
    rewrite (take_S_r _ _ _ Hv) take_insert_ge; [|simpl; lia].
    iApply (big_sepL2_app with "Hts"). by iFrame.
  - rewrite length_seq. iIntros (_) "(%ts' & Harr & %Hn & Hts)". iApply wp_ret.
    iExists ts'. iFrame "Harr". simpl. apply Forall2_length in HR.
    rewrite length_take length_drop in HR.
    rewrite firstn_all2; [|lia]. rewrite firstn_all2; [|lia]. by iFrame.
Qed.

#[export] Instance map_copies `{!Stored cell (gmap string T)} ρ : Copies (reads_map R) (owns_map O) (copy_map ρ into).
Proof using HC.
  iIntros (σ [l|] m) "%HR #F"; simpl in *; [|by iApply wp_ret].
  destruct HR as (tm & Hl & HR). iApply wp_bind. iApply wp_new. iIntros (l') "Hl'".
  iApply wp_bind. iApply (wp_load_frozen with "F"); [done|].
  iApply (wp_step with "[Hl']").
  - iApply (wp_for_each _ _ (λ i, ∃ tm' : gmap string T, l' ↦ tm' ∗
      [∗ map] t; v ∈ tm'; visited (range ρ tm) i m, O t v)%I with "[Hl']").
    { iExists ∅. iFrame. by rewrite visited_0. }
    iIntros "!>" (i [k t] Hi) "(%tm' & Hl' & Hts)".
    assert (tm !! k = Some t) as Hk.
    { by apply (elem_of_range ρ), list_elem_of_lookup_2 with i. }
    specialize (HR k) as HRk. rewrite Hk in HRk. inversion HRk as [? v HRv Ht Hv|]; simplify_eq.
    iApply wp_step; [by iApply (copies_run with "F")|]. iIntros (t') "Ht'".
    iApply wp_bind. iApply (wp_load with "Hl'"). iIntros "Hl'".
    iApply (wp_store with "Hl'"). iIntros "Hl'". iExists _. iFrame "Hl'".
    rewrite (visited_S _ _ k t m v) //. iApply (big_sepM2_insert_2 with "[Ht'] Hts"). iFrame.
  - iIntros (_) "(%tm' & Hl' & Hts)". iApply wp_ret. simpl. iExists _. iFrame.
    rewrite visited_all //. intros k [v Hv]. specialize (HR k). rewrite Hv in HR.
    inversion HR as [t ? Ht|]; simplify_eq. apply list_elem_of_fmap. exists (k, t).
    by rewrite elem_of_range.
Qed.
End copies.
End logic.

(** ** Adequacy *)
Definition memΣ (cell : Type) : gFunctors := #[ghost_mapΣ loc cell].
#[export] Instance memΣ_ghost_map cell : ghost_mapG (memΣ cell) loc cell.
Proof. unfold memΣ. apply _. Qed.
(** One step of a struct's copy: the field's copy, by its class. *)
Ltac copy_field F t H :=
  iApply wp_step; [by iApply (copies_run with F)|]; iIntros (t) H.
(** The fields of a struct are a conjunction on both sides. *)
Ltac solve_holds := first [reflexivity|by apply owned_holds|by apply holds_pure|
  apply holds_sep; [solve_holds|solve_holds|solve_monotone|solve_monotone]].

(** What holds in the logic of a run that may read the cells of [σ] but owns
    none of them holds of the run from [σ]: the old cells are intact and the
    assertion's cells are new ones. *)
Lemma adequacy {cell A} (m : M (heap cell) A) (σ : heap cell) (φ : res A → heap cell → Prop) :
  (∀ r, monotone (φ r)) →
  (∀ `{!memG cell (memΣ cell)}, frozen σ ⊢ wp m (λ r, holds (φ r))) →
  ∃ r m', m σ = (r, m' ∪ σ) ∧ m' ##ₘ σ ∧ φ r m'.
Proof.
  intros Hφ H. apply (pure_soundness (PROP := iPropI (memΣ cell))), uPred.bupd_soundness; [apply _|].
  iMod (ghost_map_alloc σ) as (γ) "[Hσ Hcells]". pose (G := MemG cell _ _ γ).
  iAssert (|==> [∗ map] l ↦ c ∈ σ, l ↪[γ]□ c)%I with "[Hcells]" as ">#Hcells".
  { iApply big_sepM_bupd. iApply (big_sepM_mono with "Hcells"). iIntros (l c _) "Hl".
    by iApply ghost_map_elem_persist. }
  iMod (H G with "[] Hσ") as (r σ' E) "[Hσ Hr]".
  { iIntros "!>" (l c Hl). by iApply (big_sepM_lookup with "Hcells"). }
  iDestruct "Hr" as "(%m0 & Hm & %Hm0)".
  iDestruct (ghost_map_lookup_big with "Hσ Hm") as %Hsub.
  iDestruct (ghost_map_lookup_big with "Hσ Hcells") as %Hold.
  iAssert ⌜m0 ##ₘ σ⌝%I as %Hd.
  { iIntros (l). destruct (m0 !! l) as [c1|] eqn:E1, (σ !! l) as [c2|] eqn:E2; try done.
    iDestruct (big_sepM_lookup with "Hm") as "H1"; [done|].
    iDestruct (big_sepM_lookup with "Hcells") as "H2"; [done|].
    iDestruct (ghost_map_elem_ne with "H1 H2") as %?. done. }
  iPureIntro. assert (σ' ∖ σ ##ₘ σ) as Hnew by by apply map_disjoint_difference_l1.
  exists r, (σ' ∖ σ). split_and!.
  - rewrite E map_union_comm; [by rewrite map_difference_union|done].
  - done.
  - eapply Hφ, Hm0. apply map_subseteq_spec. intros l c Hl.
    rewrite lookup_difference. rewrite (map_disjoint_Some_l _ _ _ _ Hd Hl).
    by eapply lookup_weaken.
Qed.
Notation "l ↦ t" := (points_to l t) (at level 20) : bi_scope.

(** A copy verified in the logic meets the contract. *)
Lemma copies_deep_copies {cell T V} (R : heap cell → T → V → Prop) (copy : T → M (heap cell) T) :
  Mono R → (∀ `{!memG cell (memΣ cell)}, ∃ O, Owned R O ∧ Copies R O copy) → deep_copies R copy.
Proof.
  intros HR H σ t v Hv.
  destruct (adequacy (copy t) σ (λ r m, ∃ t', r = Ok t' ∧ R m t' v)) as (r & m & E & Hd & t' & -> & Ht').
  - intros r σ1 σ2 ? (t' & ? & ?). exists t'. split; [done|by eapply mono].
  - iIntros (G) "#F". destruct (H G) as (O & HO & HC).
    iApply (wp_wand with "[]"); [by iApply (copies_run with "F")|].
    iIntros ([t'|e]) "H"; [|done]. iApply holds_weaken; [|by iApply owned_holds]. eauto.
  - eauto.
Qed.

(** A copy known by its contract alone can be used in the logic. *)
Section contract.
Context {cell : Type} `{!memG cell Σ} {T V : Type} (R : heap cell → T → V → Prop) (copy : T → M (heap cell) T).
Context `{!Mono R} (Hcopy : deep_copies R copy).

Lemma contract_owned : Owned R (λ t v, holds (λ m, R m t v)).
Proof using Type*. by split. Qed.
Lemma contract_copies : Copies R (λ t v, holds (λ m, R m t v)) copy.
Proof using Type*.
  iIntros (σ t v Hv) "#F %σ' Hσ".
  iAssert ⌜σ ⊆ σ'⌝%I as %Hsub.
  { rewrite map_subseteq_spec. iIntros (l c Hl). iDestruct ("F" $! l c Hl) as "Hl".
    by iDestruct (ghost_map_lookup with "Hσ Hl") as %?. }
  destruct (Hcopy σ' t v) as (t' & m & E & Hd & Ht'); [by eapply mono|].
  iMod (ghost_map_insert_big m with "Hσ") as "[Hσ Hm]"; [done|].
  iModIntro. iExists _, _. iFrame "Hσ". iSplit; [done|]. iExists m. by iFrame.
Qed.
End contract.
