(* ===== verification/DeepCopy.v ===== *)
(** * The generated deep copies (zz_generated.deepcopy.go)

    The API types as they lie in memory ([m_] fields: pointers, slices and maps
    are references), every generated DeepCopyInto, DeepCopy and DeepCopyObject,
    and the contract they all meet: a copy stands for the same value, in cells
    of its own. metav1's own types are a class with their copies' contract. *)
From S2P Require Import Prelude Memory Api.
From iris.base_logic.lib Require Import ghost_map.
From iris.proofmode Require Import proofmode.
From stdpp Require Import options.

(** ** The types in memory *)
Record AuthQuerySpec_mem : Type := {
  m_aq_User : string;
  m_aq_Query : string;
  m_aq_PasswordSecretRef : ptr SecretKeySelector;
  m_aq_Database : string;
  m_aq_PoolSize : ptr Z
}.
Record UserSpec_mem : Type := {
  m_us_Username : string;
  m_us_PasswordSecretRef : SecretKeySelector;
  m_us_PoolSize : ptr Z
}.
Record PoolSpec_mem : Type := {
  m_ps_PoolMode : string;
  m_ps_DefaultPoolSize : ptr Z;
  m_ps_AuthQuery : ptr AuthQuerySpec_mem;
  m_ps_Users : slice UserSpec_mem
}.
Record GeneralSpec_mem : Type := {
  m_gs_MaxConnections : ptr Z;
  m_gs_WorkerThreads : ptr Z;
  m_gs_ConnectTimeout : string;
  m_gs_IdleTimeout : string;
  m_gs_ServerLifetime : string;
  m_gs_ShutdownTimeout : string;
  m_gs_AdminUsername : string;
  m_gs_AdminPasswordSecretRef : ptr SecretKeySelector
}.
Record PrometheusSpec_mem : Type := { m_pr_Enabled : ptr bool }.
Record PgDoormanSpec_mem : Type := {
  m_ClusterRef : string;
  m_Pools : ptr (gmap string PoolSpec_mem);
  m_General : ptr GeneralSpec_mem;
  m_Prometheus : ptr PrometheusSpec_mem
}.

(** metav1: its object metadata, list metadata and conditions, as stored ([_mem])
    and as values, what else they keep in memory ([meta_cell]), and their
    DeepCopyInto. [TypeMeta] is two strings. *)
Class Metav1 : Type := {
  ObjectMeta_mem : Type; ListMeta_mem : Type; Condition_mem : Type; meta_cell : Type;
  zero_ObjectMeta : ObjectMeta_mem; zero_ListMeta : ListMeta_mem; zero_Condition : Condition_mem;
  ObjectMeta : Type; ListMeta : Type; Condition : Type
}.
Record TypeMeta : Type := { Kind : string; APIVersion : string }.

Section memory.
Context `{Metav1}.

Record PgDoormanStatus_mem : Type := {
  m_ObservedGeneration : Z;
  m_Conditions : slice Condition_mem
}.
Record PgDoorman_mem : Type := {
  m_TypeMeta : TypeMeta;
  m_ObjectMeta : ObjectMeta_mem;
  m_Spec : PgDoormanSpec_mem;
  m_Status : PgDoormanStatus_mem
}.
Record PgDoormanList_mem : Type := {
  m_list_TypeMeta : TypeMeta;
  m_ListMeta : ListMeta_mem;
  m_Items : slice PgDoorman_mem
}.

(** The values they stand for. *)
Record PgDoormanStatus : Type := { ObservedGeneration : Z; Conditions : list Condition }.
Record PgDoorman : Type := {
  pd_TypeMeta : TypeMeta; pd_ObjectMeta : ObjectMeta; Spec : PgDoormanSpec; Status : PgDoormanStatus
}.
Record PgDoormanList : Type := { list_TypeMeta : TypeMeta; list_ListMeta : ListMeta; Items : list PgDoorman }.

(** A cell holds a variable of one of the types the copies allocate. *)
Inductive cell : Type :=
  | CInt (n : Z)
  | CBool (b : bool)
  | CRef (r : SecretKeySelector)
  | CAuthQuery (a : AuthQuerySpec_mem)
  | CUser (u : UserSpec_mem)
  | CUsers (us : list UserSpec_mem)
  | CPool (p : PoolSpec_mem)
  | CPools (ps : gmap string PoolSpec_mem)
  | CGeneral (g : GeneralSpec_mem)
  | CPrometheus (p : PrometheusSpec_mem)
  | CSpec (s : PgDoormanSpec_mem)
  | CConditions (cs : list Condition_mem)
  | CStatus (s : PgDoormanStatus_mem)
  | CPgDoorman (pd : PgDoorman_mem)
  | CPgDoormans (pds : list PgDoorman_mem)
  | CPgDoormanList (l : PgDoormanList_mem)
  | CMeta (c : meta_cell).

#[export] Program Instance stored_int : Stored cell Z :=
  {| put := CInt; get c := match c with CInt n => Some n | _ => None end |}.
Solve Obligations with done.
#[export] Program Instance stored_bool : Stored cell bool :=
  {| put := CBool; get c := match c with CBool b => Some b | _ => None end |}.
Solve Obligations with done.
#[export] Program Instance stored_ref : Stored cell SecretKeySelector :=
  {| put := CRef; get c := match c with CRef r => Some r | _ => None end |}.
Solve Obligations with done.
#[export] Program Instance stored_authQuery : Stored cell AuthQuerySpec_mem :=
  {| put := CAuthQuery; get c := match c with CAuthQuery a => Some a | _ => None end |}.
Solve Obligations with done.
#[export] Program Instance stored_user : Stored cell UserSpec_mem :=
  {| put := CUser; get c := match c with CUser u => Some u | _ => None end |}.
Solve Obligations with done.
#[export] Program Instance stored_users : Stored cell (list UserSpec_mem) :=
  {| put := CUsers; get c := match c with CUsers us => Some us | _ => None end |}.
Solve Obligations with done.
#[export] Program Instance stored_pool : Stored cell PoolSpec_mem :=
  {| put := CPool; get c := match c with CPool p => Some p | _ => None end |}.
Solve Obligations with done.
#[export] Program Instance stored_pools : Stored cell (gmap string PoolSpec_mem) :=
  {| put := CPools; get c := match c with CPools ps => Some ps | _ => None end |}.
Solve Obligations with done.
#[export] Program Instance stored_general : Stored cell GeneralSpec_mem :=
  {| put := CGeneral; get c := match c with CGeneral g => Some g | _ => None end |}.
Solve Obligations with done.
#[export] Program Instance stored_prometheus : Stored cell PrometheusSpec_mem :=
  {| put := CPrometheus; get c := match c with CPrometheus p => Some p | _ => None end |}.
Solve Obligations with done.
#[export] Program Instance stored_spec : Stored cell PgDoormanSpec_mem :=
  {| put := CSpec; get c := match c with CSpec s => Some s | _ => None end |}.
Solve Obligations with done.
#[export] Program Instance stored_conditions : Stored cell (list Condition_mem) :=
  {| put := CConditions; get c := match c with CConditions cs => Some cs | _ => None end |}.
Solve Obligations with done.
#[export] Program Instance stored_status : Stored cell PgDoormanStatus_mem :=
  {| put := CStatus; get c := match c with CStatus s => Some s | _ => None end |}.
Solve Obligations with done.
#[export] Program Instance stored_pgdoorman : Stored cell PgDoorman_mem :=
  {| put := CPgDoorman; get c := match c with CPgDoorman pd => Some pd | _ => None end |}.
Solve Obligations with done.
#[export] Program Instance stored_pgdoormans : Stored cell (list PgDoorman_mem) :=
  {| put := CPgDoormans; get c := match c with CPgDoormans pds => Some pds | _ => None end |}.
Solve Obligations with done.
#[export] Program Instance stored_list : Stored cell PgDoormanList_mem :=
  {| put := CPgDoormanList; get c := match c with CPgDoormanList l => Some l | _ => None end |}.
Solve Obligations with done.
End memory.

(** The zero values [new] and [make] start from. *)
Definition zero_ref : SecretKeySelector := {| ref_Name := ""; ref_Key := "" |}.
Definition zero_AuthQuerySpec : AuthQuerySpec_mem :=
  {| m_aq_User := ""; m_aq_Query := ""; m_aq_PasswordSecretRef := None; m_aq_Database := "";
     m_aq_PoolSize := None |}.
Definition zero_UserSpec : UserSpec_mem :=
  {| m_us_Username := ""; m_us_PasswordSecretRef := zero_ref; m_us_PoolSize := None |}.
Definition zero_PoolSpec : PoolSpec_mem :=
  {| m_ps_PoolMode := ""; m_ps_DefaultPoolSize := None; m_ps_AuthQuery := None; m_ps_Users := None |}.
Definition zero_GeneralSpec : GeneralSpec_mem :=
  {| m_gs_MaxConnections := None; m_gs_WorkerThreads := None; m_gs_ConnectTimeout := "";
     m_gs_IdleTimeout := ""; m_gs_ServerLifetime := ""; m_gs_ShutdownTimeout := "";
     m_gs_AdminUsername := ""; m_gs_AdminPasswordSecretRef := None |}.
Definition zero_PrometheusSpec : PrometheusSpec_mem := {| m_pr_Enabled := None |}.
Definition zero_PgDoormanSpec : PgDoormanSpec_mem :=
  {| m_ClusterRef := ""; m_Pools := None; m_General := None; m_Prometheus := None |}.
Definition zero_PgDoormanStatus `{Metav1} : PgDoormanStatus_mem :=
  {| m_ObservedGeneration := 0; m_Conditions := None |}.
Definition zero_PgDoorman `{Metav1} : PgDoorman_mem :=
  {| m_TypeMeta := {| Kind := ""; APIVersion := "" |}; m_ObjectMeta := zero_ObjectMeta;
     m_Spec := zero_PgDoormanSpec; m_Status := zero_PgDoormanStatus |}.
Definition zero_PgDoormanList `{Metav1} : PgDoormanList_mem :=
  {| m_list_TypeMeta := {| Kind := ""; APIVersion := "" |}; m_ListMeta := zero_ListMeta; m_Items := None |}.

(** metav1's own DeepCopyInto methods, and what its types stand for. *)
Class Metav1Copies `{Metav1} : Type := {
  ObjectMeta_DeepCopyInto : ObjectMeta_mem → M (heap cell) ObjectMeta_mem;
  ListMeta_DeepCopyInto : ListMeta_mem → M (heap cell) ListMeta_mem;
  Condition_DeepCopyInto : Condition_mem → M (heap cell) Condition_mem;
  reads_ObjectMeta : heap cell → ObjectMeta_mem → ObjectMeta → Prop;
  reads_ListMeta : heap cell → ListMeta_mem → ListMeta → Prop;
  reads_Condition : heap cell → Condition_mem → Condition → Prop
}.
(** What is documented of them: they are deep copies too. *)
Class Metav1Laws `{Metav1Copies} : Prop := {
  ObjectMeta_mono t v : monotone (λ σ, reads_ObjectMeta σ t v);
  ListMeta_mono t v : monotone (λ σ, reads_ListMeta σ t v);
  Condition_mono t v : monotone (λ σ, reads_Condition σ t v);
  ObjectMeta_copies : deep_copies reads_ObjectMeta ObjectMeta_DeepCopyInto;
  ListMeta_copies : deep_copies reads_ListMeta ListMeta_DeepCopyInto;
  Condition_copies : deep_copies reads_Condition Condition_DeepCopyInto
}.

(** ** The methods

    A DeepCopyInto is given what [in] points to and returns what it leaves in
    [out], which starts as a copy of the struct; DeepCopy is [copy_ptr]. *)
Section methods.
Context `{Metav1}.
Abbreviation prog A := (M (heap cell) A).

Definition AuthQuerySpec_DeepCopyInto (a : AuthQuerySpec_mem) : prog AuthQuerySpec_mem :=
  r ← copy_ptr zero_ref mret (m_aq_PasswordSecretRef a);
  n ← copy_ptr 0%Z mret (m_aq_PoolSize a);
  mret {| m_aq_User := m_aq_User a; m_aq_Query := m_aq_Query a; m_aq_PasswordSecretRef := r;
          m_aq_Database := m_aq_Database a; m_aq_PoolSize := n |}.
Definition AuthQuerySpec_DeepCopy : ptr AuthQuerySpec_mem → prog (ptr AuthQuerySpec_mem) :=
  copy_ptr zero_AuthQuerySpec AuthQuerySpec_DeepCopyInto.

Definition GeneralSpec_DeepCopyInto (g : GeneralSpec_mem) : prog GeneralSpec_mem :=
  mc ← copy_ptr 0%Z mret (m_gs_MaxConnections g);
  wt ← copy_ptr 0%Z mret (m_gs_WorkerThreads g);
  r ← copy_ptr zero_ref mret (m_gs_AdminPasswordSecretRef g);
  mret {| m_gs_MaxConnections := mc; m_gs_WorkerThreads := wt;
          m_gs_ConnectTimeout := m_gs_ConnectTimeout g; m_gs_IdleTimeout := m_gs_IdleTimeout g;
          m_gs_ServerLifetime := m_gs_ServerLifetime g; m_gs_ShutdownTimeout := m_gs_ShutdownTimeout g;
          m_gs_AdminUsername := m_gs_AdminUsername g; m_gs_AdminPasswordSecretRef := r |}.
Definition GeneralSpec_DeepCopy : ptr GeneralSpec_mem → prog (ptr GeneralSpec_mem) :=
  copy_ptr zero_GeneralSpec GeneralSpec_DeepCopyInto.

Definition PrometheusSpec_DeepCopyInto (p : PrometheusSpec_mem) : prog PrometheusSpec_mem :=
  b ← copy_ptr false mret (m_pr_Enabled p);
  mret {| m_pr_Enabled := b |}.
Definition PrometheusSpec_DeepCopy : ptr PrometheusSpec_mem → prog (ptr PrometheusSpec_mem) :=
  copy_ptr zero_PrometheusSpec PrometheusSpec_DeepCopyInto.

Definition UserSpec_DeepCopyInto (u : UserSpec_mem) : prog UserSpec_mem :=
  n ← copy_ptr 0%Z mret (m_us_PoolSize u);
  mret {| m_us_Username := m_us_Username u; m_us_PasswordSecretRef := m_us_PasswordSecretRef u;
          m_us_PoolSize := n |}.
Definition UserSpec_DeepCopy : ptr UserSpec_mem → prog (ptr UserSpec_mem) :=
  copy_ptr zero_UserSpec UserSpec_DeepCopyInto.

Definition PoolSpec_DeepCopyInto (p : PoolSpec_mem) : prog PoolSpec_mem :=
  n ← copy_ptr 0%Z mret (m_ps_DefaultPoolSize p);
  aq ← copy_ptr zero_AuthQuerySpec AuthQuerySpec_DeepCopyInto (m_ps_AuthQuery p);
  us ← copy_slice zero_UserSpec UserSpec_DeepCopyInto (m_ps_Users p);
  mret {| m_ps_PoolMode := m_ps_PoolMode p; m_ps_DefaultPoolSize := n; m_ps_AuthQuery := aq;
          m_ps_Users := us |}.
Definition PoolSpec_DeepCopy : ptr PoolSpec_mem → prog (ptr PoolSpec_mem) :=
  copy_ptr zero_PoolSpec PoolSpec_DeepCopyInto.

(** [*val.DeepCopy()] of the loop variable [val]. *)
Definition PoolSpec_copied (val : PoolSpec_mem) : prog PoolSpec_mem :=
  l ← new val;
  p ← PoolSpec_DeepCopy (Some l);
  l' ← deref p;
  load l'.

Definition PgDoormanSpec_DeepCopyInto (ρ : ranger) (s : PgDoormanSpec_mem) : prog PgDoormanSpec_mem :=
  ps ← copy_map ρ PoolSpec_copied (m_Pools s);
  g ← copy_ptr zero_GeneralSpec GeneralSpec_DeepCopyInto (m_General s);
  p ← copy_ptr zero_PrometheusSpec PrometheusSpec_DeepCopyInto (m_Prometheus s);
  mret {| m_ClusterRef := m_ClusterRef s; m_Pools := ps; m_General := g; m_Prometheus := p |}.
Definition PgDoormanSpec_DeepCopy (ρ : ranger) : ptr PgDoormanSpec_mem → prog (ptr PgDoormanSpec_mem) :=
  copy_ptr zero_PgDoormanSpec (PgDoormanSpec_DeepCopyInto ρ).

Context `{!Metav1Copies}.

Definition PgDoormanStatus_DeepCopyInto (s : PgDoormanStatus_mem) : prog PgDoormanStatus_mem :=
  cs ← copy_slice zero_Condition Condition_DeepCopyInto (m_Conditions s);
  mret {| m_ObservedGeneration := m_ObservedGeneration s; m_Conditions := cs |}.
Definition PgDoormanStatus_DeepCopy : ptr PgDoormanStatus_mem → prog (ptr PgDoormanStatus_mem) :=
  copy_ptr zero_PgDoormanStatus PgDoormanStatus_DeepCopyInto.

Definition PgDoorman_DeepCopyInto (ρ : ranger) (pd : PgDoorman_mem) : prog PgDoorman_mem :=
  om ← ObjectMeta_DeepCopyInto (m_ObjectMeta pd);
  spec ← PgDoormanSpec_DeepCopyInto ρ (m_Spec pd);
  status ← PgDoormanStatus_DeepCopyInto (m_Status pd);
  mret {| m_TypeMeta := m_TypeMeta pd; m_ObjectMeta := om; m_Spec := spec; m_Status := status |}.
Definition PgDoorman_DeepCopy (ρ : ranger) : ptr PgDoorman_mem → prog (ptr PgDoorman_mem) :=
  copy_ptr zero_PgDoorman (PgDoorman_DeepCopyInto ρ).

Definition PgDoormanList_DeepCopyInto (ρ : ranger) (l : PgDoormanList_mem) : prog PgDoormanList_mem :=
  lm ← ListMeta_DeepCopyInto (m_ListMeta l);
  items ← copy_slice zero_PgDoorman (PgDoorman_DeepCopyInto ρ) (m_Items l);
  mret {| m_list_TypeMeta := m_list_TypeMeta l; m_ListMeta := lm; m_Items := items |}.
Definition PgDoormanList_DeepCopy (ρ : ranger) : ptr PgDoormanList_mem → prog (ptr PgDoormanList_mem) :=
  copy_ptr zero_PgDoormanList (PgDoormanList_DeepCopyInto ρ).

(** A non-nil [runtime.Object]: its dynamic type and the pointer. *)
Inductive Object : Type :=
  | ObjPgDoorman (p : ptr PgDoorman_mem)
  | ObjPgDoormanList (p : ptr PgDoormanList_mem).

(** [if c := in.DeepCopy(); c != nil { return c }; return nil]: a nil pointer
    becomes a nil interface, not an interface that holds a nil pointer. *)
Definition PgDoorman_DeepCopyObject (ρ : ranger) (p : ptr PgDoorman_mem) : prog (option Object) :=
  c ← PgDoorman_DeepCopy ρ p;
  mret (match c with Some _ => Some (ObjPgDoorman c) | None => None end).
Definition PgDoormanList_DeepCopyObject (ρ : ranger) (p : ptr PgDoormanList_mem) : prog (option Object) :=
  c ← PgDoormanList_DeepCopy ρ p;
  mret (match c with Some _ => Some (ObjPgDoormanList c) | None => None end).
End methods.

(** ** What the structs stand for *)
Section representation.
Context `{Metav1}.
Abbreviation plain := (λ _, eq).

Definition reads_AuthQuerySpec (σ : heap cell) (t : AuthQuerySpec_mem) (v : AuthQuerySpec) : Prop :=
  (m_aq_User t = aq_User v ∧ m_aq_Query t = aq_Query v ∧ m_aq_Database t = aq_Database v) ∧
  reads_ptr plain σ (m_aq_PasswordSecretRef t) (aq_PasswordSecretRef v) ∧
  reads_ptr plain σ (m_aq_PoolSize t) (aq_PoolSize v).
Definition reads_UserSpec (σ : heap cell) (t : UserSpec_mem) (v : UserSpec) : Prop :=
  (m_us_Username t = us_Username v ∧ m_us_PasswordSecretRef t = us_PasswordSecretRef v) ∧
  reads_ptr plain σ (m_us_PoolSize t) (us_PoolSize v).
Definition reads_PoolSpec (σ : heap cell) (t : PoolSpec_mem) (v : PoolSpec) : Prop :=
  m_ps_PoolMode t = ps_PoolMode v ∧
  reads_ptr plain σ (m_ps_DefaultPoolSize t) (ps_DefaultPoolSize v) ∧
  reads_ptr reads_AuthQuerySpec σ (m_ps_AuthQuery t) (ps_AuthQuery v) ∧
  reads_slice reads_UserSpec σ (m_ps_Users t) (ps_Users v).
Definition reads_GeneralSpec (σ : heap cell) (t : GeneralSpec_mem) (v : GeneralSpec) : Prop :=
  (m_gs_ConnectTimeout t = gs_ConnectTimeout v ∧ m_gs_IdleTimeout t = gs_IdleTimeout v ∧
   m_gs_ServerLifetime t = gs_ServerLifetime v ∧ m_gs_ShutdownTimeout t = gs_ShutdownTimeout v ∧
   m_gs_AdminUsername t = gs_AdminUsername v) ∧
  reads_ptr plain σ (m_gs_MaxConnections t) (gs_MaxConnections v) ∧
  reads_ptr plain σ (m_gs_WorkerThreads t) (gs_WorkerThreads v) ∧
  reads_ptr plain σ (m_gs_AdminPasswordSecretRef t) (gs_AdminPasswordSecretRef v).
Definition reads_PrometheusSpec (σ : heap cell) (t : PrometheusSpec_mem) (v : PrometheusSpec) : Prop :=
  reads_ptr plain σ (m_pr_Enabled t) (pr_Enabled v).
Definition reads_PgDoormanSpec (σ : heap cell) (t : PgDoormanSpec_mem) (v : PgDoormanSpec) : Prop :=
  m_ClusterRef t = ClusterRef v ∧
  reads_map reads_PoolSpec σ (m_Pools t) (Pools v) ∧
  reads_ptr reads_GeneralSpec σ (m_General t) (General v) ∧
  reads_ptr reads_PrometheusSpec σ (m_Prometheus t) (Prometheus v).

Context `{!Metav1Copies}.
Definition reads_PgDoormanStatus (σ : heap cell) (t : PgDoormanStatus_mem) (v : PgDoormanStatus) : Prop :=
  m_ObservedGeneration t = ObservedGeneration v ∧
  reads_slice reads_Condition σ (m_Conditions t) (Conditions v).
Definition reads_PgDoorman (σ : heap cell) (t : PgDoorman_mem) (v : PgDoorman) : Prop :=
  m_TypeMeta t = pd_TypeMeta v ∧ reads_ObjectMeta σ (m_ObjectMeta t) (pd_ObjectMeta v) ∧
  reads_PgDoormanSpec σ (m_Spec t) (Spec v) ∧ reads_PgDoormanStatus σ (m_Status t) (Status v).
Definition reads_PgDoormanList (σ : heap cell) (t : PgDoormanList_mem) (v : PgDoormanList) : Prop :=
  m_list_TypeMeta t = list_TypeMeta v ∧ reads_ListMeta σ (m_ListMeta t) (list_ListMeta v) ∧
  reads_slice reads_PgDoorman σ (m_Items t) (Items v).
End representation.

(** Go's [runtime.Object] result of a DeepCopyObject on a pointer. *)
Definition reads_object `{Metav1Copies} (σ : heap cell) (o : option Object)
    (v : option (PgDoorman + PgDoormanList)) : Prop :=
  match o, v with
  | None, None => True
  | Some (ObjPgDoorman p), Some (inl pd) => reads_ptr reads_PgDoorman σ p (Some pd)
  | Some (ObjPgDoormanList p), Some (inr l) => reads_ptr reads_PgDoormanList σ p (Some l)
  | _, _ => False
  end.

#[export] Instance reads_AuthQuerySpec_mono `{Metav1} : Mono reads_AuthQuerySpec.
Proof. intros t v. unfold reads_AuthQuerySpec. solve_monotone. Qed.
#[export] Instance reads_UserSpec_mono `{Metav1} : Mono reads_UserSpec.
Proof. intros t v. unfold reads_UserSpec. solve_monotone. Qed.
#[export] Instance reads_PoolSpec_mono `{Metav1} : Mono reads_PoolSpec.
Proof. intros t v. unfold reads_PoolSpec. solve_monotone. Qed.
#[export] Instance reads_GeneralSpec_mono `{Metav1} : Mono reads_GeneralSpec.
Proof. intros t v. unfold reads_GeneralSpec. solve_monotone. Qed.
#[export] Instance reads_PrometheusSpec_mono `{Metav1} : Mono reads_PrometheusSpec.
Proof. intros t v. unfold reads_PrometheusSpec. solve_monotone. Qed.
#[export] Instance reads_PgDoormanSpec_mono `{Metav1} : Mono reads_PgDoormanSpec.
Proof. intros t v. unfold reads_PgDoormanSpec. solve_monotone. Qed.

(** ** The copies in the logic: the same structs, each cell owned *)
Section owned.
Context `{Metav1} `{!memG cell Σ}.
Abbreviation plain := (λ t v, ⌜t = v⌝%I).

Definition owns_AuthQuerySpec (t : AuthQuerySpec_mem) (v : AuthQuerySpec) : iProp Σ :=
  ⌜m_aq_User t = aq_User v ∧ m_aq_Query t = aq_Query v ∧ m_aq_Database t = aq_Database v⌝ ∗
  owns_ptr plain (m_aq_PasswordSecretRef t) (aq_PasswordSecretRef v) ∗
  owns_ptr plain (m_aq_PoolSize t) (aq_PoolSize v).
Definition owns_UserSpec (t : UserSpec_mem) (v : UserSpec) : iProp Σ :=
  ⌜m_us_Username t = us_Username v ∧ m_us_PasswordSecretRef t = us_PasswordSecretRef v⌝ ∗
  owns_ptr plain (m_us_PoolSize t) (us_PoolSize v).
Definition owns_PoolSpec (t : PoolSpec_mem) (v : PoolSpec) : iProp Σ :=
  ⌜m_ps_PoolMode t = ps_PoolMode v⌝ ∗
  owns_ptr plain (m_ps_DefaultPoolSize t) (ps_DefaultPoolSize v) ∗
  owns_ptr owns_AuthQuerySpec (m_ps_AuthQuery t) (ps_AuthQuery v) ∗
  owns_slice owns_UserSpec (m_ps_Users t) (ps_Users v).
Definition owns_GeneralSpec (t : GeneralSpec_mem) (v : GeneralSpec) : iProp Σ :=
  ⌜m_gs_ConnectTimeout t = gs_ConnectTimeout v ∧ m_gs_IdleTimeout t = gs_IdleTimeout v ∧
   m_gs_ServerLifetime t = gs_ServerLifetime v ∧ m_gs_ShutdownTimeout t = gs_ShutdownTimeout v ∧
   m_gs_AdminUsername t = gs_AdminUsername v⌝ ∗
  owns_ptr plain (m_gs_MaxConnections t) (gs_MaxConnections v) ∗
  owns_ptr plain (m_gs_WorkerThreads t) (gs_WorkerThreads v) ∗
  owns_ptr plain (m_gs_AdminPasswordSecretRef t) (gs_AdminPasswordSecretRef v).
Definition owns_PrometheusSpec (t : PrometheusSpec_mem) (v : PrometheusSpec) : iProp Σ :=
  owns_ptr plain (m_pr_Enabled t) (pr_Enabled v).
Definition owns_PgDoormanSpec (t : PgDoormanSpec_mem) (v : PgDoormanSpec) : iProp Σ :=
  ⌜m_ClusterRef t = ClusterRef v⌝ ∗
  owns_map owns_PoolSpec (m_Pools t) (Pools v) ∗
  owns_ptr owns_GeneralSpec (m_General t) (General v) ∗
  owns_ptr owns_PrometheusSpec (m_Prometheus t) (Prometheus v).

#[export] Instance AuthQuerySpec_Owned : Owned reads_AuthQuerySpec owns_AuthQuerySpec.
Proof. split; [apply _|]. intros t v. solve_holds. Qed.
#[export] Instance AuthQuerySpec_Copies :
  Copies reads_AuthQuerySpec owns_AuthQuerySpec AuthQuerySpec_DeepCopyInto.
Proof.
  iIntros (σ t v (? & ? & ?)) "#F". copy_field "F" r "Hr". copy_field "F" n "Hn".
  iApply wp_ret. by iFrame.
Qed.
#[export] Instance UserSpec_Owned : Owned reads_UserSpec owns_UserSpec.
Proof. split; [apply _|]. intros t v. solve_holds. Qed.
#[export] Instance UserSpec_Copies : Copies reads_UserSpec owns_UserSpec UserSpec_DeepCopyInto.
Proof.
  iIntros (σ t v (? & ?)) "#F". copy_field "F" n "Hn".
  iApply wp_ret. by iFrame.
Qed.
#[export] Instance PoolSpec_Owned : Owned reads_PoolSpec owns_PoolSpec.
Proof. split; [apply _|]. intros t v. solve_holds. Qed.
#[export] Instance PoolSpec_Copies : Copies reads_PoolSpec owns_PoolSpec PoolSpec_DeepCopyInto.
Proof.
  iIntros (σ t v (? & ? & ? & ?)) "#F". copy_field "F" n "Hn". copy_field "F" aq "Haq". copy_field "F" us "Hus".
  iApply wp_ret. by iFrame.
Qed.
#[export] Instance GeneralSpec_Owned : Owned reads_GeneralSpec owns_GeneralSpec.
Proof. split; [apply _|]. intros t v. solve_holds. Qed.
#[export] Instance GeneralSpec_Copies : Copies reads_GeneralSpec owns_GeneralSpec GeneralSpec_DeepCopyInto.
Proof.
  iIntros (σ t v (? & ? & ? & ?)) "#F". copy_field "F" mc "Hmc". copy_field "F" wt "Hwt". copy_field "F" r "Hr".
  iApply wp_ret. by iFrame.
Qed.
#[export] Instance PrometheusSpec_Owned : Owned reads_PrometheusSpec owns_PrometheusSpec.
Proof. split; [apply _|]. intros t v. unfold owns_PrometheusSpec. apply (owned_holds (R := reads_ptr (λ _, eq))). Qed.
#[export] Instance PrometheusSpec_Copies : Copies reads_PrometheusSpec owns_PrometheusSpec PrometheusSpec_DeepCopyInto.
Proof.
  iIntros (σ t v ?) "#F". copy_field "F" b "Hb".
  iApply wp_ret. by iFrame.
Qed.

(** The loop variable is a variable of its own: its copy does not alias it. *)
#[export] Instance PoolSpec_copied_Copies : Copies reads_PoolSpec owns_PoolSpec PoolSpec_copied.
Proof.
  iIntros (σ t v Ht) "#F". iApply wp_bind. iApply (wp_new_frozen with "F").
  iIntros (l Hl) "#F'". iApply (wp_step with "[]").
  - iApply (copies_run (R := reads_ptr reads_PoolSpec) _ _ (Some v) with "F'").
    exists t. split; [by rewrite lookup_insert_eq|]. eapply mono, Ht. by apply insert_subseteq.
  - iIntros ([l'|]) "Hl'"; [|done]. iDestruct "Hl'" as "(%t' & Hl' & Ht')".
    iApply wp_bind. iApply wp_ret. iApply (wp_load with "Hl'"). by iIntros "_".
Qed.
#[export] Instance PgDoormanSpec_Owned : Owned reads_PgDoormanSpec owns_PgDoormanSpec.
Proof. split; [apply _|]. intros t v. solve_holds. Qed.
#[export] Instance PgDoormanSpec_Copies ρ :
  Copies reads_PgDoormanSpec owns_PgDoormanSpec (PgDoormanSpec_DeepCopyInto ρ).
Proof.
  iIntros (σ t v (? & ? & ? & ?)) "#F". copy_field "F" ps "Hps". copy_field "F" g "Hg".
  copy_field "F" p "Hp". iApply wp_ret. by iFrame.
Qed.
End owned.

Section object_mono.
#[local] Set Default Proof Using "Type*".
Context `{Metav1Laws}.
#[export] Instance reads_ObjectMeta_mono : Mono reads_ObjectMeta := ObjectMeta_mono.
#[export] Instance reads_ListMeta_mono : Mono reads_ListMeta := ListMeta_mono.
#[export] Instance reads_Condition_mono : Mono reads_Condition := Condition_mono.
#[export] Instance reads_PgDoormanStatus_mono : Mono reads_PgDoormanStatus.
Proof. intros t v. unfold reads_PgDoormanStatus. solve_monotone. Qed.
#[export] Instance reads_PgDoorman_mono : Mono reads_PgDoorman.
Proof. intros t v. unfold reads_PgDoorman. solve_monotone. Qed.
#[export] Instance reads_PgDoormanList_mono : Mono reads_PgDoormanList.
Proof. intros t v. unfold reads_PgDoormanList. solve_monotone. Qed.
End object_mono.

(** Objects with metav1's parts: known by their contract, those are used as if
    they had been verified here. *)
Section owned_objects.
#[local] Set Default Proof Using "Type*".
Context `{Metav1Laws} `{!memG cell Σ}.

Abbreviation owns_meta R := (λ t v, holds (λ m, R m t v)).
Definition owns_PgDoormanStatus (t : PgDoormanStatus_mem) (v : PgDoormanStatus) : iProp Σ :=
  ⌜m_ObservedGeneration t = ObservedGeneration v⌝ ∗
  owns_slice (owns_meta reads_Condition) (m_Conditions t) (Conditions v).
Definition owns_PgDoorman (t : PgDoorman_mem) (v : PgDoorman) : iProp Σ :=
  ⌜m_TypeMeta t = pd_TypeMeta v⌝ ∗ owns_meta reads_ObjectMeta (m_ObjectMeta t) (pd_ObjectMeta v) ∗
  owns_PgDoormanSpec (m_Spec t) (Spec v) ∗ owns_PgDoormanStatus (m_Status t) (Status v).
Definition owns_PgDoormanList (t : PgDoormanList_mem) (v : PgDoormanList) : iProp Σ :=
  ⌜m_list_TypeMeta t = list_TypeMeta v⌝ ∗ owns_meta reads_ListMeta (m_ListMeta t) (list_ListMeta v) ∗
  owns_slice owns_PgDoorman (m_Items t) (Items v).

#[export] Instance ObjectMeta_Owned : Owned reads_ObjectMeta (owns_meta reads_ObjectMeta) :=
  contract_owned _ _ ObjectMeta_copies.
#[export] Instance ListMeta_Owned : Owned reads_ListMeta (owns_meta reads_ListMeta) :=
  contract_owned _ _ ListMeta_copies.
#[export] Instance Condition_Owned : Owned reads_Condition (owns_meta reads_Condition) :=
  contract_owned _ _ Condition_copies.
#[export] Instance ObjectMeta_Copies :
  Copies reads_ObjectMeta (owns_meta reads_ObjectMeta) ObjectMeta_DeepCopyInto :=
  contract_copies _ _ ObjectMeta_copies.
#[export] Instance ListMeta_Copies :
  Copies reads_ListMeta (owns_meta reads_ListMeta) ListMeta_DeepCopyInto :=
  contract_copies _ _ ListMeta_copies.
#[export] Instance Condition_Copies :
  Copies reads_Condition (owns_meta reads_Condition) Condition_DeepCopyInto :=
  contract_copies _ _ Condition_copies.

#[export] Instance PgDoormanStatus_Owned : Owned reads_PgDoormanStatus owns_PgDoormanStatus.
Proof. split; [apply _|]. intros t v. solve_holds. Qed.
#[export] Instance PgDoormanStatus_Copies :
  Copies reads_PgDoormanStatus owns_PgDoormanStatus PgDoormanStatus_DeepCopyInto.
Proof.
  iIntros (σ t v (? & ?)) "#F". copy_field "F" cs "Hcs". iApply wp_ret. by iFrame.
Qed.
#[export] Instance PgDoorman_Owned : Owned reads_PgDoorman owns_PgDoorman.
Proof. split; [apply _|]. intros t v. solve_holds. Qed.
#[export] Instance PgDoorman_Copies ρ : Copies reads_PgDoorman owns_PgDoorman (PgDoorman_DeepCopyInto ρ).
Proof.
  iIntros (σ t v (? & ? & ? & ?)) "#F". copy_field "F" om "Hom". copy_field "F" s "Hs".
  copy_field "F" st "Hst". iApply wp_ret. by iFrame.
Qed.
#[export] Instance PgDoormanList_Owned : Owned reads_PgDoormanList owns_PgDoormanList.
Proof. split; [apply _|]. intros t v. solve_holds. Qed.
#[export] Instance PgDoormanList_Copies ρ :
  Copies reads_PgDoormanList owns_PgDoormanList (PgDoormanList_DeepCopyInto ρ).
Proof.
  iIntros (σ t v (? & ? & ?)) "#F". copy_field "F" lm "Hlm". copy_field "F" its "Hits".
  iApply wp_ret. by iFrame.
Qed.
End owned_objects.

Ltac solve_deep_copies :=
  apply copies_deep_copies; [apply _|]; intros; eexists; split; [|apply _]; apply _.

(** ** The contract *)
Section contract.
Context `{Metav1Laws} (ρ : ranger).

(** A DeepCopyObject on [p], for a type whose objects are tagged by [tag]. *)
Definition copies_object {T V} `{!Stored cell T} (R : heap cell → T → V → Prop)
    (tag : V → PgDoorman + PgDoormanList) (copy : ptr T → M (heap cell) (option Object)) : Prop :=
  ∀ σ p v, reads_ptr R σ p v →
    ∃ o m, copy p σ = (Ok o, m ∪ σ) ∧ m ##ₘ σ ∧ reads_object m o (tag <$> v).

Lemma PgDoorman_DeepCopy_copies : deep_copies (reads_ptr reads_PgDoorman) (PgDoorman_DeepCopy ρ).
Proof using Type*. solve_deep_copies. Qed.
Lemma PgDoormanList_DeepCopy_copies :
  deep_copies (reads_ptr reads_PgDoormanList) (PgDoormanList_DeepCopy ρ).
Proof using Type*. solve_deep_copies. Qed.

(** C12 — Every generated deep copy, of whatever object in whatever heap (pools that
    share a pointer, slices of a larger array, nil maps), returns; what it returns
    stands for the same value and is made of new cells alone, and no cell that was
    there has changed. DeepCopy of a nil pointer is nil, and DeepCopyObject of one
    is a nil interface. *)
Theorem generated_copies_correct :
  deep_copies reads_AuthQuerySpec AuthQuerySpec_DeepCopyInto ∧
  deep_copies (reads_ptr reads_AuthQuerySpec) AuthQuerySpec_DeepCopy ∧
  deep_copies reads_GeneralSpec GeneralSpec_DeepCopyInto ∧
  deep_copies (reads_ptr reads_GeneralSpec) GeneralSpec_DeepCopy ∧
  deep_copies reads_PrometheusSpec PrometheusSpec_DeepCopyInto ∧
  deep_copies (reads_ptr reads_PrometheusSpec) PrometheusSpec_DeepCopy ∧
  deep_copies reads_UserSpec UserSpec_DeepCopyInto ∧
  deep_copies (reads_ptr reads_UserSpec) UserSpec_DeepCopy ∧
  deep_copies reads_PoolSpec PoolSpec_DeepCopyInto ∧
  deep_copies (reads_ptr reads_PoolSpec) PoolSpec_DeepCopy ∧
  deep_copies reads_PgDoormanSpec (PgDoormanSpec_DeepCopyInto ρ) ∧
  deep_copies (reads_ptr reads_PgDoormanSpec) (PgDoormanSpec_DeepCopy ρ) ∧
  deep_copies reads_PgDoormanStatus PgDoormanStatus_DeepCopyInto ∧
  deep_copies (reads_ptr reads_PgDoormanStatus) PgDoormanStatus_DeepCopy ∧
  deep_copies reads_PgDoorman (PgDoorman_DeepCopyInto ρ) ∧
  deep_copies (reads_ptr reads_PgDoorman) (PgDoorman_DeepCopy ρ) ∧
  deep_copies reads_PgDoormanList (PgDoormanList_DeepCopyInto ρ) ∧
  deep_copies (reads_ptr reads_PgDoormanList) (PgDoormanList_DeepCopy ρ) ∧
  copies_object reads_PgDoorman inl (PgDoorman_DeepCopyObject ρ) ∧
  copies_object reads_PgDoormanList inr (PgDoormanList_DeepCopyObject ρ).
Proof using Type*.
  split_and!; try solve_deep_copies.
  - intros σ p v Hp. destruct (PgDoorman_DeepCopy_copies σ p v Hp) as (c & m & E & Hd & Hc).
    exists (match c with Some _ => Some (ObjPgDoorman c) | None => None end), m.
    unfold PgDoorman_DeepCopyObject, mbind, M_bind. rewrite E. split_and!; [done|done|].
    by destruct c, v.
  - intros σ p v Hp. destruct (PgDoormanList_DeepCopy_copies σ p v Hp) as (c & m & E & Hd & Hc).
    exists (match c with Some _ => Some (ObjPgDoormanList c) | None => None end), m.
    unfold PgDoormanList_DeepCopyObject, mbind, M_bind. rewrite E. split_and!; [done|done|].
    by destruct c, v.
Qed.
End contract.

(** ** An instance of metav1

    Objects with a name and labels, lists with a resource version, conditions
    with a type and a status: enough to run the copies. *)
Section sample.
Definition sample_metav1 : Metav1 := {|
  ObjectMeta_mem := string * ptr (gmap string string); ListMeta_mem := string;
  Condition_mem := string * bool; meta_cell := gmap string string;
  zero_ObjectMeta := ("", None); zero_ListMeta := ""; zero_Condition := ("", false);
  ObjectMeta := string * option (gmap string string); ListMeta := string; Condition := string * bool
|}.
#[local] Existing Instance sample_metav1.
#[export] Program Instance stored_labels : Stored cell (gmap string string) :=
  {| put := CMeta; get c := match c with CMeta ls => Some ls | _ => None end |}.
Solve Obligations with done.

Definition sample_copies : Metav1Copies := {|
  ObjectMeta_DeepCopyInto om := ls ← copy_ptr ∅ mret om.2; mret (om.1, ls);
  ListMeta_DeepCopyInto := mret; Condition_DeepCopyInto := mret;
  reads_ObjectMeta σ t v := t.1 = v.1 ∧ reads_ptr (λ _, eq) σ t.2 v.2;
  reads_ListMeta _ := eq; reads_Condition _ := eq
|}.
#[local] Existing Instance sample_copies.

Lemma sample_laws : Metav1Laws.
Proof.
  split.
  - intros t v. apply monotone_and; [apply monotone_const|].
    apply (mono (R := reads_ptr (λ _, @eq (gmap string string)))).
  - by intros t v σ σ' _.
  - by intros t v σ σ' _.
  - intros σ [n ls] [n' ls'] [E Hls]; simpl in *; subst n'.
    assert (deep_copies (reads_ptr (λ _, @eq (gmap string string))) (copy_ptr ∅ mret)) as H.
    { solve_deep_copies. }
    destruct (H σ ls ls' Hls) as (p & m & E & ? & ?). exists (n, p), m.
    unfold mbind, M_bind. rewrite E. by split_and!.
  - intros σ t v ->. exists v, ∅. rewrite map_empty_union.
    split_and!; [done|apply map_disjoint_empty_l|done].
  - intros σ t v ->. exists v, ∅. rewrite map_empty_union.
    split_and!; [done|apply map_disjoint_empty_l|done].
Qed.

(** A PgDoorman whose two pools share an auth query and whose users are the
    middle of a larger array. *)
Definition shared_pool : PoolSpec_mem :=
  {| m_ps_PoolMode := ""; m_ps_DefaultPoolSize := None; m_ps_AuthQuery := Some 3%positive;
     m_ps_Users := Some {| sl_arr := 5%positive; sl_off := 1; sl_len := 1 |} |}.
Definition sample_user (n : string) (p : ptr Z) : UserSpec_mem :=
  {| m_us_Username := n; m_us_PasswordSecretRef := {| ref_Name := n; ref_Key := "password" |};
     m_us_PoolSize := p |}.
Definition sample_heap : heap cell :=
  {[ 1%positive := CSpec {| m_ClusterRef := "pg"; m_Pools := Some 2%positive; m_General := None;
                            m_Prometheus := None |};
     2%positive := CPools {[ "app" := shared_pool; "web" := shared_pool ]};
     3%positive := CAuthQuery {| m_aq_User := "doorman"; m_aq_Query := ""; m_aq_PasswordSecretRef := None;
                                 m_aq_Database := ""; m_aq_PoolSize := Some 4%positive |};
     4%positive := CInt 7;
     5%positive := CUsers [sample_user "a" None; sample_user "b" None; sample_user "c" (Some 4%positive)];
     6%positive := CMeta {[ "app" := "pg" ]};
     7%positive := CPgDoorman {| m_TypeMeta := {| Kind := "PgDoorman"; APIVersion := "v1alpha1" |};
        m_ObjectMeta := ("pg", Some 6%positive);
        m_Spec := {| m_ClusterRef := "pg"; m_Pools := Some 2%positive; m_General := None; m_Prometheus := None |};
        m_Status := {| m_ObservedGeneration := 3; m_Conditions := None |} |} ]}.
Definition sample_pool : PoolSpec :=
  {| ps_PoolMode := ""; ps_DefaultPoolSize := None;
     ps_AuthQuery := Some {| aq_User := "doorman"; aq_Query := ""; aq_PasswordSecretRef := None;
                             aq_Database := ""; aq_PoolSize := Some 7%Z |};
     ps_Users := [{| us_Username := "b"; us_PasswordSecretRef := {| ref_Name := "b"; ref_Key := "password" |};
                     us_PoolSize := None |}] |}.
Definition sample_spec : PgDoormanSpec :=
  {| ClusterRef := "pg"; Pools := {[ "app" := sample_pool; "web" := sample_pool ]};
     General := None; Prometheus := None |}.
Definition sample_pgdoorman : PgDoorman :=
  {| pd_TypeMeta := {| Kind := "PgDoorman"; APIVersion := "v1alpha1" |};
     pd_ObjectMeta := ("pg", Some {[ "app" := "pg" ]}); Spec := sample_spec;
     Status := {| ObservedGeneration := 3; Conditions := [] |} |}.

Lemma shared_pool_reads : reads_PoolSpec sample_heap shared_pool sample_pool.
Proof.
  split_and!; [done|done|..].
  - eexists. split; [by vm_compute|]. split_and!; [done..|]. eexists. split; by vm_compute.
  - eexists. split; [by vm_compute|]. split; [simpl; lia|]. by repeat constructor.
Qed.
Lemma sample_spec_reads :
  reads_PgDoormanSpec sample_heap
    {| m_ClusterRef := "pg"; m_Pools := Some 2%positive; m_General := None; m_Prometheus := None |} sample_spec.
Proof.
  split_and!; [done| |done|done].
  exists {[ "app" := shared_pool; "web" := shared_pool ]}. split; [by vm_compute|].
  unfold sample_spec; simpl. apply map_Forall2_insert_2; [apply shared_pool_reads|].
  apply map_Forall2_singleton, shared_pool_reads.
Qed.
Lemma sample_pgdoorman_reads :
  reads_ptr reads_PgDoorman sample_heap (Some 7%positive) (Some sample_pgdoorman).
Proof.
  eexists. split; [by vm_compute|]. split_and!; [done| |apply sample_spec_reads|done].
  split; [done|]. eexists. by split; [vm_compute|].
Qed.

Lemma generated_copies_correct_witness :
  Metav1Laws ∧
  ∃ p m, PgDoorman_DeepCopy default_ranger (Some 7%positive) sample_heap = (Ok p, m ∪ sample_heap) ∧
    m ##ₘ sample_heap ∧ reads_ptr reads_PgDoorman m p (Some sample_pgdoorman).
Proof.
  split; [apply sample_laws|].
  pose proof (generated_copies_correct (H1 := sample_laws) default_ranger)
    as (_&_&_&_&_&_&_&_&_&_&_&_&_&_&_&Hpd&_).
  apply (Hpd sample_heap _ _ sample_pgdoorman_reads).
Defined.
End sample.
