(* ===== verification/PluginConfig.v ===== *)
(** * Plugin parameters (internal/config)

    [NewFromCluster] reads the parameters of the first enabled entry of the
    plugin in the Cluster, [Validate] checks them, [SetDefaults] writes the two
    port defaults into a parameter map. *)
From S2P Require Import Prelude GoStd Api K8s.
From stdpp Require Import options.
Open Scope Z_scope.

Definition PluginName : string := "pg-doorman.cnpg.io".

Definition DefaultPoolerPort : Z := 6432.
Definition DefaultMetricsPort : Z := 9127.
Definition WrapperHealthPort : Z := 8081.
Definition DefaultSidecarCPURequest : string := "100m".
Definition DefaultSidecarMemoryRequest : string := "128Mi".
Definition DefaultSidecarMemoryLimit : string := "512Mi".
Definition ParamPoolerPort : string := "poolerPort".
Definition ParamMetricsPort : string := "metricsPort".
Definition ParamConfigName : string := "configName".
Definition ParamLogLevel : string := "logLevel".
Definition DefaultLogLevel : string := "info".
Definition ParamInPlaceUpgrades : string := "inPlaceUpgrades".
Definition ParamSidecarCPURequest : string := "sidecarCpuRequest".
Definition ParamSidecarMemoryRequest : string := "sidecarMemoryRequest".
Definition ParamSidecarCPULimit : string := "sidecarCpuLimit".
Definition ParamSidecarMemoryLimit : string := "sidecarMemoryLimit".
Definition ResourceNone : string := "none".
Definition ResourceCPU : string := "cpu".
Definition ResourceMemory : string := "memory".

Section config.
  Context `{Quantities}.

Record PluginConfiguration : Type := {
  Enabled : bool;
  PoolerPort : Z;
  MetricsPort : Z;
  ConfigName : string;
  SidecarImage : string;
  LogLevel : string;
  InPlaceUpgrades : bool;
  cfg_Resources : Resources;
  ParseErrors : list gerr
}.

(** The configuration before any plugin entry is read; [sidecarImage] is the
    value of the [SIDECAR_IMAGE] environment variable. *)
Definition initial_config (sidecarImage : string) : PluginConfiguration :=
  {| Enabled := false; PoolerPort := DefaultPoolerPort; MetricsPort := DefaultMetricsPort;
     ConfigName := ""; SidecarImage := sidecarImage; LogLevel := DefaultLogLevel;
     InPlaceUpgrades := false;
     cfg_Resources := {| Requests := ∅; Limits := ∅ |}; ParseErrors := [] |}.

(** A port parameter: the parsed value, or the current one and an error. *)
Definition parse_port (params : gmap string string) (param : string) (cur : Z) : Z * list gerr :=
  match params !! param with
  | None => (cur, [])
  | Some v =>
      match Atoi v with
      | Some port => (port, [])
      | None => (cur, [Errorf "%s: invalid integer %q" [param; v]])
      end
  end.

Definition parse_bool (params : gmap string string) (param : string) (cur : bool) : bool * list gerr :=
  match params !! param with
  | None => (cur, [])
  | Some v =>
      match ParseBool v with
      | Some b => (b, [])
      | None => (cur, [Errorf "%s: invalid boolean %q" [param; v]])
      end
  end.

(** [setResource]: the resource list and the errors after one parameter. *)
Definition setResource (params : gmap string string) (param : string)
    (rl : gmap string quantity) (name defaultVal : string) (errs : list gerr)
    : gmap string quantity * list gerr :=
  let val := default defaultVal (params !! param) in
  if decide (val = "" ∨ val = ResourceNone) then (rl, errs)
  else match ParseQuantity val with
       | None => (rl, errs ++ [Errorf "%s: invalid quantity %q" [param; val]])
       | Some q => (<[name := q]> rl, errs)
       end.

(** The body of the loop over [spec.plugins] for the entry it stops at. *)
Definition read_plugin (cfg : PluginConfiguration) (params : gmap string string) : PluginConfiguration :=
  let '(pooler, e1) := parse_port params ParamPoolerPort (PoolerPort cfg) in
  let '(metrics, e2) := parse_port params ParamMetricsPort (MetricsPort cfg) in
  let name := default (ConfigName cfg) (params !! ParamConfigName) in
  let level := default (LogLevel cfg) (params !! ParamLogLevel) in
  let '(upgrades, e3) := parse_bool params ParamInPlaceUpgrades (InPlaceUpgrades cfg) in
  let errs := ParseErrors cfg ++ e1 ++ e2 ++ e3 in
  let '(req, errs) := setResource params ParamSidecarCPURequest ∅ ResourceCPU DefaultSidecarCPURequest errs in
  let '(req, errs) := setResource params ParamSidecarMemoryRequest req ResourceMemory DefaultSidecarMemoryRequest errs in
  let '(lim, errs) := setResource params ParamSidecarCPULimit ∅ ResourceCPU "" errs in
  let '(lim, errs) := setResource params ParamSidecarMemoryLimit lim ResourceMemory DefaultSidecarMemoryLimit errs in
  {| Enabled := true; PoolerPort := pooler; MetricsPort := metrics; ConfigName := name;
     SidecarImage := SidecarImage cfg; LogLevel := level; InPlaceUpgrades := upgrades;
     cfg_Resources := {| Requests := req; Limits := lim |}; ParseErrors := errs |}.

Fixpoint scan_plugins (cfg : PluginConfiguration) (plugins : list Plugin) : PluginConfiguration :=
  match plugins with
  | [] => cfg
  | p :: rest =>
      if decide (pl_Name p ≠ PluginName) then scan_plugins cfg rest
      else if decide (pl_Enabled p = Some false) then scan_plugins cfg rest
      else read_plugin cfg (pl_Parameters p)
  end.

Definition NewFromCluster (sidecarImage : string) (cluster : Cluster) : PluginConfiguration :=
  scan_plugins (initial_config sidecarImage) (cl_Plugins cluster).

(** ** Validate *)
Definition reserved : gmap Z string :=
  {[ 5432 := "PostgreSQL"; 8000 := "CNPG instance manager status port";
     9187 := "CNPG metrics exporter"; WrapperHealthPort := "wrapper health endpoint" ]}.

Definition log_levels : list string := [""; "error"; "warn"; "info"; "debug"; "trace"].

Definition check_reserved (entry : string * Z) : res unit :=
  match reserved !! entry.2 with
  | Some owner => Err (Errorf "%s %d conflicts with %s" [entry.1; Itoa entry.2; owner])
  | None => Ok ()
  end.

Definition check_resource (r : Resources) (name : string) : res unit :=
  match Requests r !! name, Limits r !! name with
  | Some req, Some limit =>
      if q_le req limit then Ok ()
      else Err (Errorf "sidecar %s request %s exceeds limit %s" [name; q_String req; q_String limit])
  | _, _ => Ok ()
  end.

Definition guard (b : bool) (e : gerr) : res unit := if b then Err e else Ok ().

Definition port_out_of_range (p : Z) : bool := (p <=? 0) || (65535 <? p).

(** [Validate]: the first failing check is the error; [ρ] is the order of the
    loop over the map of the two ports. *)
Definition Validate (ρ : ranger) (c : PluginConfiguration) : res unit :=
  _ ← match ParseErrors c with
      | [] => Ok ()
      | e :: es => Err (Wrapf "invalid plugin parameters: %s" [] (foldl Joined e es))
      end;
  _ ← guard (bool_decide (ConfigName c = "")) (Errorf "%s is required" [ParamConfigName]);
  _ ← guard (port_out_of_range (PoolerPort c))
        (Errorf "%s must be between 1 and 65535, got %d" [ParamPoolerPort; Itoa (PoolerPort c)]);
  _ ← guard (port_out_of_range (MetricsPort c))
        (Errorf "%s must be between 1 and 65535, got %d" [ParamMetricsPort; Itoa (MetricsPort c)]);
  _ ← guard (bool_decide (SidecarImage c = ""))
        (Errorf "SIDECAR_IMAGE environment variable is required" []);
  _ ← guard (PoolerPort c =? MetricsPort c)
        (Errorf "%s and %s must be different" [ParamPoolerPort; ParamMetricsPort]);
  _ ← guard (bool_decide (LogLevel c ∉ log_levels))
        (Errorf "%s must be one of error|warn|info|debug|trace, got %q" [ParamLogLevel; LogLevel c]);
  _ ← checkM check_reserved
        (range ρ (<[ParamPoolerPort := PoolerPort c]> {[ParamMetricsPort := MetricsPort c]}));
  checkM (check_resource (cfg_Resources c)) [ResourceCPU; ResourceMemory].

(** [SetDefaults] on a plugin's parameters (a nil map is the empty one). *)
Definition set_if_absent (k v : string) (m : gmap string string) : gmap string string :=
  match m !! k with Some _ => m | None => <[k := v]> m end.
Definition SetDefaults (params : gmap string string) : gmap string string :=
  set_if_absent ParamMetricsPort (Itoa DefaultMetricsPort)
    (set_if_absent ParamPoolerPort (Itoa DefaultPoolerPort) params).

(** ** What Validate accepts *)
Definition port_ok (p : Z) : Prop :=
  1 ≤ p ≤ 65535 ∧ p ∉ [5432; 8000; 9187; 8081].

Definition resources_ok (r : Resources) : Prop :=
  ∀ name req limit, name ∈ [ResourceCPU; ResourceMemory] →
    Requests r !! name = Some req → Limits r !! name = Some limit → q_le req limit = true.

Definition valid_config (c : PluginConfiguration) : Prop :=
  ParseErrors c = [] ∧ ConfigName c ≠ "" ∧ port_ok (PoolerPort c) ∧ port_ok (MetricsPort c) ∧
  PoolerPort c ≠ MetricsPort c ∧ SidecarImage c ≠ "" ∧ LogLevel c ∈ log_levels ∧
  resources_ok (cfg_Resources c).

Lemma bind_guard {B} b e (k : unit → res B) :
  is_ok (guard b e ≫= k) = negb b && is_ok (k ()).
Proof. by destruct b. Qed.

Lemma is_ok_bind {B} (r : res unit) (k : unit → res B) :
  is_ok (r ≫= k) = is_ok r && is_ok (k ()).
Proof. by destruct r as [[]|]. Qed.

Lemma check_reserved_ok n p : is_ok (check_reserved (n, p)) = bool_decide (p ∉ [5432; 8000; 9187; 8081]).
Proof.
  unfold check_reserved, reserved, WrapperHealthPort; simpl.
  rewrite !lookup_insert, lookup_singleton.
  repeat case_decide; subst; simpl; done || (exfalso; set_solver).
Qed.

Lemma check_ports_ok ρ a b :
  is_ok (checkM check_reserved
    (range ρ (<[ParamPoolerPort := a]> {[ParamMetricsPort := b]} : gmap string Z))) = true ↔
  a ∉ [5432; 8000; 9187; 8081] ∧ b ∉ [5432; 8000; 9187; 8081].
Proof.
  rewrite checkM_is_ok, forallb_forall. setoid_rewrite <- list_elem_of_In. split.
  - intros Hall. split.
    + specialize (Hall (ParamPoolerPort, a)). rewrite check_reserved_ok in Hall.
      apply bool_decide_eq_true in Hall; [done|]. apply elem_of_range. by rewrite lookup_insert_eq.
    + specialize (Hall (ParamMetricsPort, b)). rewrite check_reserved_ok in Hall.
      apply bool_decide_eq_true in Hall; [done|]. apply elem_of_range.
      by rewrite lookup_insert_ne, lookup_singleton_eq.
  - intros [??] [n p] Hin%elem_of_range. rewrite check_reserved_ok. apply bool_decide_eq_true.
    apply lookup_insert_Some in Hin as [[_ <-]|[_ [_ <-]%lookup_singleton_Some]]; done.
Qed.

Lemma check_resources_ok r :
  is_ok (checkM (check_resource r) [ResourceCPU; ResourceMemory]) = true ↔ resources_ok r.
Proof.
  rewrite checkM_is_ok. unfold resources_ok. simpl. rewrite andb_true_r, andb_true_iff.
  unfold check_resource. split.
  - intros [Hc Hm] name req limit Hin Hr Hl.
    apply elem_of_cons in Hin as [->|Hin]; [|apply list_elem_of_singleton in Hin as ->];
      rewrite Hr, Hl in *; by destruct (q_le req limit).
  - intros Hall. split; case_match eqn:Hr; try done; case_match eqn:Hl; try done;
      (rewrite (λ Hin, Hall _ _ _ Hin Hr Hl); [done|set_solver]).
Qed.

Lemma port_range_ok p : port_out_of_range p = false ↔ 1 ≤ p ≤ 65535.
Proof. unfold port_out_of_range. lia. Qed.

Lemma Validate_is_ok ρ c : is_ok (Validate ρ c) = true ↔ valid_config c.
Proof.
  unfold Validate. rewrite is_ok_bind, !bind_guard, is_ok_bind, !andb_true_iff, !negb_true_iff.
  rewrite check_ports_ok, check_resources_ok, !port_range_ok, !bool_decide_eq_false.
  unfold valid_config, port_ok. rewrite Z.eqb_neq.
  assert (is_ok (match ParseErrors c with
    | [] => Ok () | e :: es => Err (Wrapf "invalid plugin parameters: %s" [] (foldl Joined e es))
    end) = true ↔ ParseErrors c = []) as ->
    by (destruct (ParseErrors c); simpl; split; done || discriminate).
  split; [|tauto]. intros (?&?&?&?&?&?&Hl&?&?).
  apply dec_stable in Hl. tauto.
Qed.

(** ** What NewFromCluster reads *)
Definition enabled_entry (p : Plugin) : Prop :=
  pl_Name p = PluginName ∧ pl_Enabled p ≠ Some false.
#[export] Instance enabled_entry_dec p : Decision (enabled_entry p).
Proof. unfold enabled_entry. apply _. Defined.

Lemma scan_plugins_find cfg ps :
  scan_plugins cfg ps =
    match list_find enabled_entry ps with
    | Some (_, p) => read_plugin cfg (pl_Parameters p)
    | None => cfg
    end.
Proof.
  induction ps as [|p ps IH]; simpl; [done|]. rewrite IH. unfold enabled_entry.
  destruct (decide (pl_Name p ≠ PluginName)), (decide (pl_Enabled p = Some false));
    case_decide; try tauto; try (by destruct (list_find _ ps) as [[]|]).
Qed.

(** The value a parameter stands for: the parsed one when present, else the
    default. *)
Definition port_value (params : gmap string string) (param : string) (d : Z) : option Z :=
  match params !! param with Some v => Atoi v | None => Some d end.
Definition bool_value (params : gmap string string) (param : string) (d : bool) : option bool :=
  match params !! param with Some v => ParseBool v | None => Some d end.
(** A resource entry: absent for an empty or ["none"] value, else the parsed
    quantity; [None] when it does not parse. *)
Definition quantity_value (params : gmap string string) (param d : string) : option (option quantity) :=
  let v := default d (params !! param) in
  if decide (v = "" ∨ v = ResourceNone) then Some None else Some <$> ParseQuantity v.

Lemma parse_port_ok params param cur p :
  parse_port params param cur = (p, []) → port_value params param cur = Some p.
Proof. unfold parse_port, port_value. intros. by repeat case_match; simplify_eq. Qed.

Lemma parse_bool_ok params param cur b :
  parse_bool params param cur = (b, []) → bool_value params param cur = Some b.
Proof. unfold parse_bool, bool_value. intros. by repeat case_match; simplify_eq. Qed.

Lemma setResource_ok params param rl name d errs rl' :
  setResource params param rl name d errs = (rl', []) →
  errs = [] ∧ ∃ o, quantity_value params param d = Some o ∧
    rl' = match o with Some q => <[name := q]> rl | None => rl end.
Proof.
  unfold setResource, quantity_value. case_decide; [intros; simplify_eq; eauto|].
  destruct (ParseQuantity _) as [q|]; intros; simplify_eq/=.
  - eauto.
  - by destruct errs.
Qed.

(** What the first enabled entry says, as the configuration has it. *)
Definition reads (params : gmap string string) (c : PluginConfiguration) : Prop :=
  Enabled c = true ∧
  port_value params ParamPoolerPort DefaultPoolerPort = Some (PoolerPort c) ∧
  port_value params ParamMetricsPort DefaultMetricsPort = Some (MetricsPort c) ∧
  ConfigName c = default "" (params !! ParamConfigName) ∧
  LogLevel c = default DefaultLogLevel (params !! ParamLogLevel) ∧
  bool_value params ParamInPlaceUpgrades false = Some (InPlaceUpgrades c) ∧
  quantity_value params ParamSidecarCPURequest DefaultSidecarCPURequest
    = Some (Requests (cfg_Resources c) !! ResourceCPU) ∧
  quantity_value params ParamSidecarMemoryRequest DefaultSidecarMemoryRequest
    = Some (Requests (cfg_Resources c) !! ResourceMemory) ∧
  quantity_value params ParamSidecarCPULimit "" = Some (Limits (cfg_Resources c) !! ResourceCPU) ∧
  quantity_value params ParamSidecarMemoryLimit DefaultSidecarMemoryLimit
    = Some (Limits (cfg_Resources c) !! ResourceMemory).

Lemma two_resources (o1 o2 : option quantity) :
  let add name (o : option quantity) (m : gmap string quantity) :=
    match o with Some q => <[name := q]> m | None => m end in
  add ResourceMemory o2 (add ResourceCPU o1 ∅) !! ResourceCPU = o1 ∧
  add ResourceMemory o2 (add ResourceCPU o1 ∅) !! ResourceMemory = o2.
Proof. destruct o1, o2; split; by simplify_map_eq. Qed.

Lemma read_plugin_reads img params :
  ParseErrors (read_plugin (initial_config img) params) = [] →
  reads params (read_plugin (initial_config img) params).
Proof.
  unfold read_plugin.
  destruct (parse_port params ParamPoolerPort _) as [pp e1] eqn:E1.
  destruct (parse_port params ParamMetricsPort _) as [mp e2] eqn:E2.
  destruct (parse_bool params _ _) as [up e3] eqn:E3.
  destruct (setResource params ParamSidecarCPURequest _ _ _ _) as [r1 e4] eqn:E4.
  destruct (setResource params ParamSidecarMemoryRequest _ _ _ _) as [r2 e5] eqn:E5.
  destruct (setResource params ParamSidecarCPULimit _ _ _ _) as [l1 e6] eqn:E6.
  destruct (setResource params ParamSidecarMemoryLimit _ _ _ _) as [l2 e7] eqn:E7.
  simpl. intros ->.
  apply setResource_ok in E7 as (-> & o4 & ? & ->).
  apply setResource_ok in E6 as (-> & o3 & ? & ->).
  apply setResource_ok in E5 as (-> & o2 & ? & ->).
  apply setResource_ok in E4 as (He & o1 & ? & ->).
  simpl in He. apply app_eq_nil in He as [-> [-> ->]%app_eq_nil].
  destruct (two_resources o1 o2) as [Hr1 Hr2], (two_resources o3 o4) as [Hl1 Hl2].
  unfold reads; cbn -[lookup]. rewrite Hr1, Hr2, Hl1, Hl2.
  split_and!; auto using parse_port_ok, parse_bool_ok.
Qed.

(** [Validate] accepts exactly the valid configurations (no parse error, a
    config name, two distinct ports in 1..65535 outside the ports of the pod, an
    image, a known log level, requests within limits), and its verdict does not
    depend on the order Go visits the port map in. *)
Theorem Validate_correct ρ c : Validate ρ c = Ok () ↔ valid_config c.
Proof. rewrite <- (Validate_is_ok ρ). by destruct (Validate ρ c) as [[]|]. Qed.

(** An accepted configuration says what the Cluster says: it comes from the
    first enabled entry of the plugin, and every parameter present there was
    parsed into it (a value that does not parse is never silently replaced by
    the default), every absent one has its documented default. *)
Theorem NewFromCluster_accepted ρ img cluster :
  let c := NewFromCluster img cluster in
  Validate ρ c = Ok () →
  valid_config c ∧ SidecarImage c = img ∧
  ∃ i p, list_find enabled_entry (cl_Plugins cluster) = Some (i, p) ∧ reads (pl_Parameters p) c.
Proof.
  intros c Hv. assert (valid_config c) as Hc by (apply (Validate_is_ok ρ); by rewrite Hv).
  split; [done|]. revert Hc. unfold c, NewFromCluster. rewrite scan_plugins_find.
  destruct (list_find enabled_entry _) as [[i p]|] eqn:Hf; intros (He & Hn & _); [|done].
  split.
  - unfold read_plugin. by repeat case_match.
  - eauto using read_plugin_reads.
Qed.
End config.

(** A concrete Cluster: an entry of another plugin, a disabled entry and the
    entry that counts. *)
Definition example_quantities : Quantities := number_quantities (λ s,
  if decide (s = "100m") then Some 100 else if decide (s = "128Mi") then Some 134217728
  else if decide (s = "512Mi") then Some 536870912 else Atoi s).
Definition example_cluster : Cluster :=
  {| cl_Namespace := "ns"; cl_Name := "my-cluster";
     cl_Plugins := [
       {| pl_Name := "other"; pl_Enabled := None; pl_Parameters := {[ParamPoolerPort := "1"]} |};
       {| pl_Name := PluginName; pl_Enabled := Some false; pl_Parameters := ∅ |};
       {| pl_Name := PluginName; pl_Enabled := None;
          pl_Parameters := {[ParamConfigName := "my-cluster-doorman"; ParamPoolerPort := "+6433"; ParamSidecarMemoryLimit := "none"]} |}];
     cl_ServerTLSSecret := None; cl_CurrentPrimary := "my-cluster-1" |}.

Lemma NewFromCluster_accepted_witness :
  let c := @NewFromCluster example_quantities "img" example_cluster in
  PoolerPort c = 6433 ∧ ConfigName c = "my-cluster-doorman" ∧
  ∃ i p, list_find enabled_entry (cl_Plugins example_cluster) = Some (i, p) ∧
    @reads example_quantities (pl_Parameters p) c.
Proof.
  split; [reflexivity|]. split; [reflexivity|].
  apply (@NewFromCluster_accepted example_quantities default_ranger "img" example_cluster).
  vm_compute. reflexivity.
Defined.
