(* ===== verification/DoormanConfig.v ===== *)
(** * The pg_doorman configuration file (internal/wrapper: validator.go, restart.go)

    The structure of the file, its validation and the comparison that decides
    between a SIGHUP and a restart.  The YAML library (yaml.v3) is the class
    [Yaml]; what the code relies on is that decoding an encoded configuration
    gives it back ([YamlLaws]). *)
From S2P Require Import Prelude GoStd GoTime Regexp.
From stdpp Require Import options.
Open Scope Z_scope.

Record GeneralConfig : Type := {
  gc_Host : string;
  gc_Port : Z;
  gc_TLSCertificate : string;
  gc_TLSPrivateKey : string;
  gc_AdminUsername : string;
  gc_AdminPassword : string;
  gc_WorkerThreads : option Z;
  gc_MaxConnections : option Z;
  gc_ConnectTimeout : string;
  gc_IdleTimeout : string;
  gc_ServerLifetime : string;
  gc_ShutdownTimeout : string
}.

Record UserConfig : Type := {
  uc_Username : string;
  uc_Password : string;
  uc_PoolSize : option Z
}.

Record AuthQueryConfig : Type := {
  ac_Query : string;
  ac_User : string;
  ac_Password : string;
  ac_Database : string;
  ac_Workers : option Z;
  ac_PoolSize : option Z;
  ac_CacheTTL : string;
  ac_CacheFailureTTL : string;
  ac_MinInterval : string
}.

Record PoolConfig : Type := {
  pc_ServerHost : string;
  pc_ServerPort : Z;
  pc_PoolMode : string;
  pc_Users : list UserConfig;
  pc_AuthQuery : option AuthQueryConfig
}.

Record PrometheusConfig : Type := {
  pm_Enabled : bool;
  pm_Host : string;
  pm_Port : Z
}.

Record DoormanConfig : Type := {
  dc_General : GeneralConfig;
  dc_Pools : gmap string PoolConfig;
  dc_Prometheus : option PrometheusConfig
}.

#[export] Instance GeneralConfig_eq_dec : EqDecision GeneralConfig.
Proof. solve_decision. Defined.
#[export] Instance UserConfig_eq_dec : EqDecision UserConfig.
Proof. solve_decision. Defined.
#[export] Instance AuthQueryConfig_eq_dec : EqDecision AuthQueryConfig.
Proof. solve_decision. Defined.
#[export] Instance PoolConfig_eq_dec : EqDecision PoolConfig.
Proof. solve_decision. Defined.
#[export] Instance PrometheusConfig_eq_dec : EqDecision PrometheusConfig.
Proof. solve_decision. Defined.
#[export] Instance DoormanConfig_eq_dec : EqDecision DoormanConfig.
Proof. solve_decision. Defined.

(** ** The YAML library *)
Class Yaml : Type := {
  Marshal : DoormanConfig → res string;
  Unmarshal : string → res DoormanConfig
}.
Class YamlLaws `{Yaml} : Prop :=
  yaml_roundtrip : ∀ cfg data, Marshal cfg = Ok data → Unmarshal data = Ok cfg.

(** A library that knows the documents of a table, to run examples. *)
Definition table_yaml (t : list (string * DoormanConfig)) : Yaml := {|
  Marshal cfg := match list_find (λ e, e.2 = cfg) t with
                 | Some (_, e) => Ok e.1 | None => Err (ExtErr "yaml") end;
  Unmarshal data := match list_find (λ e, e.1 = data) t with
                    | Some (_, e) => Ok e.2 | None => Err (ExtErr "yaml") end
|}.

Lemma table_yaml_laws t : NoDup t.*1 → @YamlLaws (table_yaml t).
Proof.
  intros Hnd cfg data. simpl.
  destruct (list_find (λ e, e.2 = cfg) t) as [[i e]|] eqn:Hf; [|done]. intros [= <-].
  apply list_find_Some in Hf as (Hi & <- & _).
  destruct (list_find (λ e', e'.1 = e.1) t) as [[j e']|] eqn:Hf.
  - apply list_find_Some in Hf as (Hj & He & _).
    assert (i = j) as ->; [|by simplify_eq].
    apply (NoDup_lookup t.*1 _ _ e.1); [done|by rewrite list_lookup_fmap, Hi|].
    by rewrite list_lookup_fmap, Hj, <- He.
  - apply list_find_None in Hf. eapply Forall_lookup_1 in Hf; [|done]. done.
Qed.

(** A library that encodes every configuration: the configurations are countable,
    and the document is the binary numeral of the configuration's number. *)
#[export] Instance GeneralConfig_countable : Countable GeneralConfig.
Proof.
  refine (inj_countable' (λ g, (gc_Host g, gc_Port g, gc_TLSCertificate g, gc_TLSPrivateKey g, gc_AdminUsername g,
      gc_AdminPassword g, (gc_WorkerThreads g, gc_MaxConnections g, gc_ConnectTimeout g, gc_IdleTimeout g,
      gc_ServerLifetime g, gc_ShutdownTimeout g)))
    (λ '(a, b, c, d, e, f, (g, h, i, j, k, l)), Build_GeneralConfig a b c d e f g h i j k l) _).
  by intros [].
Defined.
#[export] Instance UserConfig_countable : Countable UserConfig.
Proof.
  refine (inj_countable' (λ u, (uc_Username u, uc_Password u, uc_PoolSize u)) (λ '(a, b, c), Build_UserConfig a b c) _).
  by intros [].
Defined.
#[export] Instance AuthQueryConfig_countable : Countable AuthQueryConfig.
Proof.
  refine (inj_countable' (λ q, (ac_Query q, ac_User q, ac_Password q, ac_Database q, ac_Workers q, ac_PoolSize q,
      (ac_CacheTTL q, ac_CacheFailureTTL q, ac_MinInterval q)))
    (λ '(a, b, c, d, e, f, (g, h, i)), Build_AuthQueryConfig a b c d e f g h i) _).
  by intros [].
Defined.
#[export] Instance PoolConfig_countable : Countable PoolConfig.
Proof.
  refine (inj_countable' (λ p, (pc_ServerHost p, pc_ServerPort p, pc_PoolMode p, pc_Users p, pc_AuthQuery p))
    (λ '(a, b, c, d, e), Build_PoolConfig a b c d e) _).
  by intros [].
Defined.
#[export] Instance PrometheusConfig_countable : Countable PrometheusConfig.
Proof.
  refine (inj_countable' (λ m, (pm_Enabled m, pm_Host m, pm_Port m)) (λ '(a, b, c), Build_PrometheusConfig a b c) _).
  by intros [].
Defined.
#[export] Instance DoormanConfig_countable : Countable DoormanConfig.
Proof.
  refine (inj_countable' (λ c, (dc_General c, dc_Pools c, dc_Prometheus c)) (λ '(a, b, c), Build_DoormanConfig a b c) _).
  by intros [].
Defined.

Fixpoint numeral (p : positive) : string :=
  match p with
  | xH => ""
  | xO p => String "0" (numeral p)
  | xI p => String "1" (numeral p)
  end.
Fixpoint of_numeral (s : string) : positive :=
  match s with
  | "" => xH
  | String c s => if decide (c = "0"%char) then xO (of_numeral s) else xI (of_numeral s)
  end.
Lemma of_numeral_numeral p : of_numeral (numeral p) = p.
Proof. induction p; simpl; congruence. Qed.

Definition numeral_yaml : Yaml := {|
  Marshal cfg := Ok (numeral (encode cfg));
  Unmarshal data := match decode (of_numeral data) with Some cfg => Ok cfg | None => Err (ExtErr "yaml") end
|}.
Lemma numeral_yaml_laws : @YamlLaws numeral_yaml.
Proof. intros cfg data. intros [= <-]. simpl. by rewrite of_numeral_numeral, decode_encode. Qed.

(** ** Validation *)

(** [^[0-9]+(ms|s|m|h|d)?$]. *)
Definition durationPattern : re :=
  RCat (RPlus (RSet is_digit))
    (ROpt (RAlt (RWord "ms") (RAlt (RWord "s") (RAlt (RWord "m") (RAlt (RWord "h") (RWord "d")))))).

(** A field name in a message: its format and arguments. *)
Definition field : Type := list string.

Definition validateDuration (f : field) (value : string) : res unit :=
  if decide (value = "") then Ok ()
  else if MatchString durationPattern (ToLower (TrimSpace value)) then Ok ()
  else Err (Errorf "%s: invalid duration %q, expected a number or a value with ms/s/m/h/d suffix"
              (f ++ [value])).

Definition validatePositive (f : field) (value : option Z) : res unit :=
  match value with
  | Some v => if v <? 1 then Err (Errorf "%s: must be >= 1, got %d" (f ++ [Itoa v])) else Ok ()
  | None => Ok ()
  end.

Definition validateGeneral (ρ : ranger) (g : GeneralConfig) : res unit :=
  _ ← validatePositive ["general.worker_threads"] (gc_WorkerThreads g);
  _ ← validatePositive ["general.max_connections"] (gc_MaxConnections g);
  let durations : gmap string string :=
    {[ "general.connect_timeout" := gc_ConnectTimeout g;
       "general.idle_timeout" := gc_IdleTimeout g;
       "general.server_lifetime" := gc_ServerLifetime g;
       "general.shutdown_timeout" := gc_ShutdownTimeout g ]} in
  checkM (λ e, validateDuration [e.1] e.2) (range ρ durations).

Definition validateAuthQuery (ρ : ranger) (name : string) (aq : AuthQueryConfig) : res unit :=
  if decide (ac_Query aq = "") then Err (Errorf "pool %q: auth_query.query is required" [name])
  else if decide (ac_User aq = "") then Err (Errorf "pool %q: auth_query.user is required" [name])
  else
    _ ← validatePositive ["pool %q: auth_query.workers"; name] (ac_Workers aq);
    _ ← validatePositive ["pool %q: auth_query.pool_size"; name] (ac_PoolSize aq);
    let durations : gmap string string :=
      {[ "pool %q: auth_query.cache_ttl" := ac_CacheTTL aq;
         "pool %q: auth_query.cache_failure_ttl" := ac_CacheFailureTTL aq;
         "pool %q: auth_query.min_interval" := ac_MinInterval aq ]} in
    checkM (λ e, validateDuration [e.1; name] e.2) (range ρ durations).

Definition validateUser (name : string) (iu : nat * UserConfig) : res unit :=
  let '(i, user) := iu in
  if decide (uc_Username user = "") then
    Err (Errorf "pool %q: users[%d].username is required" [name; pretty i])
  else if decide (uc_Password user = "") then
    Err (Errorf "pool %q: users[%d].password is required" [name; pretty i])
  else validatePositive ["pool %q: users[%d].pool_size"; name; pretty i] (uc_PoolSize user).

Definition in_quotes (s : string) : string := String (byte 34) s +:+ String (byte 34) "".

Definition validatePool (ρ : ranger) (name : string) (pool : PoolConfig) : res unit :=
  if decide (pc_PoolMode pool ≠ "" ∧ pc_PoolMode pool ≠ "session" ∧ pc_PoolMode pool ≠ "transaction") then
    Err (Errorf ("pool %q: pool_mode must be " +:+ in_quotes "session" +:+ " or " +:+
                 in_quotes "transaction" +:+ ", got %q") [name; pc_PoolMode pool])
  else if decide (pc_Users pool = [] ∧ pc_AuthQuery pool = None) then
    Err (Errorf "pool %q: must have users or auth_query" [name])
  else
    _ ← match pc_AuthQuery pool with Some aq => validateAuthQuery ρ name aq | None => Ok () end;
    checkM (validateUser name) (imap pair (pc_Users pool)).

(** The checks of [ValidateConfigBytes] on the decoded file. *)
Definition validateConfig (ρ : ranger) (cfg : DoormanConfig) : res unit :=
  if decide (dc_Pools cfg = ∅) then Err (Errorf "at least one pool must be defined" [])
  else
    _ ← validateGeneral ρ (dc_General cfg);
    checkM (λ e, validatePool ρ e.1 e.2) (range ρ (dc_Pools cfg)).

Definition ValidateConfigBytes `{Yaml} (ρ : ranger) (data : string) : res DoormanConfig :=
  match Unmarshal data with
  | Err e => Err (Wrapf "YAML parse error: %w" [] e)
  | Ok cfg => _ ← validateConfig ρ cfg; Ok cfg
  end.

(** ** Restart or reload (restart.go) *)
Definition intPtrEqual (a b : option Z) : bool :=
  match a, b with
  | Some x, Some y => x =? y
  | None, None => true
  | _, _ => false
  end.

Definition NeedsProcessRestart (oldCfg newCfg : DoormanConfig) : bool :=
  let o := dc_General oldCfg in let n := dc_General newCfg in
  negb (intPtrEqual (gc_WorkerThreads o) (gc_WorkerThreads n)) ||
  negb (intPtrEqual (gc_MaxConnections o) (gc_MaxConnections n)) ||
  negb (bool_decide (gc_Host o = gc_Host n)) ||
  negb (gc_Port o =? gc_Port n).

(** ** What validation accepts *)
Definition duration_units : list string := [""; "ms"; "s"; "m"; "h"; "d"].

(** Empty, or digits and an optional unit up to case and surrounding spaces. *)
Definition valid_duration (v : string) : Prop :=
  v = "" ∨ ∃ ds u, ToLower (TrimSpace v) = ds +:+ u ∧ ds ≠ "" ∧ all_digits ds ∧ u ∈ duration_units.

Definition positive (v : option Z) : Prop := ∀ n, v = Some n → 1 ≤ n.

Definition valid_general (g : GeneralConfig) : Prop :=
  positive (gc_WorkerThreads g) ∧ positive (gc_MaxConnections g) ∧
  Forall valid_duration [gc_ConnectTimeout g; gc_IdleTimeout g; gc_ServerLifetime g; gc_ShutdownTimeout g].

Definition valid_authQuery (aq : AuthQueryConfig) : Prop :=
  ac_Query aq ≠ "" ∧ ac_User aq ≠ "" ∧ positive (ac_Workers aq) ∧ positive (ac_PoolSize aq) ∧
  Forall valid_duration [ac_CacheTTL aq; ac_CacheFailureTTL aq; ac_MinInterval aq].

Definition valid_user (u : UserConfig) : Prop :=
  uc_Username u ≠ "" ∧ uc_Password u ≠ "" ∧ positive (uc_PoolSize u).

Definition valid_pool (p : PoolConfig) : Prop :=
  pc_PoolMode p ∈ [""; "session"; "transaction"] ∧
  (pc_Users p ≠ [] ∨ is_Some (pc_AuthQuery p)) ∧
  (∀ aq, pc_AuthQuery p = Some aq → valid_authQuery aq) ∧
  Forall valid_user (pc_Users p).

Definition valid_doorman (cfg : DoormanConfig) : Prop :=
  dc_Pools cfg ≠ ∅ ∧ valid_general (dc_General cfg) ∧
  map_Forall (λ _ p, valid_pool p) (dc_Pools cfg).

Lemma durationPattern_spec s :
  MatchString durationPattern s = true ↔
  ∃ ds u, s = ds +:+ u ∧ ds ≠ "" ∧ all_digits ds ∧ u ∈ duration_units.
Proof.
  unfold durationPattern, RPlus, ROpt, duration_units, all_digits.
  rewrite MatchString_spec, re_in_cat.
  setoid_rewrite re_in_cat. setoid_rewrite re_in_star_set. setoid_rewrite re_in_alt.
  repeat setoid_rewrite re_in_alt. setoid_rewrite re_in_word. setoid_rewrite re_in_eps.
  split.
  - intros (ds & u & -> & (s1 & s2 & -> & Hs1 & Hs2) & Hu). inversion Hs1 as [|p c Hc| | | | |]; subst.
    exists (String c "" +:+ s2), u. split_and!; [done|done| |set_solver].
    constructor; [done|]. done.
  - intros (ds & u & -> & Hne & Hds & Hu). destruct ds as [|c ds]; [done|].
    apply Forall_cons in Hds as [??].
    exists (String c ds), u. split_and!; [done| |set_solver].
    exists (String c ""), ds. split_and!; [done|by constructor|done].
Qed.

Lemma validateDuration_ok f v : validateDuration f v = Ok () ↔ valid_duration v.
Proof.
  unfold validateDuration, valid_duration. case_decide; [tauto|].
  rewrite <- durationPattern_spec. destruct (MatchString _ _); split; auto; [done|].
  by intros [|].
Qed.

Lemma validatePositive_ok f v : validatePositive f v = Ok () ↔ positive v.
Proof.
  unfold validatePositive, positive. destruct v as [n|]; [|naive_solver].
  destruct (Z.ltb_spec n 1); split; intros; simplify_eq; try done.
  specialize (H0 _ eq_refl). lia.
Qed.

Lemma bind_ok {A B} (r : res A) (k : A → res B) b :
  r ≫= k = Ok b ↔ ∃ a, r = Ok a ∧ k a = Ok b.
Proof. destruct r; simpl; naive_solver. Qed.

Lemma bind_unit_ok {B} (r : res unit) (k : unit → res B) b :
  r ≫= k = Ok b ↔ r = Ok () ∧ k () = Ok b.
Proof. rewrite bind_ok. split; [intros ([] & ? & ?); auto|eauto]. Qed.

(** Checking the entries of a map literal, in any order. *)
Lemma check_range_ok {A} ρ (f : string * A → res unit) (m : gmap string A) :
  checkM f (range ρ m) = Ok () ↔ map_Forall (λ k x, f (k, x) = Ok ()) m.
Proof. by rewrite checkM_ok, Forall_range. Qed.

Lemma map_Forall_literal {A} (P : string → A → Prop) k x (m : gmap string A) :
  m !! k = None → map_Forall P (<[k := x]> m) ↔ P k x ∧ map_Forall P m.
Proof. apply map_Forall_insert. Qed.

Lemma validateGeneral_ok ρ g : validateGeneral ρ g = Ok () ↔ valid_general g.
Proof.
  unfold validateGeneral, valid_general. rewrite !bind_unit_ok, !validatePositive_ok, check_range_ok.
  rewrite !map_Forall_literal by (by simplify_map_eq). rewrite map_Forall_singleton.
  rewrite !validateDuration_ok, !Forall_cons, Forall_nil. tauto.
Qed.

Lemma validateAuthQuery_ok ρ name aq : validateAuthQuery ρ name aq = Ok () ↔ valid_authQuery aq.
Proof.
  unfold validateAuthQuery, valid_authQuery. repeat case_decide; try (split; [done|tauto]).
  rewrite !bind_unit_ok, !validatePositive_ok, check_range_ok.
  rewrite !map_Forall_literal by (by simplify_map_eq). rewrite map_Forall_singleton.
  rewrite !validateDuration_ok, !Forall_cons, Forall_nil. tauto.
Qed.

Lemma validateUser_ok name i u : validateUser name (i, u) = Ok () ↔ valid_user u.
Proof.
  unfold validateUser, valid_user. repeat case_decide; try (split; [done|tauto]).
  rewrite validatePositive_ok. tauto.
Qed.

Lemma Forall_imap_pair {A} (P : A → Prop) (Q : nat * A → Prop) (l : list A) :
  (∀ i x, Q (i, x) ↔ P x) → Forall Q (imap pair l) ↔ Forall P l.
Proof.
  intros HPQ. rewrite !Forall_lookup. split; intros Hl i.
  - intros x Hx. apply (HPQ i), (Hl i). by rewrite list_lookup_imap, Hx.
  - intros [j x]. rewrite list_lookup_imap. intros (y & Hy & [= <- <-])%fmap_Some.
    apply HPQ. eauto.
Qed.

Lemma validatePool_ok ρ name p : validatePool ρ name p = Ok () ↔ valid_pool p.
Proof.
  unfold validatePool, valid_pool. case_decide as Hm.
  { split; [done|]. intros [Hin _]. set_solver. }
  case_decide as Hu.
  { split; [done|]. intros (_ & [|[? ?]] & _); destruct Hu; congruence. }
  rewrite bind_unit_ok, checkM_ok, (Forall_imap_pair valid_user) by (intros; apply validateUser_ok).
  assert (pc_PoolMode p ∈ [""; "session"; "transaction"]) as Hin.
  { destruct (decide (pc_PoolMode p = "")), (decide (pc_PoolMode p = "session")),
      (decide (pc_PoolMode p = "transaction")); set_solver. }
  destruct (pc_AuthQuery p) as [aq|] eqn:Haq.
  - rewrite validateAuthQuery_ok. naive_solver.
  - assert (pc_Users p ≠ []) by naive_solver. naive_solver.
Qed.

Lemma validateConfig_ok ρ cfg : validateConfig ρ cfg = Ok () ↔ valid_doorman cfg.
Proof.
  unfold validateConfig, valid_doorman. case_decide; [split; [done|tauto]|].
  rewrite bind_unit_ok, validateGeneral_ok, check_range_ok. unfold map_Forall.
  setoid_rewrite validatePool_ok. tauto.
Qed.

Lemma ValidateConfigBytes_ok `{Yaml} ρ data cfg :
  ValidateConfigBytes ρ data = Ok cfg ↔ Unmarshal data = Ok cfg ∧ valid_doorman cfg.
Proof.
  unfold ValidateConfigBytes. destruct (Unmarshal data) as [c|e]; [|naive_solver].
  rewrite bind_unit_ok, validateConfig_ok. naive_solver.
Qed.

Lemma intPtrEqual_spec a b : intPtrEqual a b = true ↔ a = b.
Proof. destruct a, b; simpl; rewrite ?Z.eqb_eq; naive_solver. Qed.

(** No restart is needed exactly when the four fields fixed at process start
    are unchanged. *)
Lemma NeedsProcessRestart_false o n :
  NeedsProcessRestart o n = false ↔
  gc_WorkerThreads (dc_General o) = gc_WorkerThreads (dc_General n) ∧
  gc_MaxConnections (dc_General o) = gc_MaxConnections (dc_General n) ∧
  gc_Host (dc_General o) = gc_Host (dc_General n) ∧
  gc_Port (dc_General o) = gc_Port (dc_General n).
Proof.
  unfold NeedsProcessRestart. rewrite !orb_false_iff, !negb_false_iff, !intPtrEqual_spec,
    bool_decide_eq_true, Z.eqb_eq. tauto.
Qed.

(** C40 — [ValidateConfigBytes] accepts a document exactly when it decodes to a
    valid configuration (at least one pool, each with users or an auth_query,
    known pool modes, sizes at least 1, durations of the form number-and-unit,
    users with name and password), returns the decoded configuration, and does so
    whatever the order of its three map loops. *)
Theorem ValidateConfigBytes_correct `{Yaml} ρ data cfg :
  ValidateConfigBytes ρ data = Ok cfg ↔ Unmarshal data = Ok cfg ∧ valid_doorman cfg.
Proof. apply ValidateConfigBytes_ok. Qed.
