(* ===== verification/ConfigGen.v ===== *)
(** * Configuration generation (internal/configgen)

    From a PgDoorman spec, the ports, the resolved passwords and the TLS files
    to the YAML document of pg_doorman. *)
From S2P Require Import Prelude GoStd GoTime Regexp Api DoormanConfig.
From stdpp Require Import options.
Open Scope Z_scope.

Definition AdminPasswordKey : string := "_admin/password".

Record TLSFiles : Type := { tls_Certificate : string; tls_PrivateKey : string }.

Definition PasswordKey (poolName kind username : string) : string :=
  poolName +:+ "/" +:+ kind +:+ "/" +:+ username.

(** [EnsureAdminPassword]: a resolved admin password wins over the fallback. *)
Definition EnsureAdminPassword (passwords : gmap string string) (fallback : string) : gmap string string :=
  match passwords !! AdminPasswordKey with
  | Some _ => passwords
  | None => <[AdminPasswordKey := fallback]> passwords
  end.

(** The error of a nil pointer dereference, shown below never to happen. *)
Definition nil_deref : gerr := ExtErr "nil pointer dereference".

Definition gen_authQuery (passwords : gmap string string) (poolName : string) (pool : PoolSpec)
    (aq : AuthQuerySpec) : AuthQueryConfig :=
  {| ac_Query := aq_Query aq; ac_User := aq_User aq;
     ac_Password := map_get passwords (PasswordKey poolName "auth_query" (aq_User aq));
     ac_Database := aq_Database aq; ac_Workers := aq_PoolSize aq;
     ac_PoolSize := ps_DefaultPoolSize pool;
     ac_CacheTTL := ""; ac_CacheFailureTTL := ""; ac_MinInterval := "" |}.

Definition gen_user (passwords : gmap string string) (poolName : string) (u : UserSpec) : UserConfig :=
  {| uc_Username := us_Username u;
     uc_Password := map_get passwords (PasswordKey poolName "user" (us_Username u));
     uc_PoolSize := us_PoolSize u |}.

Definition gen_pool (passwords : gmap string string) (poolName : string) (pool : PoolSpec) : PoolConfig :=
  {| pc_ServerHost := "localhost"; pc_ServerPort := 5432; pc_PoolMode := ps_PoolMode pool;
     pc_Users := gen_user passwords poolName <$> ps_Users pool;
     pc_AuthQuery := gen_authQuery passwords poolName pool <$> ps_AuthQuery pool |}.

Definition gen_general (g : GeneralSpec) (poolerPort : Z) (adminPassword : string)
    (tls : option TLSFiles) : GeneralConfig :=
  {| gc_Host := "0.0.0.0"; gc_Port := poolerPort;
     gc_TLSCertificate := match tls with Some t => tls_Certificate t | None => "" end;
     gc_TLSPrivateKey := match tls with Some t => tls_PrivateKey t | None => "" end;
     gc_AdminUsername := gs_AdminUsername g; gc_AdminPassword := adminPassword;
     gc_WorkerThreads := gs_WorkerThreads g; gc_MaxConnections := gs_MaxConnections g;
     gc_ConnectTimeout := gs_ConnectTimeout g; gc_IdleTimeout := gs_IdleTimeout g;
     gc_ServerLifetime := gs_ServerLifetime g; gc_ShutdownTimeout := gs_ShutdownTimeout g |}.

(** [applied.Prometheus != nil && *applied.Prometheus.Enabled]. *)
Definition gen_prometheus (p : option PrometheusSpec) (metricsPort : Z) : res (option PrometheusConfig) :=
  match p with
  | None => Ok None
  | Some p =>
      match pr_Enabled p with
      | None => Err nil_deref
      | Some true => Ok (Some {| pm_Enabled := true; pm_Host := "0.0.0.0"; pm_Port := metricsPort |})
      | Some false => Ok None
      end
  end.

(** The configuration [Generate] builds; [ρ1] and [ρ2] are the orders of the
    loops over the pools in [ApplyDefaults] and in [Generate] itself. *)
Definition build_config (ρ1 ρ2 : ranger) (spec : PgDoormanSpec) (poolerPort metricsPort : Z)
    (passwords : gmap string string) (tls : option TLSFiles) : res DoormanConfig :=
  let applied := ApplyDefaults ρ1 spec in
  let adminPassword := map_get passwords AdminPasswordKey in
  match General applied with
  | None => Err nil_deref
  | Some g =>
      prom ← gen_prometheus (Prometheus applied) metricsPort;
      Ok {| dc_General := gen_general g poolerPort adminPassword tls;
            dc_Pools := fold_left (λ m '(name, pool), <[name := gen_pool passwords name pool]> m)
                          (range ρ2 (Pools applied)) ∅;
            dc_Prometheus := prom |}
  end.

Definition Generate `{Yaml} (ρ1 ρ2 : ranger) (spec : PgDoormanSpec) (poolerPort metricsPort : Z)
    (passwords : gmap string string) (tls : option TLSFiles) : res string :=
  cfg ← build_config ρ1 ρ2 spec poolerPort metricsPort passwords tls;
  Marshal cfg.

(** ** The generated configuration *)
Lemma fold_insert_imap {A B} (ρ : ranger) (f : string → A → B) (m : gmap string A) :
  fold_left (λ m '(k, x), <[k := f k x]> m) (range ρ m) ∅ = map_imap (λ k x, Some (f k x)) m.
Proof.
  assert (∀ l (acc : gmap string B) k, NoDup (l.*1) →
    fold_left (λ m '(k, x), <[k := f k x]> m) l acc !! k =
      match (list_to_map l : gmap string A) !! k with Some x => Some (f k x) | None => acc !! k end) as Hl.
  { induction l as [|[k' x] l IH]; intros acc k Hnd; simpl; [by rewrite lookup_empty|].
    apply NoDup_cons in Hnd as [Hk Hnd]. rewrite IH by done.
    destruct (decide (k = k')) as [->|Hne].
    - rewrite lookup_insert_eq. rewrite not_elem_of_list_to_map_1 by done. by rewrite lookup_insert_eq.
    - by rewrite !lookup_insert_ne by done. }
  apply map_eq. intros k. rewrite Hl by apply NoDup_range_keys.
  rewrite list_to_map_range, map_lookup_imap. by destruct (m !! k).
Qed.

(** The pure description of the generated configuration. *)
Definition generated (spec : PgDoormanSpec) (poolerPort metricsPort : Z)
    (passwords : gmap string string) (tls : option TLSFiles) : DoormanConfig :=
  {| dc_General := gen_general (default_general (default zero_General (General spec))) poolerPort
       (map_get passwords AdminPasswordKey) tls;
     dc_Pools := map_imap (λ name p, Some (gen_pool passwords name (default_pool p))) (Pools spec);
     dc_Prometheus :=
       if decide (default None (pr_Enabled <$> Prometheus spec) = Some false) then None
       else Some {| pm_Enabled := true; pm_Host := "0.0.0.0"; pm_Port := metricsPort |} |}.

Lemma build_config_generated ρ1 ρ2 spec pp mp pw tls :
  build_config ρ1 ρ2 spec pp mp pw tls = Ok (generated spec pp mp pw tls).
Proof.
  unfold build_config, generated. rewrite fold_insert_imap, ApplyDefaults_Pools. simpl.
  assert (map_imap (λ k x, Some (gen_pool pw k x)) (default_pool <$> Pools spec)
    = map_imap (λ name p, Some (gen_pool pw name (default_pool p))) (Pools spec)) as ->.
  { apply map_eq. intros k. rewrite !map_lookup_imap, lookup_fmap. by destruct (Pools spec !! k). }
  by destruct (Prometheus spec) as [[[[]|]]|].
Qed.

(** ** Durations that come from an admitted spec *)
Definition plain (c : ascii) : bool :=
  is_digit c || bool_decide (c ∈ ["m"; "s"; "h"; "d"]%char).

(** The CRD's pattern, without trimming or case folding. *)
Definition crd_duration (v : string) : Prop := v = "" ∨ MatchString durationPattern v = true.

Lemma trim_words_plain fuel ws c s :
  Forall (λ w, ∀ t, strip_prefix w (String c t) = None) ws →
  trim_words fuel ws (String c s) = String c s.
Proof.
  intros Hws. destruct fuel; simpl; [done|].
  destruct (list_find _ ws) as [[i w]|] eqn:Hf; [|done].
  apply list_find_Some in Hf as (Hi & [? Hw] & _).
  eapply Forall_lookup_1 in Hws; [|done]. by rewrite Hws in Hw.
Qed.

Lemma strip_prefix_head a w c t : a ≠ c → strip_prefix (String a w) (String c t) = None.
Proof. intros. simpl. by rewrite decide_False. Qed.

Lemma spaces_plain c : plain c = true →
  Forall (λ w, ∀ t, strip_prefix w (String c t) = None) spaces ∧
  Forall (λ w, ∀ t, strip_prefix w (String c t) = None) (rev_string <$> spaces).
Proof.
  intros Hc. split.
  all: repeat constructor; intros t; apply strip_prefix_head; intros <-; by vm_compute in Hc.
Qed.

Lemma chars_of_chars l : chars (of_chars l) = l.
Proof. apply String.list_ascii_of_string_of_list_ascii. Qed.
Lemma of_chars_chars s : of_chars (chars s) = s.
Proof. apply String.string_of_list_ascii_of_string. Qed.
Lemma rev_string_involutive s : rev_string (rev_string s) = s.
Proof. unfold rev_string. by rewrite chars_of_chars, reverse_involutive, of_chars_chars. Qed.

Definition all_plain (s : string) : Prop := Forall (λ c, plain c = true) (chars s).

Lemma trim_words_spaces fuel s :
  all_plain s → trim_words fuel spaces s = s ∧ trim_words fuel (rev_string <$> spaces) s = s.
Proof.
  unfold all_plain. destruct s as [|c s]; intros Hs.
  - split; by destruct fuel.
  - apply Forall_cons in Hs as [[]%spaces_plain _]. split; by apply trim_words_plain.
Qed.

Lemma TrimSpace_plain s : all_plain s → TrimSpace s = s.
Proof.
  intros Hs. unfold TrimSpace. destruct (trim_words_spaces (String.length s) s Hs) as [-> _].
  assert (all_plain (rev_string s)) as Hr.
  { unfold all_plain, rev_string. rewrite chars_of_chars. by apply Forall_reverse. }
  destruct (trim_words_spaces (String.length s) _ Hr) as [_ ->]. apply rev_string_involutive.
Qed.

Lemma lower_plain c : plain c = true → lower c = c.
Proof. by destruct c as [[] [] [] [] [] [] [] []]. Qed.

Lemma ToLower_plain s : all_plain s → ToLower s = s.
Proof.
  unfold all_plain, ToLower. intros Hs.
  assert (lower <$> chars s = chars s) as ->; [|apply of_chars_chars].
  induction Hs as [|c l Hc _ IH]; [done|]. by rewrite fmap_cons, lower_plain, IH.
Qed.

Lemma duration_all_plain ds u : all_digits ds → u ∈ duration_units → all_plain (ds +:+ u).
Proof.
  intros Hds Hu. unfold all_plain. rewrite chars_app. apply Forall_app_2.
  - eapply Forall_impl; [apply Hds|]. intros c Hc. unfold plain. by rewrite Hc.
  - unfold duration_units in Hu.
    repeat (apply elem_of_cons in Hu as [->|Hu]; [by repeat constructor|]). by apply not_elem_of_nil in Hu.
Qed.

Lemma crd_duration_valid v : crd_duration v → valid_duration v.
Proof.
  intros [->|Hm]; [by left|]. right. pose proof Hm as (ds & u & -> & ? & ? & ?)%durationPattern_spec.
  exists ds, u. rewrite TrimSpace_plain, ToLower_plain by (by apply duration_all_plain). done.
Qed.

(** ** Specs the API server admits *)
Definition admitted_pool (p : PoolSpec) : Prop :=
  ps_PoolMode p ∈ [""; "session"; "transaction"] ∧ positive (ps_DefaultPoolSize p) ∧
  (ps_Users p ≠ [] ∨ is_Some (ps_AuthQuery p)) ∧
  (∀ aq, ps_AuthQuery p = Some aq → aq_User aq ≠ "" ∧ positive (aq_PoolSize aq)) ∧
  Forall (λ u, us_Username u ≠ "" ∧ positive (us_PoolSize u)) (ps_Users p).

(** The CRD schema: its validation markers in types.go. *)
Definition admitted (spec : PgDoormanSpec) : Prop :=
  Pools spec ≠ ∅ ∧ map_Forall (λ _ p, admitted_pool p) (Pools spec) ∧
  ∀ g, General spec = Some g →
    positive (gs_MaxConnections g) ∧ positive (gs_WorkerThreads g) ∧
    Forall crd_duration [gs_ConnectTimeout g; gs_IdleTimeout g; gs_ServerLifetime g; gs_ShutdownTimeout g].

(** Every static user has a non-empty resolved password. *)
Definition users_resolved (spec : PgDoormanSpec) (passwords : gmap string string) : Prop :=
  ∀ name p u, Pools spec !! name = Some p → u ∈ ps_Users p →
    map_get passwords (PasswordKey name "user" (us_Username u)) ≠ "".

Lemma positive_or_ptr o d : positive o → 1 ≤ d → positive (or_ptr o d).
Proof. intros Ho Hd n. destruct o; simpl; [apply Ho|]. by intros [= <-]. Qed.

Lemma valid_duration_default v d : valid_duration d → valid_duration v → valid_duration (or_default v d).
Proof. unfold or_default. by case_decide. Qed.

Lemma generated_general_valid o pp ap tls :
  (∀ g, o = Some g → positive (gs_MaxConnections g) ∧ positive (gs_WorkerThreads g) ∧
     Forall crd_duration [gs_ConnectTimeout g; gs_IdleTimeout g; gs_ServerLifetime g; gs_ShutdownTimeout g]) →
  valid_general (gen_general (default_general (default zero_General o)) pp ap tls).
Proof.
  intros Ho. assert (let g := default zero_General o in
    positive (gs_MaxConnections g) ∧ positive (gs_WorkerThreads g) ∧
    Forall valid_duration [gs_ConnectTimeout g; gs_IdleTimeout g; gs_ServerLifetime g; gs_ShutdownTimeout g])
    as (Hc & Hw & Hd).
  { destruct o as [g|]; simpl.
    - destruct (Ho g eq_refl) as (?&?&Hd). split_and!; auto.
      eapply Forall_impl; [apply Hd|apply crd_duration_valid].
    - split_and!; [done|done|]. by repeat apply Forall_cons_2; try apply Forall_nil_2; try left. }
  unfold valid_general; simpl. split_and!; [by apply positive_or_ptr..|].
  rewrite !Forall_cons in Hd. destruct Hd as (?&?&?&?&_).
  rewrite !Forall_cons, Forall_nil. split_and!; [..|done];
    (apply valid_duration_default; [apply crd_duration_valid; right; by vm_compute|done]).
Qed.

Lemma generated_pool_valid pw name p :
  admitted_pool p → Forall (λ u, map_get pw (PasswordKey name "user" (us_Username u)) ≠ "") (ps_Users p) →
  valid_pool (gen_pool pw name (default_pool p)).
Proof.
  intros (Hm & Hs & Hne & Haq & Hu) Hpw. unfold valid_pool; simpl. split_and!.
  - unfold or_default. case_decide; [set_solver|done].
  - destruct Hne as [Hne|[aq ->]]; [left|right; eauto]. by destruct (ps_Users p).
  - intros ac. destruct (ps_AuthQuery p) as [aq|]; [|done]. intros [= <-].
    destruct (Haq aq eq_refl). unfold valid_authQuery; simpl.
    split_and!; [by apply or_default_nonempty|done|by apply positive_or_ptr..|].
    by repeat apply Forall_cons_2; try apply Forall_nil_2; try left.
  - apply Forall_fmap, Forall_fmap. pose proof (proj2 (Forall_and _ _) (conj Hu Hpw)) as Hb.
    eapply Forall_impl; [apply Hb|]. intros u ([??] & ?). unfold valid_user; simpl.
    split_and!; [done|done|by apply positive_or_ptr].
Qed.

Lemma generated_valid spec pp mp pw tls :
  admitted spec → users_resolved spec pw → valid_doorman (generated spec pp mp pw tls).
Proof.
  intros (Hne & Hp & Hg) Hu. unfold valid_doorman; simpl. split_and!.
  - intros Hempty. apply Hne. apply map_eq. intros k. rewrite lookup_empty.
    apply (f_equal (.!! k)) in Hempty. rewrite map_lookup_imap, lookup_empty in Hempty.
    by destruct (Pools spec !! k).
  - by apply generated_general_valid.
  - intros name pc. rewrite map_lookup_imap. destruct (Pools spec !! name) as [p|] eqn:Hn; [|done].
    intros [= <-]. apply generated_pool_valid; [by apply (Hp name)|].
    apply Forall_forall. intros u ?. eauto.
Qed.

(** ** Password keys *)
Definition slash_free (s : string) : Prop := "/"%char ∉ chars s.

Lemma slash_cut a b x y :
  slash_free a → slash_free b → a +:+ "/" +:+ x = b +:+ "/" +:+ y → a = b ∧ x = y.
Proof.
  unfold slash_free. revert b. induction a as [|c a IH]; intros [|d b] Ha Hb Heq;
    rewrite ?app_empty_l, ?app_String, ?app_empty_l in Heq; injection Heq as Heq; simplify_eq/=.
  - done.
  - set_solver.
  - set_solver.
  - destruct (IH b) as [-> ->]; [set_solver|set_solver|done|done].
Qed.

Lemma PasswordKey_inj p1 k1 u1 p2 k2 u2 :
  slash_free p1 → slash_free p2 → slash_free k1 → slash_free k2 →
  PasswordKey p1 k1 u1 = PasswordKey p2 k2 u2 → p1 = p2 ∧ k1 = k2 ∧ u1 = u2.
Proof.
  unfold PasswordKey. intros ???? Heq.
  apply slash_cut in Heq as [-> Heq]; [|done..]. apply slash_cut in Heq as [-> ->]; done.
Qed.

Lemma slash_free_compute s : bool_decide (slash_free s) = true → slash_free s.
Proof. apply bool_decide_eq_true_1. Qed.

(** No pool, whatever its name, has a key equal to the admin's: the admin key
    has a single slash. *)
Lemma count_slash_app a b :
  length (filter (.= "/"%char) (chars (a +:+ b)))
  = (length (filter (.= "/"%char) (chars a)) + length (filter (.= "/"%char) (chars b)))%nat.
Proof. by rewrite chars_app, filter_app, length_app. Qed.

Lemma PasswordKey_not_admin p k u : PasswordKey p k u ≠ AdminPasswordKey.
Proof.
  intros Heq. apply (f_equal (λ s, length (filter (.= "/"%char) (chars s)))) in Heq. revert Heq.
  unfold PasswordKey. rewrite !count_slash_app.
  assert (length (filter (.= "/"%char) (chars "/")) = 1%nat) as -> by done.
  assert (length (filter (.= "/"%char) (chars AdminPasswordKey)) = 1%nat) as -> by (by vm_compute).
  lia.
Qed.

(** ** Properties *)

(** [Generate] is a function of its inputs: for every order of its loops it
    dereferences no nil pointer and marshals the same configuration, in which
    each pool of the spec appears once, routed to the local PostgreSQL with its
    own users, sizes and passwords, and nothing else does. *)
Theorem Generate_deterministic `{Yaml} ρ1 ρ2 spec pp mp pw tls :
  let cfg := generated spec pp mp pw tls in
  Generate ρ1 ρ2 spec pp mp pw tls = Marshal cfg ∧
  gc_Port (dc_General cfg) = pp ∧
  gc_AdminPassword (dc_General cfg) = map_get pw AdminPasswordKey ∧
  dom (dc_Pools cfg) = dom (Pools spec) ∧
  ∀ name p, Pools spec !! name = Some p →
    ∃ pc, dc_Pools cfg !! name = Some pc ∧ pc_ServerHost pc = "localhost" ∧ pc_ServerPort pc = 5432 ∧
      (uc_Username <$> pc_Users pc) = (us_Username <$> ps_Users p) ∧
      (uc_Password <$> pc_Users pc)
        = (λ u, map_get pw (PasswordKey name "user" (us_Username u))) <$> ps_Users p ∧
      (ac_User <$> pc_AuthQuery pc) = (aq_User <$> ps_AuthQuery p) ∧
      (ac_Password <$> pc_AuthQuery pc)
        = (λ aq, map_get pw (PasswordKey name "auth_query" (aq_User aq))) <$> ps_AuthQuery p.
Proof.
  intros cfg. unfold Generate. rewrite build_config_generated. split_and!; [done..| |].
  - apply set_eq. intros k. rewrite !elem_of_dom. simpl. rewrite map_lookup_imap.
    destruct (Pools spec !! k); simpl; split; eauto; by intros [? ?].
  - intros name p Hp. eexists. simpl. rewrite map_lookup_imap, Hp. split; [done|].
    simpl. rewrite <- !list_fmap_compose. split_and!; [done..| |]; by destruct (ps_AuthQuery p).
Qed.

(** C38 — What the controller renders, the wrapper accepts: a document generated
    from a spec the CRD schema admits, with a non-empty password for every static
    user, passes [ValidateConfigBytes] and decodes to the generated
    configuration. *)
Theorem Generate_accepted `{YamlLaws} ρ1 ρ2 ρ spec pp mp pw tls data :
  admitted spec → users_resolved spec pw →
  Generate ρ1 ρ2 spec pp mp pw tls = Ok data →
  ValidateConfigBytes ρ data = Ok (generated spec pp mp pw tls).
Proof.
  intros Ha Hu. unfold Generate. rewrite build_config_generated. simpl. intros Hd.
  apply ValidateConfigBytes_ok. eauto using yaml_roundtrip, generated_valid.
Qed.

(** Password keys do not collide as long as pool names contain no slash,
    and the admin key never collides with one. *)
Theorem PasswordKey_injective p1 k1 u1 p2 k2 u2 :
  slash_free p1 → slash_free p2 → k1 ∈ ["auth_query"; "user"] → k2 ∈ ["auth_query"; "user"] →
  PasswordKey p1 k1 u1 ≠ AdminPasswordKey ∧
  (PasswordKey p1 k1 u1 = PasswordKey p2 k2 u2 → p1 = p2 ∧ k1 = k2 ∧ u1 = u2).
Proof.
  intros Hp1 Hp2 Hk1 Hk2. split; [apply PasswordKey_not_admin|].
  apply PasswordKey_inj; [done|done| |];
    [clear Hk2; rename Hk1 into Hk|clear Hk1; rename Hk2 into Hk];
    repeat (apply elem_of_cons in Hk as [->|Hk]; [by apply slash_free_compute|]);
    by apply not_elem_of_nil in Hk.
Qed.

(** Pool names are arbitrary map keys, and one that contains a slash can make
    two accounts share a key: the static user [auth_query/z] of pool [p] and the
    auth_query user [z] of pool [p/user] get the same password. *)
Theorem PasswordKey_collision :
  PasswordKey "p" "user" "auth_query/z" = PasswordKey "p/user" "auth_query" "z".
Proof. reflexivity. Qed.

Lemma PasswordKey_injective_witness :
  PasswordKey "app" "user" "a/b" ≠ AdminPasswordKey ∧
  (PasswordKey "app" "user" "a/b" = PasswordKey "app" "user" "a/b" →
   "app" = "app" ∧ "user" = "user" ∧ "a/b" = "a/b").
Proof. apply (PasswordKey_injective "app" "user" "a/b"); [by apply slash_free_compute..|set_solver|set_solver]. Defined.

(** A spec with one pool: an auth_query and a static user. *)
Definition example_spec : PgDoormanSpec :=
  {| ClusterRef := "my-cluster";
     Pools := {[ "app" :=
       {| ps_PoolMode := ""; ps_DefaultPoolSize := Some 10;
          ps_AuthQuery := Some {| aq_User := "doorman_auth"; aq_Query := ""; aq_PasswordSecretRef := None;
                                  aq_Database := ""; aq_PoolSize := None |};
          ps_Users := [{| us_Username := "alice"; us_PasswordSecretRef := {| ref_Name := "alice-pw"; ref_Key := "password" |};
                          us_PoolSize := None |}] |} ]};
     General := None; Prometheus := None |}.
Definition example_passwords : gmap string string :=
  {[ PasswordKey "app" "user" "alice" := "s3cret"; AdminPasswordKey := "adm" ]}.
Definition example_config : DoormanConfig := generated example_spec 6432 9127 example_passwords None.

Lemma example_admitted : admitted example_spec.
Proof.
  split_and!; [by vm_compute| |done]. apply map_Forall_singleton. split_and!; simpl.
  - set_solver.
  - by intros n [= <-].
  - by left.
  - by intros aq [= <-].
  - by repeat constructor.
Qed.

Lemma Generate_accepted_witness :
  let Y := table_yaml [("doc", example_config)] in
  @ValidateConfigBytes Y reverse_ranger "doc" = Ok example_config.
Proof.
  intros Y. assert (@YamlLaws Y) by (apply table_yaml_laws; repeat constructor; set_solver).
  apply (Generate_accepted default_ranger default_ranger reverse_ranger example_spec 6432 9127 example_passwords None).
  - apply example_admitted.
  - intros name p u Hp Hu. unfold example_spec in Hp. cbn [Pools] in Hp.
    apply lookup_singleton_Some in Hp as [<- <-]. simpl in Hu.
    apply list_elem_of_singleton in Hu as ->. by vm_compute.
  - vm_compute. reflexivity.
Defined.
