(* ===== verification/Specs.v ===== *)
(** * Names and references of a PgDoorman (internal/specs)

    Conventional object names, the Secrets a spec references, the defaulting of
    the auth_query password reference and the pooler Service. *)
From S2P Require Import Prelude GoStd Api K8s.
From stdpp Require Import options.
Open Scope Z_scope.

Definition GeneratedAuthSecretName (clusterName : string) : string := clusterName +:+ "-doorman-auth".
Definition GetRBACName (clusterName : string) : string := clusterName +:+ "-pg-doorman".
Definition GetServiceName (clusterName : string) : string := clusterName +:+ "-doorman-rw".
(** controller.RenderedSecretName. *)
Definition RenderedSecretName (clusterName : string) : string := clusterName +:+ "-doorman-config".
(** controller.ClusterLabel. *)
Definition ClusterLabel : string := "cnpg.io/cluster".

(** ** Referenced Secrets (secrets.go) *)

(** The references of one pool, in the order the code visits them. *)
Definition pool_refs (pool : PoolSpec) : list SecretKeySelector :=
  match ps_AuthQuery pool with
  | Some aq => match aq_PasswordSecretRef aq with Some r => [r] | None => [] end
  | None => []
  end ++ (us_PasswordSecretRef <$> ps_Users pool).

Definition admin_refs (spec : PgDoormanSpec) : list SecretKeySelector :=
  match General spec with
  | Some g => match gs_AdminPasswordSecretRef g with Some r => [r] | None => [] end
  | None => []
  end.

(** [add]: append a name not seen yet ([seen] holds exactly the result). *)
Definition add_name (result : list string) (name : string) : list string :=
  if decide (name ∈ result) then result else result ++ [name].

Definition CollectSecretNames (ρ : ranger) (spec : PgDoormanSpec) : list string :=
  let result := fold_left (λ acc '(_, pool), fold_left add_name (ref_Name <$> pool_refs pool) acc)
                  (range ρ (Pools spec)) [] in
  fold_left add_name (ref_Name <$> admin_refs spec) result.

(** ** Default auth_query references (authsecrets.go) *)
Definition set_ref (r : SecretKeySelector) (pool : PoolSpec) (aq : AuthQuerySpec) : PoolSpec :=
  {| ps_PoolMode := ps_PoolMode pool; ps_DefaultPoolSize := ps_DefaultPoolSize pool;
     ps_AuthQuery := Some {| aq_User := aq_User aq; aq_Query := aq_Query aq;
                             aq_PasswordSecretRef := Some r;
                             aq_Database := aq_Database aq; aq_PoolSize := aq_PoolSize aq |};
     ps_Users := ps_Users pool |}.

Definition generated_ref (spec : PgDoormanSpec) : SecretKeySelector :=
  {| ref_Name := GeneratedAuthSecretName (ClusterRef spec); ref_Key := "password" |}.

(** The body of the loop: the pools rewritten so far and the user seen. *)
Definition default_ref_step (r : SecretKeySelector) (st : gmap string PoolSpec * string)
    (e : string * PoolSpec) : res (gmap string PoolSpec * string) :=
  let '(pools, user) := st in
  let '(name, pool) := e in
  match ps_AuthQuery pool with
  | None => Ok st
  | Some aq =>
      match aq_PasswordSecretRef aq with
      | Some _ => Ok st
      | None =>
          if decide (user ≠ "" ∧ aq_User aq ≠ user) then
            Err (Errorf "pools omitting authQuery.passwordSecretRef must use the same user, got %q and %q"
                   [user; aq_User aq])
          else Ok (<[name := set_ref r pool aq]> pools, aq_User aq)
      end
  end.

Definition DefaultAuthSecretRefs (ρ : ranger) (spec : PgDoormanSpec) : res (PgDoormanSpec * string) :=
  '(pools, user) ← foldM (default_ref_step (generated_ref spec)) (Pools spec, "") (range ρ (Pools spec));
  Ok (set_Pools pools spec, user).

(** ** The pooler Service (service.go) *)

(** [int32(port)]: the conversion keeps the low 32 bits, signed. *)
Definition to_int32 (n : Z) : Z := (n + 2 ^ 31) mod 2 ^ 32 - 2 ^ 31.

Definition BuildDoormanService (cluster : Cluster) (poolerPort : Z) : Service :=
  {| svc_Namespace := cl_Namespace cluster;
     svc_Name := GetServiceName (cl_Name cluster);
     svc_Labels := {[ ClusterLabel := cl_Name cluster ]};
     svc_Selector := {[ ClusterLabel := cl_Name cluster; "cnpg.io/instanceRole" := "primary" ]};
     svc_Ports := [{| sp_Name := "pooler"; sp_Port := 5432; sp_TargetPort := to_int32 poolerPort;
                      sp_Protocol := "TCP" |}];
     svc_Owner := None |}.

(** ** Lemmas *)

(** The Secrets a spec references. *)
Definition references (spec : PgDoormanSpec) (name : string) : Prop :=
  (∃ poolName pool, Pools spec !! poolName = Some pool ∧ name ∈ ref_Name <$> pool_refs pool) ∨
  name ∈ ref_Name <$> admin_refs spec.

Lemma add_names_spec l acc :
  NoDup acc →
  NoDup (fold_left add_name l acc) ∧ ∀ n, n ∈ fold_left add_name l acc ↔ n ∈ acc ∨ n ∈ l.
Proof.
  revert acc. induction l as [|x l IH]; intros acc Hnd; simpl; [set_solver|].
  assert (NoDup (add_name acc x)) as Hnd'.
  { unfold add_name. case_decide; [done|]. apply NoDup_app. repeat split; [done|set_solver|apply NoDup_singleton]. }
  destruct (IH _ Hnd') as [? Hin]. split; [done|]. intros n. rewrite Hin.
  unfold add_name. case_decide; set_solver.
Qed.

Lemma add_pools_spec l acc :
  NoDup acc →
  let out := fold_left (λ acc '(_, pool), fold_left add_name (ref_Name <$> pool_refs pool) acc)
               (l : list (string * PoolSpec)) acc in
  NoDup out ∧
  ∀ n, n ∈ out ↔ n ∈ acc ∨ ∃ e, e ∈ l ∧ n ∈ ref_Name <$> pool_refs e.2.
Proof.
  revert acc. induction l as [|[k p] l IH]; intros acc Hnd; simpl; [set_solver|].
  destruct (add_names_spec (ref_Name <$> pool_refs p) acc Hnd) as [Hnd' Hin'].
  destruct (IH _ Hnd') as [? Hin]. split; [done|]. intros n. rewrite Hin, Hin'.
  setoid_rewrite elem_of_cons. naive_solver.
Qed.

Lemma CollectSecretNames_spec ρ spec :
  NoDup (CollectSecretNames ρ spec) ∧
  ∀ n, n ∈ CollectSecretNames ρ spec ↔ references spec n.
Proof.
  unfold CollectSecretNames, references.
  destruct (add_pools_spec (range ρ (Pools spec)) [] (NoDup_nil_2)) as [Hnd Hin].
  destruct (add_names_spec (ref_Name <$> admin_refs spec) _ Hnd) as [? Hin'].
  split; [done|]. intros n. rewrite Hin', Hin. split.
  - intros [[Hn|([k p] & Hk%elem_of_range & ?)]|?]; [by apply not_elem_of_nil in Hn|left; eauto|auto].
  - intros [(k & p & Hk & ?)|?]; [|auto]. left; right. exists (k, p). by rewrite elem_of_range.
Qed.

(** The user of an auth_query without a password reference. *)
Definition refless_user (pool : PoolSpec) : option string :=
  match ps_AuthQuery pool with
  | Some aq => match aq_PasswordSecretRef aq with None => Some (aq_User aq) | Some _ => None end
  | None => None
  end.

(** A pool after defaulting. *)
Definition fill_ref (r : SecretKeySelector) (pool : PoolSpec) : PoolSpec :=
  match ps_AuthQuery pool with
  | Some aq => match aq_PasswordSecretRef aq with None => set_ref r pool aq | Some _ => pool end
  | None => pool
  end.

Lemma default_ref_step_refless r m u k p x :
  refless_user p = Some x →
  default_ref_step r (m, u) (k, p) =
    if decide (u ≠ "" ∧ x ≠ u) then
      Err (Errorf "pools omitting authQuery.passwordSecretRef must use the same user, got %q and %q" [u; x])
    else Ok (<[k := fill_ref r p]> m, x).
Proof.
  unfold refless_user, default_ref_step, fill_ref.
  destruct (ps_AuthQuery p) as [aq|]; [|done]. destruct (aq_PasswordSecretRef aq); [done|].
  by intros [= <-].
Qed.

Lemma default_ref_step_other r st k p :
  refless_user p = None → default_ref_step r st (k, p) = Ok st ∧ fill_ref r p = p.
Proof.
  destruct st. unfold refless_user, default_ref_step, fill_ref.
  destruct (ps_AuthQuery p) as [aq|]; [|done]. by destruct (aq_PasswordSecretRef aq).
Qed.

Definition refless_users (l : list (string * PoolSpec)) : list string := omap (refless_user ∘ snd) l.

(** What the loop has computed when it ends without an error. *)
Lemma default_refs_ok r l m u m' u' :
  NoDup l.*1 → Forall (λ x, x ≠ "") (refless_users l) → (∀ k p, (k, p) ∈ l → m !! k = Some p) →
  foldM (default_ref_step r) (m, u) l = Ok (m', u') →
  Forall (λ x, x = u') (refless_users l) ∧ (u ≠ "" → u' = u) ∧ (refless_users l = [] → u' = u) ∧
  ∀ k, m' !! k = match (list_to_map l : gmap string PoolSpec) !! k with
                 | Some p => Some (fill_ref r p) | None => m !! k end.
Proof.
  revert m u. induction l as [|[k p] l IH]; intros m u Hnd Hne Hm; cbn [foldM].
  { intros [= <- <-]. by split_and!. }
  apply NoDup_cons in Hnd as [Hk Hnd]. unfold refless_users in *. cbn [omap list_omap] in *.
  unfold compose in *; cbn [snd] in *.
  destruct (refless_user p) as [x|] eqn:Hx.
  - rewrite (default_ref_step_refless _ _ _ _ _ x) by done. apply Forall_cons in Hne as [Hx0 Hne].
    case_decide as Hd; [done|]. cbn [mbind res_bind]. intros Hf.
    apply IH in Hf as (Hall & Hu & Hnil & Hl); [|done|done|].
    2: { intros k' p' Hin. rewrite lookup_insert_ne; [by apply Hm; right|].
         intros ->. apply Hk, list_elem_of_fmap. by exists (k', p'). }
    specialize (Hu Hx0). subst u'. split_and!; [by constructor| |done|].
    + intros Hu0. destruct (decide (x = u)); [done|]. by destruct Hd.
    + intros k'. rewrite Hl. cbn. destruct (decide (k' = k)) as [->|].
      * rewrite lookup_insert_eq, not_elem_of_list_to_map_1 by done. by rewrite lookup_insert_eq.
      * by rewrite !lookup_insert_ne by done.
  - destruct (default_ref_step_other r (m, u) k p Hx) as [-> Hfill]. cbn [mbind res_bind]. intros Hf.
    apply IH in Hf as (Hall & Hu & Hnil & Hl); [|done|done|intros; apply Hm; by right].
    split_and!; [done..|]. intros k'. rewrite Hl. cbn. destruct (decide (k' = k)) as [->|].
    + rewrite lookup_insert_eq, not_elem_of_list_to_map_1 by done. rewrite Hfill. apply Hm. left.
    + by rewrite lookup_insert_ne by done.
Qed.

(** An error means two different users. *)
Lemma default_refs_err r l m u e :
  foldM (default_ref_step r) (m, u) l = Err e →
  ∃ x y, x ≠ y ∧ y ∈ refless_users l ∧ (x ∈ refless_users l ∨ (x = u ∧ u ≠ "")).
Proof.
  revert m u. induction l as [|[k p] l IH]; intros m u; cbn [foldM]; [done|].
  unfold refless_users in *. cbn [omap list_omap] in *. unfold compose in *; cbn [snd] in *.
  destruct (refless_user p) as [x|] eqn:Hx.
  - rewrite (default_ref_step_refless _ _ _ _ _ x) by done. case_decide as Hd.
    + intros _. exists u, x. split; [naive_solver|]. split; [left|naive_solver].
    + intros (a & b & ? & ? & Hab)%IH. exists a, b. split; [done|]. split; [by right|].
      left. destruct Hab as [?|[-> _]]; [by right|left].
  - destruct (default_ref_step_other r (m, u) k p Hx) as [-> _].
    intros (a & b & ? & ? & ?)%IH. eauto.
Qed.

(** The specs whose auth_query users are non-empty, as the CRD schema requires. *)
Definition users_named (spec : PgDoormanSpec) : Prop :=
  map_Forall (λ _ p, ∀ x, refless_user p = Some x → x ≠ "") (Pools spec).

Definition has_refless (spec : PgDoormanSpec) (x : string) : Prop :=
  ∃ name p, Pools spec !! name = Some p ∧ refless_user p = Some x.

Lemma elem_of_refless_users ρ spec x :
  x ∈ refless_users (range ρ (Pools spec)) ↔ has_refless spec x.
Proof.
  unfold refless_users, has_refless. rewrite list_elem_of_omap. split.
  - intros ([k p] & Hin%elem_of_range & Hx). eauto.
  - intros (k & p & Hk & Hx). exists (k, p). by rewrite elem_of_range.
Qed.

Lemma DefaultAuthSecretRefs_ok ρ spec spec' user :
  users_named spec → DefaultAuthSecretRefs ρ spec = Ok (spec', user) →
  spec' = set_Pools (fill_ref (generated_ref spec) <$> Pools spec) spec ∧
  (∀ x, has_refless spec x → x = user) ∧ (user ≠ "" → has_refless spec user).
Proof.
  intros Hn. unfold DefaultAuthSecretRefs.
  destruct (foldM _ _ _) as [[m u]|] eqn:Hf; [|done]. simpl. intros [= <- <-].
  assert (Forall (λ x, x ≠ "") (refless_users (range ρ (Pools spec)))) as Hne.
  { apply Forall_forall. intros x (k & p & Hk & Hx)%elem_of_refless_users. by eapply (Hn k p). }
  apply default_refs_ok in Hf as (Hall & _ & Hnil & Hl); [|apply NoDup_range_keys|done|].
  2: { intros k p. by rewrite elem_of_range. }
  split_and!.
  - f_equal. apply map_eq. intros k. rewrite Hl, list_to_map_range, lookup_fmap.
    by destruct (Pools spec !! k).
  - intros x Hx%(elem_of_refless_users ρ). by rewrite Forall_forall in Hall; apply Hall.
  - intros Hu. apply (elem_of_refless_users ρ).
    destruct (refless_users _) as [|x l] eqn:Hrl; [by rewrite Hnil in Hu|].
    apply Forall_cons in Hall as [-> _]. left.
Qed.

Lemma DefaultAuthSecretRefs_err ρ spec e :
  DefaultAuthSecretRefs ρ spec = Err e → ∃ x y, x ≠ y ∧ has_refless spec x ∧ has_refless spec y.
Proof.
  unfold DefaultAuthSecretRefs. destruct (foldM _ _ _) as [[m u]|e'] eqn:Hf; [done|]. intros _.
  apply default_refs_err in Hf as (x & y & ? & Hy & [Hx|[_ []]]); [|done].
  exists x, y. by rewrite <- !(elem_of_refless_users ρ).
Qed.

(** ** Properties *)

(** [CollectSecretNames] lists every Secret the spec references (auth_query,
    static users, admin password), nothing else, and each once, whatever the map
    order. *)
Theorem CollectSecretNames_correct ρ spec :
  NoDup (CollectSecretNames ρ spec) ∧
  ∀ name, name ∈ CollectSecretNames ρ spec ↔ references spec name.
Proof. apply CollectSecretNames_spec. Qed.

(** [DefaultAuthSecretRefs] on a spec whose auth users are named: it fails
    exactly when two pools without a reference disagree on the user; otherwise,
    for every map order, it returns the same spec, in which every auth_query has a
    reference (the given one, or the generated Secret's) and nothing else changed,
    and the user shared by the defaulted pools ("" when there is none). *)
Theorem DefaultAuthSecretRefs_correct ρ spec :
  users_named spec →
  match DefaultAuthSecretRefs ρ spec with
  | Ok (spec', user) =>
      spec' = set_Pools (fill_ref (generated_ref spec) <$> Pools spec) spec ∧
      (∀ x, has_refless spec x → x = user) ∧ (user ≠ "" → has_refless spec user) ∧
      (∀ x, ¬ has_refless spec' x)
  | Err _ => ∃ x y, x ≠ y ∧ has_refless spec x ∧ has_refless spec y
  end.
Proof.
  intros Hn. destruct (DefaultAuthSecretRefs ρ spec) as [[spec' user]|e] eqn:Hd.
  - apply DefaultAuthSecretRefs_ok in Hd as (-> & Hx & Hu); [|done]. split_and!; [done..|].
    intros x (k & p & Hp & Hr). simpl in Hp. apply lookup_fmap_Some in Hp as (q & <- & _).
    revert Hr. unfold refless_user, fill_ref.
    destruct (ps_AuthQuery q) as [aq|] eqn:Haq; [|by rewrite Haq].
    destruct (aq_PasswordSecretRef aq) eqn:Href; [by rewrite Haq, Href|done].
  - by apply DefaultAuthSecretRefs_err in Hd.
Qed.

(** Two pools, one of which brings its own reference. *)
Definition two_pools_spec : PgDoormanSpec :=
  let aq user ref := {| aq_User := user; aq_Query := ""; aq_PasswordSecretRef := ref;
                        aq_Database := ""; aq_PoolSize := None |} in
  let pool a := {| ps_PoolMode := ""; ps_DefaultPoolSize := None; ps_AuthQuery := Some a; ps_Users := [] |} in
  {| ClusterRef := "c"; General := None; Prometheus := None;
     Pools := {[ "a" := pool (aq "auth" None);
                 "b" := pool (aq "other" (Some {| ref_Name := "mine"; ref_Key := "k" |}));
                 "c" := pool (aq "auth" None) ]} |}.

Lemma DefaultAuthSecretRefs_correct_witness :
  users_named two_pools_spec ∧
  ∃ spec', DefaultAuthSecretRefs reverse_ranger two_pools_spec = Ok (spec', "auth") ∧
    ∀ x, ¬ has_refless spec' x.
Proof.
  assert (users_named two_pools_spec) as Hn.
  { intros k p Hk x Hx ->. revert Hk Hx. unfold two_pools_spec. cbn [Pools].
    rewrite !lookup_insert_Some, lookup_singleton_Some. naive_solver. }
  split; [done|].
  pose proof (DefaultAuthSecretRefs_correct reverse_ranger two_pools_spec Hn) as H.
  destruct (DefaultAuthSecretRefs reverse_ranger two_pools_spec) as [[s u]|] eqn:E;
    [|by vm_compute in E].
  exists s. destruct H as (_ & _ & _ & H). split; [|exact H].
  vm_compute in E. by injection E as _ <-.
Defined.
