(* ===== verification/InPlace.v ===== *)
(** * The operations that write into a spec (defaults.go, authsecrets.go)

    [ApplyDefaults] and [DefaultAuthSecretRefs] as they are written: on a
    pointer, through the pointers, slices and maps of the spec they are given.
    On a deep copy they compute what the pure definitions of [Api] and [Specs]
    say, and the object they were derived from, which the API server's cache
    may share, keeps its value; on the object itself they would not. *)
From S2P Require Import Prelude Memory Api Specs DeepCopy.
From iris.base_logic.lib Require Import ghost_map.
From iris.proofmode Require Import proofmode.
From stdpp Require Import options.

(** Assignments to one field. *)
Definition set_m_Pools (p : ptr (gmap string PoolSpec_mem)) (s : PgDoormanSpec_mem) : PgDoormanSpec_mem :=
  {| m_ClusterRef := m_ClusterRef s; m_Pools := p; m_General := m_General s; m_Prometheus := m_Prometheus s |}.
Definition set_m_General (g : ptr GeneralSpec_mem) (s : PgDoormanSpec_mem) : PgDoormanSpec_mem :=
  {| m_ClusterRef := m_ClusterRef s; m_Pools := m_Pools s; m_General := g; m_Prometheus := m_Prometheus s |}.
Definition set_m_Prometheus (p : ptr PrometheusSpec_mem) (s : PgDoormanSpec_mem) : PgDoormanSpec_mem :=
  {| m_ClusterRef := m_ClusterRef s; m_Pools := m_Pools s; m_General := m_General s; m_Prometheus := p |}.
Definition set_m_Enabled (b : ptr bool) (p : PrometheusSpec_mem) : PrometheusSpec_mem := {| m_pr_Enabled := b |}.

Definition set_m_MaxConnections (n : ptr Z) (g : GeneralSpec_mem) : GeneralSpec_mem :=
  let '{| m_gs_WorkerThreads := wt; m_gs_ConnectTimeout := ct; m_gs_IdleTimeout := it;
          m_gs_ServerLifetime := sl; m_gs_ShutdownTimeout := st; m_gs_AdminUsername := au;
          m_gs_AdminPasswordSecretRef := r |} := g in
  Build_GeneralSpec_mem n wt ct it sl st au r.
Definition set_m_WorkerThreads (n : ptr Z) (g : GeneralSpec_mem) : GeneralSpec_mem :=
  let '{| m_gs_MaxConnections := mc; m_gs_ConnectTimeout := ct; m_gs_IdleTimeout := it;
          m_gs_ServerLifetime := sl; m_gs_ShutdownTimeout := st; m_gs_AdminUsername := au;
          m_gs_AdminPasswordSecretRef := r |} := g in
  Build_GeneralSpec_mem mc n ct it sl st au r.
Definition set_m_ConnectTimeout (s : string) (g : GeneralSpec_mem) : GeneralSpec_mem :=
  let '{| m_gs_MaxConnections := mc; m_gs_WorkerThreads := wt; m_gs_IdleTimeout := it;
          m_gs_ServerLifetime := sl; m_gs_ShutdownTimeout := st; m_gs_AdminUsername := au;
          m_gs_AdminPasswordSecretRef := r |} := g in
  Build_GeneralSpec_mem mc wt s it sl st au r.
Definition set_m_IdleTimeout (s : string) (g : GeneralSpec_mem) : GeneralSpec_mem :=
  let '{| m_gs_MaxConnections := mc; m_gs_WorkerThreads := wt; m_gs_ConnectTimeout := ct;
          m_gs_ServerLifetime := sl; m_gs_ShutdownTimeout := st; m_gs_AdminUsername := au;
          m_gs_AdminPasswordSecretRef := r |} := g in
  Build_GeneralSpec_mem mc wt ct s sl st au r.
Definition set_m_ServerLifetime (s : string) (g : GeneralSpec_mem) : GeneralSpec_mem :=
  let '{| m_gs_MaxConnections := mc; m_gs_WorkerThreads := wt; m_gs_ConnectTimeout := ct;
          m_gs_IdleTimeout := it; m_gs_ShutdownTimeout := st; m_gs_AdminUsername := au;
          m_gs_AdminPasswordSecretRef := r |} := g in
  Build_GeneralSpec_mem mc wt ct it s st au r.
Definition set_m_ShutdownTimeout (s : string) (g : GeneralSpec_mem) : GeneralSpec_mem :=
  let '{| m_gs_MaxConnections := mc; m_gs_WorkerThreads := wt; m_gs_ConnectTimeout := ct;
          m_gs_IdleTimeout := it; m_gs_ServerLifetime := sl; m_gs_AdminUsername := au;
          m_gs_AdminPasswordSecretRef := r |} := g in
  Build_GeneralSpec_mem mc wt ct it sl s au r.
Definition set_m_AdminUsername (s : string) (g : GeneralSpec_mem) : GeneralSpec_mem :=
  let '{| m_gs_MaxConnections := mc; m_gs_WorkerThreads := wt; m_gs_ConnectTimeout := ct;
          m_gs_IdleTimeout := it; m_gs_ServerLifetime := sl; m_gs_ShutdownTimeout := st;
          m_gs_AdminPasswordSecretRef := r |} := g in
  Build_GeneralSpec_mem mc wt ct it sl st s r.

Definition set_m_Query (s : string) (a : AuthQuerySpec_mem) : AuthQuerySpec_mem :=
  {| m_aq_User := m_aq_User a; m_aq_Query := s; m_aq_PasswordSecretRef := m_aq_PasswordSecretRef a;
     m_aq_Database := m_aq_Database a; m_aq_PoolSize := m_aq_PoolSize a |}.
Definition set_m_PasswordSecretRef (r : ptr SecretKeySelector) (a : AuthQuerySpec_mem) : AuthQuerySpec_mem :=
  {| m_aq_User := m_aq_User a; m_aq_Query := m_aq_Query a; m_aq_PasswordSecretRef := r;
     m_aq_Database := m_aq_Database a; m_aq_PoolSize := m_aq_PoolSize a |}.
Definition set_m_Database (s : string) (a : AuthQuerySpec_mem) : AuthQuerySpec_mem :=
  {| m_aq_User := m_aq_User a; m_aq_Query := m_aq_Query a; m_aq_PasswordSecretRef := m_aq_PasswordSecretRef a;
     m_aq_Database := s; m_aq_PoolSize := m_aq_PoolSize a |}.
Definition set_m_aq_PoolSize (n : ptr Z) (a : AuthQuerySpec_mem) : AuthQuerySpec_mem :=
  {| m_aq_User := m_aq_User a; m_aq_Query := m_aq_Query a; m_aq_PasswordSecretRef := m_aq_PasswordSecretRef a;
     m_aq_Database := m_aq_Database a; m_aq_PoolSize := n |}.
Definition set_m_us_PoolSize (n : ptr Z) (u : UserSpec_mem) : UserSpec_mem :=
  {| m_us_Username := m_us_Username u; m_us_PasswordSecretRef := m_us_PasswordSecretRef u; m_us_PoolSize := n |}.
Definition set_m_PoolMode (s : string) (p : PoolSpec_mem) : PoolSpec_mem :=
  {| m_ps_PoolMode := s; m_ps_DefaultPoolSize := m_ps_DefaultPoolSize p; m_ps_AuthQuery := m_ps_AuthQuery p;
     m_ps_Users := m_ps_Users p |}.
Definition set_m_DefaultPoolSize (n : ptr Z) (p : PoolSpec_mem) : PoolSpec_mem :=
  {| m_ps_PoolMode := m_ps_PoolMode p; m_ps_DefaultPoolSize := n; m_ps_AuthQuery := m_ps_AuthQuery p;
     m_ps_Users := m_ps_Users p |}.

Section programs.
Context `{Metav1}.
Abbreviation prog A := (M (heap cell) A).

(** [if x.F == nil { x.F = new value }] and [if x.F == "" { x.F = s }] through
    the pointer [l]. *)
Definition fill_ptr {T A} `{!Stored cell T, !Stored cell A} (l : loc)
    (field : T → ptr A) (set : ptr A → T → T) (d : A) : prog unit :=
  t ← load l;
  match field t with
  | Some _ => mret ()
  | None => n ← new d; t ← load l; store l (set (Some n) t)
  end.
Definition fill_string {T} `{!Stored cell T} (l : loc)
    (field : T → string) (set : string → T → T) (d : string) : prog unit :=
  t ← load l;
  if decide (field t = "") then t ← load l; store l (set d t) else mret ().

Definition general_defaults (g : loc) : prog unit :=
  _ ← fill_ptr g m_gs_MaxConnections set_m_MaxConnections DefaultMaxConnections;
  _ ← fill_ptr g m_gs_WorkerThreads set_m_WorkerThreads DefaultWorkerThreads;
  _ ← fill_string g m_gs_ConnectTimeout set_m_ConnectTimeout DefaultConnectTimeout;
  _ ← fill_string g m_gs_IdleTimeout set_m_IdleTimeout DefaultIdleTimeout;
  _ ← fill_string g m_gs_ServerLifetime set_m_ServerLifetime DefaultServerLifetime;
  _ ← fill_string g m_gs_ShutdownTimeout set_m_ShutdownTimeout DefaultShutdownTimeout;
  fill_string g m_gs_AdminUsername set_m_AdminUsername DefaultAdminUsername.

Definition authQuery_defaults (aq : loc) : prog unit :=
  _ ← fill_string aq m_aq_Query set_m_Query DefaultAuthQueryQuery;
  _ ← fill_string aq m_aq_Database set_m_Database DefaultAuthQueryDatabase;
  fill_ptr aq m_aq_PoolSize set_m_aq_PoolSize DefaultAuthQueryPoolSize.

(** [if pool.Users[i].PoolSize == nil { ... }]. *)
Definition user_defaults (h : slice_header) (i : nat) : prog unit :=
  u ← index h i;
  match m_us_PoolSize u with
  | Some _ => mret ()
  | None => n ← new DefaultUserPoolSize; u ← index h i; set_index h i (set_m_us_PoolSize (Some n) u)
  end.

(** The body of the loop: [pool] is a copy of the map's entry, what its pointers
    and its slice lead to is not. *)
Definition pool_defaults (pool : PoolSpec_mem) : prog PoolSpec_mem :=
  let pool := if decide (m_ps_PoolMode pool = "") then set_m_PoolMode DefaultPoolMode pool else pool in
  pool ← match m_ps_DefaultPoolSize pool with
         | Some _ => mret pool
         | None => n ← new DefaultDefaultPoolSize; mret (set_m_DefaultPoolSize (Some n) pool)
         end;
  _ ← match m_ps_AuthQuery pool with Some aq => authQuery_defaults aq | None => mret () end;
  _ ← match m_ps_Users pool with
      | Some h => for_each (user_defaults h) (seq 0 (sl_len h))
      | None => mret ()
      end;
  mret pool.

(** One iteration of a range over [spec.Pools] that assigns [spec.Pools[name]]:
    [body] gets the entry and returns what is assigned, if anything is. *)
Definition on_entry {A} (spec : loc) (name : string) (skip : A)
    (body : PoolSpec_mem → prog (option PoolSpec_mem * A)) : prog A :=
  s ← load (T := PgDoormanSpec_mem) spec;
  lm ← deref (m_Pools s);
  m ← load (T := gmap string PoolSpec_mem) lm;
  match m !! name with
  | None => mret skip
  | Some pool =>
      '(assigned, a) ← body pool;
      match assigned with
      | None => mret a
      | Some pool =>
          s ← load (T := PgDoormanSpec_mem) spec;
          lm ← deref (m_Pools s);
          m ← load (T := gmap string PoolSpec_mem) lm;
          _ ← store lm (<[name := pool]> m);
          mret a
      end
  end.
(** The keys a range over [spec.Pools] visits. *)
Definition pool_names (ρ : ranger) (spec : loc) : prog (list string) :=
  s ← load (T := PgDoormanSpec_mem) spec;
  match m_Pools s with
  | None => mret []
  | Some lm => m ← load (T := gmap string PoolSpec_mem) lm; mret (range ρ m).*1
  end.

Definition ApplyDefaults_mem (ρ : ranger) (spec : loc) : prog unit :=
  _ ← fill_ptr spec m_General set_m_General zero_GeneralSpec;
  s ← load (T := PgDoormanSpec_mem) spec;
  g ← deref (m_General s);
  _ ← general_defaults g;
  _ ← fill_ptr spec m_Prometheus set_m_Prometheus zero_PrometheusSpec;
  s ← load (T := PgDoormanSpec_mem) spec;
  p ← deref (m_Prometheus s);
  _ ← fill_ptr p m_pr_Enabled set_m_Enabled true;
  names ← pool_names ρ spec;
  for_each (λ name, on_entry spec name () (λ pool, p ← pool_defaults pool; mret (Some p, ()))) names.

(** The body of the loop of DefaultAuthSecretRefs. *)
Definition default_ref_mem (normalized : loc) (user : string) (pool : PoolSpec_mem)
    : prog (option PoolSpec_mem * string) :=
  match m_ps_AuthQuery pool with
  | None => mret (None, user)
  | Some aq =>
      a ← load (T := AuthQuerySpec_mem) aq;
      match m_aq_PasswordSecretRef a with
      | Some _ => mret (None, user)
      | None =>
          if decide (user ≠ "" ∧ m_aq_User a ≠ user) then
            throw (Errorf "pools omitting authQuery.passwordSecretRef must use the same user, got %q and %q"
                     [user; m_aq_User a])
          else
            let user := m_aq_User a in
            s ← load (T := PgDoormanSpec_mem) normalized;
            r ← new {| ref_Name := GeneratedAuthSecretName (m_ClusterRef s); ref_Key := "password" |};
            a ← load (T := AuthQuerySpec_mem) aq;
            _ ← store aq (set_m_PasswordSecretRef (Some r) a);
            mret (Some pool, user)
      end
  end.

Definition DefaultAuthSecretRefs_mem (ρ ρ' : ranger) (spec : ptr PgDoormanSpec_mem)
    : prog (ptr PgDoormanSpec_mem * string) :=
  copy ← PgDoormanSpec_DeepCopy ρ spec;
  normalized ← deref copy;
  names ← pool_names ρ' normalized;
  user ← foldMW (λ user name, on_entry normalized name user (default_ref_mem normalized user)) "" names;
  mret (copy, user).

(** The first two statements of configgen.Generate. *)
Definition Generate_applied (ρ ρ' : ranger) (spec : ptr PgDoormanSpec_mem) : prog (ptr PgDoormanSpec_mem) :=
  applied ← PgDoormanSpec_DeepCopy ρ spec;
  l ← deref applied;
  _ ← ApplyDefaults_mem ρ' l;
  mret applied.
End programs.

(** ** The programs on memory of their own *)
Section proofs.
Context `{Metav1} `{!memG cell Σ}.

Lemma wp_fill_ptr {T A V} `{!Stored cell T, !Stored cell A} (O : A → V → iProp Σ) l
    (field : T → ptr A) set (d : A) (t : T) v dv Φ :
  set (field t) t = t →
  l ↦ t -∗ owns_ptr O (field t) v -∗ O d dv -∗
  (∀ p, l ↦ set p t -∗ owns_ptr O p (or_ptr v dv) -∗ Φ (Ok ())) -∗
  wp (fill_ptr l field set d) Φ.
Proof.
  iIntros (Hset) "Hl Hv Hd HΦ". iApply wp_bind. iApply (wp_load with "Hl"). iIntros "Hl".
  destruct (field t) as [lf|] eqn:E, v as [v|]; simpl; try done.
  - iApply wp_ret. iApply ("HΦ" $! (Some lf) with "[Hl]"); [by rewrite Hset|done].
  - iApply wp_bind. iApply wp_new. iIntros (n) "Hn". iApply wp_bind. iApply (wp_load with "Hl").
    iIntros "Hl". iApply (wp_store with "Hl"). iIntros "Hl". iApply ("HΦ" with "Hl"). simpl.
    iExists d. iFrame.
Qed.
Lemma wp_fill_string {T} `{!Stored cell T} l (field : T → string) set d (t : T) Φ :
  set (field t) t = t →
  l ↦ t -∗ (l ↦ set (or_default (field t) d) t -∗ Φ (Ok ())) -∗ wp (fill_string l field set d) Φ.
Proof.
  iIntros (Hset) "Hl HΦ". iApply wp_bind. iApply (wp_load with "Hl"). iIntros "Hl".
  unfold or_default. case_decide as E.
  - iApply wp_bind. iApply (wp_load with "Hl"). iIntros "Hl". by iApply (wp_store with "Hl").
  - iApply wp_ret. iApply "HΦ". by rewrite Hset.
Qed.

Ltac fill_field f s := iApply (wp_fill_string _ f s with "Hl"); [done|]; iIntros "Hl"; simpl.

Lemma wp_general_defaults l t v :
  l ↦ t -∗ owns_GeneralSpec t v -∗
  wp (general_defaults l) (returning (λ _, ∃ t', l ↦ t' ∗ owns_GeneralSpec t' (default_general v))).
Proof.
  iIntros "Hl (%Hp & H1 & H2 & H3)". destruct t as [mc wt ct it sl st au r]; simpl in *.
  destruct Hp as (-> & -> & -> & -> & ->).
  iApply wp_bind. iApply (wp_fill_ptr _ _ m_gs_MaxConnections set_m_MaxConnections with "Hl H1"); [done..|].
  iIntros (mc') "Hl H1"; simpl.
  iApply wp_bind. iApply (wp_fill_ptr _ _ m_gs_WorkerThreads set_m_WorkerThreads with "Hl H2"); [done..|].
  iIntros (wt') "Hl H2"; simpl.
  iApply wp_bind. fill_field m_gs_ConnectTimeout set_m_ConnectTimeout.
  iApply wp_bind. fill_field m_gs_IdleTimeout set_m_IdleTimeout.
  iApply wp_bind. fill_field m_gs_ServerLifetime set_m_ServerLifetime.
  iApply wp_bind. fill_field m_gs_ShutdownTimeout set_m_ShutdownTimeout.
  fill_field m_gs_AdminUsername set_m_AdminUsername.
  iExists _. by iFrame.
Qed.

Lemma wp_authQuery_defaults l t v :
  l ↦ t -∗ owns_AuthQuerySpec t v -∗
  wp (authQuery_defaults l) (returning (λ _, ∃ t', l ↦ t' ∗ owns_AuthQuerySpec t' (default_authQuery v))).
Proof.
  iIntros "Hl (%Hp & H1 & H2)". destruct t as [u q r db n]; simpl in *. destruct Hp as (-> & -> & ->).
  iApply wp_bind. fill_field m_aq_Query set_m_Query. iApply wp_bind. fill_field m_aq_Database set_m_Database.
  iApply (wp_fill_ptr _ _ m_aq_PoolSize set_m_aq_PoolSize with "Hl H2"); [done..|].
  iIntros (n') "Hl H2". rewrite /set_m_aq_PoolSize /set_m_Database /set_m_Query.
  iExists _. iFrame "Hl". rewrite /owns_AuthQuerySpec /=. by iFrame.
Qed.

Lemma wp_user_defaults h i ts vs t v :
  sl_off h = 0 → i < sl_len h → ts !! i = Some t → vs !! i = Some v →
  sl_arr h ↦ ts -∗ ([∗ list] t; v ∈ ts; vs, owns_UserSpec t v) -∗
  wp (user_defaults h i) (returning (λ _, ∃ ts', sl_arr h ↦ ts' ∗ ⌜length ts' = length ts⌝ ∗
    [∗ list] t; v ∈ ts'; <[i := default_user v]> vs, owns_UserSpec t v)).
Proof.
  iIntros (Ho Hi Ht Hv) "Hl Hts". iApply wp_bind.
  assert (ts !! (sl_off h + i) = Some t) as Ht' by by rewrite Ho.
  iApply (wp_index with "Hl"); [done..|]. iIntros "Hl".
  iDestruct (big_sepL2_insert_acc with "Hts") as "[[%Hp Ht] Hts]"; [exact Ht|exact Hv|].
  destruct t as [u r n], v as [u' r' n']; simpl in *. destruct Hp as [-> ->].
  destruct n as [n|], n' as [z|]; simpl; try done.
  - iApply wp_ret. iExists ts. iFrame "Hl". iSplit; [done|].
    iDestruct ("Hts" $! (Build_UserSpec_mem u' r' (Some n)) (Build_UserSpec u' r' (Some z)) with "[Ht]") as "Hts".
    { iSplit; done. }
    by rewrite (list_insert_id ts).
  - iApply wp_bind. iApply wp_new. iIntros (l) "Hn". iApply wp_bind.
    iApply (wp_index with "Hl"); [done..|]. iIntros "Hl". iApply (wp_set_index with "Hl"); [done|].
    iIntros "Hl". iExists _. iFrame "Hl". rewrite length_insert Ho. iSplit; [done|].
    iApply "Hts". iSplit; [done|]. simpl. iExists _. by iFrame.
Qed.

Lemma insert_mapped {A} (f : A → A) (l : list A) i x :
  l !! i = Some x → <[i := f x]> ((f <$> take i l) ++ drop i l) = (f <$> take (S i) l) ++ drop (S i) l.
Proof.
  intros Hx. assert (i < length l) as Hi by by eapply lookup_lt_Some.
  assert (length (f <$> take i l) = i) as Hlen by (rewrite length_fmap length_take; lia).
  rewrite insert_app_r_alt Hlen; [|lia]. rewrite Nat.sub_diag (drop_S _ _ _ Hx) (take_S_r _ _ _ Hx).
  by rewrite fmap_app -app_assoc.
Qed.

Lemma wp_users_defaults (s : slice UserSpec_mem) vs :
  owns_slice owns_UserSpec s vs -∗
  wp (match s with Some h => for_each (user_defaults h) (seq 0 (sl_len h)) | None => mret () end)
    (returning (λ _, owns_slice owns_UserSpec s (default_user <$> vs))).
Proof.
  iIntros "Hs". destruct s as [h|]; simpl; [|iDestruct "Hs" as %->; by iApply wp_ret].
  iDestruct "Hs" as "(%ts & Hl & [%Ho %Hn] & Hts)".
  iDestruct (big_sepL2_length with "Hts") as %Hlen.
  iApply (wp_wand with "[Hl Hts]").
  - iApply (wp_for_each _ _ (λ i, ∃ ts, sl_arr h ↦ ts ∗ ⌜length ts = sl_len h⌝ ∗
      [∗ list] t; v ∈ ts; (default_user <$> take i vs) ++ drop i vs, owns_UserSpec t v)%I with "[Hl Hts]").
    { iExists ts. by iFrame. }
    iIntros "!>" (i j [-> Hj]%lookup_seq) "(%ts' & Hl & %Hn' & Hts)"; simpl.
    destruct (lookup_lt_is_Some_2 ts' i) as [t Ht]; [lia|].
    destruct (lookup_lt_is_Some_2 vs i) as [v Hv]; [lia|].
    iApply (wp_wand with "[Hl Hts]").
    + iApply (wp_user_defaults _ _ _ _ t v with "Hl Hts"); [done|lia|done|].
      rewrite lookup_app_r length_fmap length_take; [|lia]. rewrite lookup_drop -Hv. f_equal. lia.
    + iIntros ([[]|]) "H"; [|done]. iDestruct "H" as "(%ts2 & Hl & %Hn2 & Hts)". iExists ts2. iFrame "Hl".
      rewrite (insert_mapped default_user) //. iFrame. iPureIntro. lia.
  - rewrite length_seq. iIntros ([[]|]) "H"; [|done]. iDestruct "H" as "(%ts' & Hl & %Hn' & Hts)".
    iExists ts'. iFrame "Hl". iSplit; [done|]. rewrite firstn_all2; [|lia]. rewrite skipn_all2; [|lia].
    by rewrite app_nil_r.
Qed.

Lemma wp_pool_authQuery (p : ptr AuthQuerySpec_mem) v :
  owns_ptr owns_AuthQuerySpec p v -∗
  wp (match p with Some aq => authQuery_defaults aq | None => mret () end)
    (returning (λ _, owns_ptr owns_AuthQuerySpec p (default_authQuery <$> v))).
Proof.
  iIntros "H". destruct p as [aq|], v as [v|]; simpl; try done; [|by iApply wp_ret].
  iDestruct "H" as "(%t & Hl & Ht)". iApply (wp_authQuery_defaults with "Hl Ht").
Qed.

Lemma wp_pool_defaults p v :
  owns_PoolSpec p v -∗ wp (pool_defaults p) (returning (λ p', owns_PoolSpec p' (default_pool v))).
Proof.
  iIntros "(%Hm & H1 & H2 & H3)". destruct p as [m n aq us]; simpl in *. subst m.
  rewrite /pool_defaults /=.
  set (p := if decide _ then _ else _).
  assert (p = Build_PoolSpec_mem (or_default (ps_PoolMode v) DefaultPoolMode) n aq us) as ->.
  { rewrite /p /or_default /set_m_PoolMode. by case_decide. }
  simpl. iApply (wp_step _ _ (λ p, ∃ n', ⌜p = Build_PoolSpec_mem (or_default (ps_PoolMode v) DefaultPoolMode) n' aq us⌝ ∗
    owns_ptr (λ t v, ⌜t = v⌝) n' (or_ptr (ps_DefaultPoolSize v) DefaultDefaultPoolSize))%I with "[H1]").
  { destruct n as [n|], (ps_DefaultPoolSize v) as [z|]; simpl; try done.
    - iApply wp_ret. iExists (Some n). by iFrame.
    - iApply wp_bind. iApply wp_new. iIntros (l) "Hl". iApply wp_ret. iExists (Some l).
      iSplit; [done|]. iExists _. by iFrame. }
  iIntros (q) "(%n' & -> & H1)"; simpl.
  iApply (wp_step with "[H2]"); [by iApply wp_pool_authQuery|]. iIntros ([]) "H2".
  iApply (wp_step with "[H3]"); [by iApply wp_users_defaults|]. iIntros ([]) "H3".
  iApply wp_ret. rewrite /owns_PoolSpec /=. by iFrame.
Qed.

(** The pools of a spec during a loop over them. *)
Definition owns_pools (lm : loc) (m : gmap string PoolSpec) : iProp Σ :=
  ∃ tm : gmap string PoolSpec_mem, lm ↦ tm ∗ [∗ map] t; v ∈ tm; m, owns_PoolSpec t v.

(** One iteration: the body owns the entry while it runs, and what it assigns
    takes its place. *)
Lemma wp_on_entry {A} spec s lm m name v (skip : A) body (Ψ : res A → iProp Σ) :
  m_Pools s = Some lm → m !! name = Some v →
  spec ↦ s -∗ owns_pools lm m -∗
  (∀ pool, spec ↦ s -∗ owns_PoolSpec pool v -∗
     wp (body pool) (λ r, match r with
       | Ok (Some pool', a) => ∃ v', spec ↦ s ∗ owns_PoolSpec pool' v' ∗
           (spec ↦ s -∗ owns_pools lm (<[name := v']> m) -∗ Ψ (Ok a))
       | Ok (None, a) => owns_PoolSpec pool v ∗ (owns_pools lm m -∗ Ψ (Ok a))
       | Err e => Ψ (Err e)
       end)) -∗
  wp (on_entry spec name skip body) Ψ.
Proof.
  iIntros (Hs Hv) "Hspec (%tm & Hl & Hm) Hbody".
  iDestruct (big_sepM2_lookup_iff with "Hm") as %Hk.
  destruct (Hk name) as [_ [pool Hp]]; [by eexists|].
  iDestruct (big_sepM2_insert_acc with "Hm") as "[Hpool Hm]"; [exact Hp|exact Hv|].
  iApply wp_bind. iApply (wp_load with "Hspec"). iIntros "Hspec". rewrite Hs.
  iApply wp_bind. iApply wp_ret. iApply wp_bind. iApply (wp_load with "Hl"). iIntros "Hl". rewrite Hp.
  iApply wp_bind. iApply (wp_wand with "[Hspec Hpool Hbody]"); [by iApply ("Hbody" with "Hspec")|].
  iIntros ([[[pool'|] a]|e]) "H"; [| |done].
  - iDestruct "H" as "(%v' & Hspec & Hpool & HΨ)".
    iApply wp_bind. iApply (wp_load with "Hspec"). iIntros "Hspec". rewrite Hs.
    iApply wp_bind. iApply wp_ret. iApply wp_bind. iApply (wp_load with "Hl"). iIntros "Hl".
    iApply wp_bind. iApply (wp_store with "Hl"). iIntros "Hl". iApply wp_ret.
    iApply ("HΨ" with "Hspec"). iExists _. iFrame "Hl". by iApply "Hm".
  - iDestruct "H" as "[Hpool HΨ]". iApply wp_ret. iApply "HΨ". iExists tm. iFrame "Hl".
    iDestruct ("Hm" with "Hpool") as "Hm". by rewrite !insert_id.
Qed.

(** The pools after the first [i] iterations. *)
Definition defaulted_upto (l : list string) (i : nat) (m : gmap string PoolSpec) : gmap string PoolSpec :=
  map_imap (λ k v, Some (if decide (k ∈ take i l) then default_pool v else v)) m.

Lemma defaulted_upto_0 l m : defaulted_upto l 0 m = m.
Proof.
  apply map_eq. intros k. rewrite map_lookup_imap take_0. by destruct (m !! k).
Qed.
Lemma defaulted_upto_all l m :
  (∀ k, is_Some (m !! k) → k ∈ l) → defaulted_upto l (length l) m = default_pool <$> m.
Proof.
  intros Hl. apply map_eq. intros k. rewrite map_lookup_imap lookup_fmap firstn_all.
  destruct (m !! k) eqn:E; simpl; [|done]. rewrite decide_True; [done|]. eauto.
Qed.
Lemma defaulted_upto_S l i k v m :
  NoDup l → l !! i = Some k → m !! k = Some v →
  defaulted_upto l i m !! k = Some v ∧
  <[k := default_pool v]> (defaulted_upto l i m) = defaulted_upto l (S i) m.
Proof.
  intros Hnd Hi Hk. assert (k ∉ take i l) as Hfresh.
  { rewrite -(take_drop_middle _ _ _ Hi) in Hnd. apply NoDup_app in Hnd as (_ & Hd & _).
    intros Hin. apply (Hd _ Hin). set_solver. }
  split; [by rewrite map_lookup_imap Hk /= decide_False|].
  apply map_eq. intros k'. rewrite lookup_insert !map_lookup_imap (take_S_r _ _ _ Hi).
  case_decide as E.
  - subst k'. rewrite Hk /= decide_True; [done|set_solver].
  - destruct (m !! k'); simpl; [|done]. do 2 case_decide; set_solver.
Qed.

Lemma wp_pool_names ρ spec s m Φ :
  spec ↦ s -∗ owns_map owns_PoolSpec (m_Pools s) m -∗
  (∀ names, ⌜NoDup names ∧ ∀ k, k ∈ names ↔ is_Some (m !! k)⌝ -∗ spec ↦ s -∗
     owns_map owns_PoolSpec (m_Pools s) m -∗ Φ (Ok names)) -∗
  wp (pool_names ρ spec) Φ.
Proof.
  iIntros "Hspec Hm HΦ". iApply wp_bind. iApply (wp_load with "Hspec"). iIntros "Hspec".
  destruct (m_Pools s) as [lm|]; simpl.
  - iDestruct "Hm" as "(%tm & Hl & Hm)". iDestruct (big_sepM2_lookup_iff with "Hm") as %Hk.
    iApply wp_bind. iApply (wp_load with "Hl"). iIntros "Hl". iApply wp_ret.
    iApply ("HΦ" with "[] Hspec"); [|iExists tm; by iFrame]. iPureIntro. split; [apply NoDup_range_keys|].
    intros k. rewrite -Hk list_elem_of_fmap. split.
    + intros ([? t] & -> & Ht%elem_of_range). by eexists.
    + intros [t Ht]. exists (k, t). by rewrite elem_of_range.
  - iDestruct "Hm" as %->. iApply wp_ret. iApply ("HΦ" with "[] Hspec"); [|done].
    iPureIntro. split; [constructor|]. intros k. rewrite lookup_empty. split; [set_solver|by intros []].
Qed.

Lemma wp_pools_defaults spec s m names :
  NoDup names → (∀ k, k ∈ names ↔ is_Some (m !! k)) →
  spec ↦ s -∗ owns_map owns_PoolSpec (m_Pools s) m -∗
  wp (for_each (λ name, on_entry spec name () (λ pool, p ← pool_defaults pool; mret (Some p, ()))) names)
    (returning (λ _, spec ↦ s ∗ owns_map owns_PoolSpec (m_Pools s) (default_pool <$> m))).
Proof.
  iIntros (Hnd Hk) "Hspec Hm". destruct (m_Pools s) as [lm|] eqn:Hs.
  2: { iDestruct "Hm" as %->. destruct names as [|k names]; simpl.
       - iApply wp_ret. iFrame. by rewrite fmap_empty.
       - destruct (Hk k) as [H1 _]. destruct H1 as [? H1]; [set_solver|]. by rewrite lookup_empty in H1. }
  iApply (wp_wand with "[Hspec Hm]").
  - iApply (wp_for_each _ _ (λ i, spec ↦ s ∗ owns_pools lm (defaulted_upto names i m))%I with "[$Hspec Hm]").
    { by rewrite defaulted_upto_0. }
    iIntros "!>" (i k Hi) "[Hspec Hm]".
    destruct (Hk k) as [[v Hv] _]; [by eapply list_elem_of_lookup_2|].
    destruct (defaulted_upto_S names i k v m Hnd Hi Hv) as [Hv' HS].
    iApply (wp_on_entry with "Hspec Hm"); [done..|]. iIntros (pool) "Hspec Hpool".
    iApply (wp_step with "[Hpool]"); [by iApply wp_pool_defaults|]. iIntros (p') "Hp'".
    iApply wp_ret. iExists _. iFrame. iIntros "Hspec Hm". rewrite HS. by iFrame.
  - iIntros ([[]|]) "H"; [|done]. rewrite defaulted_upto_all; [done|]. intros k. by rewrite Hk.
Qed.

Lemma wp_ApplyDefaults ρ ρ' spec s v :
  spec ↦ s -∗ owns_PgDoormanSpec s v -∗
  wp (ApplyDefaults_mem ρ spec)
    (returning (λ _, ∃ s', spec ↦ s' ∗ owns_PgDoormanSpec s' (ApplyDefaults ρ' v))).
Proof.
  iIntros "Hl (%Hc & Hps & Hg & Hp)". destruct s as [c ps g p], v as [c' pools general prom]; simpl in *. subst c'.
  iApply wp_bind. iApply (wp_fill_ptr _ _ m_General set_m_General _ _ _ zero_General with "Hl Hg"); [done| |].
  { rewrite /owns_GeneralSpec /=. done. }
  iIntros (g') "Hl Hg". rewrite /set_m_General /=.
  iApply wp_bind. iApply (wp_load with "Hl"). iIntros "Hl"; simpl.
  iAssert (∃ lg tg, ⌜g' = Some lg⌝ ∗ lg ↦ tg ∗ owns_GeneralSpec tg (default zero_General general))%I
    with "[Hg]" as (lg tg ->) "[Hlg Hg]".
  { destruct g' as [lg|], general; simpl; try done; iDestruct "Hg" as "(%tg & Hlg & Hg)";
      iExists lg, tg; by iFrame. }
  iApply wp_bind. iApply wp_ret.
  iApply (wp_step with "[Hlg Hg]"); [by iApply (wp_general_defaults with "Hlg Hg")|].
  iIntros ([]) "(%tg' & Hlg & Hg)".
  iApply wp_bind. iApply (wp_fill_ptr _ _ m_Prometheus set_m_Prometheus _ _ _ zero_Prometheus with "Hl Hp"); [done| |].
  { done. }
  iIntros (p') "Hl Hp". rewrite /set_m_Prometheus /=.
  iApply wp_bind. iApply (wp_load with "Hl"). iIntros "Hl"; simpl.
  iAssert (∃ lp tp, ⌜p' = Some lp⌝ ∗ lp ↦ tp ∗ owns_PrometheusSpec tp (default zero_Prometheus prom))%I
    with "[Hp]" as (lp tp ->) "[Hlp Hp]".
  { destruct p' as [lp|], prom; simpl; try done; iDestruct "Hp" as "(%tp & Hlp & Hp)";
      iExists lp, tp; by iFrame. }
  iApply wp_bind. iApply wp_ret. iApply wp_bind.
  iApply (wp_fill_ptr _ _ m_pr_Enabled set_m_Enabled with "Hlp Hp"); [by destruct tp|done|].
  iIntros (b) "Hlp Hp".
  iApply wp_bind. iApply (wp_pool_names with "Hl Hps"). iIntros (names [Hnd Hk]) "Hl Hps".
  iApply (wp_wand with "[Hl Hps]"); [by iApply (wp_pools_defaults with "Hl Hps")|].
  iIntros ([[]|]) "H"; [|done]. iDestruct "H" as "[Hl Hps]". iExists _. iFrame "Hl".
  rewrite /owns_PgDoormanSpec ApplyDefaults_Pools /=. iFrame "Hps". iSplit; [done|].
  iSplitL "Hlg Hg"; [iExists _; by iFrame|]. iExists _. iFrame "Hlp". done.
Qed.

(** ** DefaultAuthSecretRefs *)
Lemma wp_default_ref spec s lm m user name p r0 (Ψ : res string → iProp Σ) :
  m_Pools s = Some lm → m !! name = Some p →
  r0 = {| ref_Name := GeneratedAuthSecretName (m_ClusterRef s); ref_Key := "password" |} →
  spec ↦ s -∗ owns_pools lm m -∗
  (match default_ref_step r0 (m, user) (name, p) with
   | Ok (m', user') => spec ↦ s -∗ owns_pools lm m' -∗ Ψ (Ok user')
   | Err e => Ψ (Err e)
   end) -∗
  wp (on_entry spec name user (default_ref_mem spec user)) Ψ.
Proof.
  iIntros (Hs Hp Hr) "Hspec Hm HΨ". iApply (wp_on_entry with "Hspec Hm"); [done..|].
  iIntros (pool) "Hspec (%Hmode & Hn & Haq & Hus)". destruct pool as [mode n aq us]; simpl in *.
  rewrite /default_ref_mem /=.
  destruct aq as [l|], (ps_AuthQuery p) as [av|] eqn:Eaq; simpl; try done.
  2: { iApply wp_ret. iSplitR "Hspec HΨ"; [rewrite /owns_PoolSpec /= Eaq; by iFrame|].
       iIntros "Hm". by iApply ("HΨ" with "Hspec Hm"). }
  iDestruct "Haq" as "(%t & Hl & %Hu & Hr & Hsz)".
  iApply wp_bind. iApply (wp_load with "Hl"). iIntros "Hl".
  destruct t as [tu tq tr tdb tn]; simpl in *. destruct Hu as (-> & -> & ->).
  destruct tr as [lr|], (aq_PasswordSecretRef av) as [rv|] eqn:Er; simpl; try done.
  { iApply wp_ret. iSplitR "Hspec HΨ".
    - rewrite /owns_PoolSpec /= Eaq. iFrame "Hn Hus". iSplit; [done|]. iExists _. iFrame "Hl".
      rewrite /owns_AuthQuerySpec /= Er. by iFrame.
    - iIntros "Hm". by iApply ("HΨ" with "Hspec Hm"). }
  case_decide; [by iApply wp_throw|].
  iApply wp_bind. iApply (wp_load with "Hspec"). iIntros "Hspec".
  iApply wp_bind. iApply wp_new. iIntros (lr) "Hlr".
  iApply wp_bind. iApply (wp_load with "Hl"). iIntros "Hl".
  iApply wp_bind. iApply (wp_store with "Hl"). iIntros "Hl". iApply wp_ret.
  iExists (set_ref r0 p av). iFrame "Hspec". iSplitR "HΨ".
  - rewrite /owns_PoolSpec /set_ref /=. iFrame "Hn Hus". iSplit; [done|]. iExists _. iFrame "Hl".
    rewrite /owns_AuthQuerySpec /set_m_PasswordSecretRef /=. iFrame "Hsz". iSplit; [done|].
    iExists _. iFrame "Hlr". done.
  - iIntros "Hspec Hm". iApply ("HΨ" with "Hspec Hm").
Qed.

#[local] Arguments default_ref_step : simpl never.
Lemma wp_default_refs spec s lm m user l r0 :
  m_Pools s = Some lm → NoDup l.*1 → Forall (λ kp, m !! kp.1 = Some kp.2) l →
  r0 = {| ref_Name := GeneratedAuthSecretName (m_ClusterRef s); ref_Key := "password" |} →
  spec ↦ s -∗ owns_pools lm m -∗
  wp (foldMW (λ user name, on_entry spec name user (default_ref_mem spec user)) user l.*1)
    (λ r, match foldM (default_ref_step r0) (m, user) l with
          | Ok (m', user') => ⌜r = Ok user'⌝ ∗ spec ↦ s ∗ owns_pools lm m'
          | Err e => ⌜r = Err e⌝
          end).
Proof.
  iIntros (Hs Hnd Hl Hr) "Hspec Hm". iInduction l as [|[k p] l] forall (m user Hnd Hl); simpl in *.
  { iApply wp_ret. by iFrame. }
  apply NoDup_cons in Hnd as [Hk Hnd]. apply Forall_cons in Hl as [Hp Hl]; simpl in Hp.
  iApply wp_bind. iApply (wp_default_ref _ _ _ _ _ _ _ r0 with "Hspec Hm"); [done..|].
  assert (∀ m' user', default_ref_step r0 (m, user) (k, p) = Ok (m', user') →
    Forall (λ kp, m' !! kp.1 = Some kp.2) l) as Hkeep.
  { intros m' user' E. apply Forall_forall. intros [k' p'] Hin; simpl.
    rewrite Forall_forall in Hl. specialize (Hl _ Hin); simpl in Hl.
    assert (k ≠ k') as Hne by (intros ->; apply Hk, list_elem_of_fmap; by exists (k', p')).
    unfold default_ref_step in E. repeat case_match; simplify_eq; try done. by rewrite lookup_insert_ne. }
  destruct (default_ref_step r0 (m, user) (k, p)) as [[m' user']|e] eqn:E; simpl; [|done].
  iIntros "Hspec Hm". iApply ("IHl" with "[//] [] Hspec Hm"). iPureIntro. by eapply Hkeep.
Qed.
End proofs.

(** The ranger that visits the given keys in the given order. *)
Program Definition key_ranger (names : list string) : ranger :=
  {| range A m := if decide (NoDup names) then
                    omap (λ k, (k,.) <$> m !! k) names ++ filter (λ kv, kv.1 ∉ names) (map_to_list m)
                  else map_to_list m |}.
Next Obligation.
  intros names A m. case_decide as Hnd; [|done]. apply NoDup_Permutation.
  - apply NoDup_app. split_and!.
    + clear -Hnd. induction Hnd as [|k l Hk _ IH]; simpl; [constructor|].
      destruct (m !! k) as [x|]; simpl; [|done]. constructor; [|done].
      intros (k' & Hk' & E)%list_elem_of_omap. destruct (m !! k'); simplify_eq/=. done.
    + intros [k x] (k' & Hk' & E)%list_elem_of_omap [Hn _]%list_elem_of_filter.
      destruct (m !! k'); simplify_eq/=. done.
    + apply NoDup_filter, NoDup_map_to_list.
  - apply NoDup_map_to_list.
  - intros [k x]. rewrite elem_of_app list_elem_of_omap list_elem_of_filter elem_of_map_to_list /=.
    split.
    + intros [(k' & _ & E)|[_ H]]; [|done]. destruct (m !! k') eqn:Hk'; by simplify_eq/=.
    + intros H. destruct (decide (k ∈ names)); [left|by right]. exists k. by rewrite H.
Qed.
Lemma range_key_ranger {A} (names : list string) (m : gmap string A) :
  NoDup names → (∀ k, k ∈ names ↔ is_Some (m !! k)) → (range (key_ranger names) m).*1 = names.
Proof.
  intros Hnd Hk. simpl. rewrite decide_True //.
  assert (filter (λ kv : string * A, kv.1 ∉ names) (map_to_list m) = []) as ->.
  { apply elem_of_nil_inv. intros [k x] [Hn Hx%elem_of_map_to_list]%list_elem_of_filter.
    apply Hn, Hk. by eexists. }
  rewrite app_nil_r. clear Hnd.
  assert (∀ k, k ∈ names → is_Some (m !! k)) as H by (intros; by apply Hk). clear Hk.
  induction names as [|k l IH]; simpl; [done|].
  destruct (H k) as [x Hx]; [set_solver|]. rewrite Hx /=. f_equal. apply IH. intros; apply H; set_solver.
Qed.

Lemma range_empty {A} (ρ : ranger) : range ρ (∅ : gmap string A) = [].
Proof. apply Permutation_nil_r. by rewrite range_perm map_to_list_empty. Qed.

(** ** On a deep copy *)
Section isolated.
Context `{Metav1}.

(** The spec a caller passes may share anything with any object; [σ] is the
    memory of the process at the call. *)
Lemma reads_spec_cell (σ : heap cell) p v :
  reads_ptr reads_PgDoormanSpec σ p (Some v) → ∃ l, p = Some l.
Proof. destruct p; [by eexists|done]. Qed.

Lemma Generate_applied_run ρ1 ρ2 ρ3 σ p v :
  reads_ptr reads_PgDoormanSpec σ p (Some v) →
  ∃ p' m, Generate_applied ρ1 ρ2 p σ = (Ok p', m ∪ σ) ∧ m ##ₘ σ ∧
    reads_ptr reads_PgDoormanSpec m p' (Some (ApplyDefaults ρ3 v)).
Proof.
  intros Hp.
  destruct (adequacy (Generate_applied ρ1 ρ2 p) σ (λ r m, ∃ p', r = Ok p' ∧
    reads_ptr reads_PgDoormanSpec m p' (Some (ApplyDefaults ρ3 v)))) as (r & m & E & Hd & p' & -> & Hp').
  - intros r σ1 σ2 ? (p' & ? & ?). exists p'. split; [done|by eapply mono].
  - iIntros (G) "#F". iApply (wp_step with "[]").
    { by iApply (copies_run (R := reads_ptr reads_PgDoormanSpec) with "F"). }
    iIntros ([l|]) "Hl"; [|done]. iDestruct "Hl" as "(%s & Hl & Hs)".
    iApply wp_bind. iApply wp_ret.
    iApply (wp_step with "[Hl Hs]"); [by iApply (wp_ApplyDefaults with "Hl Hs")|].
    iIntros ([]) "Hs". iApply wp_ret.
    iApply (holds_weaken (λ m, reads_ptr reads_PgDoormanSpec m (Some l) (Some (ApplyDefaults ρ3 v)))); [eauto|].
    by iApply (owned_holds (O := owns_ptr owns_PgDoormanSpec)).
  - eauto.
Qed.

Lemma DefaultAuthSecretRefs_run ρ1 ρ2 σ p v :
  reads_ptr reads_PgDoormanSpec σ p (Some v) →
  ∃ r m ρ3, DefaultAuthSecretRefs_mem ρ1 ρ2 p σ = (r, m ∪ σ) ∧ m ##ₘ σ ∧
    match DefaultAuthSecretRefs ρ3 v with
    | Ok (v', user) => ∃ p', r = Ok (p', user) ∧ reads_ptr reads_PgDoormanSpec m p' (Some v')
    | Err e => r = Err e
    end.
Proof.
  intros Hp.
  destruct (adequacy (DefaultAuthSecretRefs_mem ρ1 ρ2 p) σ (λ r m, ∃ ρ3,
    match DefaultAuthSecretRefs ρ3 v with
    | Ok (v', user) => ∃ p', r = Ok (p', user) ∧ reads_ptr reads_PgDoormanSpec m p' (Some v')
    | Err e => r = Err e
    end)) as (r & m & E & Hd & ρ3 & Hr).
  - intros r σ1 σ2 ? (ρ3 & Hr). exists ρ3. destruct (DefaultAuthSecretRefs ρ3 v) as [[v' user]|e]; [|done].
    destruct Hr as (p' & ? & ?). exists p'. split; [done|by eapply mono].
  - iIntros (G) "#F". iApply (wp_step with "[]").
    { by iApply (copies_run (R := reads_ptr reads_PgDoormanSpec) with "F"). }
    iIntros ([l|]) "Hl"; [|done]. iDestruct "Hl" as "(%s & Hl & %Hc & Hps & Hg & Hpr)".
    iApply wp_bind. iApply wp_ret.
    iApply wp_bind. iApply (wp_pool_names with "Hl Hps"). iIntros (names [Hnd Hk]) "Hl Hps".
    pose (r0 := generated_ref v).
    assert (r0 = {| ref_Name := GeneratedAuthSecretName (m_ClusterRef s); ref_Key := "password" |}) as Hr0.
    { by rewrite /r0 /generated_ref Hc. }
    iApply wp_bind. iApply (wp_wand _ (λ r, match foldM (default_ref_step r0) (Pools v, "") (range (key_ranger names) (Pools v)) with
      | Ok (m', user') => ⌜r = Ok user'⌝ ∗ l ↦ s ∗ owns_map owns_PoolSpec (m_Pools s) m'
      | Err e => ⌜r = Err e⌝ end)%I with "[Hl Hps]").
    + rewrite -{1}(range_key_ranger names (Pools v)) //.
      destruct (m_Pools s) as [lm|] eqn:Elm.
      * iApply (wp_default_refs _ s lm with "Hl Hps"); [done|apply NoDup_range_keys| |done].
        apply Forall_forall. intros [k x] Hx%elem_of_range. done.
      * iDestruct "Hps" as %->. rewrite (range_empty (key_ranger names)). iApply wp_ret. by iFrame.
    + iIntros (r) "Hr". unfold DefaultAuthSecretRefs, mbind, res_bind.
      destruct (foldM _ _ _) as [[m' user']|e] eqn:E.
      * iDestruct "Hr" as "(-> & Hl & Hps)". iApply wp_ret.
        iApply (holds_weaken (λ m, reads_ptr reads_PgDoormanSpec m (Some l) (Some (set_Pools m' v)))).
        { intros m Hm. exists (key_ranger names). rewrite E. eauto. }
        iApply (owned_holds (O := owns_ptr owns_PgDoormanSpec)). simpl. iExists s. iFrame "Hl".
        by iFrame.
      * iDestruct "Hr" as %->. iApply (holds_weaken (λ _, True)); [|by iApply holds_True].
        intros m _. exists (key_ranger names). by rewrite E.
  - eauto 6.
Qed.

(** C11 — What configgen.Generate and specs.DefaultAuthSecretRefs do to a spec they are
    handed, in any memory, whatever it shares with whom: the copy Generate works
    on has every default filled in; DefaultAuthSecretRefs returns a spec and a
    user, or an error, as its definition on values says for the order in which it
    ranges over the pools; neither dereferences a nil pointer, both results are
    made of new cells alone, and all the cells there were (the caller's spec, and
    the cached object it is part of) are as before. *)
Theorem spec_mutations_isolated ρ1 ρ2 σ p v (Hp : reads_ptr reads_PgDoormanSpec σ p (Some v)) :
  (∀ ρ3, ∃ p' m, Generate_applied ρ1 ρ2 p σ = (Ok p', m ∪ σ) ∧ m ##ₘ σ ∧
     reads_ptr reads_PgDoormanSpec m p' (Some (ApplyDefaults ρ3 v)) ∧
     reads_ptr reads_PgDoormanSpec (m ∪ σ) p (Some v)) ∧
  (∃ r m ρ3, DefaultAuthSecretRefs_mem ρ1 ρ2 p σ = (r, m ∪ σ) ∧ m ##ₘ σ ∧
     reads_ptr reads_PgDoormanSpec (m ∪ σ) p (Some v) ∧
     match DefaultAuthSecretRefs ρ3 v with
     | Ok (v', user) => ∃ p', r = Ok (p', user) ∧ reads_ptr reads_PgDoormanSpec m p' (Some v')
     | Err e => r = Err e
     end).
Proof.
  split.
  - intros ρ3. destruct (Generate_applied_run ρ1 ρ2 ρ3 σ p v Hp) as (p' & m & ? & ? & ?).
    exists p', m. split_and!; [done..|]. eapply mono, Hp. by apply map_union_subseteq_r.
  - destruct (DefaultAuthSecretRefs_run ρ1 ρ2 σ p v Hp) as (r & m & ρ3 & ? & ? & ?).
    exists r, m, ρ3. split_and!; [done..| |done]. eapply mono, Hp. by apply map_union_subseteq_r.
Qed.
End isolated.

Section examples.
#[local] Existing Instance sample_metav1.

Lemma spec_mutations_isolated_witness :
  reads_ptr reads_PgDoormanSpec sample_heap (Some 1%positive) (Some sample_spec) ∧
  ∃ p' m, Generate_applied default_ranger reverse_ranger (Some 1%positive) sample_heap = (Ok p', m ∪ sample_heap) ∧
    m ##ₘ sample_heap ∧
    reads_ptr reads_PgDoormanSpec m p' (Some (ApplyDefaults default_ranger sample_spec)) ∧
    reads_ptr reads_PgDoormanSpec (m ∪ sample_heap) (Some 1%positive) (Some sample_spec).
Proof.
  assert (reads_ptr reads_PgDoormanSpec sample_heap (Some 1%positive) (Some sample_spec)) as H.
  { eexists. split; [reflexivity|apply sample_spec_reads]. }
  split; [exact H|].
  exact (proj1 (spec_mutations_isolated default_ranger reverse_ranger sample_heap _ _ H) default_ranger).
Defined.

(** Without the deep copy the caller's object would change: defaulting through a
    copy of the struct alone writes the auth query both pools share. *)
Example shallow_copy_is_not_enough :
  let run := l ← new {| m_ClusterRef := "pg"; m_Pools := Some 2%positive; m_General := None;
                        m_Prometheus := None |};
             ApplyDefaults_mem default_ranger l in
  (run sample_heap).2 !! 3%positive =
    Some (CAuthQuery {| m_aq_User := "doorman"; m_aq_Query := DefaultAuthQueryQuery;
                        m_aq_PasswordSecretRef := None; m_aq_Database := DefaultAuthQueryDatabase;
                        m_aq_PoolSize := Some 4%positive |}).
Proof. by vm_compute. Qed.
End examples.
