(* ===== verification/Json.v ===== *)
(** * [encoding/json]

    Documents of RFC 8259 as Go's library reads and writes them: strings escape
    HTML characters and the line separators, invalid UTF-8 turns into U+FFFD, a
    document nests at most ten thousand deep.  [marshal_string] is the encoder
    of strings and [parse] the decoder to a value of type [json]; what a struct
    makes of a value is next to the struct ([Paths.v]). *)
From S2P Require Import Prelude GoStd.
From stdpp Require Import options.
Open Scope Z_scope.

(** ** UTF-8 *)

(** A byte from [lo] to [hi]. *)
Definition within (lo hi : Z) (c : ascii) : bool := (lo <=? code c) && (code c <=? hi).

(** The length of the UTF-8 sequence at the head of [s], 0 when there is none
    ([unicode/utf8.DecodeRune]). *)
Definition rune_size (s : string) : nat :=
  match s with
  | EmptyString => O
  | String a s1 =>
      if code a <? 128 then 1%nat
      else match s1 with
      | EmptyString => O
      | String b s2 =>
          if within 194 223 a then (if within 128 191 b then 2%nat else O)
          else match s2 with
          | EmptyString => O
          | String c s3 =>
              if within 224 239 a then
                if within (if code a =? 224 then 160 else 128) (if code a =? 237 then 159 else 191) b
                   && within 128 191 c then 3%nat else O
              else match s3 with
              | EmptyString => O
              | String d _ =>
                  if within 240 244 a
                     && within (if code a =? 240 then 144 else 128) (if code a =? 244 then 143 else 191) b
                     && within 128 191 c && within 128 191 d then 4%nat else O
              end
          end
      end
  end.

(** A string as runes: the bytes of a valid sequence, or one byte that starts none. *)
Inductive rune : Type := Rune (bs : string) | BadByte.
Fixpoint runes_from (skip : nat) (s : string) : list rune :=
  match s with
  | EmptyString => []
  | String c s' =>
      match skip with
      | S skip => runes_from skip s'
      | O => match rune_size s with
             | O => BadByte :: runes_from O s'
             | S k => Rune (String.substring 0 (S k) s) :: runes_from k s'
             end
      end
  end.
Definition runes (s : string) : list rune := runes_from O s.
Definition is_rune (r : rune) : bool := match r with Rune _ => true | BadByte => false end.
(** [utf8.ValidString]. *)
Definition utf8_valid (s : string) : bool := forallb is_rune (runes s).

Definition replacement : string := bytes [239; 191; 189].
Definition rune_bytes (r : rune) : string := match r with Rune bs => bs | BadByte => replacement end.
(** Invalid bytes replaced by U+FFFD, one by one. *)
Definition coerce_utf8 (s : string) : string := String.concat "" (rune_bytes <$> runes s).

(** [utf8.EncodeRune] *)
Definition encode_rune (r : Z) : string :=
  if r <? 128 then bytes [r]
  else if r <? 2048 then bytes [192 + r / 64; 128 + r mod 64]
  else if (55296 <=? r) && (r <=? 57343) then replacement
  else if r <? 65536 then bytes [224 + r / 4096; 128 + r / 64 mod 64; 128 + r mod 64]
  else if r <=? 1114111 then bytes [240 + r / 262144; 128 + r / 4096 mod 64; 128 + r / 64 mod 64; 128 + r mod 64]
  else replacement.

(** ** Encoding strings *)
Definition quote : ascii := "034"%char.
Definition backslash : ascii := "\"%char.

Definition esc_ascii (c : ascii) : string :=
  if decide (c = quote ∨ c = backslash) then String backslash (String c "")
  else if code c =? 8 then "\b"
  else if code c =? 12 then "\f"
  else if code c =? 10 then "\n"
  else if code c =? 13 then "\r"
  else if code c =? 9 then "\t"
  else if (code c <? 32) || bool_decide (c ∈ chars "<>&")
  then "\u00" +:+ String (hex_digit (code c / 16)) (String (hex_digit (code c mod 16)) "")
  else String c "".
Definition esc_rune (r : rune) : string :=
  match r with
  | BadByte => "\ufffd"
  | Rune (String c EmptyString) => esc_ascii c
  | Rune bs =>
      if decide (bs = bytes [226; 128; 168]) then "\u2028"
      else if decide (bs = bytes [226; 128; 169]) then "\u2029"
      else bs
  end.
Definition escape (rs : list rune) : string := String.concat "" (esc_rune <$> rs).
Definition marshal_string (s : string) : string := String quote (escape (runes s) +:+ String quote "").

(** ** Values *)
Inductive json : Type :=
  | JNull
  | JBool (b : bool)
  | JNumber (literal : string)
  | JString (s : string)
  | JArray (elements : list json)
  | JObject (members : list (string * json)).

(** ** Decoding strings *)
Definition hex_val (c : ascii) : option Z :=
  if within 48 57 c then Some (code c - 48)
  else if within 97 102 c then Some (code c - 87)
  else if within 65 70 c then Some (code c - 55)
  else None.
Definition hex4 (a b c d : ascii) : option Z :=
  a ← hex_val a; b ← hex_val b; c ← hex_val c; d ← hex_val d;
  Some (a * 4096 + b * 256 + c * 16 + d).
Definition simple_escape (c : ascii) : option Z :=
  if decide (c = quote ∨ c = backslash ∨ c = "/"%char) then Some (code c)
  else if decide (c = "b"%char) then Some 8
  else if decide (c = "f"%char) then Some 12
  else if decide (c = "n"%char) then Some 10
  else if decide (c = "r"%char) then Some 13
  else if decide (c = "t"%char) then Some 9
  else None.
(** The rune of a surrogate pair ([utf16.DecodeRune]). *)
Definition decode_pair (hi lo : Z) : option Z :=
  if (55296 <=? hi) && (hi <? 56320) && (56320 <=? lo) && (lo <? 57344)
  then Some ((hi - 55296) * 1024 + (lo - 56320) + 65536) else None.
Definition prepend (x : string) (r : option (string * string)) : option (string * string) :=
  '(s, rest) ← r; Some (x +:+ s, rest).

(** The rest of a string literal, after its opening quote: its content with the
    escapes resolved, and what follows the closing quote. *)
Fixpoint unescape (s : string) : option (string * string) :=
  match s with
  | EmptyString => None
  | String c s1 =>
      if decide (c = quote) then Some ("", s1)
      else if code c <? 32 then None
      else if decide (c = backslash) then
        match s1 with
        | EmptyString => None
        | String e s2 =>
            if decide (e = "u"%char) then
              match s2 with
              | String a (String b (String c (String d s3))) =>
                  match hex4 a b c d with
                  | None => None
                  | Some hi =>
                      match s3 with
                      | String bs (String u (String a' (String b' (String c' (String d' s4))))) =>
                          match (if decide (bs = backslash ∧ u = "u"%char) then hex4 a' b' c' d' else None) ≫= decode_pair hi with
                          | Some r => prepend (encode_rune r) (unescape s4)
                          | None => prepend (encode_rune hi) (unescape s3)
                          end
                      | _ => prepend (encode_rune hi) (unescape s3)
                      end
                  end
              | _ => None
              end
            else match simple_escape e with
                 | Some n => prepend (bytes [n]) (unescape s2)
                 | None => None
                 end
        end
      else prepend (String c "") (unescape s1)
  end.
Definition parse_string (s : string) : option (string * string) :=
  '(content, rest) ← unescape s; Some (coerce_utf8 content, rest).

(** ** Decoding values *)
Definition is_ws (c : ascii) : bool := bool_decide (c ∈ byte <$> [32; 9; 13; 10]).
Fixpoint skip_ws (s : string) : string :=
  match s with
  | String c s' => if is_ws c then skip_ws s' else s
  | EmptyString => s
  end.
Fixpoint digits (s : string) : string * string :=
  match s with
  | String c s' => if is_digit c then let '(ds, rest) := digits s' in (String c ds, rest) else ("", s)
  | EmptyString => ("", s)
  end.
Definition digits1 (s : string) : option (string * string) :=
  match digits s with (EmptyString, _) => None | r => Some r end.
(** Takes the head of [s] when it is one of [cs]. *)
Definition take_head (cs s : string) : string * string :=
  match s with
  | String c s' => if decide (c ∈ chars cs) then (String c "", s') else ("", s)
  | EmptyString => ("", s)
  end.
Definition parse_number (s : string) : option (string * string) :=
  let '(sign, s) := take_head "-" s in
  '(int, s) ← (match take_head "0" s with (EmptyString, _) => digits1 s | r => Some r end);
  '(frac, s) ← (match take_head "." s with
                | (EmptyString, _) => Some ("", s)
                | (dot, s) => '(ds, s) ← digits1 s; Some (dot +:+ ds, s)
                end);
  '(exp, s) ← (match take_head "eE" s with
               | (EmptyString, _) => Some ("", s)
               | (e, s) => let '(sign, s) := take_head "+-" s in '(ds, s) ← digits1 s; Some (e +:+ sign +:+ ds, s)
               end);
  Some (sign +:+ int +:+ frac +:+ exp, s).

(** A word or a number. *)
Definition parse_scalar (s : string) : option (json * string) :=
  match strip_prefix "null" s, strip_prefix "true" s, strip_prefix "false" s with
  | Some s, _, _ => Some (JNull, s)
  | _, Some s, _ => Some (JBool true, s)
  | _, _, Some s => Some (JBool false, s)
  | _, _, _ => '(n, s) ← parse_number s; Some (JNumber n, s)
  end.

Definition maxNestingDepth : Z := 10000.

(** [depth] is how deep the value may still nest; [fuel] bounds the number of
    calls, and twice the length of the document is enough ([parse_fuel]). *)
Fixpoint parse_value (fuel : nat) (depth : Z) (s : string) : option (json * string) :=
  match fuel with
  | O => None
  | S fuel =>
      match skip_ws s with
      | EmptyString => None
      | String c s1 as s =>
          if decide (c = quote) then '(x, s) ← parse_string s1; Some (JString x, s)
          else if decide (c = "{"%char) then
            if depth <? 1 then None
            else match take_head "}" (skip_ws s1) with
                 | (EmptyString, s) => '(ms, s) ← parse_members fuel (depth - 1) s; Some (JObject ms, s)
                 | (_, s) => Some (JObject [], s)
                 end
          else if decide (c = "["%char) then
            if depth <? 1 then None
            else match take_head "]" (skip_ws s1) with
                 | (EmptyString, s) => '(l, s) ← parse_elements fuel (depth - 1) s; Some (JArray l, s)
                 | (_, s) => Some (JArray [], s)
                 end
          else parse_scalar s
      end
  end
with parse_elements (fuel : nat) (depth : Z) (s : string) : option (list json * string) :=
  match fuel with
  | O => None
  | S fuel =>
      '(x, s) ← parse_value fuel depth s;
      match skip_ws s with
      | String c s =>
          if decide (c = "]"%char) then Some ([x], s)
          else if decide (c = ","%char) then '(l, s) ← parse_elements fuel depth s; Some (x :: l, s)
          else None
      | EmptyString => None
      end
  end
with parse_members (fuel : nat) (depth : Z) (s : string) : option (list (string * json) * string) :=
  match fuel with
  | O => None
  | S fuel =>
      match skip_ws s with
      | String c s =>
          if decide (c = quote) then
            '(k, s) ← parse_string s;
            match skip_ws s with
            | String c s =>
                if decide (c = ":"%char) then
                  '(x, s) ← parse_value fuel depth s;
                  match skip_ws s with
                  | String c s =>
                      if decide (c = "}"%char) then Some ([(k, x)], s)
                      else if decide (c = ","%char) then '(l, s) ← parse_members fuel depth s; Some ((k, x) :: l, s)
                      else None
                  | EmptyString => None
                  end
                else None
            | EmptyString => None
            end
          else None
      | EmptyString => None
      end
  end.

(** A whole document. *)
Definition parse (s : string) : option json :=
  '(x, rest) ← parse_value (1 + 2 * String.length s) maxNestingDepth s;
  if decide (skip_ws rest = "") then Some x else None.

(** ** Fields of a struct *)

(** [foldName] of a key against the ASCII names of fields: letters in upper case,
    with the two runes outside ASCII that fold to a letter. *)
Definition upper (c : ascii) : ascii := if within 97 122 c then byte (code c - 32) else c.
Fixpoint foldName (s : string) : string :=
  match s with
  | EmptyString => ""
  | String c s1 =>
      if decide (c = byte 197) then
        match s1 with
        | String d s2 => if decide (d = byte 191) then String "S" (foldName s2) else String c (foldName s1)
        | EmptyString => String c ""
        end
      else if decide (c = byte 226) then
        match s1 with
        | String d (String e s2) =>
            if decide (d = byte 132 ∧ e = byte 170) then String "K" (foldName s2) else String c (foldName s1)
        | _ => String c (foldName s1)
        end
      else String (upper c) (foldName s1)
  end.
Definition field_matches (name key : string) : bool := bool_decide (foldName key = foldName name).

(** What a string field becomes when it is decoded from a value: [None] is a type error. *)
Definition decode_string (old : string) (x : json) : option string :=
  match x with
  | JString s => Some s
  | JNull => Some old
  | _ => None
  end.

(** ** Runes *)

(** A valid sequence: an ASCII character, or bytes above ASCII. *)
Definition rune_ok (bs : string) : Prop :=
  (∃ c, bs = String c "" ∧ code c < 128) ∨
  ((2 ≤ String.length bs)%nat ∧ Forall (λ c, 128 ≤ code c) (chars bs)).

Lemma runes_from_app bs s : runes_from (String.length bs) (bs +:+ s) = runes s.
Proof. induction bs as [|c bs IH]; [done|]. by rewrite app_String. Qed.

Lemma substring_app bs s : String.substring 0 (String.length bs) (bs +:+ s) = bs.
Proof. induction bs as [|c bs IH]; [by destruct s|]. rewrite app_String. simpl. by f_equal. Qed.

Lemma rune_size_spec s k :
  rune_size s = S k → ∃ bs s', s = bs +:+ s' ∧ String.length bs = S k ∧ rune_ok bs.
Proof.
  unfold rune_size. destruct s as [|a s]; [done|]. destruct (code a <? 128) eqn:Ha.
  { intros [= <-]. exists (String a ""), s. split_and!; [done..|]. left. exists a. split; [done|lia]. }
  destruct s as [|b s]; [done|]. destruct (within 194 223 a) eqn:Ha2.
  { destruct (within 128 191 b) eqn:Hb; [|done]. intros [= <-]. exists (String a (String b "")), s.
    split_and!; [done..|]. right. unfold within in *. split; [simpl; lia|]. repeat constructor; lia. }
  destruct s as [|c s]; [done|]. destruct (within 224 239 a) eqn:Ha3.
  { destruct (_ && within _ _ c) eqn:Hb in |- *; [|done]. intros [= <-]. exists (String a (String b (String c ""))), s.
    split_and!; [done..|]. right. unfold within in *. split; [simpl; lia|].
    destruct (_ =? 224), (_ =? 237) in Hb; repeat constructor; lia. }
  destruct s as [|d s]; [done|]. destruct (_ && within _ _ d) eqn:Hb in |- *; [|done]. intros [= <-].
  exists (String a (String b (String c (String d "")))), s. split_and!; [done..|].
  right. unfold within in *. split; [simpl; lia|]. destruct (_ =? 240), (_ =? 244) in Hb; repeat constructor; lia.
Qed.

Lemma runes_cons bs s k : rune_size (bs +:+ s) = S k → String.length bs = S k → runes (bs +:+ s) = Rune bs :: runes s.
Proof.
  intros Hk Hl. destruct bs as [|c bs]; [done|]. unfold runes. rewrite app_String in *. cbn [runes_from].
  rewrite Hk, <- Hl, <- app_String, substring_app. f_equal. injection Hl as <-. apply runes_from_app.
Qed.

Lemma utf8_ind (P : string → Prop) :
  P "" →
  (∀ bs s, rune_ok bs → runes (bs +:+ s) = Rune bs :: runes s → P s → P (bs +:+ s)) →
  ∀ s, utf8_valid s → P s.
Proof.
  intros H0 Hstep s. remember (String.length s) as n eqn:Hn. revert s Hn.
  induction (lt_wf n) as [n _ IH]. intros s -> Hv. destruct (rune_size s) as [|k] eqn:Hk.
  - destruct s as [|c s]; [done|]. unfold utf8_valid, runes in Hv. cbn [runes_from] in Hv. by rewrite Hk in Hv.
  - destruct (rune_size_spec _ _ Hk) as (bs & s' & -> & Hl & Hok). pose proof (runes_cons _ _ _ Hk Hl) as Hr.
    apply Hstep; [done..|]. eapply IH; [|done|].
    + rewrite str_length_app. lia.
    + unfold utf8_valid in *. by rewrite Hr in Hv.
Qed.

Lemma coerce_utf8_valid s : utf8_valid s → coerce_utf8 s = s.
Proof.
  revert s. apply (utf8_ind (λ s, coerce_utf8 s = s)); [done|]. intros bs s _ Hr IH. unfold coerce_utf8 in *. rewrite Hr.
  rewrite fmap_cons. cbn [rune_bytes]. by rewrite str_concat_cons, IH.
Qed.

(** ** Strings survive a round trip *)
Lemma unescape_u a b c d n t :
  hex4 a b c d = Some n → (∀ lo, decode_pair n lo = None) →
  unescape (String backslash (String "u" (String a (String b (String c (String d t)))))) =
  prepend (encode_rune n) (unescape t).
Proof.
  intros Hn Hp. assert (∀ o : option Z, o ≫= decode_pair n = None) as Hb by (intros [lo|]; [apply Hp|done]).
  cbn -[decode_pair mbind hex4 encode_rune decide]. rewrite Hn.
  do 6 (destruct t as [|? t]; [done|]). cbn -[decode_pair mbind hex4 encode_rune decide unescape]. by rewrite Hb.
Qed.

Lemma unescape_copy bs t :
  Forall (λ c, 128 ≤ code c) (chars bs) → unescape (bs +:+ t) = prepend bs (unescape t).
Proof.
  induction bs as [|c bs IH]; intros H.
  { rewrite app_empty_l. by destruct (unescape t) as [[]|]. }
  apply Forall_cons in H as [Hc H]. rewrite app_String. cbn [unescape].
  rewrite decide_False by (intros ->; vm_compute in Hc; done).
  destruct (code c <? 32) eqn:?; [lia|]. rewrite decide_False by (intros ->; vm_compute in Hc; done).
  rewrite IH by done. by destruct (unescape t) as [[]|].
Qed.

Lemma unescape_rune bs t : rune_ok bs → unescape (esc_rune (Rune bs) +:+ t) = prepend bs (unescape t).
Proof.
  intros [(c & -> & Hc)|[Hl H]].
  - cbn [esc_rune].
    destruct c as [[] [] [] [] [] [] [] []]; vm_compute in Hc; try done; try reflexivity;
      match goal with |- context [esc_ascii ?c] =>
        let e := eval vm_compute in (esc_ascii c) in change (esc_ascii c) with e end;
      rewrite !app_String, app_empty_l; (erewrite unescape_u; [|reflexivity|intros lo; reflexivity]); reflexivity.
  - destruct bs as [|c [|d bs]]; [simpl in Hl; lia..|]. cbn [esc_rune].
    case_decide as H1; [rewrite H1; by apply (unescape_u "2" "0" "2" "8" 8232)|].
    case_decide as H2; [rewrite H2; by apply (unescape_u "2" "0" "2" "9" 8233)|].
    by apply unescape_copy.
Qed.

Lemma unescape_escape s t :
  utf8_valid s → unescape (escape (runes s) +:+ String quote t) = Some (s, t).
Proof.
  revert s. apply (utf8_ind (λ s, unescape (escape (runes s) +:+ String quote t) = Some (s, t))); [done|].
  intros bs s Hbs Hr IH. rewrite Hr. unfold escape in *. rewrite fmap_cons, str_concat_cons, app_string_assoc.
  by rewrite unescape_rune, IH.
Qed.

Lemma parse_string_marshal s t :
  utf8_valid s → parse_string (escape (runes s) +:+ String quote t) = Some (s, t).
Proof. intros H. unfold parse_string. rewrite unescape_escape by done. simpl. by rewrite coerce_utf8_valid. Qed.

(** ** Fuel *)
Abbreviation len := String.length.

Lemma skip_ws_len s : (len (skip_ws s) ≤ len s)%nat.
Proof. induction s as [|c s IH]; [done|]. simpl. destruct (is_ws c); simpl; lia. Qed.
Lemma prepend_inv x o y r : prepend x o = Some (y, r) → ∃ y', o = Some (y', r).
Proof. destruct o as [[y' r']|]; [|done]. intros [= _ <-]. eauto. Qed.
Lemma unescape_len s x r : unescape s = Some (x, r) → (len r < len s)%nat.
Proof.
  remember (len s) as n eqn:Hn. revert s x r Hn. induction (lt_wf n) as [n _ IH]. intros s x r -> H.
  assert (∀ y s' x, (len s' < len s)%nat → prepend y (unescape s') = Some (x, r) → (len r < len s)%nat) as Hrec.
  { intros y s' x' Hs (y' & Hy)%prepend_inv. specialize (IH _ Hs s' _ _ eq_refl Hy). lia. }
  destruct s as [|c s]; [done|]. cbn -[decode_pair hex4 mbind encode_rune simple_escape bytes] in H.
  repeat match type of H with
  | prepend _ _ = _ => eapply Hrec, H; simpl; lia
  | None = _ => done
  | Some _ = _ => injection H as <- <-; simpl; lia
  | context [match ?x with _ => _ end] =>
      lazymatch x with context [match _ with _ => _ end] => fail | _ => destruct x end
  end.
Qed.
Lemma parse_string_len s x r : parse_string s = Some (x, r) → (len r < len s)%nat.
Proof.
  unfold parse_string. destruct (unescape s) as [[y r']|] eqn:H; [|done]. intros [= _ <-]. by eapply unescape_len.
Qed.
Lemma strip_prefix_len p s r : strip_prefix p s = Some r → len s = (len p + len r)%nat.
Proof.
  revert s. induction p as [|c p IH]; intros s; simpl; [by intros [= <-]|].
  destruct s as [|d s]; [done|]. case_decide; [|done]. intros Hr%IH. simpl. lia.
Qed.
Lemma take_head_len cs s h r : take_head cs s = (h, r) → len s = (len h + len r)%nat.
Proof. destruct s as [|c s]; simpl; [by intros [= <- <-]|]. case_decide; by intros [= <- <-]. Qed.
Lemma digits_len s ds r : digits s = (ds, r) → len s = (len ds + len r)%nat.
Proof.
  revert ds. induction s as [|c s IH]; intros ds; simpl; [by intros [= <- <-]|].
  destruct (is_digit c); [|by intros [= <- <-]]. destruct (digits s) as [ds' r'] eqn:Hd.
  intros [= <- <-]. specialize (IH _ eq_refl). simpl in *. lia.
Qed.
Lemma digits1_len s ds r : digits1 s = Some (ds, r) → (len r < len s)%nat.
Proof.
  unfold digits1. destruct (digits s) as [[|c ds'] r'] eqn:Hd; [done|]. intros [= <- <-].
  apply digits_len in Hd. simpl in Hd. lia.
Qed.
Lemma parse_number_len s n r : parse_number s = Some (n, r) → (len r < len s)%nat.
Proof.
  unfold parse_number. destruct (take_head "-" s) as [sign s1] eqn:H1. apply take_head_len in H1.
  destruct (match take_head "0" s1 with (EmptyString, _) => digits1 s1 | r => Some r end) as [[int s2]|] eqn:H2; [|done].
  assert (len s2 < len s1)%nat as H2'.
  { destruct (take_head "0" s1) as [[|c z] s'] eqn:Hz; [by apply digits1_len in H2|].
    injection H2 as <- <-. apply take_head_len in Hz. simpl in Hz. lia. }
  clear H2. simpl.
  destruct (match take_head "." s2 with (EmptyString, _) => Some ("", s2) | (dot, s) => '(ds, s) ← digits1 s; Some (dot +:+ ds, s) end)
    as [[frac s3]|] eqn:H3; [|done].
  assert (len s3 ≤ len s2)%nat as H3'.
  { destruct (take_head "." s2) as [[|c z] s'] eqn:Hz; [by injection H3 as <- <-|].
    apply take_head_len in Hz. simpl in H3. destruct (digits1 s') as [[ds s'']|] eqn:Hd; [|done].
    injection H3 as <- <-. apply digits1_len in Hd. simpl in Hz. lia. }
  clear H3. simpl.
  destruct (take_head "eE" s3) as [[|c z] s'] eqn:Hz; simpl; [intros [= _ <-]; lia|].
  destruct (take_head "+-" s') as [z' s''] eqn:Hz'. simpl.
  apply take_head_len in Hz, Hz'. destruct (digits1 s'') as [[ds s5]|] eqn:Hd; [|done]. simpl.
  intros [= _ <-]. apply digits1_len in Hd. simpl in Hz. lia.
Qed.
Lemma parse_scalar_len s x r : parse_scalar s = Some (x, r) → (len r < len s)%nat.
Proof.
  unfold parse_scalar. intros H.
  destruct (strip_prefix "null" s) as [r1|] eqn:H1; [apply strip_prefix_len in H1; injection H as _ <-; simpl in H1; lia|].
  destruct (strip_prefix "true" s) as [r2|] eqn:H2; [apply strip_prefix_len in H2; injection H as _ <-; simpl in H2; lia|].
  destruct (strip_prefix "false" s) as [r3|] eqn:H3; [apply strip_prefix_len in H3; injection H as _ <-; simpl in H3; lia|].
  destruct (parse_number s) as [[n r4]|] eqn:H4; [|done]. injection H as _ <-. by apply parse_number_len in H4.
Qed.

(** Case split on every intermediate result of a run of the parser. *)
Ltac parse_cases :=
  repeat match goal with
  | H : context [match ?x with _ => _ end] |- _ =>
      lazymatch x with context [match _ with _ => _ end] => fail | _ => destruct x eqn:? end; simplify_eq/=
  end.
(** What each call leaves is shorter than what it was given. *)
Ltac parse_lens :=
  repeat match goal with
  | H : skip_ws ?s = ?r |- _ => assert (len r ≤ len s)%nat by (rewrite <- H; apply skip_ws_len); clear H
  | H : take_head _ _ = _ |- _ => apply take_head_len in H
  | H : parse_string _ = _ |- _ => apply parse_string_len in H
  | H : parse_scalar _ = _ |- _ => apply parse_scalar_len in H
  end.

Lemma parse_len fuel :
  (∀ d s x r, parse_value fuel d s = Some (x, r) → (len r < len s)%nat) ∧
  (∀ d s x r, parse_elements fuel d s = Some (x, r) → (len r < len s)%nat) ∧
  (∀ d s x r, parse_members fuel d s = Some (x, r) → (len r < len s)%nat).
Proof.
  induction fuel as [|fuel (IHv & IHe & IHm)]; [done|].
  split_and!; intros d s x r H; cbn [parse_value parse_elements parse_members] in H; unfold mbind, option_bind in H;
    parse_cases;
    repeat match goal with
    | H : parse_value fuel _ _ = _ |- _ => apply IHv in H
    | H : parse_elements fuel _ _ = _ |- _ => apply IHe in H
    | H : parse_members fuel _ _ = _ |- _ => apply IHm in H
    end; parse_lens; simpl in *;
    try match goal with H : context [len (skip_ws ?s)] |- _ => pose proof (skip_ws_len s) end; lia.
Qed.

(** More fuel than twice the input changes nothing. *)
Lemma parse_fuel fuel fuel' :
  (∀ d s, (2 * len s < fuel)%nat → (2 * len s < fuel')%nat → parse_value fuel d s = parse_value fuel' d s) ∧
  (∀ d s, (2 * len s + 1 < fuel)%nat → (2 * len s + 1 < fuel')%nat → parse_elements fuel d s = parse_elements fuel' d s) ∧
  (∀ d s, (2 * len s < fuel)%nat → (2 * len s < fuel')%nat → parse_members fuel d s = parse_members fuel' d s).
Proof.
  revert fuel'. induction fuel as [|fuel IH]; intros [|fuel']; try (split_and!; lia).
  destruct (IH fuel') as (IHv & IHe & IHm). clear IH. destruct (parse_len fuel') as (Lv & Le & Lm).
  split_and!; intros d s Hs Hs'; cbn [parse_value parse_elements parse_members].
  - pose proof (skip_ws_len s) as Hl. destruct (skip_ws s) as [|c s1]; [done|]. simpl in Hl.
    pose proof (skip_ws_len s1) as Hl1.
    repeat case_decide; [done|..|done];
      (destruct (d <? 1); [done|]; destruct (take_head _ _) as [[|h z] s2] eqn:Ht; [|done]; apply take_head_len in Ht; simpl in Ht).
    + by rewrite IHm by lia.
    + by rewrite IHe by lia.
  - rewrite IHv by lia. destruct (parse_value fuel' d s) as [[x s1]|] eqn:H1; [|done]. apply Lv in H1. simpl.
    pose proof (skip_ws_len s1) as Hl. destruct (skip_ws s1) as [|c s2]; [done|]. simpl in Hl.
    repeat case_decide; [done| |done]. by rewrite IHe by lia.
  - pose proof (skip_ws_len s) as Hl. destruct (skip_ws s) as [|c s1]; [done|]. simpl in Hl. case_decide; [|done].
    destruct (parse_string s1) as [[k s2]|] eqn:H1; [|done]. apply parse_string_len in H1. simpl.
    pose proof (skip_ws_len s2) as Hl2. destruct (skip_ws s2) as [|c' s3]; [done|]. simpl in Hl2. case_decide; [|done].
    rewrite IHv by lia. destruct (parse_value fuel' d s3) as [[x s4]|] eqn:H2; [|done]. apply Lv in H2. simpl.
    pose proof (skip_ws_len s4) as Hl4. destruct (skip_ws s4) as [|c'' s5]; [done|]. simpl in Hl4.
    repeat case_decide; [done| |done]. by rewrite IHm by lia.
Qed.

(** ** Objects survive a round trip *)
#[local] Arguments escape : simpl never.
#[local] Arguments runes : simpl never.
#[local] Arguments parse_string : simpl never.
#[local] Arguments String.concat : simpl never.
Definition json_member (k doc : string) : string := marshal_string k +:+ ":" +:+ doc.
Definition json_object (ms : list (string * string)) : string :=
  "{" +:+ String.concat "," (uncurry json_member <$> ms) +:+ "}".

(** [doc] is read as [x] whatever follows it. *)
Definition reads (depth : Z) (doc : string) (x : json) : Prop :=
  ∀ fuel t, (2 * len doc < fuel)%nat → parse_value fuel depth (doc +:+ t) = Some (x, t).
(** The members of an object, as documents and as values. *)
Definition member_reads (depth : Z) (m : string * string) (x : string * json) : Prop :=
  m.1 = x.1 ∧ utf8_valid m.1 ∧ reads depth m.2 x.2.

Lemma marshal_string_app s t : marshal_string s +:+ t = String quote (escape (runes s) +:+ String quote t).
Proof. unfold marshal_string. rewrite app_String. f_equal. by rewrite app_string_assoc. Qed.

Lemma parse_value_quote fuel depth s :
  parse_value (S fuel) depth (String quote s) = '(x, s) ← parse_string s; Some (JString x, s).
Proof. reflexivity. Qed.
Lemma parse_value_brace fuel depth s :
  parse_value (S fuel) depth (String "{" s) =
  if depth <? 1 then None
  else match take_head "}" (skip_ws s) with
       | (EmptyString, s) => '(ms, s) ← parse_members fuel (depth - 1) s; Some (JObject ms, s)
       | (_, s) => Some (JObject [], s)
       end.
Proof. reflexivity. Qed.
(** A member without white space. *)
Lemma parse_members_quote fuel depth k rest :
  utf8_valid k →
  parse_members (S fuel) depth (String quote (escape (runes k) +:+ String quote (String ":" rest))) =
  '(x, s) ← parse_value fuel depth rest;
  match skip_ws s with
  | String c s =>
      if decide (c = "}"%char) then Some ([(k, x)], s)
      else if decide (c = ","%char) then '(l, s) ← parse_members fuel depth s; Some ((k, x) :: l, s)
      else None
  | EmptyString => None
  end.
Proof.
  intros Hk. pose proof (parse_string_marshal k (String ":" rest) Hk) as H.
  transitivity ('(k, s) ← parse_string (escape (runes k) +:+ String quote (String ":" rest));
    match skip_ws s with
    | String c s =>
        if decide (c = ":"%char) then
          '(x, s) ← parse_value fuel depth s;
          match skip_ws s with
          | String c s =>
              if decide (c = "}"%char) then Some ([(k, x)], s)
              else if decide (c = ","%char) then '(l, s) ← parse_members fuel depth s; Some ((k, x) :: l, s)
              else None
          | EmptyString => None
          end
        else None
    | EmptyString => None
    end); [reflexivity|]. by rewrite H.
Qed.

Lemma reads_string depth s : utf8_valid s → reads depth (marshal_string s) (JString s).
Proof.
  intros Hs [|fuel] t Hf; [lia|]. rewrite marshal_string_app, parse_value_quote.
  by rewrite parse_string_marshal.
Qed.

Lemma parse_members_reads depth m ms x xs fuel t :
  Forall2 (member_reads depth) (m :: ms) (x :: xs) →
  (2 * len (String.concat "," (uncurry json_member <$> m :: ms)) < fuel)%nat →
  parse_members fuel depth (String.concat "," (uncurry json_member <$> m :: ms) +:+ String "}" t) = Some (x :: xs, t).
Proof.
  revert m x xs fuel. induction ms as [|m' ms IH]; intros [k doc] [k' y] xs fuel H Hf;
    apply Forall2_cons in H as [(Hkk & Hk & Hdoc) H]; simpl in Hkk, Hk, Hdoc; subst k'.
  all: destruct fuel as [|fuel]; [lia|].
  all: assert (∀ t', json_member k doc +:+ t' = String quote (escape (runes k) +:+ String quote (String ":" (doc +:+ t')))) as Hjm
    by (intros t'; unfold json_member; rewrite app_string_assoc, marshal_string_app; by rewrite app_String, app_empty_l).
  all: assert (len doc < len (json_member k doc))%nat as Hlen
    by (rewrite <- (app_empty_r (json_member k doc)), Hjm; simpl; rewrite str_length_app; simpl; rewrite app_empty_r; lia).
  - apply Forall2_nil_inv_l in H as ->.
    change (String.concat "," (uncurry json_member <$> [(k, doc)])) with (json_member k doc) in *.
    rewrite Hjm, parse_members_quote, Hdoc by (done || lia). reflexivity.
  - destruct xs as [|x' xs]; [by inversion H|].
    change (String.concat "," (uncurry json_member <$> (k, doc) :: m' :: ms))
      with (json_member k doc +:+ "," +:+ String.concat "," (uncurry json_member <$> m' :: ms)) in *.
    rewrite !str_length_app in Hf. change (len ",") with 1%nat in Hf.
    rewrite !app_string_assoc, Hjm, parse_members_quote, Hdoc by (done || lia).
    assert (2 * len (String.concat "," (uncurry json_member <$> m' :: ms)) < fuel)%nat as Hf' by lia.
    specialize (IH m' x' xs fuel H Hf'). revert IH. generalize (String.concat "," (uncurry json_member <$> m' :: ms)).
    intros rest IH.
    transitivity ('(l, s) ← parse_members fuel depth (rest +:+ String "}" t); Some ((k, y) :: l, s)); [reflexivity|].
    by rewrite IH.
Qed.

Lemma reads_object depth ms xs :
  1 ≤ depth → Forall2 (member_reads (depth - 1)) ms xs → reads depth (json_object ms) (JObject xs).
Proof.
  intros Hd H [|fuel] t Hf; [lia|]. unfold json_object in *. rewrite !str_length_app in Hf. simpl in Hf.
  rewrite !app_string_assoc, !app_String, !app_empty_l.
  assert (depth <? 1 = false) as Hd' by lia.
  destruct ms as [|m ms]; [apply Forall2_nil_inv_l in H as ->|destruct xs as [|x xs]; [by inversion H|]].
  { rewrite parse_value_brace. by rewrite Hd'. }
  assert (∃ s, String.concat "," (uncurry json_member <$> m :: ms) = String quote s) as [s Hs].
  { destruct m as [k doc], ms as [|m' ms].
    - exists (escape (runes k) +:+ String quote (":" +:+ doc)). apply marshal_string_app.
    - eexists. change (String.concat "," (uncurry json_member <$> (k, doc) :: m' :: ms))
        with (json_member k doc +:+ "," +:+ String.concat "," (uncurry json_member <$> m' :: ms)).
      unfold json_member at 1. rewrite app_string_assoc. apply marshal_string_app. }
  pose proof (parse_members_reads (depth - 1) m ms x xs fuel t H) as Hm. rewrite Hs in Hm, Hf |- *.
  rewrite app_String, parse_value_brace, Hd'. rewrite app_String in Hm.
  change (take_head "}" (skip_ws (String quote (s +:+ String "}" t)))) with ("", String quote (s +:+ String "}" t)).
  cbv iota beta. rewrite Hm by (simpl in Hf |- *; lia). done.
Qed.

Lemma parse_reads doc x : reads maxNestingDepth doc x → parse doc = Some x.
Proof.
  intros H. unfold parse. specialize (H (1 + 2 * len doc)%nat ""). rewrite app_empty_r in H. by rewrite H by lia.
Qed.
