(* ===== verification/Paths.v ===== *)
(** * Contracts between the controller and the wrapper (internal/wrapper: paths.go, binaryspec.go)

    File locations, and the binary specification the controller publishes and the
    wrapper parses as a JSON document. *)
From S2P Require Import Prelude GoStd Json.
From stdpp Require Import options.

Definition ConfigSourcePath : string := "/etc/pg-doorman-config/pg_doorman.yaml".
Definition RuntimeConfigPath : string := "/tmp/pg_doorman.yaml".
Definition TLSCertPath : string := "/etc/pg-doorman-tls/tls.crt".
Definition RawTLSKeyPath : string := "/etc/pg-doorman-tls/tls.key".
Definition ConvertedTLSKeyPath : string := "/tmp/pg_doorman-tls.key".
Definition RuntimeBinaryDir : string := "/tmp/bin".
Definition RuntimeBinaryPath : string := RuntimeBinaryDir +:+ "/pg_doorman".
Definition ImageBinaryPath : string := "/usr/bin/pg_doorman".
Definition BinarySpecKey : string := "binary.json".

Record BinarySpec : Type := {
  bs_URL : string;
  bs_SHA256 : gmap string string;
  bs_CABundle : string
}.
#[export] Instance BinarySpec_eq_dec : EqDecision BinarySpec.
Proof. solve_decision. Defined.

(** ** The JSON document *)

(** A map in the order of its keys; [∅] is the nil map. *)
Definition sorted_entries (m : gmap string string) : list (string * string) :=
  (λ k, (k, map_get m k)) <$> sort_strings (map_to_list m).*1.
Definition marshal_map (m : gmap string string) : string :=
  if decide (m = ∅) then "null"
  else json_object ((λ e, (e.1, marshal_string e.2)) <$> sorted_entries m).
(** [json.Marshal] of a spec, which cannot fail. *)
Definition marshal_spec (spec : BinarySpec) : string :=
  json_object ([("url", marshal_string (bs_URL spec)); ("sha256", marshal_map (bs_SHA256 spec))] ++
    if decide (bs_CABundle spec = "") then [] else [("caBundle", marshal_string (bs_CABundle spec))]).
Definition json_Marshal (spec : BinarySpec) : res string := Ok (marshal_spec spec).

Definition zero_spec : BinarySpec := {| bs_URL := ""; bs_SHA256 := ∅; bs_CABundle := "" |}.
Fixpoint decode_entries (m : gmap string string) (ms : list (string * json)) : option (gmap string string) :=
  match ms with
  | [] => Some m
  | (k, x) :: ms => v ← decode_string "" x; decode_entries (<[k:=v]> m) ms
  end.
Definition decode_map (m : gmap string string) (x : json) : option (gmap string string) :=
  match x with
  | JObject ms => decode_entries m ms
  | JNull => Some ∅
  | _ => None
  end.
Definition decode_member (spec : BinarySpec) (member : string * json) : option BinarySpec :=
  let '(key, x) := member in
  if field_matches "url" key then
    s ← decode_string (bs_URL spec) x;
    Some {| bs_URL := s; bs_SHA256 := bs_SHA256 spec; bs_CABundle := bs_CABundle spec |}
  else if field_matches "sha256" key then
    m ← decode_map (bs_SHA256 spec) x;
    Some {| bs_URL := bs_URL spec; bs_SHA256 := m; bs_CABundle := bs_CABundle spec |}
  else if field_matches "caBundle" key then
    s ← decode_string (bs_CABundle spec) x;
    Some {| bs_URL := bs_URL spec; bs_SHA256 := bs_SHA256 spec; bs_CABundle := s |}
  else Some spec.
Fixpoint decode_members (spec : BinarySpec) (ms : list (string * json)) : option BinarySpec :=
  match ms with
  | [] => Some spec
  | m :: ms => spec ← decode_member spec m; decode_members spec ms
  end.
(** [json.Unmarshal] into a zero spec. *)
Definition json_Unmarshal (data : string) : res BinarySpec :=
  match (x ← parse data;
         match x with
         | JObject ms => decode_members zero_spec ms
         | JNull => Some zero_spec
         | _ => None
         end) with
  | Some spec => Ok spec
  | None => Err (ExtErr "json")
  end.

(** [ParseBinarySpec]. *)
Definition ParseBinarySpec (data : string) : res BinarySpec :=
  match json_Unmarshal data with
  | Err e => Err (Wrapf "invalid binary spec: %w" [] e)
  | Ok spec =>
      if decide (bs_URL spec = "") then Err (Errorf "binary spec: url is required" [])
      else if decide (bs_SHA256 spec = ∅) then Err (Errorf "binary spec: sha256 map is required" [])
      else Ok spec
  end.

Lemma ParseBinarySpec_ok data spec :
  ParseBinarySpec data = Ok spec ↔
  json_Unmarshal data = Ok spec ∧ bs_URL spec ≠ "" ∧ bs_SHA256 spec ≠ ∅.
Proof.
  unfold ParseBinarySpec. destruct (json_Unmarshal data); [|naive_solver].
  repeat case_decide; naive_solver.
Qed.

(** ** The document round trip *)
Definition valid_entry (k v : string) : Prop := utf8_valid k ∧ utf8_valid v.
(** Go replaces what is not UTF-8; everything else survives. *)
Definition valid_spec (spec : BinarySpec) : Prop :=
  utf8_valid (bs_URL spec) ∧ map_Forall valid_entry (bs_SHA256 spec) ∧ utf8_valid (bs_CABundle spec).

Lemma sorted_entries_perm m : sorted_entries m ≡ₚ map_to_list m.
Proof.
  unfold sorted_entries. rewrite sort_strings_perm, <- list_fmap_compose.
  transitivity (id <$> map_to_list m); [|by rewrite list_fmap_id].
  match goal with |- ?l ≡ₚ ?l' => cut (l = l'); [by intros ->|] end. apply list_fmap_ext. intros i [k v] Hi. simpl. f_equal. unfold map_get.
  apply list_elem_of_lookup_2, elem_of_map_to_list in Hi. by rewrite Hi.
Qed.

Lemma decode_entries_strings m l :
  NoDup l.*1 → decode_entries m ((λ e, (e.1, JString e.2)) <$> l) = Some (list_to_map l ∪ m).
Proof.
  revert m. induction l as [|[k v] l IH]; intros m; simpl; [by rewrite map_empty_union|].
  intros [Hk Hl]%NoDup_cons. rewrite IH by done. f_equal.
  rewrite <- insert_union_l, insert_union_r by (by apply not_elem_of_list_to_map_1). done.
Qed.

Lemma reads_map depth m :
  1 ≤ depth → map_Forall valid_entry m → ∃ x, reads depth (marshal_map m) x ∧ decode_map ∅ x = Some m.
Proof.
  intros Hd Hm. unfold marshal_map. case_decide as He.
  { subst. exists JNull. split; [|done]. intros [|fuel] t Hf; [lia|]. reflexivity. }
  exists (JObject ((λ e, (e.1, JString e.2)) <$> sorted_entries m)). split.
  - apply reads_object; [done|]. apply Forall2_fmap, Forall_Forall2_diag. rewrite sorted_entries_perm.
    apply Forall_forall. intros [k v] Hkv%elem_of_map_to_list. destruct (Hm _ _ Hkv) as [Hk Hv].
    split_and!; [done..|]. by apply reads_string.
  - simpl. rewrite decode_entries_strings by (rewrite sorted_entries_perm; apply NoDup_fst_map_to_list).
    f_equal. rewrite map_union_empty, (list_to_map_proper (M := gmap string) _ (map_to_list m)).
    + apply list_to_map_to_list.
    + rewrite sorted_entries_perm. apply NoDup_fst_map_to_list.
    + apply sorted_entries_perm.
Qed.

Lemma json_roundtrip spec : valid_spec spec → json_Unmarshal (marshal_spec spec) = Ok spec.
Proof.
  intros (Hu & Hm & Hc). destruct (reads_map 9999 (bs_SHA256 spec)) as (x & Hx & Hdx); [lia|done|].
  assert (parse (marshal_spec spec) = Some (JObject ([("url", JString (bs_URL spec)); ("sha256", x)] ++
    if decide (bs_CABundle spec = "") then [] else [("caBundle", JString (bs_CABundle spec))]))) as Hp.
  { apply parse_reads, reads_object; [done|].
    repeat (apply Forall2_cons; split; [split_and!; [done..|]; done || by apply reads_string|]).
    case_decide; [done|]. apply Forall2_cons; split; [|done]. split_and!; [done..|]. by apply reads_string. }
  unfold json_Unmarshal. rewrite Hp. destruct spec as [url sha ca]; simpl in *.
  rewrite Hdx. simpl. case_decide; [by subst|done].
Qed.


(** ** Examples *)
Definition example_spec_json : BinarySpec :=
  {| bs_URL := "https://plugin:9091/<&>"; bs_SHA256 := {[ "amd64" := "00"; "arm64" := "ff" ]};
     bs_CABundle := "-----BEGIN" +:+ bytes [10; 226; 128; 168; 195; 169; 34; 92; 1] |}.
Lemma example_spec_json_valid : valid_spec example_spec_json.
Proof.
  split_and!; [by vm_compute| |by vm_compute].
  apply (bool_decide_eq_true_1 (map_Forall (λ k v, utf8_valid k ∧ utf8_valid v) (bs_SHA256 example_spec_json))).
  vm_compute. reflexivity.
Qed.

(** A document in another layout: keys in other letter cases, an unknown field, a
    field twice; and documents that are not specs. *)
Definition quoted (s : string) : string := String quote (s +:+ String quote "").
Lemma ParseBinarySpec_examples :
  ParseBinarySpec (" { " +:+ quoted "URL" +:+ " : " +:+ quoted "a" +:+ ", " +:+ quoted "x" +:+ ": [1.5e3, {}, null], " +:+
    quoted "Url" +:+ ":" +:+ quoted "b" +:+ ", " +:+ quoted "SHA256" +:+ ": {" +:+ quoted "amd64" +:+ ": null } }") =
    Ok {| bs_URL := "b"; bs_SHA256 := {[ "amd64" := "" ]}; bs_CABundle := "" |} ∧
  ParseBinarySpec "null" = Err (Errorf "binary spec: url is required" []) ∧
  ParseBinarySpec ("{" +:+ quoted "url" +:+ ":1}") = Err (Wrapf "invalid binary spec: %w" [] (ExtErr "json")) ∧
  ParseBinarySpec "{} {}" = Err (Wrapf "invalid binary spec: %w" [] (ExtErr "json")).
Proof. vm_compute. split_and!; reflexivity. Qed.
