(* ===== verification/Kube.v ===== *)
(** * The Kubernetes client

    The API the plugin calls is not part of its source: it is the class
    [KubeClient] of operations over an abstract world [W], and [KubeLib] of the
    pure helpers of apimachinery and controller-runtime.  What the code relies on
    is stated by [KubeSpec] and [KubeLibSpec]: through a [view] of the world as
    the stored objects, a read returns what is stored and a write that succeeds is
    applied; any call may fail, and a failed write may still have been applied.
    [MemClient] is an in-memory store that meets these laws. *)
From S2P Require Import Prelude GoStd Api K8s PluginConfig Specs.
From stdpp Require Import options.
Open Scope Z_scope.

Fixpoint is_not_found (e : gerr) : bool :=
  match e with NotFound _ => true | Wrapf _ _ e => is_not_found e | _ => false end.
Fixpoint is_already_exists (e : gerr) : bool :=
  match e with AlreadyExists _ => true | Wrapf _ _ e => is_already_exists e | _ => false end.
(** [client.IgnoreNotFound]. *)
Definition IgnoreNotFound (e : gerr) : res unit := if is_not_found e then Ok () else Err e.

Inductive kind := KRole | KRoleBinding | KService | KSecret.
#[export] Instance kind_eq_dec : EqDecision kind.
Proof. solve_decision. Defined.

(** The stored objects. *)
Record kstate : Type := KState {
  pgdoormen : gmap key PgDoorman;
  clusters : gmap key Cluster;
  secrets : gmap key Secret;
  services : gmap key Service;
  roles : gset key;
  rolebindings : gset key
}.

Definition set_pgdoormen p (s : kstate) := KState p (clusters s) (secrets s) (services s) (roles s) (rolebindings s).
Definition set_secrets x (s : kstate) := KState (pgdoormen s) (clusters s) x (services s) (roles s) (rolebindings s).
Definition set_services x (s : kstate) := KState (pgdoormen s) (clusters s) (secrets s) x (roles s) (rolebindings s).

Definition exists_object (kd : kind) (k : key) (s : kstate) : Prop :=
  match kd with
  | KRole => k ∈ roles s
  | KRoleBinding => k ∈ rolebindings s
  | KService => is_Some (services s !! k)
  | KSecret => is_Some (secrets s !! k)
  end.
Definition remove_object (kd : kind) (k : key) (s : kstate) : kstate :=
  match kd with
  | KRole => KState (pgdoormen s) (clusters s) (secrets s) (services s) (roles s ∖ {[k]}) (rolebindings s)
  | KRoleBinding => KState (pgdoormen s) (clusters s) (secrets s) (services s) (roles s) (rolebindings s ∖ {[k]})
  | KService => set_services (delete k (services s)) s
  | KSecret => set_secrets (delete k (secrets s)) s
  end.

(** The events the recorder is given: type, reason, message. *)
Record event : Type := { ev_Warning : bool; ev_Reason : string; ev_Message : gerr }.

Class KubeClient (W : Type) : Type := {
  get_pgdoorman : key → M W PgDoorman;
  get_cluster : key → M W Cluster;
  get_secret : key → M W Secret;
  get_service : key → M W Service;
  list_pgdoormen : string → M W (list PgDoorman);
  create_secret : Secret → M W unit;
  create_service : Service → M W unit;
  (** [Patch] with [MergeFrom]: the object it was read as, and the one wanted. *)
  patch_secret : Secret → Secret → M W unit;
  patch_service : Service → Service → M W unit;
  (** A merge patch of the finalizers; returns the object the server answers. *)
  patch_pgdoorman : PgDoorman → M W PgDoorman;
  update_status : PgDoorman → M W unit;
  delete_object : kind → key → M W unit;
  record_event : key → event → M W unit;
  (** [crypto/rand.Read] of a buffer of [n] bytes. *)
  rand_Read : nat → M W (list Z)
}.

(** apimachinery's [meta] and controller-runtime's [controllerutil] helpers.
    [FindStatusCondition] returns a pointer into the list (here the element it
    points to), and [SetStatusCondition] updates a condition in place. *)
Class KubeLib : Type := {
  FindStatusCondition : list Condition → string → option Condition;
  SetStatusCondition : list Condition → Condition → list Condition * bool;
  ContainsFinalizer : list string → string → bool;
  AddFinalizer : list string → string → list string;
  RemoveFinalizer : list string → string → list string;
  SetControllerReference_secret : Cluster → Secret → res Secret;
  SetControllerReference_service : Cluster → Service → res Service
}.

Definition with_owner (o : option string) (s : Secret) : Secret :=
  {| sec_Namespace := sec_Namespace s; sec_Name := sec_Name s; sec_Labels := sec_Labels s;
     sec_Type := sec_Type s; sec_Data := sec_Data s; sec_Owner := o;
     sec_ResourceVersion := sec_ResourceVersion s |}.
Definition with_version (v : string) (s : Secret) : Secret :=
  {| sec_Namespace := sec_Namespace s; sec_Name := sec_Name s; sec_Labels := sec_Labels s;
     sec_Type := sec_Type s; sec_Data := sec_Data s; sec_Owner := sec_Owner s;
     sec_ResourceVersion := v |}.
Definition with_service_owner (o : option string) (s : Service) : Service :=
  {| svc_Namespace := svc_Namespace s; svc_Name := svc_Name s; svc_Labels := svc_Labels s;
     svc_Selector := svc_Selector s; svc_Ports := svc_Ports s; svc_Owner := o |}.
Definition with_finalizers (f : list string) (p : PgDoorman) : PgDoorman :=
  {| pd_Namespace := pd_Namespace p; pd_Name := pd_Name p; pd_Generation := pd_Generation p;
     pd_Deleting := pd_Deleting p; pd_Finalizers := f; pd_Spec := pd_Spec p;
     pd_ObservedGeneration := pd_ObservedGeneration p; pd_Conditions := pd_Conditions p |}.
Definition with_status (og : Z) (cs : list Condition) (p : PgDoorman) : PgDoorman :=
  {| pd_Namespace := pd_Namespace p; pd_Name := pd_Name p; pd_Generation := pd_Generation p;
     pd_Deleting := pd_Deleting p; pd_Finalizers := pd_Finalizers p; pd_Spec := pd_Spec p;
     pd_ObservedGeneration := og; pd_Conditions := cs |}.

Class KubeLibSpec `{KubeLib} : Prop := {
  find_set_condition cs c : FindStatusCondition (SetStatusCondition cs c).1 (cond_Type c) = Some c;
  set_condition_unchanged cs c :
    FindStatusCondition cs (cond_Type c) = Some c → SetStatusCondition cs c = (cs, false);
  set_condition_false cs c : (SetStatusCondition cs c).2 = false → (SetStatusCondition cs c).1 = cs;
  contains_finalizer fs f : ContainsFinalizer fs f = bool_decide (f ∈ fs);
  add_finalizer fs f g : g ∈ AddFinalizer fs f ↔ g = f ∨ g ∈ fs;
  remove_finalizer fs f g : g ∈ RemoveFinalizer fs f ↔ g ≠ f ∧ g ∈ fs;
  set_controller_secret c s s' :
    SetControllerReference_secret c s = Ok s' → s' = with_owner (Some (cl_Name c)) s;
  set_controller_service c s s' :
    SetControllerReference_service c s = Ok s' → s' = with_service_owner (Some (cl_Name c)) s
}.

(** ** Merge patches

    The JSON merge patch between two versions of an object, applied to a third:
    a field, or an entry of a map, is sent when it differs; a list is a field. *)
Definition patch_field {A} `{EqDecision A} (base new cur : A) : A := if decide (base = new) then cur else new.
Definition patch_map (base new cur : gmap string string) : gmap string string :=
  filter (λ e, base !! e.1 ≠ Some e.2) new ∪ (cur ∖ filter (λ e, new !! e.1 = None) base).
Definition patch_Secret (base new cur : Secret) : Secret :=
  {| sec_Namespace := sec_Namespace new; sec_Name := sec_Name new;
     sec_Labels := patch_map (sec_Labels base) (sec_Labels new) (sec_Labels cur);
     sec_Type := patch_field (sec_Type base) (sec_Type new) (sec_Type cur);
     sec_Data := patch_map (sec_Data base) (sec_Data new) (sec_Data cur);
     sec_Owner := patch_field (sec_Owner base) (sec_Owner new) (sec_Owner cur);
     sec_ResourceVersion := sec_ResourceVersion cur |}.
Definition patch_Service (base new cur : Service) : Service :=
  {| svc_Namespace := svc_Namespace new; svc_Name := svc_Name new;
     svc_Labels := patch_map (svc_Labels base) (svc_Labels new) (svc_Labels cur);
     svc_Selector := patch_map (svc_Selector base) (svc_Selector new) (svc_Selector cur);
     svc_Ports := patch_field (svc_Ports base) (svc_Ports new) (svc_Ports cur);
     svc_Owner := patch_field (svc_Owner base) (svc_Owner new) (svc_Owner cur) |}.

Lemma lookup_patch_map base new cur k :
  patch_map base new cur !! k = patch_field (base !! k) (new !! k) (cur !! k).
Proof.
  unfold patch_map, patch_field. rewrite lookup_union, lookup_difference, !map_lookup_filter.
  destruct (new !! k) as [v|] eqn:Hn, (base !! k) as [b|] eqn:Hb; simpl;
    repeat (case_decide || case_guard || simplify_eq/=); try done; by destruct (cur !! k).
Qed.
Lemma patch_field_same {A} `{EqDecision A} (base new : A) : patch_field base new base = new.
Proof. unfold patch_field. by case_decide. Qed.
Lemma patch_map_same base new : patch_map base new base = new.
Proof. apply map_eq. intros k. by rewrite lookup_patch_map, patch_field_same. Qed.
(** A patch of an object that has not changed since it was read. *)
Lemma patch_Secret_same base new :
  patch_Secret base new base = with_version (sec_ResourceVersion base) new.
Proof. unfold patch_Secret, with_version. by rewrite !patch_map_same, !patch_field_same. Qed.
Lemma patch_Service_same base new : patch_Service base new base = new.
Proof. unfold patch_Service. rewrite !patch_map_same, !patch_field_same. by destruct new. Qed.

(** ** Laws of the client *)

(** A read returns the stored object; "not found" means it is not visible. *)
Definition read_law {W A} (view : W → kstate) (op : M W A) (stored : kstate → option A)
    (invisible : kstate → Prop) : Prop :=
  ∀ w r w', op w = (r, w') → view w' = view w ∧
    match r with
    | Ok x => stored (view w) = Some x
    | Err e => is_not_found e = true → invisible (view w)
    end.

(** A write is applied when it succeeds; when it fails it was applied or not. *)
Definition write_law {W A} (view : W → kstate) (op : M W A) (applied : A → kstate → kstate → Prop) : Prop :=
  ∀ w r w', op w = (r, w') →
    match r with
    | Ok x => applied x (view w) (view w')
    | Err _ => view w' = view w ∨ ∃ x, applied x (view w) (view w')
    end.

Definition created_secret (s : Secret) (u : unit) (st st' : kstate) : Prop :=
  secrets st !! secret_key s = None ∧
  ∃ v, st' = set_secrets (<[secret_key s := with_version v s]> (secrets st)) st.
(** The stored object after a patch: what [base] and [new] differ in is that of
    [new], the rest stays. *)
Definition patched_secret (base new : Secret) (u : unit) (st st' : kstate) : Prop :=
  ∃ cur v, secrets st !! secret_key new = Some cur ∧
    st' = set_secrets (<[secret_key new := with_version v (patch_Secret base new cur)]> (secrets st)) st.
Definition created_service (s : Service) (u : unit) (st st' : kstate) : Prop :=
  services st !! service_key s = None ∧ st' = set_services (<[service_key s := s]> (services st)) st.
Definition patched_service (base new : Service) (u : unit) (st st' : kstate) : Prop :=
  ∃ cur, services st !! service_key new = Some cur ∧
    st' = set_services (<[service_key new := patch_Service base new cur]> (services st)) st.
(** An object that is stored as it was read is replaced by the new one. *)
Definition replaced_secret (s : Secret) (st st' : kstate) : Prop :=
  is_Some (secrets st !! secret_key s) ∧
  ∃ v, st' = set_secrets (<[secret_key s := with_version v s]> (secrets st)) st.
Lemma patched_secret_replaced base new u st st' :
  secret_key new = secret_key base → secrets st !! secret_key base = Some base →
  patched_secret base new u st st' → replaced_secret new st st'.
Proof.
  intros Hk Hb (cur & v & Hcur & ->). rewrite Hk, Hb in Hcur. injection Hcur as <-.
  split; [rewrite Hk, Hb; by eexists|]. exists v. by rewrite patch_Secret_same.
Qed.
Lemma patched_service_replaced base new u st st' :
  service_key new = service_key base → services st !! service_key base = Some base →
  patched_service base new u st st' → st' = set_services (<[service_key new := new]> (services st)) st.
Proof.
  intros Hk Hb (cur & Hcur & ->). rewrite Hk, Hb in Hcur. injection Hcur as <-. by rewrite patch_Service_same.
Qed.
(** Only the finalizers change; an object being deleted goes away with its last
    finalizer. *)
Definition patched_pgdoorman (p : PgDoorman) (answer : PgDoorman) (st st' : kstate) : Prop :=
  ∃ old, pgdoormen st !! pgdoorman_key p = Some old ∧
    answer = with_finalizers (pd_Finalizers p) old ∧
    st' = set_pgdoormen
            (if pd_Deleting old && bool_decide (pd_Finalizers p = [])
             then delete (pgdoorman_key p) (pgdoormen st)
             else <[pgdoorman_key p := answer]> (pgdoormen st)) st.
(** Only the status changes. *)
Definition updated_status (p : PgDoorman) (u : unit) (st st' : kstate) : Prop :=
  ∃ old, pgdoormen st !! pgdoorman_key p = Some old ∧
    st' = set_pgdoormen (<[pgdoorman_key p :=
            with_status (pd_ObservedGeneration p) (pd_Conditions p) old]> (pgdoormen st)) st.
Definition deleted_object (kd : kind) (k : key) (u : unit) (st st' : kstate) : Prop :=
  exists_object kd k st ∧ st' = remove_object kd k st.

(** The informer of Secrets is scoped by label: a Secret without the cluster
    label is not visible. *)
Definition visible (s : Secret) : option Secret :=
  match sec_Labels s !! ClusterLabel with Some _ => Some s | None => None end.
Definition visible_at (k : key) (s : kstate) : option Secret := secrets s !! k ≫= visible.

Class KubeSpec (W : Type) `{KubeClient W} : Type := {
  view : W → kstate;
  get_pgdoorman_law k : read_law view (get_pgdoorman k) (λ s, pgdoormen s !! k) (λ s, pgdoormen s !! k = None);
  get_cluster_law k : read_law view (get_cluster k) (λ s, clusters s !! k) (λ s, clusters s !! k = None);
  get_secret_law k : read_law view (get_secret k) (visible_at k) (λ s, visible_at k s = None);
  get_service_law k : read_law view (get_service k) (λ s, services s !! k) (λ s, services s !! k = None);
  list_pgdoormen_law ns w r w' : list_pgdoormen ns w = (r, w') → view w' = view w ∧
    ∀ l, r = Ok l → ∀ p, p ∈ l ↔ pd_Namespace p = ns ∧ pgdoormen (view w) !! pgdoorman_key p = Some p;
  create_secret_law s : write_law view (create_secret s) (created_secret s);
  create_service_law s : write_law view (create_service s) (created_service s);
  patch_secret_law b s : write_law view (patch_secret b s) (patched_secret b s);
  patch_service_law b s : write_law view (patch_service b s) (patched_service b s);
  patch_pgdoorman_law p : write_law view (patch_pgdoorman p) (patched_pgdoorman p);
  update_status_law p : write_law view (update_status p) (updated_status p);
  delete_object_law kd k : write_law view (delete_object kd k) (deleted_object kd k);
  delete_not_found kd k w e w' :
    delete_object kd k w = (Err e, w') → is_not_found e = true →
    view w' = view w ∧ ¬ exists_object kd k (view w);
  record_event_law k ev w r w' : record_event k ev w = (r, w') → r = Ok () ∧ view w' = view w;
  rand_Read_law n w r w' : rand_Read n w = (r, w') →
    view w' = view w ∧ ∀ l, r = Ok l → length l = n ∧ Forall (λ b, 0 ≤ b < 256) l
}.

Lemma visible_at_Some k st s :
  visible_at k st = Some s ↔ secrets st !! k = Some s ∧ is_Some (sec_Labels s !! ClusterLabel).
Proof.
  unfold visible_at. destruct (secrets st !! k) as [x|]; simpl; [|naive_solver].
  unfold visible. destruct (sec_Labels x !! ClusterLabel) eqn:?; split; [naive_solver..| |].
  - done.
  - intros [[= ->] [? ?]]. congruence.
Qed.

(** Stored objects sit at their own key. *)
Definition well_keyed (s : kstate) : Prop :=
  map_Forall (λ k p, pgdoorman_key p = k) (pgdoormen s) ∧
  map_Forall (λ k c, cluster_key c = k) (clusters s) ∧
  map_Forall (λ k x, secret_key x = k) (secrets s) ∧
  map_Forall (λ k x, service_key x = k) (services s).

(** ** An API server that answers

    The worlds ([up]) in which no call fails for reasons of its own: a read
    answers, if only with "not found", and a write that makes sense is accepted.
    The safety theorems do without this; progress needs it. *)
Definition answers {W A} (up : W → Prop) (op : M W A) : Prop :=
  ∀ w r w', up w → op w = (r, w') → up w' ∧ ∀ e, r = Err e → is_not_found e = true.
Definition accepts {W A} (up : W → Prop) (view : W → kstate) (op : M W A) (pre : kstate → Prop) : Prop :=
  ∀ w r w', up w → pre (view w) → op w = (r, w') → up w' ∧ is_ok r = true.

Class KubeUp (W : Type) `{KubeSpec W} `{KubeLib} : Type := {
  up : W → Prop;
  up_get_pgdoorman k : answers up (get_pgdoorman k);
  up_get_cluster k : answers up (get_cluster k);
  up_get_secret k : answers up (get_secret k);
  up_get_service k : answers up (get_service k);
  up_create_secret s : accepts up view (create_secret s) (λ st, secrets st !! secret_key s = None);
  up_create_service s : accepts up view (create_service s) (λ st, services st !! service_key s = None);
  up_patch_secret b s : accepts up view (patch_secret b s) (λ st, is_Some (secrets st !! secret_key s));
  up_patch_service b s : accepts up view (patch_service b s) (λ st, is_Some (services st !! service_key s));
  up_patch_pgdoorman p : accepts up view (patch_pgdoorman p) (λ st, is_Some (pgdoormen st !! pgdoorman_key p));
  up_update_status p : accepts up view (update_status p) (λ st, is_Some (pgdoormen st !! pgdoorman_key p));
  up_delete_object kd k : answers up (delete_object kd k);
  up_record_event k ev : accepts up view (record_event k ev) (λ _, True);
  up_rand_Read n : accepts up view (rand_Read n) (λ _, True);
  (** An object without an owner can be given one. *)
  up_controller_secret c s : sec_Owner s = None → is_ok (SetControllerReference_secret c s) = true;
  up_controller_service c s : svc_Owner s = None → is_ok (SetControllerReference_service c s) = true
}.
