(* ===== verification/MemClient.v ===== *)
(** * An in-memory Kubernetes client

    A store with a script of faults (the head of the script says whether the next
    call fails) and a stream of random bytes (then zeros): an instance of the client interface
    that meets its laws, on which the examples of the development run. *)
From S2P Require Import Prelude GoStd Api K8s PluginConfig Specs Kube.
From stdpp Require Import options.
Open Scope Z_scope.

Record mem : Type := Mem {
  m_state : kstate;
  m_faults : list bool;
  m_rand : list Z;
  m_events : list event
}.

(** One call: it fails when the script says so, otherwise runs [f]. *)
Definition call {A} (f : kstate → res A * kstate) : M mem A := λ w,
  match m_faults w with
  | true :: fs => (Err (ExtErr "unavailable"), Mem (m_state w) fs (m_rand w) (m_events w))
  | fs => let '(r, s) := f (m_state w) in (r, Mem s (tail fs) (m_rand w) (m_events w))
  end.

Definition read_call {A} (f : kstate → option A) : M mem A :=
  call (λ s, (match f s with Some x => Ok x | None => Err (NotFound "") end, s)).

Definition mem_create_secret (x : Secret) (s : kstate) : res unit * kstate :=
  match secrets s !! secret_key x with
  | Some _ => (Err (AlreadyExists (sec_Name x)), s)
  | None => (Ok (), set_secrets (<[secret_key x := with_version "1" x]> (secrets s)) s)
  end.
Definition mem_create_service (x : Service) (s : kstate) : res unit * kstate :=
  match services s !! service_key x with
  | Some _ => (Err (AlreadyExists (svc_Name x)), s)
  | None => (Ok (), set_services (<[service_key x := x]> (services s)) s)
  end.
Definition mem_patch_secret (b x : Secret) (s : kstate) : res unit * kstate :=
  match secrets s !! secret_key x with
  | Some cur => (Ok (), set_secrets (<[secret_key x := with_version "2" (patch_Secret b x cur)]> (secrets s)) s)
  | None => (Err (NotFound (sec_Name x)), s)
  end.
Definition mem_patch_service (b x : Service) (s : kstate) : res unit * kstate :=
  match services s !! service_key x with
  | Some cur => (Ok (), set_services (<[service_key x := patch_Service b x cur]> (services s)) s)
  | None => (Err (NotFound (svc_Name x)), s)
  end.
Definition mem_patch_pgdoorman (p : PgDoorman) (s : kstate) : res PgDoorman * kstate :=
  match pgdoormen s !! pgdoorman_key p with
  | Some old =>
      let q := with_finalizers (pd_Finalizers p) old in
      (Ok q, set_pgdoormen
         (if pd_Deleting old && bool_decide (pd_Finalizers p = [])
          then delete (pgdoorman_key p) (pgdoormen s)
          else <[pgdoorman_key p := q]> (pgdoormen s)) s)
  | None => (Err (NotFound (pd_Name p)), s)
  end.
Definition mem_update_status (p : PgDoorman) (s : kstate) : res unit * kstate :=
  match pgdoormen s !! pgdoorman_key p with
  | Some old => (Ok (), set_pgdoormen (<[pgdoorman_key p :=
                   with_status (pd_ObservedGeneration p) (pd_Conditions p) old]> (pgdoormen s)) s)
  | None => (Err (NotFound (pd_Name p)), s)
  end.
#[export] Instance exists_object_dec kd k s : Decision (exists_object kd k s).
Proof. destruct kd; simpl; apply _. Defined.
Definition mem_delete (kd : kind) (k : key) (s : kstate) : res unit * kstate :=
  if decide (exists_object kd k s) then (Ok (), remove_object kd k s) else (Err (NotFound k.2), s).

#[export] Instance mem_client : KubeClient mem := {|
  get_pgdoorman k := read_call (λ s, pgdoormen s !! k);
  get_cluster k := read_call (λ s, clusters s !! k);
  get_secret k := read_call (λ s, secrets s !! k ≫= visible);
  get_service k := read_call (λ s, services s !! k);
  list_pgdoormen ns := call (λ s, (Ok (filter
    (λ p, pd_Namespace p = ns ∧ pgdoormen s !! pgdoorman_key p = Some p)
    (map_to_list (pgdoormen s)).*2), s));
  create_secret x := call (mem_create_secret x);
  create_service x := call (mem_create_service x);
  patch_secret b x := call (mem_patch_secret b x);
  patch_service b x := call (mem_patch_service b x);
  patch_pgdoorman p := call (mem_patch_pgdoorman p);
  update_status p := call (mem_update_status p);
  delete_object kd k := call (mem_delete kd k);
  record_event k ev := λ w, (Ok (), Mem (m_state w) (m_faults w) (m_rand w) (m_events w ++ [ev]));
  rand_Read n := λ w,
    if decide (Forall (λ b, 0 ≤ b < 256) (m_rand w))
    then (Ok (take n (m_rand w ++ replicate n 0)), Mem (m_state w) (m_faults w) (drop n (m_rand w)) (m_events w))
    else (Err (ExtErr "rand"), w)
|}.

#[export] Instance mem_lib : KubeLib := {|
  FindStatusCondition cs t := snd <$> list_find (λ c, cond_Type c = t) cs;
  SetStatusCondition cs c :=
    match list_find (λ c', cond_Type c' = cond_Type c) cs with
    | Some (i, c') => if decide (c' = c) then (cs, false) else (<[i := c]> cs, true)
    | None => (cs ++ [c], true)
    end;
  ContainsFinalizer fs f := bool_decide (f ∈ fs);
  AddFinalizer fs f := if decide (f ∈ fs) then fs else fs ++ [f];
  RemoveFinalizer fs f := filter (λ g, g ≠ f) fs;
  SetControllerReference_secret c s := Ok (with_owner (Some (cl_Name c)) s);
  SetControllerReference_service c s := Ok (with_service_owner (Some (cl_Name c)) s)
|}.

(** ** The laws hold *)
Lemma call_read_law {A} (f : kstate → option A) (stored : kstate → option A) (invisible : kstate → Prop) :
  (∀ s x, f s = Some x → stored s = Some x) → (∀ s, f s = None → invisible s) →
  read_law m_state (read_call f) stored invisible.
Proof.
  intros Hs Hi w r w'. unfold read_call, call.
  destruct (m_faults w) as [|[] fs]; intros; simplify_eq/=;
    (split; [done|]); destruct (f (m_state w)) eqn:Hf; eauto; done.
Qed.

Lemma call_write_law {A} (f : kstate → res A * kstate) (applied : A → kstate → kstate → Prop) :
  (∀ s, match f s with (Ok x, s') => applied x s s' | (Err _, s') => s' = s end) →
  write_law m_state (call f) applied.
Proof.
  intros Hf w r w'. unfold call. specialize (Hf (m_state w)).
  destruct (m_faults w) as [|[] fs]; intros; simplify_eq/=; auto;
    destruct (f (m_state w)) as [[x|e] s']; simplify_eq/=; auto.
Qed.

#[export] Program Instance mem_spec : KubeSpec mem := {| view := m_state |}.
Next Obligation. intros k. by apply call_read_law. Qed.
Next Obligation. intros k. by apply call_read_law. Qed.
Next Obligation. intros k. by apply call_read_law. Qed.
Next Obligation. intros k. by apply call_read_law. Qed.
Next Obligation.
  intros ns w r w'. simpl. unfold call.
  assert (∀ p, p ∈ filter (λ p, pd_Namespace p = ns ∧ pgdoormen (m_state w) !! pgdoorman_key p = Some p)
     (map_to_list (pgdoormen (m_state w))).*2 ↔
     pd_Namespace p = ns ∧ pgdoormen (m_state w) !! pgdoorman_key p = Some p) as Hin.
  { intros p. rewrite list_elem_of_filter. split; [tauto|]. intros Hp. split; [done|].
    apply list_elem_of_fmap. exists (pgdoorman_key p, p). split; [done|].
    apply elem_of_map_to_list, Hp. }
  destruct (m_faults w) as [|[] fs]; intros; simplify_eq/=; (split; [done|]); intros l; naive_solver.
Qed.
Next Obligation.
  intros x. apply call_write_law. intros s. unfold mem_create_secret, created_secret.
  destruct (secrets s !! secret_key x); eauto.
Qed.
Next Obligation.
  intros x. apply call_write_law. intros s. unfold mem_create_service, created_service.
  destruct (services s !! service_key x); eauto.
Qed.
Next Obligation.
  intros b x. apply call_write_law. intros s. unfold mem_patch_secret, patched_secret.
  destruct (secrets s !! secret_key x); eauto.
Qed.
Next Obligation.
  intros b x. apply call_write_law. intros s. unfold mem_patch_service, patched_service.
  destruct (services s !! service_key x); eauto.
Qed.
Next Obligation.
  intros x. apply call_write_law. intros s. unfold mem_patch_pgdoorman, patched_pgdoorman.
  destruct (pgdoormen s !! pgdoorman_key x); eauto.
Qed.
Next Obligation.
  intros x. apply call_write_law. intros s. unfold mem_update_status, updated_status.
  destruct (pgdoormen s !! pgdoorman_key x); eauto.
Qed.
Next Obligation.
  intros kd k. apply call_write_law. intros s. unfold mem_delete, deleted_object.
  case_decide; eauto.
Qed.
Next Obligation.
  intros kd k w e w'. simpl. unfold call, mem_delete.
  destruct (m_faults w) as [|[] fs]; simpl; repeat case_decide; intros; simplify_eq/=; done.
Qed.
Next Obligation. intros k ev w r w'. simpl. by intros [= <- <-]. Qed.
Next Obligation.
  intros n w r w'. simpl. case_decide as Hd; intros; simplify_eq/=; (split; [done|]); [|done].
  intros l [= <-]. rewrite length_take, length_app, length_replicate. split; [lia|].
  apply Forall_take, Forall_app_2; [done|]. by apply Forall_replicate.
Qed.

#[export] Instance mem_lib_spec : KubeLibSpec.
Proof.
  split; simpl.
  - intros cs c. destruct (list_find _ cs) as [[i c']|] eqn:Hf.
    + apply list_find_Some in Hf as Hf'. destruct Hf' as (Hi & Ht & Hb).
      case_decide; subst; simpl; [by rewrite Hf|].
      assert (list_find (λ c0, cond_Type c0 = cond_Type c) (<[i:=c]> cs) = Some (i, c)) as ->; [|done].
      apply list_find_Some. rewrite list_lookup_insert_eq by (by eapply lookup_lt_Some).
      split_and!; [done..|]. intros j y Hj Hlt.
      rewrite list_lookup_insert_ne in Hj by lia. eauto.
    + simpl. rewrite list_find_app_r by done. simpl. by rewrite decide_True.
  - intros cs c Hf. destruct (list_find _ cs) as [[i c']|]; [|done]. simpl in Hf.
    injection Hf as ->. by rewrite decide_True.
  - intros cs c. destruct (list_find _ cs) as [[i c']|]; [|done]. by case_decide.
  - done.
  - intros fs f g. case_decide; [naive_solver|]. set_solver.
  - intros fs f g. by rewrite list_elem_of_filter.
  - intros c s s'. by intros [= <-].
  - intros c s s'. by intros [= <-].
Qed.

(** Without faults left in the script the server answers. *)
Definition mem_up (w : mem) : Prop := m_faults w = [] ∧ Forall (λ b, 0 ≤ b < 256) (m_rand w).

Lemma call_answers {A} (f : kstate → res A * kstate) :
  (∀ s e, (f s).1 = Err e → is_not_found e = true) → answers mem_up (call f).
Proof.
  intros Hf w r w' [Hw Hr]. unfold call. rewrite Hw. specialize (Hf (m_state w)).
  destruct (f (m_state w)) as [x s]. intros [= <- <-]. split; [by split|]. eauto.
Qed.
Lemma call_accepts {A} (f : kstate → res A * kstate) (pre : kstate → Prop) :
  (∀ s, pre s → is_ok (f s).1 = true) → accepts mem_up m_state (call f) pre.
Proof.
  intros Hf w r w' [Hw Hr] Hpre. unfold call. rewrite Hw. specialize (Hf _ Hpre).
  destruct (f (m_state w)) as [x s]. intros [= <- <-]. split; [by split|done].
Qed.

#[export] Program Instance mem_client_up : KubeUp mem := {| up := mem_up |}.
Next Obligation. intros k. apply call_answers. intros s e. simpl. destruct (pgdoormen s !! k); by intros [= <-]. Qed.
Next Obligation. intros k. apply call_answers. intros s e. simpl. destruct (clusters s !! k); by intros [= <-]. Qed.
Next Obligation. intros k. apply call_answers. intros s e. simpl. destruct (secrets s !! k ≫= visible); by intros [= <-]. Qed.
Next Obligation. intros k. apply call_answers. intros s e. simpl. destruct (services s !! k); by intros [= <-]. Qed.
Next Obligation. intros x. apply call_accepts. intros s Hs. unfold mem_create_secret. by rewrite Hs. Qed.
Next Obligation. intros x. apply call_accepts. intros s Hs. unfold mem_create_service. by rewrite Hs. Qed.
Next Obligation. intros b x. apply call_accepts. intros s [y Hs]. unfold mem_patch_secret. by rewrite Hs. Qed.
Next Obligation. intros b x. apply call_accepts. intros s [y Hs]. unfold mem_patch_service. by rewrite Hs. Qed.
Next Obligation. intros x. apply call_accepts. intros s [y Hs]. unfold mem_patch_pgdoorman. by rewrite Hs. Qed.
Next Obligation. intros x. apply call_accepts. intros s [y Hs]. unfold mem_update_status. by rewrite Hs. Qed.
Next Obligation.
  intros kd k. apply call_answers. intros s e. unfold mem_delete. case_decide; by intros [= <-].
Qed.
Next Obligation. intros k ev w r w' [??] _. simpl. intros [= <- <-]. by repeat split. Qed.
Next Obligation.
  intros n w r w' [? Hr] _. simpl. rewrite decide_True by done. intros [= <- <-]. repeat split; [done|].
  by apply Forall_drop.
Qed.
Next Obligation. done. Qed.
Next Obligation. done. Qed.

(** ** A store for the examples *)
Definition example_secret (name : string) (data : gmap string string) : Secret :=
  {| sec_Namespace := "ns"; sec_Name := name; sec_Labels := {[ ClusterLabel := "my-cluster" ]};
     sec_Type := "Opaque"; sec_Data := data; sec_Owner := None; sec_ResourceVersion := "7" |}.
Definition empty_store : kstate := KState ∅ ∅ ∅ ∅ ∅ ∅.
Definition store_of (l : list Secret) : kstate :=
  set_secrets (list_to_map ((λ s, (secret_key s, s)) <$> l)) empty_store.
(** No faults, sixteen random bytes. *)
Definition mem_of (s : kstate) : mem := Mem s [] (Z.of_nat <$> seq 1 16) [].
