(* ===== verification/Credentials.v ===== *)
(** * Credentials (internal/credentials)

    Resolving the passwords a spec references into the map [Generate] reads, and
    hashing the versions of the referenced Secrets. *)
From S2P Require Import Prelude GoStd Sha256 Api K8s ConfigGen Specs Kube MemClient.
From stdpp Require Import options.
Open Scope Z_scope.

(** [fmt.Errorf("...: %w", err)] around the error of a call. *)
Definition wrap_err {W A} (format : string) (args : list string) (m : M W A) : M W A :=
  r ← try_ m; match r with Ok a => mret a | Err e => throw (Wrapf format args e) end.

Section credentials.
  Context {W : Type} {KC : KubeClient W}.

Definition ExtractSecretValue (ref : SecretKeySelector) (ns : string) : M W string :=
  secret ← wrap_err "getting secret %s: %w" [ref_Name ref] (get_secret (ns, ref_Name ref));
  match sec_Data secret !! ref_Key ref with
  | None => throw (Errorf "missing key %s in secret %s" [ref_Key ref; ref_Name ref])
  | Some value => mret value
  end.

Definition resolve_user (ns poolName : string) (passwords : gmap string string) (user : UserSpec)
    : M W (gmap string string) :=
  val ← wrap_err "pool %q user %q password: %w" [poolName; us_Username user]
          (ExtractSecretValue (us_PasswordSecretRef user) ns);
  mret (<[PasswordKey poolName "user" (us_Username user) := val]> passwords).

Definition resolve_authQuery (ns poolName : string) (passwords : gmap string string)
    (aq : option AuthQuerySpec) : M W (gmap string string) :=
  match aq with
  | Some aq =>
      match aq_PasswordSecretRef aq with
      | Some ref =>
          val ← wrap_err "pool %q auth_query password: %w" [poolName] (ExtractSecretValue ref ns);
          mret (<[PasswordKey poolName "auth_query" (aq_User aq) := val]> passwords)
      | None => mret passwords
      end
  | None => mret passwords
  end.

Definition resolve_pool (ns : string) (passwords : gmap string string) (e : string * PoolSpec)
    : M W (gmap string string) :=
  let '(poolName, pool) := e in
  passwords ← resolve_authQuery ns poolName passwords (ps_AuthQuery pool);
  foldMW (resolve_user ns poolName) passwords (ps_Users pool).

Definition resolve_admin (ns : string) (passwords : gmap string string) (spec : PgDoormanSpec)
    : M W (gmap string string) :=
  match General spec with
  | Some g =>
      match gs_AdminPasswordSecretRef g with
      | Some ref =>
          val ← wrap_err "admin password: %w" [] (ExtractSecretValue ref ns);
          mret (<[AdminPasswordKey := val]> passwords)
      | None => mret passwords
      end
  | None => mret passwords
  end.

Definition ResolvePasswords (ρ : ranger) (ns : string) (spec : PgDoormanSpec) : M W (gmap string string) :=
  passwords ← foldMW (resolve_pool ns) ∅ (range ρ (Pools spec));
  resolve_admin ns passwords spec.

(** [collectRef]: each Secret is read once. *)
Definition collectRef (ns : string) (seen : gmap string string) (ref : SecretKeySelector)
    : M W (gmap string string) :=
  match seen !! ref_Name ref with
  | Some _ => mret seen
  | None =>
      secret ← wrap_err "getting secret %s: %w" [ref_Name ref] (get_secret (ns, ref_Name ref));
      mret (<[ref_Name ref := sec_ResourceVersion secret]> seen)
  end.

(** [ρ1] is the order of the pools, [ρ2] of the versions seen. *)
Definition CollectSecretVersions (ρ1 ρ2 : ranger) (spec : PgDoormanSpec) (ns : string) : M W string :=
  seen ← foldMW (λ seen e, foldMW (collectRef ns) seen (pool_refs e.2)) ∅ (range ρ1 (Pools spec));
  seen ← foldMW (collectRef ns) seen (admin_refs spec);
  if decide (seen = ∅) then mret ""
  else
    let pairs := (λ e, e.1 +:+ ":" +:+ e.2) <$> range ρ2 seen in
    mret (Sum256 (String.concat "" (sort_strings pairs))).
End credentials.

(** ** What is resolved *)

(** The value a reference stands for in the store. *)
Definition stored_value (st : kstate) (ns : string) (ref : SecretKeySelector) : option string :=
  secrets st !! (ns, ref_Name ref) ≫= λ s, sec_Data s !! ref_Key ref.

(** The keys a pool and a spec ask for, with the reference of each. *)
Definition pool_credentials (name : string) (p : PoolSpec) : list (string * SecretKeySelector) :=
  match ps_AuthQuery p with
  | Some aq => match aq_PasswordSecretRef aq with
               | Some r => [(PasswordKey name "auth_query" (aq_User aq), r)] | None => [] end
  | None => []
  end ++ ((λ u, (PasswordKey name "user" (us_Username u), us_PasswordSecretRef u)) <$> ps_Users p).
Definition credential (spec : PgDoormanSpec) (k : string) (ref : SecretKeySelector) : Prop :=
  (∃ name p, Pools spec !! name = Some p ∧ (k, ref) ∈ pool_credentials name p) ∨
  (k = AdminPasswordKey ∧ ref ∈ admin_refs spec).

(** [pw] holds what the keys of [l] stand for. *)
Definition resolved (st : kstate) (ns : string) (l : list (string * SecretKeySelector))
    (pw : gmap string string) : Prop :=
  (∀ k v, pw !! k = Some v → ∃ ref, (k, ref) ∈ l ∧ stored_value st ns ref = Some v) ∧
  (∀ k ref, (k, ref) ∈ l → is_Some (pw !! k)).

Lemma resolved_nil st ns : resolved st ns [] ∅.
Proof. split; [intros k v; by rewrite lookup_empty|intros ?? []%not_elem_of_nil]. Qed.

Lemma resolved_snoc st ns l pw k ref v :
  resolved st ns l pw → stored_value st ns ref = Some v → resolved st ns (l ++ [(k, ref)]) (<[k := v]> pw).
Proof.
  intros [H1 H2] Hv. split.
  - intros k' v' [[<- <-]|[Hne Hk]]%lookup_insert_Some.
    + exists ref. split; [|done]. apply elem_of_app. right. by apply list_elem_of_singleton.
    + destruct (H1 _ _ Hk) as (r & ? & ?). exists r. split; [|done]. apply elem_of_app. by left.
  - intros k' r [Hin|Heq%list_elem_of_singleton]%elem_of_app.
    + destruct (decide (k' = k)) as [->|]; [rewrite lookup_insert_eq; eauto|].
      rewrite lookup_insert_ne by done. eauto.
    + injection Heq as -> ->. rewrite lookup_insert_eq. eauto.
Qed.

Section resolve.
  Context {W : Type} {KC : KubeClient W} {KS : KubeSpec W}.
  Context (st : kstate).

(** The calls of this file only read: the view stays [st]. *)
Definition at_st (w : W) : Prop := view w = st.

Lemma wrap_err_triple {A} fmt args (m : M W A) (R : A → Prop) :
  triple at_st m (λ r w, at_st w ∧ ∀ a, r = Ok a → R a) →
  triple at_st (wrap_err fmt args m) (λ r w, at_st w ∧ ∀ a, r = Ok a → R a).
Proof.
  intros Hm w r w' Hw Hr. unfold wrap_err in Hr. inv_run Hr.
  destruct (Hm _ _ _ Hw Hcall) as [? Ha]. destruct r0; inv_run Hr; (split; [done|]); naive_solver.
Qed.

Lemma get_secret_triple k :
  triple at_st (get_secret k) (λ r w, at_st w ∧ ∀ s, r = Ok s → secrets st !! k = Some s).
Proof.
  intros w r w' Hw Hr. apply get_secret_law in Hr as [Hv Hs]. unfold at_st in *. rewrite Hw in *.
  split; [done|]. intros s ->. by apply visible_at_Some in Hs as [? _].
Qed.

Lemma ExtractSecretValue_triple ref ns :
  triple at_st (ExtractSecretValue ref ns)
    (λ r w, at_st w ∧ ∀ v, r = Ok v → stored_value st ns ref = Some v).
Proof.
  unfold ExtractSecretValue.
  eapply (triple_bind _ (λ s w, at_st w ∧ secrets st !! (ns, ref_Name ref) = Some s)).
  - eapply triple_conseq; [apply wrap_err_triple, get_secret_triple|same_pre|].
    intros [s|e] w [? Hs]; [|done]. eauto.
  - intros s. destruct (sec_Data s !! ref_Key ref) as [v|] eqn:Hk.
    + apply triple_ret. intros w [? Hs]. split; [done|]. intros ? [= <-].
      unfold stored_value. by rewrite Hs.
    + apply triple_throw. by intros w [? _].
Qed.

(** Resolving one reference into the map. *)
Lemma resolve_one_triple fmt args ref ns k l pw :
  triple (λ w, at_st w ∧ resolved st ns l pw)
    (val ← wrap_err fmt args (ExtractSecretValue ref ns); mret (<[k := val]> pw))
    (λ r w, at_st w ∧ ∀ pw', r = Ok pw' → resolved st ns (l ++ [(k, ref)]) pw').
Proof.
  eapply (triple_bind _ (λ v w, at_st w ∧ resolved st ns l pw ∧ stored_value st ns ref = Some v)).
  - intros w r w' [Hw Hr] Hrun.
    destruct (wrap_err_triple _ _ _ _ (ExtractSecretValue_triple ref ns) _ _ _ Hw Hrun) as [? Hv].
    destruct r; naive_solver.
  - intros v. apply triple_ret. intros w (? & ? & ?). split; [done|]. intros pw' [= <-].
    by apply resolved_snoc.
Qed.

Lemma resolve_users_triple ns name us l pw :
  triple (λ w, at_st w ∧ resolved st ns l pw) (foldMW (resolve_user ns name) pw us)
    (λ r w, at_st w ∧ ∀ pw', r = Ok pw' → resolved st ns
       (l ++ ((λ u, (PasswordKey name "user" (us_Username u), us_PasswordSecretRef u)) <$> us)) pw').
Proof.
  revert l pw. induction us as [|u us IH]; intros l pw; cbn [foldMW].
  - apply triple_ret. intros w [??]. split; [done|]. intros ? [= <-]. by rewrite app_nil_r.
  - eapply (triple_bind _ (λ pw' w, at_st w ∧ resolved st ns (l ++
      [(PasswordKey name "user" (us_Username u), us_PasswordSecretRef u)]) pw')).
    + eapply triple_conseq; [apply (resolve_one_triple _ _ _ _ _ l)|same_pre|]. intros [] w [??]; naive_solver.
    + intros pw'. eapply triple_conseq; [apply IH|same_pre|]. intros r w [? Hp]. split; [done|].
      intros pw'' ->. rewrite fmap_cons, cons_middle, app_assoc. auto.
Qed.

Lemma resolve_pool_triple ns name p l pw :
  triple (λ w, at_st w ∧ resolved st ns l pw) (resolve_pool ns pw (name, p))
    (λ r w, at_st w ∧ ∀ pw', r = Ok pw' → resolved st ns (l ++ pool_credentials name p) pw').
Proof.
  unfold resolve_pool, pool_credentials. set (us := _ <$> ps_Users p).
  eapply (triple_bind _ (λ pw' w, at_st w ∧ resolved st ns (l ++ match ps_AuthQuery p with
    | Some aq => match aq_PasswordSecretRef aq with
                 | Some r => [(PasswordKey name "auth_query" (aq_User aq), r)] | None => [] end
    | None => [] end) pw')).
  - unfold resolve_authQuery. destruct (ps_AuthQuery p) as [aq|];
      [destruct (aq_PasswordSecretRef aq) as [ref|]|].
    1: eapply triple_conseq; [apply (resolve_one_triple _ _ _ _ _ l)|same_pre|]; intros [] w [??]; naive_solver.
    all: apply triple_ret; intros w [? Hl]; split; [done|]; by rewrite app_nil_r.
  - intros pw'. eapply triple_conseq; [apply resolve_users_triple|same_pre|]. intros r w [? Hp].
    split; [done|]. intros pw'' ->. rewrite app_assoc. auto.
Qed.

Lemma ResolvePasswords_triple ρ ns spec :
  triple at_st (ResolvePasswords ρ ns spec)
    (λ r w, at_st w ∧ ∀ pw, r = Ok pw →
      ∃ l, resolved st ns l pw ∧ ∀ k ref, (k, ref) ∈ l ↔ credential spec k ref).
Proof.
  unfold ResolvePasswords.
  set (L := λ (es : list (string * PoolSpec)), es ≫= λ e, pool_credentials e.1 e.2).
  eapply (triple_bind _ (λ pw w, at_st w ∧ resolved st ns (L (range ρ (Pools spec))) pw)).
  - eapply triple_conseq; [apply (triple_foldMW
      (λ es pw w, at_st w ∧ resolved st ns (L es) pw) (λ _, at_st))| |].
    + intros pre [name p] pw _. eapply triple_conseq; [apply resolve_pool_triple|same_pre|].
      intros [pw'|e] w [Hw Hp]; [|done]. split; [done|]. unfold L. rewrite bind_app. simpl.
      rewrite app_nil_r. auto.
    + intros w ?. split; [done|apply resolved_nil].
    + intros [pw|e] w; [done|]. intros ?; by split.
  - intros pw. eapply triple_conseq with
      (Q' := λ r w, at_st w ∧ ∀ pw', r = Ok pw' → resolved st ns
         (L (range ρ (Pools spec)) ++ ((λ ref, (AdminPasswordKey, ref)) <$> admin_refs spec)) pw').
    + unfold resolve_admin, admin_refs. destruct (General spec) as [g|];
        [destruct (gs_AdminPasswordSecretRef g)|]; [apply resolve_one_triple|..];
        apply triple_ret; intros w [??]; (split; [done|]); intros ? [= <-]; by rewrite app_nil_r.
    + done.
    + intros r w [? Hp]. split; [done|]. intros pw' ->. eexists. split; [by apply Hp|].
      intros k ref. unfold credential, L. rewrite elem_of_app, list_elem_of_bind, list_elem_of_fmap.
      split.
      * intros [([name p] & Hin & Hr%elem_of_range)|(? & [= -> ->] & ?)]; eauto 6.
      * intros [(name & p & Hp' & Hin)|[-> ?]]; [left|right; eauto].
        exists (name, p). by rewrite elem_of_range.
Qed.
End resolve.

(** ** Keys that stand for one reference *)
Definition unambiguous (spec : PgDoormanSpec) : Prop :=
  ∀ k r1 r2, credential spec k r1 → credential spec k r2 → r1 = r2.

(** Pool names without a slash and no user listed twice in a pool. *)
Definition well_named (spec : PgDoormanSpec) : Prop :=
  map_Forall (λ name p, slash_free name ∧ NoDup (us_Username <$> ps_Users p)) (Pools spec).

(** The kind and account of a pool's key. *)
Lemma pool_credentials_inv name p k ref :
  (k, ref) ∈ pool_credentials name p →
  (∃ aq, ps_AuthQuery p = Some aq ∧ aq_PasswordSecretRef aq = Some ref ∧
     k = PasswordKey name "auth_query" (aq_User aq)) ∨
  (∃ u, u ∈ ps_Users p ∧ us_PasswordSecretRef u = ref ∧ k = PasswordKey name "user" (us_Username u)).
Proof.
  unfold pool_credentials. intros [Hin|Hin]%elem_of_app.
  - left. destruct (ps_AuthQuery p) as [aq|]; [|by apply not_elem_of_nil in Hin].
    destruct (aq_PasswordSecretRef aq) eqn:?; [|by apply not_elem_of_nil in Hin].
    apply list_elem_of_singleton in Hin. naive_solver.
  - right. apply list_elem_of_fmap in Hin as (u & [= -> ->] & ?). eauto.
Qed.

Lemma credential_PasswordKey name p k ref :
  (k, ref) ∈ pool_credentials name p → ∃ kind user, k = PasswordKey name kind user.
Proof. intros [(?&?&?&->)|(?&?&?&->)]%pool_credentials_inv; eauto. Qed.

Lemma kinds_slash_free : slash_free "auth_query" ∧ slash_free "user".
Proof. split; by apply slash_free_compute. Qed.

Lemma NoDup_usernames_inj (us : list UserSpec) u1 u2 :
  NoDup (us_Username <$> us) → u1 ∈ us → u2 ∈ us → us_Username u1 = us_Username u2 → u1 = u2.
Proof.
  intros Hnd [i Hi]%list_elem_of_lookup [j Hj]%list_elem_of_lookup Heq.
  assert (i = j) as ->; [|by simplify_eq].
  apply (NoDup_lookup _ _ _ (us_Username u1) Hnd); rewrite list_lookup_fmap.
  - by rewrite Hi.
  - by rewrite Hj, Heq.
Qed.

Lemma well_named_unambiguous spec : well_named spec → unambiguous spec.
Proof.
  destruct kinds_slash_free as [Haqf Husf].
  intros Hw k r1 r2 [(n1 & p1 & Hp1 & Hc1)|[-> Ha1]] [(n2 & p2 & Hp2 & Hc2)|[Hk Ha2]].
  - destruct (Hw _ _ Hp1) as [Hs1 Hnd], (Hw _ _ Hp2) as [Hs2 _].
    apply pool_credentials_inv in Hc1 as [(a1&?&?&->)|(u1&?&?&->)];
      apply pool_credentials_inv in Hc2 as [(a2&?&?&Hk)|(u2&?&?&Hk)];
      apply PasswordKey_inj in Hk as (-> & Hkind & Huser); try done; simplify_eq; [done|].
    f_equal. by eapply NoDup_usernames_inj.
  - apply credential_PasswordKey in Hc1 as (?&?&->). by apply PasswordKey_not_admin in Hk.
  - apply credential_PasswordKey in Hc2 as (?&?&Hk). by apply symmetry, PasswordKey_not_admin in Hk.
  - revert Ha1 Ha2. unfold admin_refs. destruct (General spec) as [g|]; [|by intros ?%not_elem_of_nil].
    destruct (gs_AdminPasswordSecretRef g); [|by intros ?%not_elem_of_nil].
    by intros ->%list_elem_of_singleton ->%list_elem_of_singleton.
Qed.

Section theorems.
  Context {W : Type} {KC : KubeClient W} {KS : KubeSpec W}.

(** The map is determined by the store. *)
Lemma ResolvePasswords_run ρ ns spec w pw w' :
  unambiguous spec → ResolvePasswords ρ ns spec w = (Ok pw, w') →
  view w' = view w ∧
  (∀ k v, pw !! k = Some v ↔ ∃ ref, credential spec k ref ∧ stored_value (view w) ns ref = Some v) ∧
  (∀ k ref, credential spec k ref → is_Some (pw !! k)).
Proof.
  intros Hun Hr.
  apply (ResolvePasswords_triple (view w) ρ ns spec w) in Hr as [Hv Hp]; [|done].
  destruct (Hp pw eq_refl) as (l & [H1 H2] & Hl). split_and!.
  - apply Hv.
  - intros k v. split.
    + intros (ref & ? & ?)%H1. exists ref. by rewrite <- Hl.
    + intros (ref & Hc & Hs). destruct (H2 k ref) as [v' Hv']; [by apply Hl|].
      destruct (H1 _ _ Hv') as (ref' & Hc' & Hs'). apply Hl in Hc'.
      rewrite (Hun _ _ _ Hc' Hc) in Hs'. congruence.
  - intros k ref Hc%Hl. by eapply H2.
Qed.

Lemma ResolvePasswords_frame ρ ns spec w r w' :
  ResolvePasswords ρ ns spec w = (r, w') → view w' = view w.
Proof. intros Hr. by apply (ResolvePasswords_triple (view w) ρ ns spec w) in Hr as [? _]. Qed.

(** Two successful runs on the same store, in any orders, give the same map. *)
Lemma ResolvePasswords_det ρ1 ρ2 ns spec w1 w2 pw1 pw2 w1' w2' :
  unambiguous spec → view w1 = view w2 →
  ResolvePasswords ρ1 ns spec w1 = (Ok pw1, w1') → ResolvePasswords ρ2 ns spec w2 = (Ok pw2, w2') →
  pw1 = pw2.
Proof.
  intros Hun Hv Hr1 Hr2.
  apply ResolvePasswords_run in Hr1 as (_ & H1 & _); [|done].
  apply ResolvePasswords_run in Hr2 as (_ & H2 & _); [|done].
  apply map_eq. intros k. apply option_eq. intros v. by rewrite H1, H2, Hv.
Qed.

(** On a spec with slash-free pool names and no user listed twice in a
    pool, a successful [ResolvePasswords] reads the store without changing it and
    maps the key of every account to the value its own Secret reference stands for
    and maps nothing else, whatever the order of the pools. *)
Theorem ResolvePasswords_correct ρ ns spec w pw w' :
  well_named spec → ResolvePasswords ρ ns spec w = (Ok pw, w') →
  view w' = view w ∧
  ∀ k, match pw !! k with
       | Some v => ∃ ref, credential spec k ref ∧ stored_value (view w) ns ref = Some v
       | None => ∀ ref, ¬ credential spec k ref
       end.
Proof.
  intros Hn%well_named_unambiguous Hr. apply ResolvePasswords_run in Hr as (Hv & Hk & Hs); [|done].
  split; [done|]. intros k. destruct (pw !! k) as [v|] eqn:Hpw; [by apply Hk|].
  intros ref Hc. apply Hs in Hc. rewrite Hpw in Hc. by destruct Hc.
Qed.

(** ** Versions of the referenced Secrets *)
Definition stored_version (st : kstate) (ns name : string) : option string :=
  sec_ResourceVersion <$> secrets st !! (ns, name).

Definition versions_seen (st : kstate) (ns : string) (l : list SecretKeySelector) (seen : gmap string string) : Prop :=
  (∀ n v, seen !! n = Some v → n ∈ ref_Name <$> l ∧ stored_version st ns n = Some v) ∧
  (∀ n, n ∈ ref_Name <$> l → is_Some (seen !! n)).

Lemma collectRef_triple st ns l seen ref :
  triple (λ w, at_st st w ∧ versions_seen st ns l seen) (collectRef ns seen ref)
    (λ r w, at_st st w ∧ ∀ seen', r = Ok seen' → versions_seen st ns (l ++ [ref]) seen').
Proof.
  unfold collectRef. destruct (seen !! ref_Name ref) as [v|] eqn:Hs.
  - apply triple_ret. intros w [? [H1 H2]]. split; [done|]. intros ? [= <-]. split.
    + intros n v' ?. rewrite fmap_app, elem_of_app. naive_solver.
    + intros n. rewrite fmap_app, elem_of_app. intros [?|Heq%list_elem_of_singleton]; subst; eauto.
  - eapply (triple_bind _ (λ s w, at_st st w ∧ versions_seen st ns l seen ∧ secrets st !! (ns, ref_Name ref) = Some s)).
    + intros w r w' [Hw Hv] Hr.
      destruct (wrap_err_triple st _ _ _ _ (get_secret_triple st _) _ _ _ Hw Hr) as [? ?].
      destruct r; naive_solver.
    + intros s. apply triple_ret. intros w (? & [H1 H2] & Hg). split; [done|]. intros ? [= <-]. split.
      * intros n v [[<- <-]|[? ?]]%lookup_insert_Some; rewrite fmap_app, elem_of_app.
        -- split; [right; by left|]. unfold stored_version. by rewrite Hg.
        -- naive_solver.
      * intros n. rewrite fmap_app, elem_of_app. intros [?|Heq%list_elem_of_singleton]; subst.
        -- destruct (decide (n = ref_Name ref)) as [->|]; [rewrite lookup_insert_eq; eauto|].
           rewrite lookup_insert_ne by done. eauto.
        -- rewrite lookup_insert_eq. eauto.
Qed.

Lemma collectRefs_triple st ns l seen refs :
  triple (λ w, at_st st w ∧ versions_seen st ns l seen) (foldMW (collectRef ns) seen refs)
    (λ r w, at_st st w ∧ ∀ seen', r = Ok seen' → versions_seen st ns (l ++ refs) seen').
Proof.
  eapply triple_conseq; [apply (triple_foldMW (λ pre s w, at_st st w ∧ versions_seen st ns (l ++ pre) s)
    (λ _, at_st st))| |].
  - intros pre ref s _. eapply triple_conseq; [apply collectRef_triple|same_pre|].
    intros [s'|e] w [? Hs]; [|done]. rewrite <- app_assoc in Hs. auto.
  - intros w. by rewrite app_nil_r.
  - intros [s|e] w; [|done]. intros [??]. split; [done|]. by intros ? [= <-].
Qed.

Definition spec_refs (ρ : ranger) (spec : PgDoormanSpec) : list SecretKeySelector :=
  (range ρ (Pools spec) ≫= λ e, pool_refs e.2) ++ admin_refs spec.

Lemma elem_of_spec_refs ρ spec n : n ∈ ref_Name <$> spec_refs ρ spec ↔ references spec n.
Proof.
  unfold spec_refs, references. rewrite fmap_app, elem_of_app. apply or_iff_compat_r.
  rewrite list_elem_of_fmap. setoid_rewrite list_elem_of_bind. split.
  - intros (r & -> & [k p] & ? & Hin%elem_of_range). exists k, p. split; [done|]. by apply list_elem_of_fmap_2.
  - intros (k & p & Hp & (r & -> & ?)%list_elem_of_fmap). exists r. split; [done|].
    exists (k, p). by rewrite elem_of_range.
Qed.

Lemma CollectSecretVersions_run ρ1 ρ2 spec ns w h w' :
  CollectSecretVersions ρ1 ρ2 spec ns w = (Ok h, w') →
  view w' = view w ∧ ∃ seen : gmap string string,
    (∀ n v, seen !! n = Some v ↔ references spec n ∧ stored_version (view w) ns n = Some v) ∧
    h = if decide (seen = ∅) then ""
        else Sum256 (String.concat "" (sort_strings ((λ e, e.1 +:+ ":" +:+ e.2) <$> range ρ2 seen))).
Proof.
  intros Hr. unfold CollectSecretVersions in Hr.
  assert (triple (at_st (view w))
    (foldMW (λ seen e, foldMW (collectRef ns) seen (pool_refs e.2)) ∅ (range ρ1 (Pools spec)))
    (λ r w1, match r with
      | Ok seen => at_st (view w) w1 ∧
          versions_seen (view w) ns (range ρ1 (Pools spec) ≫= λ e, pool_refs e.2) seen
      | Err _ => at_st (view w) w1 end)) as Hpools.
  { eapply triple_conseq; [apply (triple_foldMW (λ es seen w1, at_st (view w) w1 ∧
      versions_seen (view w) ns (es ≫= λ e, pool_refs e.2) seen) (λ _, at_st (view w)))| |].
    - intros pre e s _. eapply triple_conseq; [apply collectRefs_triple|same_pre|].
      intros [s'|e'] w1 [? Hs]; [|done]. rewrite bind_app. simpl. rewrite app_nil_r. auto.
    - intros w1 ?. split; [done|]. split; [intros n v; by rewrite lookup_empty|intros ? []%not_elem_of_nil].
    - by intros [s|e] w1. }
  apply bind_inv in Hr as [(seen1 & w1 & Hc1 & Hr)|(e & Hc1 & [=])].
  apply Hpools in Hc1 as [Hw1 Hs1]; [|done].
  apply bind_inv in Hr as [(seen & w2 & Hc2 & Hr)|(e & Hc2 & [=])].
  destruct (collectRefs_triple (view w) ns _ _ (admin_refs spec) _ _ _ (conj Hw1 Hs1) Hc2) as [Hw2 Hs2].
  destruct (Hs2 _ eq_refl) as [H1 H2].
  assert (∀ n v, seen !! n = Some v ↔ references spec n ∧ stored_version (view w) ns n = Some v) as Hseen.
  { intros n v. rewrite <- (elem_of_spec_refs ρ1). split; [by intros ?%H1|].
    intros [Hn Hv]. destruct (H2 _ Hn) as [v' Hv']. destruct (H1 _ _ Hv'). congruence. }
  case_decide as He; unfold mret, M_ret in Hr; injection Hr as <- <-;
    (split; [done|]); exists seen; (split; [done|]); by case_decide.
Qed.

(** [CollectSecretVersions] is a function of the store and the spec: two
    successful runs on the same store return the same hash, whatever the orders
    Go visits the pools and the versions in, and neither changes the store. *)
Theorem CollectSecretVersions_deterministic ρ1 ρ2 ρ3 ρ4 spec ns w1 w2 h1 h2 w1' w2' :
  view w1 = view w2 →
  CollectSecretVersions ρ1 ρ2 spec ns w1 = (Ok h1, w1') →
  CollectSecretVersions ρ3 ρ4 spec ns w2 = (Ok h2, w2') →
  h1 = h2 ∧ view w1' = view w2'.
Proof.
  intros Hv (Hv1 & seen1 & Hs1 & ->)%CollectSecretVersions_run (Hv2 & seen2 & Hs2 & ->)%CollectSecretVersions_run.
  split; [|congruence].
  assert (seen1 = seen2) as ->.
  { apply map_eq. intros n. apply option_eq. intros v. by rewrite Hs1, Hs2, Hv. }
  case_decide; [done|]. do 2 f_equal. apply sort_strings_proper.
  by rewrite (range_perm ρ2), (range_perm ρ4).
Qed.
End theorems.

(** ** Examples *)
Definition alice_store : mem := mem_of (store_of [example_secret "alice-pw" {[ "password" := "s3cret" ]}]).

Lemma example_well_named : well_named example_spec.
Proof.
  intros name p Hp. unfold example_spec in Hp. cbn [Pools] in Hp.
  apply lookup_singleton_Some in Hp as [<- <-]. split; [by apply slash_free_compute|].
  apply NoDup_singleton.
Qed.

Definition alice_run : res (gmap string string) * mem := ResolvePasswords default_ranger "ns" example_spec alice_store.
Definition alice_passwords : gmap string string := match alice_run.1 with Ok pw => pw | Err _ => ∅ end.
Lemma alice_run_ok : alice_run = (Ok alice_passwords, alice_run.2).
Proof.
  assert (is_ok alice_run.1 = true) as Hok by (vm_compute; reflexivity). revert Hok. unfold alice_passwords.
  generalize alice_run. by intros [[] w].
Qed.
Lemma ResolvePasswords_correct_witness :
  alice_passwords !! PasswordKey "app" "user" "alice" = Some "s3cret" ∧ view alice_run.2 = view alice_store.
Proof.
  split; [vm_compute; reflexivity|].
  exact (proj1 (ResolvePasswords_correct default_ranger "ns" example_spec alice_store alice_passwords alice_run.2
    example_well_named alice_run_ok)).
Defined.

Lemma CollectSecretVersions_deterministic_witness :
  ∃ h w1 w2,
    CollectSecretVersions default_ranger default_ranger example_spec "ns" alice_store = (Ok h, w1) ∧
    CollectSecretVersions reverse_ranger reverse_ranger example_spec "ns" alice_store = (Ok h, w2).
Proof.
  destruct (CollectSecretVersions default_ranger default_ranger example_spec "ns" alice_store)
    as [[h1|e] w1] eqn:E1; [|by vm_compute in E1].
  destruct (CollectSecretVersions reverse_ranger reverse_ranger example_spec "ns" alice_store)
    as [[h2|e] w2] eqn:E2; [|by vm_compute in E2].
  exists h1, w1, w2. split; [done|].
  destruct (CollectSecretVersions_deterministic _ _ _ _ _ _ _ _ _ _ _ _ eq_refl E1 E2) as [-> _].
  done.
Defined.
