(* ===== verification/Controller.v ===== *)
(** * The rendering controller (internal/controller/renderedconfig.go)

    [Reconcile] renders one PgDoorman into the per-cluster config Secret, keeps
    the in-use finalizer, generates the auth_query Secret and reports the outcome
    in the Rendered condition.  It runs over the client interface of [Kube]. *)
From S2P Require Import Prelude GoStd Api K8s PluginConfig DoormanConfig ConfigGen Specs Paths Kube Credentials.
From stdpp Require Import options.
Open Scope Z_scope.

Definition ConfigKey : string := "pg_doorman.yaml".
Definition generatedAdminPasswordKey : string := "admin-password".
Definition Finalizer : string := "pg-doorman.cnpg.io/in-use".
Definition SecretTypeBasicAuth : string := "kubernetes.io/basic-auth".

(** [ctrl.Result]: empty, or a requeue after [requeueAfter] (30 s). *)
Inductive result : Type := Done | RequeueAfter.

(** The reconciler's fields and the [SIDECAR_IMAGE] of its process. *)
Record RenderedConfigReconciler : Type := {
  r_Recorder : bool;                  (* whether a recorder is set *)
  r_Binary : option BinarySpec;
  r_SidecarImage : string
}.

Section controller.
  Context {W : Type} {KC : KubeClient W} {KL : KubeLib} {QS : Quantities} {YM : Yaml}.
  Context (r : RenderedConfigReconciler).

(** ** Events and status *)
Definition eventf (pd : PgDoorman) (reason : string) (message : gerr) : M W unit :=
  if r_Recorder r
  then record_event (pgdoorman_key pd) {| ev_Warning := true; ev_Reason := reason; ev_Message := message |}
  else mret ().

Definition rendered_condition (pd : PgDoorman) (ok : bool) (reason : string) (message : gerr) : Condition :=
  {| cond_Type := "Rendered"; cond_Status := ok; cond_Reason := reason; cond_Message := message;
     cond_ObservedGeneration := pd_Generation pd |}.

(** [prev] points into the list of conditions, where [SetStatusCondition] updates
    the condition in place. *)
Definition setRendered (pd : PgDoorman) (ok : bool) (reason : string) (message : gerr) : M W unit :=
  let prev := FindStatusCondition (pd_Conditions pd) "Rendered" in
  let '(conditions, changed) :=
    SetStatusCondition (pd_Conditions pd) (rendered_condition pd ok reason message) in
  let prev := prev ≫= λ _, FindStatusCondition conditions "Rendered" in
  let observed := if ok then pd_Generation pd else pd_ObservedGeneration pd in
  if negb changed && (observed =? pd_Generation pd) then mret ()
  else
    _ ← (match prev with
         | Some c =>
             if ok && negb (cond_Status c) && r_Recorder r
             then record_event (pgdoorman_key pd)
                    {| ev_Warning := false; ev_Reason := "Rendered"; ev_Message := message |}
             else mret ()
         | None => mret ()
         end);
    update_status (with_status observed conditions pd).

(** ** Finalizer *)
Definition reconcileDeletion (pd : PgDoorman) (inUse : bool) : M W result :=
  if negb (ContainsFinalizer (pd_Finalizers pd) Finalizer) then mret Done
  else if inUse then
    _ ← eventf pd "DeletionBlocked"
          (Errorf "PgDoorman is still referenced by cluster %q" [ClusterRef (pd_Spec pd)]);
    mret RequeueAfter
  else
    _ ← patch_pgdoorman (with_finalizers (RemoveFinalizer (pd_Finalizers pd) Finalizer) pd);
    mret Done.

(** Returns the object as the server answers it ([Patch] updates its argument). *)
Definition ensureFinalizer (pd : PgDoorman) (inUse : bool) : M W PgDoorman :=
  let has := ContainsFinalizer (pd_Finalizers pd) Finalizer in
  if Bool.eqb inUse has then mret pd
  else patch_pgdoorman (with_finalizers
         ((if inUse then AddFinalizer else RemoveFinalizer) (pd_Finalizers pd) Finalizer) pd).

(** ** Secrets *)
Definition check_owner (ns clusterName name : string) : M W unit :=
  s ← try_ (get_secret (ns, name));
  match s with
  | Err e =>
      if is_not_found e
      then throw (Errorf "referenced secret %q not found or not labeled %s=%s" [name; ClusterLabel; clusterName])
      else throw (Wrapf "referenced secret %q: %w" [name] e)
  | Ok secret =>
      if decide (map_get (sec_Labels secret) ClusterLabel ≠ clusterName)
      then throw (Errorf "referenced secret %q is not labeled %s=%s" [name; ClusterLabel; clusterName])
      else mret ()
  end.

Definition validateSecretOwnership (ρ : ranger) (pd : PgDoorman) (spec : PgDoormanSpec)
    (clusterName : string) : M W unit :=
  for_each (check_owner (pd_Namespace pd) clusterName) (CollectSecretNames ρ spec).

Definition randomPassword : M W string := buf ← rand_Read 16; mret (EncodeToString buf).

Definition generated_auth_secret (cluster : Cluster) (user password : string) : Secret :=
  {| sec_Namespace := cl_Namespace cluster; sec_Name := GeneratedAuthSecretName (cl_Name cluster);
     sec_Labels := {[ ClusterLabel := cl_Name cluster ]}; sec_Type := SecretTypeBasicAuth;
     sec_Data := {[ "username" := user; "password" := password ]};
     sec_Owner := None; sec_ResourceVersion := "" |}.

Definition ensureGeneratedAuthSecret (cluster : Cluster) (user : string) : M W unit :=
  let name := GeneratedAuthSecretName (cl_Name cluster) in
  existing ← try_ (get_secret (cl_Namespace cluster, name));
  match existing with
  | Ok _ => mret ()
  | Err e =>
      if negb (is_not_found e) then throw e
      else
        password ← randomPassword;
        secret ← lift (SetControllerReference_secret cluster (generated_auth_secret cluster user password));
        created ← try_ (create_secret secret);
        match created with
        | Ok _ => mret ()
        | Err e =>
            if is_already_exists e
            then throw (Errorf "secret %q already exists but is not labeled %s=%s; label it or remove it"
                          [name; ClusterLabel; cl_Name cluster])
            else throw e
        end
  end.

Definition adminPasswordFallback (cluster : Cluster) : M W string :=
  existing ← try_ (get_secret (cl_Namespace cluster, RenderedSecretName (cl_Name cluster)));
  match existing with
  | Ok s =>
      match sec_Data s !! generatedAdminPasswordKey with
      | Some prev => if decide (prev = "") then randomPassword else mret prev
      | None => randomPassword
      end
  | Err e => if is_not_found e then randomPassword else throw e
  end.

Definition binarySpecJSON (inPlaceUpgrades : bool) : res (option string) :=
  match r_Binary r with
  | Some spec => if inPlaceUpgrades then (b ← json_Marshal spec; Ok (Some b)) else Ok None
  | None => Ok None
  end.

Definition rendered_data (data generatedAdmin : string) (binaryJSON : option string) : gmap string string :=
  match binaryJSON with
  | Some b => <[BinarySpecKey := b]> {[ ConfigKey := data; generatedAdminPasswordKey := generatedAdmin ]}
  | None => {[ ConfigKey := data; generatedAdminPasswordKey := generatedAdmin ]}
  end.

Definition rendered_secret (cluster : Cluster) (d : gmap string string) : Secret :=
  {| sec_Namespace := cl_Namespace cluster; sec_Name := RenderedSecretName (cl_Name cluster);
     sec_Labels := {[ ClusterLabel := cl_Name cluster ]}; sec_Type := ""; sec_Data := d;
     sec_Owner := None; sec_ResourceVersion := "" |}.

Definition with_data (d labels : gmap string string) (s : Secret) : Secret :=
  {| sec_Namespace := sec_Namespace s; sec_Name := sec_Name s; sec_Labels := labels;
     sec_Type := sec_Type s; sec_Data := d; sec_Owner := sec_Owner s;
     sec_ResourceVersion := sec_ResourceVersion s |}.

Definition upsertSecret (cluster : Cluster) (data generatedAdmin : string) (inPlaceUpgrades : bool) : M W unit :=
  binaryJSON ← lift (binarySpecJSON inPlaceUpgrades);
  let d := rendered_data data generatedAdmin binaryJSON in
  let desired := rendered_secret cluster d in
  existing ← try_ (get_secret (secret_key desired));
  match existing with
  | Err e =>
      if negb (is_not_found e) then throw e
      else
        desired ← lift (SetControllerReference_secret cluster desired);
        create_secret desired
  | Ok existing =>
      if decide (map_get (sec_Data existing) ConfigKey = data ∧
                 map_get (sec_Data existing) generatedAdminPasswordKey = generatedAdmin ∧
                 map_get (sec_Data existing) BinarySpecKey = default "" binaryJSON)
      then mret ()
      else patch_secret existing (with_data d (<[ClusterLabel := cl_Name cluster]> (sec_Labels existing)) existing)
  end.

(** ** Rendering; the rangers are those of the map loops on the way. *)
Definition tls_files : TLSFiles :=
  {| tls_Certificate := TLSCertPath; tls_PrivateKey := ConvertedTLSKeyPath |}.

Definition render (ρ : nat → ranger) (spec : PgDoormanSpec) (ns : string) (cluster : Cluster)
    (cfg : PluginConfiguration) : M W (string * string) :=
  passwords ← ResolvePasswords (ρ 3%nat) ns spec;
  generatedAdmin ← adminPasswordFallback cluster;
  let passwords := EnsureAdminPassword passwords generatedAdmin in
  data ← lift (Generate (ρ 4%nat) (ρ 5%nat) spec (PoolerPort cfg) (MetricsPort cfg) passwords (Some tls_files));
  _ ← lift (ValidateConfigBytes (ρ 6%nat) data);
  mret (data, generatedAdmin).

(** ** Reconcile *)

(** [report failure]: an event, the False condition, then [res]. *)
Definition report_failure (pd : PgDoorman) (reason : string) (eventMessage e : gerr) (res : result) : M W result :=
  _ ← eventf pd reason eventMessage;
  _ ← setRendered pd false reason e;
  mret res.

(** From the secrets on: ownership, rendering, publication. *)
Definition reconcile_render (ρ : nat → ranger) (pd : PgDoorman) (cluster : Cluster)
    (cfg : PluginConfiguration) (spec : PgDoormanSpec) : M W result :=
  owned ← try_ (validateSecretOwnership (ρ 2%nat) pd spec (cl_Name cluster));
  match owned with
  | Err e => report_failure pd "SecretNotAllowed" e e RequeueAfter
  | Ok _ =>
      rendered ← try_ (render ρ spec (pd_Namespace pd) cluster cfg);
      match rendered with
      | Err e => report_failure pd "RenderFailed" e e RequeueAfter
      | Ok (data, generatedAdmin) =>
          _ ← upsertSecret cluster data generatedAdmin (InPlaceUpgrades cfg);
          _ ← setRendered pd true "Rendered"
                (Errorf "generation %d rendered into secret %s"
                   [Itoa (pd_Generation pd); RenderedSecretName (cl_Name cluster)]);
          mret Done
      end
  end.

(** For a PgDoorman whose Cluster exists. *)
Definition reconcile_cluster (ρ : nat → ranger) (pd : PgDoorman) (cluster : Cluster) : M W result :=
  let cfg := NewFromCluster (r_SidecarImage r) cluster in
  if negb (Enabled cfg) || negb (bool_decide (ConfigName cfg = pd_Name pd)) then mret Done
  else
    match Validate (ρ 0%nat) cfg with
    | Err e => report_failure pd "InvalidPluginConfig" (Wrapf "plugin parameters invalid: %v" [] e) e Done
    | Ok _ =>
        match DefaultAuthSecretRefs (ρ 1%nat) (pd_Spec pd) with
        | Err e => report_failure pd "InvalidSpec" e e Done
        | Ok (spec, generatedUser) =>
            ensured ← (if decide (generatedUser = "") then mret (Ok ())
                       else try_ (ensureGeneratedAuthSecret cluster generatedUser));
            match ensured with
            | Err e => report_failure pd "AuthSecretFailed" e e RequeueAfter
            | Ok _ => reconcile_render ρ pd cluster cfg spec
            end
        end
    end.

Definition in_use (pd : PgDoorman) (cluster : option Cluster) : bool :=
  match cluster with
  | Some c => bool_decide (ConfigName (NewFromCluster (r_SidecarImage r) c) = pd_Name pd)
  | None => false
  end.

Definition Reconcile (ρ : nat → ranger) (req : key) : M W result :=
  got ← try_ (get_pgdoorman req);
  match got with
  | Err e => _ ← lift (IgnoreNotFound e); mret Done
  | Ok pd =>
      found ← try_ (get_cluster (pd_Namespace pd, ClusterRef (pd_Spec pd)));
      cluster ← (match found with
                 | Ok c => mret (Some c)
                 | Err e => if is_not_found e then mret None else throw e
                 end);
      let inUse := in_use pd cluster in
      if pd_Deleting pd then reconcileDeletion pd inUse
      else
        pd ← ensureFinalizer pd inUse;
        match cluster with
        | None => mret RequeueAfter
        | Some cluster => reconcile_cluster ρ pd cluster
        end
  end.

(** ** Watches (SetupWithManager) *)
Definition mapCluster (cluster : Cluster) : list key :=
  let cfg := NewFromCluster (r_SidecarImage r) cluster in
  if negb (Enabled cfg) || bool_decide (ConfigName cfg = "") then []
  else [(cl_Namespace cluster, ConfigName cfg)].

Definition requests_secret (ρ1 ρ2 : ranger) (secretName : string) (pd : PgDoorman) : bool :=
  let spec := match DefaultAuthSecretRefs ρ1 (pd_Spec pd) with
              | Ok (normalized, _) => normalized
              | Err _ => pd_Spec pd
              end in
  bool_decide (secretName ∈ CollectSecretNames ρ2 spec).

Definition mapSecret (ρ1 ρ2 : ranger) (secret : Secret) : M W (list key) :=
  listed ← try_ (list_pgdoormen (sec_Namespace secret));
  match listed with
  | Err _ => mret []
  | Ok items => mret (pgdoorman_key <$> filter (λ pd, requests_secret ρ1 ρ2 (sec_Name secret) pd = true) items)
  end.
End controller.
