(* ===== verification/ControllerProofs.v ===== *)
(** * Correctness of the rendering controller

    What one reconciliation does to the stored objects, as a chain of steps
    (finalizer, generated Secret, publication, status), and the guarantees that
    follow: confinement, the ownership gate, the finalizer protocol, honest
    status, a stable admin password and convergence. *)
From S2P Require Import Prelude GoStd Api K8s PluginConfig DoormanConfig ConfigGen Specs Paths Kube MemClient.
From S2P Require Import Credentials Controller.
From stdpp Require Import options.
Open Scope Z_scope.

(** The objects of a Cluster the controller may write. *)
Definition rendered_key (c : Cluster) : key := (cl_Namespace c, RenderedSecretName (cl_Name c)).
Definition auth_key (c : Cluster) : key := (cl_Namespace c, GeneratedAuthSecretName (cl_Name c)).

Lemma rendered_not_auth c : rendered_key c ≠ auth_key c.
Proof.
  unfold rendered_key, auth_key, RenderedSecretName, GeneratedAuthSecretName.
  by intros [= ?%(inj (String.app _))].
Qed.

(** ** The steps of a reconciliation *)
Definition finalizer_step (pd : PgDoorman) (st st' : kstate) : Prop :=
  st' = st ∨ ∃ fs answer, (∀ f, f ≠ Finalizer → f ∈ fs ↔ f ∈ pd_Finalizers pd) ∧ patched_pgdoorman (with_finalizers fs pd) answer st st'.
Definition auth_step (pd : PgDoorman) (c : Cluster) (st st' : kstate) : Prop :=
  st' = st ∨ ∃ ρ spec user password,
    DefaultAuthSecretRefs ρ (pd_Spec pd) = Ok (spec, user) ∧ (user ≠ "" ∧ password ≠ "") ∧
    visible_at (auth_key c) st = None ∧
    created_secret (with_owner (Some (cl_Name c)) (generated_auth_secret c user password)) () st st'.
Definition status_step (pd : PgDoorman) (st st' : kstate) : Prop :=
  st' = st ∨ ∃ observed conditions, updated_status (with_status observed conditions pd) () st st'.

Section effects.
  #[local] Set Default Proof Using "Type*".
  Context {W : Type} {KC : KubeClient W} {KL : KubeLib} {QS : Quantities} {YM : Yaml}.
  Context {KS : KubeSpec W} {KLS : KubeLibSpec}.
  Context (r : RenderedConfigReconciler).

(** Any call keeps a reflexive relation it keeps when it is applied. *)
Lemma write_law_step {A} (op : M W A) applied (R : kstate → kstate → Prop) w x w' :
  write_law view op applied → op w = (x, w') →
  (∀ a st st', applied a st st' → R st st') → R (view w) (view w) → R (view w) (view w').
Proof.
  intros Hl Hop HR Hr. specialize (Hl _ _ _ Hop). destruct x as [a|e]; [eauto|].
  destruct Hl as [->|[a ?]]; eauto.
Qed.

Lemma eventf_view pd reason msg w x w' :
  eventf r pd reason msg w = (x, w') → x = Ok () ∧ view w' = view w.
Proof.
  unfold eventf. destruct (r_Recorder r); [apply record_event_law|]. by intros [= <- <-].
Qed.

(** It only ever updates the status: by the time it is looked at, the previous
    condition is the new one, so no recovery event is recorded. *)
Lemma setRendered_silent pd ok reason msg w :
  let cs := SetStatusCondition (pd_Conditions pd) (rendered_condition pd ok reason msg) in
  let observed := if ok then pd_Generation pd else pd_ObservedGeneration pd in
  setRendered r pd ok reason msg w =
    if negb cs.2 && (observed =? pd_Generation pd) then (Ok (), w) else update_status (with_status observed cs.1 pd) w.
Proof.
  unfold setRendered. pose proof (find_set_condition (pd_Conditions pd) (rendered_condition pd ok reason msg)) as Hf.
  change (cond_Type (rendered_condition pd ok reason msg)) with "Rendered" in Hf.
  destruct (SetStatusCondition _ _) as [cs changed]. simpl in *. destruct (negb changed && _); [done|].
  destruct (FindStatusCondition (pd_Conditions pd) "Rendered"); simpl; rewrite ?Hf; by destruct ok.
Qed.
Lemma setRendered_step pd ok reason msg w x w' :
  setRendered r pd ok reason msg w = (x, w') → status_step pd (view w) (view w').
Proof.
  rewrite setRendered_silent. destruct (negb _ && _); [intros [= <- <-]; by left|]. intros Hr.
  eapply write_law_step; [apply update_status_law|exact Hr| |by left]. intros [] ???. right. eauto.
Qed.

(** A successful [setRendered] leaves the condition on the stored object. *)
Lemma setRendered_ok pd ok reason msg w u w' :
  setRendered r pd ok reason msg w = (Ok u, w') →
  pgdoormen (view w) !! pgdoorman_key pd = Some pd →
  ∃ pd', pgdoormen (view w') !! pgdoorman_key pd = Some pd' ∧
    FindStatusCondition (pd_Conditions pd') "Rendered" = Some (rendered_condition pd ok reason msg).
Proof.
  rewrite setRendered_silent. intros Hr Hpd.
  pose proof (find_set_condition (pd_Conditions pd) (rendered_condition pd ok reason msg)) as Hf.
  destruct (negb _ && _) eqn:Hc.
  - injection Hr as _ <-. exists pd. split; [done|]. apply andb_true_iff in Hc as [Hc%negb_true_iff _].
    by rewrite <- (set_condition_false _ _ Hc).
  - apply update_status_law in Hr as (old & _ & ->). simpl. rewrite lookup_insert_eq. eauto.
Qed.

Lemma report_failure_step pd reason ev e res w x w' :
  report_failure r pd reason ev e res w = (x, w') → status_step pd (view w) (view w').
Proof.
  intros Hr. unfold report_failure in Hr.
  apply bind_inv in Hr as [(u & w1 & Hev & Hr)|(e' & Hev & ->)]; apply eventf_view in Hev as [? Hv]; [|done].
  rewrite <- Hv. apply bind_inv in Hr as [(u' & w2 & Hs & Hr)|(e' & Hs & ->)];
    apply setRendered_step in Hs; [|done]. by inv_run Hr.
Qed.

Lemma report_failure_ok pd reason ev e res w x w' :
  report_failure r pd reason ev e res w = (Ok x, w') →
  pgdoormen (view w) !! pgdoorman_key pd = Some pd →
  ∃ pd', pgdoormen (view w') !! pgdoorman_key pd = Some pd' ∧
    FindStatusCondition (pd_Conditions pd') "Rendered" = Some (rendered_condition pd false reason e).
Proof.
  intros Hr Hpd. unfold report_failure in Hr.
  apply bind_inv in Hr as [(u & w1 & Hev & Hr)|(e' & Hev & ?)]; [|done].
  apply eventf_view in Hev as [? Hv].
  apply bind_inv in Hr as [(u' & w2 & Hs & Hr)|(e' & Hs & ?)]; [|done].
  apply setRendered_ok in Hs; [|by rewrite Hv]. by inv_run Hr.
Qed.

Lemma ensureFinalizer_step pd inUse w x w' :
  ensureFinalizer pd inUse w = (x, w') → finalizer_step pd (view w) (view w').
Proof.
  unfold ensureFinalizer. case_goal; intros Hr; [inv_run Hr; by left|].
  eapply write_law_step; [apply patch_pgdoorman_law|done| |by left]. right. eexists _, _. split; [|done].
  intros f Hf. destruct inUse; rewrite ?add_finalizer, ?remove_finalizer; naive_solver.
Qed.

Lemma ensureFinalizer_ok pd inUse w pd' w' :
  ensureFinalizer pd inUse w = (Ok pd', w') →
  pgdoormen (view w) !! pgdoorman_key pd = Some pd → pd_Deleting pd = false →
  (∃ fs, pd' = with_finalizers fs pd) ∧ pgdoormen (view w') !! pgdoorman_key pd = Some pd' ∧
  (Finalizer ∈ pd_Finalizers pd' ↔ inUse = true).
Proof.
  unfold ensureFinalizer. rewrite contains_finalizer. intros Hr Hpd Hd. destruct (Bool.eqb inUse _) eqn:Hi.
  - inv_run Hr. apply Bool.eqb_prop in Hi as ->. rewrite bool_decide_eq_true.
    split_and!; [|done..]. exists (pd_Finalizers pd'). by destruct pd'.
  - apply patch_pgdoorman_law in Hr as (old & Hold & -> & Hv).
    change (pgdoorman_key (with_finalizers _ pd)) with (pgdoorman_key pd) in *.
    rewrite Hpd in Hold. injection Hold as <-. rewrite Hv, Hd. simpl. rewrite lookup_insert_eq.
    split_and!; [eauto|done|]. destruct inUse; simpl; rewrite ?add_finalizer, ?remove_finalizer; naive_solver.
Qed.

Lemma check_owner_view ns cl name w x w' :
  check_owner ns cl name w = (x, w') →
  view w' = view w ∧
  (x = Ok () → ∃ s, visible_at (ns, name) (view w) = Some s ∧ map_get (sec_Labels s) ClusterLabel = cl).
Proof.
  intros Hr. unfold check_owner in Hr. inv_run Hr.
  apply get_secret_law in Hcall as [Hv Hs].
  destruct r0 as [s|e]; [case_decide as Hl|destruct (is_not_found e)]; inv_run Hr; split; try done.
  intros _. exists s. done.
Qed.

Lemma validateSecretOwnership_view ρ pd spec cl w x w' :
  validateSecretOwnership ρ pd spec cl w = (x, w') →
  view w' = view w ∧
  (x = Ok () → ∀ name, references spec name →
     ∃ s, visible_at (pd_Namespace pd, name) (view w) = Some s ∧ map_get (sec_Labels s) ClusterLabel = cl).
Proof.
  intros Hr. unfold validateSecretOwnership in Hr.
  setoid_rewrite <- (proj2 (CollectSecretNames_spec ρ spec)). revert w Hr.
  induction (CollectSecretNames ρ spec) as [|n l IH]; intros w Hr; cbn [for_each] in Hr.
  - inv_run Hr. split; [done|]. by intros _ name ?%not_elem_of_nil.
  - apply bind_inv in Hr as [([] & w1 & Hc & Hr)|(e & Hc & ->)]; apply check_owner_view in Hc as [Hv Hs].
    + apply IH in Hr as [Hv' Hl]. rewrite Hv in *. split; [done|].
      intros Hx name [->|Hin]%elem_of_cons; auto.
    + done.
Qed.

Lemma randomPassword_view w x w' :
  randomPassword w = (x, w') → view w' = view w ∧ ∀ p, x = Ok p → p ≠ "".
Proof.
  intros Hr. unfold randomPassword in Hr.
  apply bind_inv in Hr as [(b & w1 & Hc & Hr)|(e & Hc & ->)]; apply rand_Read_law in Hc as [Hv Hb]; [|done].
  inv_run Hr. split; [done|]. intros p [= <-]. destruct (Hb _ eq_refl) as [Hl _].
  apply EncodeToString_nonempty. by intros ->.
Qed.

Lemma ensureGeneratedAuthSecret_step c user w x w' :
  ensureGeneratedAuthSecret c user w = (x, w') →
  view w' = view w ∨ visible_at (auth_key c) (view w) = None ∧ ∃ password, password ≠ "" ∧
    created_secret (with_owner (Some (cl_Name c)) (generated_auth_secret c user password)) () (view w) (view w').
Proof.
  intros Hr. unfold ensureGeneratedAuthSecret in Hr. inv_run Hr.
  apply get_secret_law in Hcall as [Hv Hs]. fold (auth_key c) in Hs. destruct r0 as [s|e].
  { inv_run Hr. by left. }
  destruct (is_not_found e) eqn:He; simpl in Hr; [|inv_run Hr; by left].
  specialize (Hs eq_refl).
  apply bind_inv in Hr as [(pw & w2 & Hc & Hr)|(e' & Hc & ->)]; apply randomPassword_view in Hc as [Hc Hne]; [specialize (Hne pw eq_refl)|by left; congruence].
  apply bind_inv in Hr as [(sec & w3 & Hc' & Hr)|(e' & Hc' & ->)]; unfold lift in Hc'; simplify_eq; [|by left; congruence].
  match goal with H : SetControllerReference_secret _ _ = _ |- _ => apply set_controller_secret in H as -> end.
  apply bind_inv in Hr as [(created & w4 & Hc' & Hr)|(e' & Hc' & ->)];
    apply try_inv in Hc' as (r' & [= <-] & Hc').
  assert (view w' = view w4) as ->.
  { destruct created as [|e']; [by inv_run Hr|]. destruct (is_already_exists e'); by inv_run Hr. }
  rewrite <- Hv, <- Hc in *. apply create_secret_law in Hc'.
  destruct created as [[]|?]; [by eauto|]. destruct Hc' as [?|[[] ?]]; eauto.
Qed.

Lemma ensureGeneratedAuthSecret_ok c user w w' :
  ensureGeneratedAuthSecret c user w = (Ok (), w') → is_Some (visible_at (auth_key c) (view w')).
Proof.
  intros Hr. unfold ensureGeneratedAuthSecret in Hr. inv_run Hr.
  apply get_secret_law in Hcall as [Hv Hs]. fold (auth_key c) in Hs. destruct r0 as [s|e].
  { inv_run Hr. rewrite Hv. eauto. }
  destruct (is_not_found e) eqn:He; simpl in Hr; [|by inv_run Hr].
  apply bind_inv in Hr as [(pw & w2 & Hc & Hr)|(e' & Hc & ?)]; [|done].
  apply bind_inv in Hr as [(sec & w3 & Hc' & Hr)|(e' & Hc' & ?)]; [|done].
  unfold lift in Hc'. injection Hc' as Hsec <-. apply set_controller_secret in Hsec as ->.
  apply bind_inv in Hr as [(created & w4 & Hc' & Hr)|(e' & Hc' & ?)]; [|done].
  apply try_inv in Hc' as (r' & [= <-] & Hc').
  destruct created as [[]|e']; [|destruct (is_already_exists e'); by inv_run Hr].
  inv_run Hr. apply create_secret_law in Hc' as (_ & v & ->). unfold visible_at, secret_key; simpl.
  unfold auth_key. rewrite lookup_insert_eq. simpl. unfold visible; simpl. rewrite lookup_singleton_eq. eauto.
Qed.

(** The admin password already in the rendered Secret. *)
Definition stored_admin (c : Cluster) (st : kstate) : option string :=
  match visible_at (rendered_key c) st with
  | Some s => match sec_Data s !! generatedAdminPasswordKey with
              | Some prev => if decide (prev = "") then None else Some prev | None => None end
  | None => None
  end.

Lemma adminPasswordFallback_view c w x w' :
  adminPasswordFallback c w = (x, w') →
  view w' = view w ∧
  ∀ a, x = Ok a → a ≠ "" ∧ ∀ prev, stored_admin c (view w) = Some prev → a = prev.
Proof.
  intros Hr. unfold adminPasswordFallback in Hr. inv_run Hr.
  apply get_secret_law in Hcall as [Hv Hs]. fold (rendered_key c) in Hs. unfold stored_admin.
  destruct r0 as [s|e].
  - rewrite Hs. destruct (sec_Data s !! generatedAdminPasswordKey) as [prev|]; [case_decide|].
    2: { inv_run Hr. split; [done|]. intros a [= <-]. split; [done|]. by intros ? [= <-]. }
    all: apply randomPassword_view in Hr as [Hv' Hne]; split; [congruence|]; intros; split; [by apply Hne|done].
  - destruct (is_not_found e); [|inv_run Hr; by split].
    rewrite (Hs eq_refl). apply randomPassword_view in Hr as [Hv' Hne].
    split; [congruence|]. intros; split; [by apply Hne|done].
Qed.

(** ** Publication *)

(** The rendered Secret holds this content. *)
Definition holds (c : Cluster) (st : kstate) (data admin : string) (b : option string) : Prop :=
  ∃ s, visible_at (rendered_key c) st = Some s ∧ map_get (sec_Data s) ConfigKey = data ∧
    map_get (sec_Data s) generatedAdminPasswordKey = admin ∧
    map_get (sec_Data s) BinarySpecKey = default "" b.

Lemma rendered_data_get data admin b :
  map_get (rendered_data data admin b) ConfigKey = data ∧
  map_get (rendered_data data admin b) generatedAdminPasswordKey = admin ∧
  map_get (rendered_data data admin b) BinarySpecKey = default "" b.
Proof. unfold rendered_data, map_get. by destruct b. Qed.

(** A write of the rendered Secret. *)
Definition write_step (c : Cluster) (data admin : string) (b : option string) (st st' : kstate) : Prop :=
  ∃ s, secret_key s = rendered_key c ∧ sec_Labels s !! ClusterLabel = Some (cl_Name c) ∧
    sec_Data s = rendered_data data admin b ∧
    (created_secret s () st st' ∨ replaced_secret s st st').

Lemma write_step_secrets c data admin b st st' :
  write_step c data admin b st st' →
  ∃ s, sec_Data s = rendered_data data admin b ∧ sec_Labels s !! ClusterLabel = Some (cl_Name c) ∧
    secret_key s = rendered_key c ∧ st' = set_secrets (<[rendered_key c := s]> (secrets st)) st.
Proof.
  intros (s & Hk & Hl & Hd & [(_ & v & ->)|(_ & v & ->)]); exists (with_version v s); by rewrite Hk.
Qed.

Lemma write_step_holds c data admin b st st' : write_step c data admin b st st' → holds c st' data admin b.
Proof.
  intros (s & Hd & Hl & Hk & ->)%write_step_secrets. exists s. split.
  - apply visible_at_Some. simpl. rewrite lookup_insert_eq. eauto.
  - rewrite Hd. apply rendered_data_get.
Qed.

Lemma upsertSecret_step c data admin inPlace w x w' :
  map_Forall (λ k s, secret_key s = k) (secrets (view w)) →
  upsertSecret r c data admin inPlace w = (x, w') →
  (view w' = view w ∨ ∃ b, binarySpecJSON r inPlace = Ok b ∧ ¬ holds c (view w) data admin b ∧
     write_step c data admin b (view w) (view w')) ∧
  (x = Ok () → ∃ b, binarySpecJSON r inPlace = Ok b ∧ holds c (view w') data admin b).
Proof.
  intros Hwk Hr. unfold upsertSecret in Hr.
  apply bind_inv in Hr as [(b & w0 & Hb & Hr)|(e & Hb & ->)]; unfold lift in Hb;
    injection Hb as Hb <-; [|split; [by left|done]].
  apply bind_inv in Hr as [(ex & w1 & Hg & Hr)|(e & Hg & ->)];
    apply try_inv in Hg as (r' & [= <-] & Hg).
  change (secret_key (rendered_secret c _)) with (rendered_key c) in Hg.
  apply get_secret_law in Hg as [Hv Hs]. destruct ex as [s|e].
  - case_decide as Hd.
    { inv_run Hr. split; [by left|]. intros _. exists b. split; [done|]. exists s. by rewrite Hv. }
    apply visible_at_Some in Hs as Hs'. destruct Hs' as [Hst _].
    set (s' := with_data _ _ s) in Hr.
    assert (∀ u st', patched_secret s s' u (view w) st' → write_step c data admin b (view w) st') as Hw.
    { intros u st' Hp. pose proof (Hwk _ _ Hst) as Hk; simpl in Hk. exists s'. split; [exact Hk|].
      split; [apply lookup_insert_eq|]. split; [done|]. right. eapply patched_secret_replaced, Hp; [done|]. by rewrite Hk. }
    rewrite <- Hv in Hw |- *. apply patch_secret_law in Hr. destruct x as [u|e].
    + apply Hw in Hr. split; [right|]; exists b; split_and!; try done.
      * intros (s2 & Hs2 & ?). rewrite Hv in Hs2. naive_solver.
      * by apply write_step_holds in Hr.
    + split; [|done]. destruct Hr as [?|[u Hr]]; [by left|right]. exists b. apply Hw in Hr.
      split_and!; try done. intros (s2 & Hs2 & ?). rewrite Hv in Hs2. naive_solver.
  - destruct (is_not_found e) eqn:He; simpl in Hr; [|inv_run Hr; split; [by left|done]].
    specialize (Hs eq_refl).
    apply bind_inv in Hr as [(d & w2 & Hd & Hr)|(e' & Hd & ->)]; unfold lift in Hd;
      injection Hd as Hd <-; [|split; [by left|done]].
    apply set_controller_secret in Hd as ->. rewrite <- Hv in Hs |- *.
    assert (¬ holds c (view w1) data admin b) as Hh by (intros (s & Hs' & _); congruence).
    set (s := with_owner _ _) in Hr.
    assert (∀ u st', created_secret s u (view w1) st' → write_step c data admin b (view w1) st') as Hw.
    { intros [] st' Hp. exists s. split_and!; [done|apply lookup_singleton_eq|done|by left]. }
    apply create_secret_law in Hr. destruct x as [u|e'].
    + apply Hw in Hr. split; [right|]; exists b; split_and!; try done. by apply write_step_holds in Hr.
    + split; [|done]. destruct Hr as [?|[u Hr]]; [by left|right]. exists b. eauto.
Qed.

(** ** Rendering *)

(** What the references of a spec stand for in the store. *)
Definition passwords_resolved (st : kstate) (ns : string) (spec : PgDoormanSpec) (pw : gmap string string) : Prop :=
  (∀ k v, pw !! k = Some v → ∃ ref, credential spec k ref ∧ stored_value st ns ref = Some v) ∧
  (∀ k ref, credential spec k ref → is_Some (pw !! k)).

Definition labelled_refs (st : kstate) (ns : string) (spec : PgDoormanSpec) (cl : string) : Prop :=
  ∀ name, references spec name →
    ∃ s, visible_at (ns, name) st = Some s ∧ map_get (sec_Labels s) ClusterLabel = cl.

(** [data] is the configuration of [pd] for [c] in the store [st], under the
    generated admin password [admin]: the normalised spec references only Secrets
    labelled with the cluster, [data] is the marshalled configuration of the
    spec with the passwords those references stand for, and the wrapper accepts
    it. *)
Definition rendering (pd : PgDoorman) (c : Cluster) (st : kstate) (data admin : string) : Prop :=
  let cfg := NewFromCluster (r_SidecarImage r) c in
  ∃ ρ spec user pw accepted,
    DefaultAuthSecretRefs ρ (pd_Spec pd) = Ok (spec, user) ∧
    (user ≠ "" → is_Some (visible_at (auth_key c) st)) ∧
    labelled_refs st (pd_Namespace pd) spec (cl_Name c) ∧
    passwords_resolved st (pd_Namespace pd) spec pw ∧
    Marshal (generated spec (PoolerPort cfg) (MetricsPort cfg) (EnsureAdminPassword pw admin) (Some tls_files)) = Ok data ∧
    Unmarshal data = Ok accepted ∧ valid_doorman accepted.

(** The cluster runs this PgDoorman with valid plugin parameters. *)
Definition runs (pd : PgDoorman) (c : Cluster) : Prop :=
  let cfg := NewFromCluster (r_SidecarImage r) c in
  Enabled cfg = true ∧ ConfigName cfg = pd_Name pd.

Definition publish_step (pd : PgDoorman) (c : Cluster) (st st' : kstate) : Prop :=
  st' = st ∨ ∃ data admin b,
    (∃ ρ, Validate ρ (NewFromCluster (r_SidecarImage r) c) = Ok ()) ∧
    rendering pd c st data admin ∧ admin ≠ "" ∧
    (∀ prev, stored_admin c st = Some prev → admin = prev) ∧
    binarySpecJSON r (InPlaceUpgrades (NewFromCluster (r_SidecarImage r) c)) = Ok b ∧
    ¬ holds c st data admin b ∧ write_step c data admin b st st'.

Lemma render_view ρ spec ns c cfg w x w' :
  render ρ spec ns c cfg w = (x, w') →
  view w' = view w ∧
  ∀ data admin, x = Ok (data, admin) → ∃ pw accepted,
    passwords_resolved (view w) ns spec pw ∧
    Marshal (generated spec (PoolerPort cfg) (MetricsPort cfg) (EnsureAdminPassword pw admin) (Some tls_files)) = Ok data ∧
    Unmarshal data = Ok accepted ∧ valid_doorman accepted ∧
    admin ≠ "" ∧ (∀ prev, stored_admin c (view w) = Some prev → admin = prev).
Proof.
  intros Hr. unfold render in Hr.
  apply bind_inv in Hr as [(pw & w1 & Hc & Hr)|(e & Hc & ->)];
    apply (ResolvePasswords_triple (view w) (ρ 3%nat) ns spec w) in Hc as [Hv Hpw]; try done.
  destruct (Hpw pw eq_refl) as (l & [H1 H2] & Hl). clear Hpw. unfold at_st in Hv.
  apply bind_inv in Hr as [(a & w2 & Hc & Hr)|(e & Hc & ->)];
    apply adminPasswordFallback_view in Hc as [Hv2 Ha]; [|split; [congruence|done]].
  destruct (Ha a eq_refl) as [Hne Hprev].
  apply bind_inv in Hr as [(d & w3 & Hc & Hr)|(e & Hc & ->)]; unfold lift in Hc;
    injection Hc as Hg <-; [|split; [congruence|done]].
  apply bind_inv in Hr as [(acc & w4 & Hc & Hr)|(e & Hc & ->)]; unfold lift in Hc;
    injection Hc as Hval <-; [|split; [congruence|done]].
  inv_run Hr. split; [congruence|]. intros data admin [= <- <-]. exists pw, acc.
  unfold Generate in Hg. rewrite build_config_generated in Hg.
  apply ValidateConfigBytes_ok in Hval as [??]. rewrite <- Hv. split_and!; try done.
  split; [|naive_solver]. intros k v (ref & Hin%Hl & ?)%H1. rewrite Hv. eauto.
Qed.

(** ** The chain of a reconciliation *)

(** The publication and status steps of a run with result [x]; when it succeeds
    the Rendered condition is that of the current generation, and is true only if
    the rendered Secret holds a rendering. *)
Definition publishes (pd : PgDoorman) (c : Cluster) (st : kstate) (x : res result) (st' : kstate) : Prop :=
  (∃ st1, publish_step pd c st st1 ∧ status_step pd st1 st') ∧
  (∀ y, x = Ok y → pgdoormen st !! pgdoorman_key pd = Some pd →
   ∃ pd' cond, pgdoormen st' !! pgdoorman_key pd = Some pd' ∧
     FindStatusCondition (pd_Conditions pd') "Rendered" = Some cond ∧
     cond_ObservedGeneration cond = pd_Generation pd ∧
     (cond_Status cond = true → ∃ data admin b, rendering pd c st data admin ∧ admin ≠ "" ∧
        binarySpecJSON r (InPlaceUpgrades (NewFromCluster (r_SidecarImage r) c)) = Ok b ∧
        holds c st' data admin b)).

Lemma publishes_failure pd c reason ev e res w x w' :
  report_failure r pd reason ev e res w = (x, w') → publishes pd c (view w) x (view w').
Proof.
  intros Hf. split.
  - exists (view w). split; [by left|]. by apply report_failure_step in Hf.
  - intros y -> Hpd. apply report_failure_ok in Hf as (pd' & ? & Hf); [|done].
    eexists pd', _. split; [done|]. split; [apply Hf|]. by split.
Qed.

Lemma publishes_error pd c e st st1 st' :
  publish_step pd c st st1 → status_step pd st1 st' → publishes pd c st (Err e) st'.
Proof. split; [eauto|done]. Qed.

Lemma publishes_success pd c data admin msg w x w' :
  let cfg := NewFromCluster (r_SidecarImage r) c in
  map_Forall (λ k s, secret_key s = k) (secrets (view w)) →
  (∃ ρ, Validate ρ cfg = Ok ()) → rendering pd c (view w) data admin → admin ≠ "" →
  (∀ prev, stored_admin c (view w) = Some prev → admin = prev) →
  (_ ← upsertSecret r c data admin (InPlaceUpgrades cfg);
   _ ← setRendered r pd true "Rendered" msg; mret Done) w = (x, w') →
  publishes pd c (view w) x (view w').
Proof.
  intros cfg Hwk Hval Hren Hne Hprev Hr.
  apply bind_inv in Hr as [([] & w1 & Hc & Hr)|(e & Hc & ->)];
    apply upsertSecret_step in Hc as [Hup Hok]; try done.
  all: assert (publish_step pd c (view w) (view _)) as Hpub by
    (destruct Hup as [->|(b & ? & ? & ?)]; [by left|right; exists data, admin, b; done]).
  2: by apply (publishes_error _ _ _ _ _ _ Hpub); left.
  destruct (Hok eq_refl) as (b & Hb & Hh).
  apply bind_inv in Hr as [(u & w4 & Hc & Hr)|(e & Hc & ->)].
  2: { apply (publishes_error _ _ _ _ _ _ Hpub). by apply setRendered_step in Hc. }
  inv_run Hr. pose proof (setRendered_step _ _ _ _ _ _ _ Hc) as Hstep. split; [eauto|].
  intros _ _ Hpd.
  assert (pgdoormen (view w1) = pgdoormen (view w)) as Hpds.
  { destruct Hup as [->|(?&_&_&(?&_&_&_&->)%write_step_secrets)]; done. }
  apply setRendered_ok in Hc as (pd' & Hpd' & Hf); [|by rewrite Hpds].
  eexists pd', _. split; [done|]. split; [apply Hf|]. split; [done|]. intros _.
  exists data, admin, b. split_and!; try done. destruct Hh as (s & Hs & ?). exists s.
  split; [|done]. by destruct Hstep as [->|(?&?&?&_&->)].
Qed.

Lemma reconcile_render_chain ρ ρ1 pd c spec user w x w' :
  let cfg := NewFromCluster (r_SidecarImage r) c in
  map_Forall (λ k s, secret_key s = k) (secrets (view w)) →
  (∃ ρ, Validate ρ cfg = Ok ()) →
  DefaultAuthSecretRefs ρ1 (pd_Spec pd) = Ok (spec, user) →
  (user ≠ "" → is_Some (visible_at (auth_key c) (view w))) →
  reconcile_render r ρ pd c cfg spec w = (x, w') →
  publishes pd c (view w) x (view w').
Proof.
  intros cfg Hwk Hval Hd Hu Hr. unfold reconcile_render in Hr.
  apply bind_inv in Hr as [(owned & w1 & Hc & Hr)|(e & Hc & ->)]; apply try_inv in Hc as (? & [= <-] & Hc).
  apply validateSecretOwnership_view in Hc as [Hv1 Hown]. rewrite <- Hv1 in *.
  destruct owned as [[]|e]; [|by eapply publishes_failure]. specialize (Hown eq_refl).
  apply bind_inv in Hr as [(rd & w2 & Hc & Hr)|(e & Hc & ->)]; apply try_inv in Hc as (? & [= <-] & Hc).
  apply render_view in Hc as [Hv2 Hrd]. rewrite <- Hv2 in *.
  destruct rd as [[data admin]|e]; [|by eapply publishes_failure].
  destruct (Hrd _ _ eq_refl) as (pw & acc & Hpw & Hm & Hum & Hvd & Hne & Hprev).
  eapply publishes_success; try done. exists ρ1, spec, user, pw, acc. done.
Qed.

Lemma auth_step_keyed pd c st st' :
  auth_step pd c st st' → map_Forall (λ k s, secret_key s = k) (secrets st) →
  map_Forall (λ k s, secret_key s = k) (secrets st').
Proof. intros [->|(?&?&?&?&_&_&_&_&v&->)]; [done|]. intros Hwk. by apply map_Forall_insert_2. Qed.

Lemma reconcile_cluster_chain ρ pd c w x w' :
  map_Forall (λ k s, secret_key s = k) (secrets (view w)) →
  reconcile_cluster r ρ pd c w = (x, w') →
  if decide (runs pd c)
  then ∃ st1, auth_step pd c (view w) st1 ∧ publishes pd c st1 x (view w')
  else x = Ok Done ∧ view w' = view w.
Proof.
  intros Hwk Hr. unfold reconcile_cluster in Hr. unfold runs.
  set (cfg := NewFromCluster _ _) in *.
  destruct (Enabled cfg) eqn:Hen; simpl in Hr; [|rewrite decide_False by naive_solver; by inv_run Hr].
  case_bool_decide as Hn; simpl in Hr; [|rewrite decide_False by naive_solver; by inv_run Hr].
  rewrite decide_True by done.
  destruct (Validate _ _) as [[]|e] eqn:Hval.
  2: { exists (view w). split; [by left|]. by eapply publishes_failure. }
  destruct (DefaultAuthSecretRefs _ _) as [[spec user]|e] eqn:Hd.
  2: { exists (view w). split; [by left|]. by eapply publishes_failure. }
  assert (∀ ens w1, (if decide (user = "") then mret (Ok ()) else try_ (ensureGeneratedAuthSecret c user)) w = (Ok ens, w1) →
    auth_step pd c (view w) (view w1) ∧ (ens = Ok () → user ≠ "" → is_Some (visible_at (auth_key c) (view w1)))) as Hens.
  { intros ens w1 He. case_decide; [inv_run He; split; [by left|done]|].
    apply try_inv in He as (? & [= <-] & He). split.
    - pose proof (ensureGeneratedAuthSecret_step _ _ _ _ _ He) as [->|(? & pw & ? & ?)]; [by left|].
      right. exists (ρ 1%nat), spec, user, pw. done.
    - intros -> _. by apply ensureGeneratedAuthSecret_ok in He. }
  apply bind_inv in Hr as [(ens & w1 & Hc & Hr)|(e & Hc & ->)].
  2: { case_decide; [by inv_run Hc|]. by apply try_inv in Hc as (? & ? & _). }
  apply Hens in Hc as [Hstep Hvis]. exists (view w1). split; [done|].
  destruct ens as [[]|e]; [|by eapply publishes_failure].
  eapply reconcile_render_chain; eauto using auth_step_keyed.
Qed.

(** ** One reconciliation *)
Definition cluster_of (pd : PgDoorman) : key := (pd_Namespace pd, ClusterRef (pd_Spec pd)).

(** The outcomes of reconciling the stored [pd] in the store [st]. *)
Inductive reconciled (pd : PgDoorman) (st : kstate) : res result → kstate → Prop :=
  | R_error e : reconciled pd st (Err e) st
  | R_released x : pd_Deleting pd = true → Finalizer ∉ pd_Finalizers pd → reconciled pd st (Ok x) st
  | R_blocked x : pd_Deleting pd = true → in_use r pd (clusters st !! cluster_of pd) = true →
      reconciled pd st (Ok x) st
  | R_release x answer st' : pd_Deleting pd = true → in_use r pd (clusters st !! cluster_of pd) = false →
      patched_pgdoorman (with_finalizers (RemoveFinalizer (pd_Finalizers pd) Finalizer) pd) answer st st' →
      reconciled pd st x st'
  | R_finalizer_failed e st' : pd_Deleting pd = false → finalizer_step pd st st' → reconciled pd st (Err e) st'
  | R_kept fs st0 x st' :
      pd_Deleting pd = false → finalizer_step pd st st0 →
      pgdoormen st0 !! pgdoorman_key pd = Some (with_finalizers fs pd) →
      (Finalizer ∈ fs ↔ in_use r pd (clusters st !! cluster_of pd) = true) →
      match clusters st !! cluster_of pd with
      | None => st' = st0
      | Some c =>
          if decide (runs (with_finalizers fs pd) c)
          then ∃ st1, auth_step (with_finalizers fs pd) c st0 st1 ∧ publishes (with_finalizers fs pd) c st1 x st'
          else st' = st0
      end → reconciled pd st x st'.

Lemma reconcileDeletion_reconciled pd w x w' :
  pd_Deleting pd = true →
  reconcileDeletion r pd (in_use r pd (clusters (view w) !! cluster_of pd)) w = (x, w') →
  reconciled pd (view w) x (view w').
Proof.
  intros Hd. unfold reconcileDeletion. rewrite contains_finalizer. case_bool_decide as Hf; simpl; intros Hr.
  2: { inv_run Hr. by constructor. }
  destruct (in_use _ _ _) eqn:Hu.
  - apply bind_inv in Hr as [(u & w1 & Hc & Hr)|(e & Hc & ->)]; apply eventf_view in Hc as [? Hv]; [|done].
    inv_run Hr. rewrite Hv. by constructor.
  - apply bind_inv in Hr as [(a & w1 & Hc & Hr)|(e & Hc & ->)]; apply patch_pgdoorman_law in Hc.
    + inv_run Hr. by eapply R_release.
    + destruct Hc as [->|[a Hc]]; [constructor|by eapply R_release].
Qed.

Lemma Reconcile_reconciled ρ req w x w' :
  well_keyed (view w) → Reconcile r ρ req w = (x, w') →
  match pgdoormen (view w) !! req with
  | None => view w' = view w
  | Some pd => pgdoorman_key pd = req ∧ reconciled pd (view w) x (view w')
  end.
Proof.
  intros (Hwp & Hwc & Hws & _) Hr. unfold Reconcile in Hr.
  apply bind_inv in Hr as [(got & w1 & Hc & Hr)|(e & Hc & ->)]; apply try_inv in Hc as (? & [= <-] & Hc).
  apply get_pgdoorman_law in Hc as [Hv1 Hgot]. destruct got as [pd|e].
  2: { assert (view w' = view w ∧ (is_not_found e = false → is_ok x = false)) as [Hv Hx].
       { unfold IgnoreNotFound in Hr. apply bind_inv in Hr as [(u & w2 & Hc & Hr)|(e' & Hc & ->)];
           unfold lift in Hc; destruct (is_not_found e); injection Hc as ? ?; subst; try done.
         inv_run Hr. by split. }
       destruct (pgdoormen (view w) !! req) as [pd|] eqn:Hpd; [|done]. split; [by apply (Hwp _ _ Hpd)|].
       rewrite Hv. destruct (is_not_found e); [by discriminate (Hgot eq_refl)|].
       destruct x; [by discriminate (Hx eq_refl)|constructor]. }
  rewrite Hgot. pose proof (Hwp _ _ Hgot) as Hkey. simpl in Hkey. split; [done|]. rewrite <- Hkey in Hgot.
  apply bind_inv in Hr as [(found & w2 & Hc & Hr)|(e & Hc & ->)]; apply try_inv in Hc as (? & [= <-] & Hc).
  apply get_cluster_law in Hc as [Hv2 Hfound]. rewrite Hv1 in Hv2, Hfound. fold (cluster_of pd) in Hfound.
  apply bind_inv in Hr as [(oc & w3 & Hc & Hr)|(e & Hc & ->)].
  2: { assert (view w' = view w) as ->; [|constructor].
       destruct found as [c|e']; [|destruct (is_not_found e')]; by inv_run Hc. }
  assert (w3 = w2 ∧ oc = clusters (view w) !! cluster_of pd) as [-> ->].
  { destruct found as [c|e']; [|destruct (is_not_found e')]; inv_run Hc; auto. by rewrite (Hfound eq_refl). }
  clear found Hfound Hc. rewrite <- Hv2 in *. clear Hv2 Hv1 w w1. rename w2 into w.
  destruct (pd_Deleting pd) eqn:Hdel; [by apply reconcileDeletion_reconciled|].
  apply bind_inv in Hr as [(pd1 & w1 & Hc & Hr)|(e & Hc & ->)]; pose proof (ensureFinalizer_step _ _ _ _ _ Hc) as Hfin.
  2: by apply R_finalizer_failed.
  apply ensureFinalizer_ok in Hc as ([fs ->] & Hst & Huse); [|done..].
  apply (R_kept pd _ fs (view w1)); try done.
  destruct (clusters (view w) !! cluster_of pd) as [c|]; [|by inv_run Hr].
  apply reconcile_cluster_chain in Hr.
  - case_decide; [done|]. by destruct Hr.
  - by destruct Hfin as [->|(?&?&_&?&_&_&->)].
Qed.
End effects.

(** ** Confinement *)
Definition rendered_of (pd : PgDoorman) : key := (pd_Namespace pd, RenderedSecretName (ClusterRef (pd_Spec pd))).
Definition auth_of (pd : PgDoorman) : key := (pd_Namespace pd, GeneratedAuthSecretName (ClusterRef (pd_Spec pd))).

(** Same object as far as its owner is concerned: finalizers and status aside. *)
Definition same_desired (p p' : PgDoorman) : Prop :=
  pd_Spec p' = pd_Spec p ∧ pd_Generation p' = pd_Generation p ∧ pd_Deleting p' = pd_Deleting p ∧
  ∀ f, f ≠ Finalizer → f ∈ pd_Finalizers p' ↔ f ∈ pd_Finalizers p.

(** What reconciling [pd] may change between two stores. *)
Record confined (pd : PgDoorman) (st st' : kstate) : Prop := {
  cf_clusters : clusters st' = clusters st;
  cf_services : services st' = services st;
  cf_roles : roles st' = roles st ∧ rolebindings st' = rolebindings st;
  cf_others : ∀ k, k ≠ pgdoorman_key pd → pgdoormen st' !! k = pgdoormen st !! k;
  cf_self : ∀ p', pgdoormen st' !! pgdoorman_key pd = Some p' →
    ∃ p, pgdoormen st !! pgdoorman_key pd = Some p ∧ same_desired p p';
  cf_secrets : ∀ k, k ≠ rendered_of pd → k ≠ auth_of pd → secrets st' !! k = secrets st !! k;
  cf_auth : ∀ s, secrets st !! auth_of pd = Some s → secrets st' !! auth_of pd = Some s
}.

Lemma same_desired_refl p : same_desired p p.
Proof. done. Qed.
#[export] Instance confined_preorder pd : PreOrder (confined pd).
Proof.
  split.
  - intros st. split; eauto using same_desired_refl.
  - intros s1 s2 s3 [c1 v1 [r1 b1] o1 f1 k1 a1] [c2 v2 [r2 b2] o2 f2 k2 a2]. split.
    + congruence.
    + congruence.
    + split; congruence.
    + intros k Hk. by rewrite o2, o1.
    + intros p' (p2 & (p1 & Hp1 & ?&?&?&Hf1)%f1 & ?&?&?&Hf2)%f2. exists p1. split; [done|].
      split_and!; [congruence..|]. intros f Hf. by rewrite Hf2, Hf1.
    + intros k ??. by rewrite k2, k1.
    + auto.
Qed.

Lemma confined_secret pd k s st :
  k = rendered_of pd ∨ (k = auth_of pd ∧ secrets st !! k = None) →
  confined pd st (set_secrets (<[k := s]> (secrets st)) st).
Proof.
  intros Hk. split; simpl; eauto using same_desired_refl.
  - intros k' ??. apply lookup_insert_ne. naive_solver.
  - intros s' Hs. destruct Hk as [->|[-> Hn]]; [|congruence]. rewrite lookup_insert_ne; [done|].
    unfold rendered_of, auth_of, RenderedSecretName, GeneratedAuthSecretName.
    by intros [= ?%(inj (String.app _))].
Qed.

Section guarantees.
  #[local] Set Default Proof Using "Type*".
  Context {W : Type} {KC : KubeClient W} {KL : KubeLib} {QS : Quantities} {YM : Yaml}.
  Context {KS : KubeSpec W} {KLS : KubeLibSpec}.
  Context (r : RenderedConfigReconciler).

Lemma finalizer_step_confined pd st st' fs answer :
  (∀ f, f ≠ Finalizer → f ∈ fs ↔ f ∈ pd_Finalizers pd) → pgdoormen st !! pgdoorman_key pd = Some pd →
  patched_pgdoorman (with_finalizers fs pd) answer st st' → confined pd st st'.
Proof.
  intros Hfs Hpd (old & Hold & -> & ->). change (pgdoorman_key (with_finalizers fs pd)) with (pgdoorman_key pd) in *.
  rewrite Hpd in Hold. injection Hold as <-. split; simpl; try done.
  - intros k Hk. destruct (_ && _); [by rewrite lookup_delete_ne|by rewrite lookup_insert_ne].
  - intros p'. destruct (_ && _); [by rewrite lookup_delete_eq|]. rewrite lookup_insert_eq. intros [= <-].
    eexists. split; [done|]. split_and!; try done.
Qed.

Lemma status_step_confined pd st st' : status_step pd st st' → confined pd st st'.
Proof.
  intros [->|(o & cs & old & Hold & ->)]; [done|].
  change (pgdoorman_key (with_status o cs pd)) with (pgdoorman_key pd) in *. split; simpl; try done.
  - intros k Hk. by rewrite lookup_insert_ne.
  - intros p'. rewrite lookup_insert_eq. intros [= <-]. by exists old.
Qed.

Lemma keys_of pd c :
  cluster_key c = cluster_of pd → rendered_key c = rendered_of pd ∧ auth_key c = auth_of pd ∧
    cl_Namespace c = pd_Namespace pd ∧ cl_Name c = ClusterRef (pd_Spec pd).
Proof. unfold rendered_of, auth_of, rendered_key, auth_key. by intros [= -> ->]. Qed.

Lemma auth_step_confined pd c st st' :
  cluster_key c = cluster_of pd → auth_step pd c st st' → confined pd st st'.
Proof.
  intros (_ & Ha & _)%keys_of [->|(?&?&?&?&_&_&_&Hn&v&->)]; [done|].
  apply confined_secret. right. rewrite <- Ha. done.
Qed.

Lemma publish_step_confined pd c st st' :
  cluster_key c = cluster_of pd → publish_step r pd c st st' → confined pd st st'.
Proof.
  intros (Hk & _)%keys_of [->|(?&?&?&_&_&_&_&_&_&(s & _ & _ & _ & ->)%write_step_secrets)]; [done|].
  apply confined_secret. by left.
Qed.

Lemma publishes_confined pd c st x st' :
  cluster_key c = cluster_of pd → publishes r pd c st x st' → confined pd st st'.
Proof.
  intros Hc [(st1 & Hp & Hs) _]. etrans; [by eapply publish_step_confined|by apply status_step_confined].
Qed.

Lemma finalizer_step_any pd st st' :
  pgdoormen st !! pgdoorman_key pd = Some pd → finalizer_step pd st st' → confined pd st st'.
Proof. intros Hpd [->|(fs & a & Hfs & Hp)]; [done|]. by eapply finalizer_step_confined. Qed.

Lemma confined_finalizers fs pd st st' : confined (with_finalizers fs pd) st st' ↔ confined pd st st'.
Proof. by split; intros []; split. Qed.

Lemma reconciled_confined pd st x st' :
  map_Forall (λ k c, cluster_key c = k) (clusters st) →
  pgdoormen st !! pgdoorman_key pd = Some pd → reconciled r pd st x st' → confined pd st st'.
Proof.
  intros Hwc Hpd Hr. destruct Hr as [| | |x answer st' _ _ Hp|e st' _ Hf|fs st0 x st' _ Hf Hst _ Hc]; try done.
  - eapply finalizer_step_confined; [|done..]. intros f Hne. rewrite remove_finalizer. naive_solver.
  - by apply finalizer_step_any.
  - etrans; [by apply finalizer_step_any|].
    destruct (clusters st !! cluster_of pd) as [c|] eqn:Hcl; [|by subst].
    case_decide; [|by subst]. apply Hwc in Hcl. destruct Hc as (st1 & Ha & Hp).
    rewrite <- (confined_finalizers fs).
    etrans; [by eapply auth_step_confined|by eapply publishes_confined].
Qed.

Lemma status_step_secrets pd st st' : status_step pd st st' → secrets st' = secrets st.
Proof. by intros [->|(?&?&?&_&->)]. Qed.
Lemma finalizer_step_secrets pd st st' : finalizer_step pd st st' → secrets st' = secrets st.
Proof. by intros [->|(?&?&_&?&_&_&->)]. Qed.

(** The Secrets after a reconciliation: unchanged, or those of a run that went
    through the generated Secret and the publication. *)
Lemma reconciled_secrets pd st x st' :
  reconciled r pd st x st' →
  secrets st' = secrets st ∨
  ∃ c st0 st1 st2, pd_Deleting pd = false ∧ clusters st !! cluster_of pd = Some c ∧ runs r pd c ∧
    secrets st0 = secrets st ∧ auth_step pd c st0 st1 ∧ publish_step r pd c st1 st2 ∧ secrets st' = secrets st2.
Proof.
  intros Hr. destruct Hr as [| | |x answer st' _ _ (?&_&_&->)|e st' _ Hf|fs st0 x st' Hd Hf Hst _ Hc]; auto.
  - left. by apply finalizer_step_secrets in Hf.
  - apply finalizer_step_secrets in Hf.
    destruct (clusters st !! cluster_of pd) as [c|] eqn:Hcl; [|left; congruence].
    case_decide as Hruns; [|left; congruence]. right. destruct Hc as (st1 & Ha & [(st2 & Hp & Hs) _]).
    apply status_step_secrets in Hs. by exists c, st0, st1, st2.
Qed.

Lemma labelled_visible k st cl s :
  visible_at k st = Some s → map_get (sec_Labels s) ClusterLabel = cl →
  secrets st !! k = Some s ∧ sec_Labels s !! ClusterLabel = Some cl.
Proof.
  intros [? [l Hl]]%visible_at_Some. unfold map_get. rewrite Hl. simpl. by intros ->.
Qed.

(** *** What a rendering depends on *)
Lemma holds_stored_admin c st data admin b :
  holds c st data admin b → admin ≠ "" → stored_admin c st = Some admin.
Proof.
  intros (s & Hs & _ & Ha & _) Hne. unfold stored_admin. rewrite Hs. unfold map_get in Ha.
  destruct (sec_Data s !! _) as [v|]; simpl in Ha; [|by subst]. rewrite decide_False; congruence.
Qed.

Lemma visible_at_eq k st st' : secrets st' !! k = secrets st !! k → visible_at k st' = visible_at k st.
Proof. unfold visible_at. by intros ->. Qed.

Lemma credential_references spec k ref : credential spec k ref → references spec (ref_Name ref).
Proof.
  intros [(name & p & Hp & Hin)|[_ Hin]]; [left; exists name, p; split; [done|]|right; by apply list_elem_of_fmap_2].
  apply list_elem_of_fmap. exists ref. split; [done|]. unfold pool_refs. apply elem_of_app.
  apply pool_credentials_inv in Hin as [(aq & -> & -> & _)|(u & Hu & <- & _)];
    [left; by apply list_elem_of_singleton|right]. by apply list_elem_of_fmap_2.
Qed.

Lemma references_filled spec g n :
  references (set_Pools (fill_ref g <$> Pools spec) spec) n → references spec n ∨ n = ref_Name g.
Proof.
  intros [(name & p & Hp & Hn)|?]; [|by left; right]. simpl in Hp.
  apply lookup_fmap_Some in Hp as (q & <- & Hq). unfold fill_ref in Hn.
  destruct (ps_AuthQuery q) as [aq|] eqn:Haq; [destruct (aq_PasswordSecretRef aq) eqn:Har|];
    [left; left; eauto| |left; left; eauto].
  unfold pool_refs in Hn. simpl in Hn. apply elem_of_cons in Hn as [->|Hn]; [by right|].
  left; left. exists name, q. split; [done|]. unfold pool_refs. by rewrite Haq, Har.
Qed.

Lemma well_named_filled spec g : well_named spec → well_named (set_Pools (fill_ref g <$> Pools spec) spec).
Proof.
  intros Hw name p Hp. simpl in Hp. apply lookup_fmap_Some in Hp as (q & <- & Hq).
  destruct (Hw _ _ Hq). split; [done|]. unfold fill_ref.
  destruct (ps_AuthQuery q) as [aq|]; [destruct (aq_PasswordSecretRef aq)|]; done.
Qed.

Lemma passwords_resolved_unique st ns spec pw1 pw2 :
  unambiguous spec → passwords_resolved st ns spec pw1 → passwords_resolved st ns spec pw2 → pw1 = pw2.
Proof.
  intros Hun [H1 I1] [H2 I2]. apply map_eq. intros k.
  destruct (pw1 !! k) as [v1|] eqn:E1, (pw2 !! k) as [v2|] eqn:E2.
  - destruct (H1 _ _ E1) as (r1 & Hc1 & Hv1), (H2 _ _ E2) as (r2 & Hc2 & Hv2).
    rewrite (Hun _ _ _ Hc1 Hc2) in Hv1. congruence.
  - destruct (H1 _ _ E1) as (r1 & Hc1%I2 & _). rewrite E2 in Hc1. by destruct Hc1.
  - destruct (H2 _ _ E2) as (r1 & Hc1%I1 & _). rewrite E1 in Hc1. by destruct Hc1.
  - done.
Qed.

(** The specs for which re-rendering is stable: auth users are non-empty and
    keys unambiguous, and the spec does not take a password from the rendered
    Secret itself. *)
Definition stable_spec (pd : PgDoorman) : Prop :=
  users_named (pd_Spec pd) ∧ well_named (pd_Spec pd) ∧
  ¬ references (pd_Spec pd) (RenderedSecretName (ClusterRef (pd_Spec pd))).

Lemma rendering_det pd c st d1 d2 admin :
  stable_spec pd → rendering r pd c st d1 admin → rendering r pd c st d2 admin → d1 = d2.
Proof.
  intros (Hu & Hw & _) (ρ1&s1&u1&pw1&a1&Hd1&_&_&Hp1&Hm1&_) (ρ2&s2&u2&pw2&a2&Hd2&_&_&Hp2&Hm2&_).
  apply DefaultAuthSecretRefs_ok in Hd1 as [-> _]; [|done].
  apply DefaultAuthSecretRefs_ok in Hd2 as [-> _]; [|done].
  rewrite (passwords_resolved_unique _ _ _ _ _ (well_named_unambiguous _ (well_named_filled _ _ Hw)) Hp1 Hp2) in Hm1.
  congruence.
Qed.

(** The spec after defaulting, and the Secrets a rendering reads. *)
Definition normalised (spec : PgDoormanSpec) : PgDoormanSpec :=
  set_Pools (fill_ref (generated_ref spec) <$> Pools spec) spec.
Definition input_of (pd : PgDoorman) (k : key) : Prop :=
  ∃ n, k = (pd_Namespace pd, n) ∧ references (normalised (pd_Spec pd)) n.

Lemma refless_input pd user :
  has_refless (pd_Spec pd) user → input_of pd (auth_of pd).
Proof.
  intros (name & p & Hp & Hu). exists (GeneratedAuthSecretName (ClusterRef (pd_Spec pd))). split; [done|].
  left. exists name, (fill_ref (generated_ref (pd_Spec pd)) p). split; [by apply lookup_fmap_Some; eauto|].
  unfold refless_user in Hu. unfold fill_ref.
  destruct (ps_AuthQuery p) as [aq|]; [|done]. destruct (aq_PasswordSecretRef aq) eqn:Hr; [done|]. left.
Qed.

Lemma rendering_reads pd c st st' data admin :
  users_named (pd_Spec pd) → cluster_key c = cluster_of pd →
  (∀ k, input_of pd k → secrets st' !! k = secrets st !! k) →
  rendering r pd c st data admin → rendering r pd c st' data admin.
Proof.
  intros Hu Hc Hs (ρ & spec & u & pw & acc & Hd & Hauth & Hl & Hp & Hm).
  destruct (keys_of _ _ Hc) as (Hrk & Hak & Hns & Hname).
  pose proof Hd as Hd'. apply DefaultAuthSecretRefs_ok in Hd' as (-> & _ & Hhas); [|done].
  change (set_Pools _ _) with (normalised (pd_Spec pd)) in *.
  assert (∀ n, references (normalised (pd_Spec pd)) n → secrets st' !! (pd_Namespace pd, n) = secrets st !! (pd_Namespace pd, n)) as Hin
    by (intros n Hn; apply Hs; by exists n).
  exists ρ, (normalised (pd_Spec pd)), u, pw, acc. split_and!; try done.
  - intros Hne. rewrite (visible_at_eq _ st); [by apply Hauth|]. rewrite Hak. by eapply Hs, refless_input, Hhas.
  - intros n Hn. rewrite (visible_at_eq _ st) by (by apply Hin). by apply Hl.
  - destruct Hp as [H1 H2]. split; [|done]. intros k v (ref & Hcr & Hv)%H1. exists ref.
    split; [done|]. unfold stored_value in *. rewrite Hin; [done|]. by eapply credential_references.
  - apply Hm.
  - apply Hm.
  - apply Hm.
Qed.

(** The rendered Secret is not an input. *)
Lemma rendering_frame pd c st st' data admin :
  stable_spec pd → cluster_key c = cluster_of pd →
  (∀ k, k ≠ rendered_of pd → secrets st' !! k = secrets st !! k) →
  rendering r pd c st data admin → rendering r pd c st' data admin.
Proof.
  intros (Hu & _ & Hself) Hc Hs. apply rendering_reads; [done..|].
  intros k (n & -> & Hn). apply Hs. intros [= ->]. apply references_filled in Hn as [?|Hn]; [done|].
  unfold generated_ref, RenderedSecretName, GeneratedAuthSecretName in Hn. simpl in Hn.
  by apply (inj (String.app _)) in Hn.
Qed.

(** ** Guarantees *)

(** C13 — Reconciling a PgDoorman touches nothing but that PgDoorman's finalizer
    and status, its cluster's rendered Secret and its generated auth Secret, and
    never overwrites an auth Secret that exists, whatever calls fail on the way;
    reconciling a name that is not stored changes nothing. *)
Theorem Reconcile_confined ρ req w x w' :
  well_keyed (view w) → Reconcile r ρ req w = (x, w') →
  match pgdoormen (view w) !! req with
  | Some pd => confined pd (view w) (view w')
  | None => view w' = view w
  end.
Proof.
  intros Hwk Hr. pose proof Hwk as (_ & Hwc & _).
  apply Reconcile_reconciled in Hr; [|done]. destruct (pgdoormen (view w) !! req) eqn:Hpd; [|done].
  destruct Hr as [Hk Hr]. rewrite <- Hk in Hpd. by eapply reconciled_confined.
Qed.

(** C1 — The gate in front of the rendered Secret: if reconciling a PgDoorman
    changes it, then the PgDoorman is not being deleted, its cluster runs it with
    valid plugin parameters, every Secret its normalised spec references is stored
    with the label of that cluster, and what was written is a configuration the
    wrapper accepts. *)
Theorem Reconcile_gate ρ req w x w' pd :
  well_keyed (view w) → pgdoormen (view w) !! req = Some pd → Reconcile r ρ req w = (x, w') →
  secrets (view w') !! rendered_of pd ≠ secrets (view w) !! rendered_of pd →
  pd_Deleting pd = false ∧
  ∃ c spec user s data admin b cfg,
    clusters (view w) !! cluster_of pd = Some c ∧ runs r pd c ∧
    (∃ ρ', Validate ρ' (NewFromCluster (r_SidecarImage r) c) = Ok ()) ∧
    (∃ ρ', DefaultAuthSecretRefs ρ' (pd_Spec pd) = Ok (spec, user)) ∧
    (∀ name, references spec name → ∃ s, secrets (view w') !! (pd_Namespace pd, name) = Some s ∧
       sec_Labels s !! ClusterLabel = Some (cl_Name c)) ∧
    secrets (view w') !! rendered_of pd = Some s ∧ sec_Data s = rendered_data data admin b ∧
    Unmarshal data = Ok cfg ∧ valid_doorman cfg.
Proof.
  intros Hwk Hpd Hr Hch. pose proof Hwk as (_ & Hwc & _).
  apply Reconcile_reconciled in Hr; [|done]. rewrite Hpd in Hr. destruct Hr as [Hk Hr].
  apply reconciled_secrets in Hr as [Heq|(c & st0 & st1 & st2 & Hd & Hc & Hruns & Hs0 & Ha & Hp & Hs')];
    [by rewrite Heq in Hch|]. split; [done|].
  destruct (keys_of pd c (Hwc _ _ Hc)) as (Hrk & Hak & Hns & Hname). destruct Hp as [->|Hp].
  { destruct Hch. rewrite Hs', <- Hs0. destruct Ha as [->|(?&?&?&?&_&_&_&_&v&->)]; [done|].
    simpl. change (secret_key (with_owner _ _)) with (auth_key c).
    rewrite lookup_insert_ne; [done|]. rewrite <- Hrk. apply not_eq_sym, rendered_not_auth. }
  destruct Hp as (data & admin & b & Hval & Hren & _ & _ & _ & _ & Hw).
  destruct Hren as (ρ' & spec & user & pw & acc & Hdef & _ & Hlab & _ & _ & Hum & Hvd).
  apply write_step_secrets in Hw as (s & Hsd & Hsl & _ & ->). simpl in Hs'.
  exists c, spec, user, s, data, admin, b, acc. split_and!; eauto.
  - intros name Href. rewrite Hs'. destruct (decide ((pd_Namespace pd, name) = rendered_key c)) as [->|Hne].
    + rewrite lookup_insert_eq. eauto.
    + rewrite lookup_insert_ne by done. destruct (Hlab name Href) as (s1 & Hs1 & Hl1).
      exists s1. by eapply labelled_visible.
  - by rewrite Hs', <- Hrk, lookup_insert_eq.
Qed.

(** C15 — The finalizer protocol, for a stored PgDoorman: while a cluster names it,
    its deletion is blocked, whatever calls fail; a deleted one that is no longer
    named has lost the finalizer once a run succeeds; a live one has the finalizer
    after a successful run exactly when its cluster names it. *)
Theorem Reconcile_finalizer ρ req w x w' pd :
  well_keyed (view w) → pgdoormen (view w) !! req = Some pd → Reconcile r ρ req w = (x, w') →
  let inUse := in_use r pd (clusters (view w) !! cluster_of pd) in
  if pd_Deleting pd
  then if inUse
       then Finalizer ∈ pd_Finalizers pd → view w' = view w
       else is_ok x = true → ∀ p', pgdoormen (view w') !! req = Some p' → Finalizer ∉ pd_Finalizers p'
  else is_ok x = true → ∃ p', pgdoormen (view w') !! req = Some p' ∧ (Finalizer ∈ pd_Finalizers p' ↔ inUse = true).
Proof.
  intros Hwk Hpd Hr inUse. apply Reconcile_reconciled in Hr; [|done]. rewrite Hpd in Hr.
  destruct Hr as [Hk Hr]. destruct Hr as [| | |x a st' Hd Hu Hp|e st' Hd Hf|fs st0 x st' Hd _ Hst Huse Hc].
  - destruct (pd_Deleting pd), inUse; done.
  - rewrite H. destruct inUse; [done|]. intros _ p'. rewrite Hpd. by intros [= <-].
  - unfold inUse. by rewrite H, H0.
  - unfold inUse. rewrite Hd, Hu. intros _ p'. destruct Hp as (old & Hold & -> & ->).
    change (pgdoorman_key (with_finalizers _ pd)) with (pgdoorman_key pd) in *. simpl. rewrite <- Hk.
    destruct (_ && _); [by rewrite lookup_delete_eq|]. rewrite lookup_insert_eq. intros [= <-]. simpl.
    rewrite remove_finalizer. naive_solver.
  - by rewrite Hd.
  - rewrite Hd, <- Hk. intros _.
    destruct (clusters (view w) !! cluster_of pd) as [c|]; [|subst; eauto].
    case_decide; [|subst; eauto]. destruct Hc as (st1 & Ha & [(st2 & Hp & Hs) _]).
    assert (pgdoormen st2 = pgdoormen st0) as Hpds.
    { destruct Hp as [->|(?&?&?&_&_&_&_&_&_&(?&_&_&_&->)%write_step_secrets)];
        by destruct Ha as [->|(?&?&?&?&_&_&_&_&?&->)]. }
    destruct Hs as [->|(o & cs & old & Hold & ->)]; [rewrite Hpds; eauto|].
    change (pgdoorman_key (with_status _ _ (with_finalizers _ pd))) with (pgdoorman_key pd) in *.
    rewrite Hpds, Hst in Hold. injection Hold as <-. simpl. rewrite lookup_insert_eq. eauto.
Qed.

(** The store of a finished rollout: the rendered Secret holds a rendering of
    the PgDoorman in that very store. *)
Definition settled (pd : PgDoorman) (c : Cluster) (st : kstate) : Prop :=
  ∃ data admin b, rendering r pd c st data admin ∧ admin ≠ "" ∧
    binarySpecJSON r (InPlaceUpgrades (NewFromCluster (r_SidecarImage r) c)) = Ok b ∧
    holds c st data admin b.

Lemma Reconcile_settles ρ req w y w' pd c :
  well_keyed (view w) → pgdoormen (view w) !! req = Some pd → pd_Deleting pd = false →
  clusters (view w) !! cluster_of pd = Some c → runs r pd c → stable_spec pd →
  Reconcile r ρ req w = (Ok y, w') →
  ∃ pd' cond, pgdoormen (view w') !! req = Some pd' ∧
    FindStatusCondition (pd_Conditions pd') "Rendered" = Some cond ∧
    cond_ObservedGeneration cond = pd_Generation pd ∧
    (cond_Status cond = true → settled pd c (view w')).
Proof.
  intros Hwk Hpd Hd Hc Hruns Hst Hr. pose proof Hwk as (_ & Hwc & _).
  apply Reconcile_reconciled in Hr; [|done]. rewrite Hpd in Hr. destruct Hr as [Hk Hr].
  inversion Hr as [|? Hd'|? Hd'|? ? ? Hd'| |fs st0 ? ? _ _ Hst0 _ Hcase]; subst; try congruence.
  rewrite Hc, decide_True in Hcase by done. destruct Hcase as (st1 & Ha & Hpub & Hok).
  assert (pgdoormen st1 = pgdoormen st0) as Hpds by (by destruct Ha as [->|(?&?&?&?&_&_&_&_&?&->)]).
  destruct (Hok y eq_refl) as (pd' & cond & Hpd' & Hf & Hg & Htrue); [by rewrite Hpds|].
  exists pd', cond. split_and!; try done. intros (data & admin & b & Hren & Hne & Hb & Hh)%Htrue.
  exists data, admin, b. split_and!; try done. apply Hwc in Hc. apply (rendering_frame pd c st1); try done.
  intros k Hrk. destruct Hpub as (st2 & Hp & ->%status_step_secrets).
  destruct Hp as [->|(?&?&?&_&_&_&_&_&_&(s & _ & _ & _ & ->)%write_step_secrets)]; [done|].
  simpl. rewrite lookup_insert_ne; [done|]. by destruct (keys_of _ _ Hc) as (-> & _).
Qed.

(** C16 — Honest status: a successful reconciliation of a live PgDoorman that its
    cluster runs leaves a Rendered condition of the current generation, and that
    condition is true only when the rendered Secret holds the configuration of
    that spec in the store the run leaves. *)
Theorem Reconcile_status ρ req w y w' pd c :
  well_keyed (view w) → pgdoormen (view w) !! req = Some pd → pd_Deleting pd = false →
  clusters (view w) !! cluster_of pd = Some c → runs r pd c → stable_spec pd →
  Reconcile r ρ req w = (Ok y, w') →
  ∃ pd' cond, pgdoormen (view w') !! req = Some pd' ∧
    FindStatusCondition (pd_Conditions pd') "Rendered" = Some cond ∧
    cond_ObservedGeneration cond = pd_Generation pd ∧
    (cond_Status cond = true → settled pd c (view w')).
Proof. apply Reconcile_settles. Qed.


End guarantees.

(** ** Example: one cluster, one PgDoorman, run on the in-memory client *)
#[local] Instance ex_quantities : Quantities := example_quantities.

(** The configuration that gets rendered: the auth_query password and the admin
    password are the first and the next sixteen random bytes. *)
Definition ex_rendered : DoormanConfig :=
  generated example_spec 6433 9127
    {[ PasswordKey "app" "auth_query" "doorman_auth" := "0102030405060708090a0b0c0d0e0f10";
       PasswordKey "app" "user" "alice" := "s3cret";
       AdminPasswordKey := "1112131415161718191a1b1c1d1e1f20" ]} (Some tls_files).
#[local] Instance ex_yaml : Yaml := table_yaml [("doc", ex_rendered)].

Definition ex_pd : PgDoorman :=
  {| pd_Namespace := "ns"; pd_Name := "my-cluster-doorman"; pd_Generation := 3; pd_Deleting := false;
     pd_Finalizers := ["other"]; pd_Spec := example_spec; pd_ObservedGeneration := 0; pd_Conditions := [] |}.
Definition ex_state (p : PgDoorman) : kstate :=
  KState {[ pgdoorman_key p := p ]} {[ cluster_key example_cluster := example_cluster ]}
    (secrets (store_of [example_secret "alice-pw" {[ "password" := "s3cret" ]}])) ∅ ∅ ∅.
Definition ex_mem (p : PgDoorman) (faults : list bool) : mem :=
  Mem (ex_state p) faults (Z.of_nat <$> seq 1 64) [].
Definition ex_world : mem := ex_mem ex_pd [].
Definition ex_reconciler : RenderedConfigReconciler :=
  {| r_Recorder := true; r_Binary := None; r_SidecarImage := "img" |}.
Definition ex_order (n : nat) : ranger := if Nat.even n then default_ranger else reverse_ranger.
Definition ex_req : key := ("ns", "my-cluster-doorman").
Definition ex_run (w : mem) : res result * mem := Reconcile ex_reconciler ex_order ex_req w.

Lemma keyed_singleton {A} (key_of : A → key) x : map_Forall (λ k y, key_of y = k) ({[ key_of x := x ]} : gmap key A).
Proof. by apply map_Forall_singleton. Qed.
Lemma ex_well_keyed p fs : well_keyed (view (ex_mem p fs)).
Proof. split_and!; [by apply keyed_singleton..|by apply (keyed_singleton secret_key)|done]. Qed.
Lemma ex_lookup p fs : pgdoormen (view (ex_mem p fs)) !! pgdoorman_key p = Some p.
Proof. apply lookup_singleton_eq. Qed.
Lemma ex_stable : stable_spec ex_pd.
Proof.
  split_and!.
  - intros name p Hp x Hx ->. unfold ex_pd, example_spec in Hp. cbn [Pools pd_Spec] in Hp. apply lookup_singleton_Some in Hp as [<- <-]. by vm_compute in Hx.
  - apply example_well_named.
  - rewrite <- (proj2 (CollectSecretNames_spec default_ranger _)). vm_compute.
    intros [=]%list_elem_of_singleton.
Qed.
Lemma ex_decide (P : Prop) `{Decision P} : bool_decide P = true → P.
Proof. apply bool_decide_eq_true_1. Qed.
Lemma ex_well_keyed_after : well_keyed (view (ex_run ex_world).2).
Proof. split_and!; apply (ex_decide _); vm_compute; reflexivity. Qed.

(** The first run, interrupted by a failing call after the auth Secret. *)
Lemma Reconcile_confined_witness :
  let w := ex_mem ex_pd [false; false; false; false; false; true] in
  is_ok (ex_run w).1 = true ∧ confined ex_pd (view w) (view (ex_run w).2).
Proof.
  intros w. split; [vm_compute; reflexivity|].
  pose proof (Reconcile_confined ex_reconciler ex_order ex_req w _ _ (ex_well_keyed ex_pd _) (surjective_pairing (ex_run w))) as H.
  simpl in H. by rewrite (lookup_singleton_eq (M := gmap key)) in H.
Defined.

Lemma Reconcile_gate_witness :
  ∃ s, secrets (view (ex_run ex_world).2) !! ("ns", "my-cluster-doorman-config") = Some s ∧
    sec_Labels s !! ClusterLabel = Some "my-cluster" ∧
    map_get (sec_Data s) ConfigKey = "doc".
Proof.
  destruct (Reconcile_gate ex_reconciler ex_order ex_req ex_world _ _ ex_pd (ex_well_keyed ex_pd _) (ex_lookup ex_pd _)
    (surjective_pairing (ex_run ex_world))) as (_ & c & spec & user & s & data & admin & b & cfg & Hc & _ & _ & _ & _ & Hs & _).
  { vm_compute. discriminate. }
  exists s. split; [exact Hs|]. vm_compute in Hs. injection Hs as <-. by vm_compute.
Defined.

(** A deleted PgDoorman whose cluster still names it. *)
Definition ex_deleted : PgDoorman :=
  {| pd_Namespace := "ns"; pd_Name := "my-cluster-doorman"; pd_Generation := 3; pd_Deleting := true;
     pd_Finalizers := [Finalizer]; pd_Spec := example_spec; pd_ObservedGeneration := 0; pd_Conditions := [] |}.
Lemma Reconcile_finalizer_witness :
  let w := ex_mem ex_deleted [] in
  view (ex_run w).2 = view w ∧ (ex_run w).1 = Ok RequeueAfter.
Proof.
  intros w. split; [|vm_compute; reflexivity].
  pose proof (Reconcile_finalizer ex_reconciler ex_order ex_req w _ _ ex_deleted (ex_well_keyed ex_deleted _) (ex_lookup ex_deleted _)
    (surjective_pairing (ex_run w))) as H.
  assert (in_use ex_reconciler ex_deleted (clusters (view w) !! cluster_of ex_deleted) = true) as Hu by (by vm_compute).
  cbv zeta in H. rewrite Hu in H. apply H. by left.
Defined.

Lemma ex_run_ok : ex_run ex_world = (Ok Done, (ex_run ex_world).2).
Proof. vm_compute. reflexivity. Qed.
Lemma ex_runs : runs ex_reconciler ex_pd example_cluster.
Proof. by vm_compute. Qed.

Lemma Reconcile_status_witness : settled ex_reconciler ex_pd example_cluster (view (ex_run ex_world).2).
Proof.
  destruct (Reconcile_status ex_reconciler ex_order ex_req ex_world _ _ ex_pd example_cluster (ex_well_keyed ex_pd _)
    (ex_lookup ex_pd _) eq_refl (lookup_singleton_eq _ _) ex_runs ex_stable ex_run_ok) as (pd' & cond & Hpd & Hf & _ & Hs).
  apply Hs. vm_compute in Hpd. injection Hpd as <-. vm_compute in Hf. by injection Hf as <-.
Defined.

Lemma ex_settled : settled ex_reconciler ex_pd example_cluster (view (ex_run ex_world).2).
Proof.
  destruct (Reconcile_settles ex_reconciler ex_order ex_req ex_world _ _ ex_pd example_cluster (ex_well_keyed ex_pd _)
    (ex_lookup ex_pd _) eq_refl (lookup_singleton_eq _ _) ex_runs ex_stable ex_run_ok) as (pd' & cond & Hpd & Hf & _ & Hs).
  apply Hs. vm_compute in Hpd. injection Hpd as <-. vm_compute in Hf. by injection Hf as <-.
Qed.

(** The object the first run leaves. *)
Definition ex_after : PgDoorman := default ex_pd (pgdoormen (view (ex_run ex_world).2) !! ex_req).


(** The condition was False and becomes True, and no event says so. *)
Definition failed_pd : PgDoorman :=
  with_status 2 [rendered_condition ex_pd false "RenderFailed" (ExtErr "earlier")] ex_pd.
Example no_recovery_event_example :
  let w := (ex_run (ex_mem failed_pd [])).2 in
  (cond_Status <$> (pgdoormen (view w) !! ex_req ≫= λ p, FindStatusCondition (pd_Conditions p) "Rendered")) = Some true ∧
  m_events w = [].
Proof. split; vm_compute; reflexivity. Qed.
