(* ===== verification/Watches.v ===== *)
(** * The watches of the rendering controller (internal/controller: SetupWithManager)

    Which PgDoormans an event of a Cluster or of a Secret reconciles, and that no
    event is missed: what a rendering depends on is what the controller watches. *)
From S2P Require Import Prelude GoStd Api Specs K8s PluginConfig ConfigGen Paths Kube MemClient Credentials.
From S2P Require Import DoormanConfig Controller ControllerProofs.
From stdpp Require Import options.
Open Scope Z_scope.

Section watches.
  #[local] Set Default Proof Using "Type*".
  Context {W : Type} {KC : KubeClient W} {KL : KubeLib} {QS : Quantities} {YM : Yaml}.
  Context {KS : KubeSpec W}.

(** A reference clash leaves the references as they are written. *)
Lemma requests_secret_spec ρ1 ρ2 name pd :
  users_named (pd_Spec pd) → is_ok (DefaultAuthSecretRefs ρ1 (pd_Spec pd)) = true →
  requests_secret ρ1 ρ2 name pd = true ↔ references (normalised (pd_Spec pd)) name.
Proof using.
  intros Hu. unfold requests_secret. destruct (DefaultAuthSecretRefs ρ1 (pd_Spec pd)) as [[spec user]|e] eqn:Hd; [|done].
  intros _. apply DefaultAuthSecretRefs_ok in Hd as [-> _]; [|done].
  by rewrite bool_decide_eq_true, (proj2 (CollectSecretNames_spec ρ2 _)).
Qed.

(** An event of a Secret, while listing works, requests a PgDoorman exactly when
    the Secret is an input of its rendering. *)
Lemma mapSecret_spec ρ1 ρ2 secret w x w' :
  mapSecret ρ1 ρ2 secret w = (x, w') → view w' = view w ∧ ∃ reqs, x = Ok reqs ∧
    (is_ok (list_pgdoormen (sec_Namespace secret) w).1 = true → ∀ pd,
      pgdoormen (view w) !! pgdoorman_key pd = Some pd → users_named (pd_Spec pd) →
      is_ok (DefaultAuthSecretRefs ρ1 (pd_Spec pd)) = true →
      pgdoorman_key pd ∈ reqs ↔ input_of pd (secret_key secret)).
Proof.
  intros Hr. unfold mapSecret in Hr.
  apply bind_inv in Hr as [(l & w1 & Hc & Hr)|(e & Hc & ?)]; apply try_inv in Hc as (? & [= <-] & Hc).
  pose proof (list_pgdoormen_law _ _ _ _ Hc) as [Hv Hl]. rewrite Hc. destruct l as [items|e].
  2: { injection Hr as <- <-. split; [done|]. exists []. by split. }
  injection Hr as <- <-. split; [done|]. eexists. split; [done|]. intros _ pd Hpd Hu Hok.
  rewrite list_elem_of_fmap. setoid_rewrite list_elem_of_filter. setoid_rewrite (Hl items eq_refl). split.
  - intros (p & Hk & Hreq & Hns & Hp). rewrite <- Hk, Hpd in Hp. injection Hp as ->.
    apply requests_secret_spec in Hreq; [|done..]. exists (sec_Name secret). unfold secret_key. by rewrite Hns.
  - intros (n & [= Hns Hn] & Href). exists pd. split; [done|]. split; [|done].
    apply requests_secret_spec; [done..|]. by rewrite Hn.
Qed.

Context (r : RenderedConfigReconciler).

(** An event of a Cluster requests the PgDoorman it runs, and no other. *)
Lemma mapCluster_spec c pd :
  cl_Namespace c = pd_Namespace pd → pd_Name pd ≠ "" →
  pgdoorman_key pd ∈ mapCluster r c ↔ runs r pd c.
Proof using.
  intros Hns Hn. unfold mapCluster, runs, pgdoorman_key. rewrite <- Hns.
  destruct (Enabled _); cbn [negb orb]; [|rewrite elem_of_nil; naive_solver].
  destruct (decide (ConfigName (NewFromCluster (r_SidecarImage r) c) = "")) as [He|He].
  - rewrite bool_decide_eq_true_2 by done. rewrite elem_of_nil. split; [done|]. intros [_ ?]. congruence.
  - rewrite bool_decide_eq_false_2, list_elem_of_singleton by done. split; [by intros [= ->]|]. by intros [_ ->].
Qed.

(** After an event of [secret] that requests [reqs], nothing is left to notice: the
    store is still settled, the PgDoorman is requested, or the event is that of
    the rendered Secret itself. *)
Definition noticed (pd : PgDoorman) (c : Cluster) (st : kstate) (secret : Secret) (reqs : list key) : Prop :=
  settled r pd c st ∨ pgdoorman_key pd ∈ reqs ∨ secret_key secret = rendered_of pd.

End watches.

(** ** Example: the password Secret of the example of [ControllerProofs.v] changes *)
#[local] Existing Instances ex_quantities ex_yaml.
Definition rotated : Secret := example_secret "alice-pw" {[ "password" := "n3w" ]}.
(** The store after the first run, with [s] in it. *)
Definition after_change (s : Secret) : mem :=
  let w := (ex_run ex_world).2 in
  mem_of (set_secrets (<[secret_key s := s]> (secrets (view w))) (view w)).
Definition requests (s : Secret) : list key :=
  match (mapSecret default_ranger default_ranger s (after_change s)).1 with Ok l => l | Err _ => [] end.


(** The rendered Secret itself is no input and is not watched otherwise: when it
    is emptied, no event reconciles its PgDoorman. *)
Lemma rendered_unwatched_example :
  let s := rendered_secret example_cluster ∅ in
  requests s = [] ∧ secret_key s = rendered_of ex_after.
Proof. vm_compute. split; reflexivity. Qed.
