(* ===== verification/Machinery.v ===== *)
(** * The plugin machinery the hooks are called through

    Decoding of the objects in a request and the JSON patches of a response are
    the job of cnpg-i-machinery and of the Kubernetes types: a class. *)
From S2P Require Import Prelude K8s.
From stdpp Require Import options.
Open Scope Z_scope.

(** The pods the lifecycle hook sees ([corev1.PodSpec]): volumes and containers
    with the fields the code reads or writes; the rest of a container or volume
    that is not the plugin's stays opaque. *)
Inductive VolumeSource : Type :=
  | EmptyDir (medium : string)
  | SecretVolume (secretName : string)
  | DownwardAPI (items : list (string * string))   (* path, fieldPath *)
  | OtherVolume (what : string).
Record Volume : Type := { vol_Name : string; vol_Source : VolumeSource }.

Record ContainerPort : Type := { cp_Name : string; cp_ContainerPort : Z; cp_Protocol : string }.
Record VolumeMount : Type := { vm_Name : string; vm_MountPath : string; vm_ReadOnly : bool }.
Record Probe : Type := { pr_Path : string; pr_Port : Z; pr_InitialDelaySeconds : Z; pr_PeriodSeconds : Z }.
Record SecurityContext : Type := {
  sc_RunAsNonRoot : option bool;
  sc_AllowPrivilegeEscalation : option bool;
  sc_ReadOnlyRootFilesystem : option bool;
  sc_Privileged : option bool;
  sc_SeccompProfile : option string;
  sc_DropCapabilities : list string
}.
Record Container `{Quantities} : Type := {
  ct_Name : string;
  ct_Image : string;
  ct_Ports : list ContainerPort;
  ct_Env : list (string * string);
  ct_VolumeMounts : list VolumeMount;
  ct_Resources : Resources;
  ct_ReadinessProbe : option Probe;
  ct_StartupProbe : option Probe;
  ct_LivenessProbe : option Probe;
  ct_SecurityContext : option SecurityContext;
  ct_RestartPolicy : option string
}.
Record PodSpec `{Quantities} : Type := {
  pod_Volumes : list Volume;
  pod_InitContainers : list Container;
  pod_Containers : list Container
}.

Class Machinery `{Quantities} : Type := {
  GetKind : string → res string;
  DecodeCluster : string → res Cluster;
  DecodePod : string → res PodSpec;
  CreateClusterPatch : Cluster → Cluster → res string;
  CreatePodPatch : PodSpec → PodSpec → res string
}.
