(* ===== verification/Reconciler.v ===== *)
(** * The reconciler hook (internal/reconciler/reconciler.go)

    [pre] runs before CloudNativePG reconciles a Cluster: it removes the plugin's
    objects when the plugin is disabled, waits for the PgDoorman of a cluster that
    is being created, refuses a foreign one, and keeps the pooler Service. *)
From S2P Require Import Prelude GoStd Api K8s PluginConfig Specs Kube Machinery MemClient.
From stdpp Require Import options.
Open Scope Z_scope.

Inductive Behavior : Type := BEHAVIOR_CONTINUE | BEHAVIOR_REQUEUE.
#[export] Instance Behavior_eq_dec : EqDecision Behavior.
Proof. solve_decision. Defined.
Record ReconcilerHooksResult : Type := { hr_Behavior : Behavior; hr_RequeueAfter : Z }.
Definition continue_ : ReconcilerHooksResult := {| hr_Behavior := BEHAVIOR_CONTINUE; hr_RequeueAfter := 0 |}.
Definition requeue : ReconcilerHooksResult := {| hr_Behavior := BEHAVIOR_REQUEUE; hr_RequeueAfter := 10 |}.

Definition legacy_rbac (c : Cluster) : list (kind * key) :=
  [(KRole, (cl_Namespace c, GetRBACName (cl_Name c)));
   (KRoleBinding, (cl_Namespace c, GetRBACName (cl_Name c)))].
Definition plugin_objects (c : Cluster) : list (kind * key) :=
  legacy_rbac c ++ [(KService, (cl_Namespace c, GetServiceName (cl_Name c)));
                    (KSecret, (cl_Namespace c, RenderedSecretName (cl_Name c)))].

Definition with_selector_ports (sel : gmap string string) (ports : list ServicePort) (s : Service) : Service :=
  {| svc_Namespace := svc_Namespace s; svc_Name := svc_Name s; svc_Labels := svc_Labels s;
     svc_Selector := sel; svc_Ports := ports; svc_Owner := svc_Owner s |}.

Section reconciler.
  Context {W : Type} {KC : KubeClient W} {KL : KubeLib} {QS : Quantities} {MC : Machinery}.
  Context (SidecarImage : string).

(** A deletion that ignores "not found". *)
Definition delete_present (obj : kind * key) : M W unit :=
  r ← try_ (delete_object obj.1 obj.2);
  match r with
  | Ok _ => mret ()
  | Err e => if is_not_found e then mret () else throw e
  end.

Definition cleanup (cluster : Cluster) : M W unit := for_each delete_present (plugin_objects cluster).
Definition cleanupLegacyRBAC (cluster : Cluster) : M W unit := for_each delete_present (legacy_rbac cluster).

Definition ensureService (cluster : Cluster) (poolerPort : Z) : M W unit :=
  let newService := BuildDoormanService cluster poolerPort in
  svc ← try_ (get_service (service_key newService));
  match svc with
  | Err e =>
      if negb (is_not_found e) then throw e
      else
        newService ← lift (SetControllerReference_service cluster newService);
        create_service newService
  | Ok svc =>
      if decide (svc_Selector svc = svc_Selector newService ∧ svc_Ports svc = svc_Ports newService)
      then mret ()
      else patch_service svc (with_selector_ports (svc_Selector newService) (svc_Ports newService) svc)
  end.

(** With the PgDoorman of an enabled cluster in hand. *)
Definition pre_owned (cluster : Cluster) (cfg : PluginConfiguration) (pd : PgDoorman)
    : M W ReconcilerHooksResult :=
  if decide (ClusterRef (pd_Spec pd) ≠ cl_Name cluster)
  then throw (Errorf "PgDoorman %q belongs to cluster %q (spec.clusterRef), not %q"
                [pd_Name pd; ClusterRef (pd_Spec pd); cl_Name cluster])
  else
    _ ← cleanupLegacyRBAC cluster;
    _ ← ensureService cluster (PoolerPort cfg);
    mret continue_.

Definition pre_cluster (ρ : ranger) (cluster : Cluster) : M W ReconcilerHooksResult :=
  let cfg := NewFromCluster SidecarImage cluster in
  if negb (Enabled cfg) then _ ← cleanup cluster; mret continue_
  else
    _ ← lift (Validate ρ cfg);
    got ← try_ (get_pgdoorman (cl_Namespace cluster, ConfigName cfg));
    match got with
    | Err e =>
        if is_not_found e
        then mret (if decide (cl_CurrentPrimary cluster ≠ "") then continue_ else requeue)
        else throw e
    | Ok pd => pre_owned cluster cfg pd
    end.

Definition pre (ρ : ranger) (resource : string) : M W ReconcilerHooksResult :=
  kind ← lift (GetKind resource);
  if decide (kind ≠ "Cluster") then mret continue_
  else cluster ← lift (DecodeCluster resource); pre_cluster ρ cluster.

Definition Post (resource : string) : M W ReconcilerHooksResult := mret continue_.
End reconciler.

(** ** What the hook may change *)
(** Some objects of [l] went away; nothing else changed. *)
Record only_removes (l : list (kind * key)) (st st' : kstate) : Prop := {
  or_pgdoormen : pgdoormen st' = pgdoormen st;
  or_clusters : clusters st' = clusters st;
  or_secrets : ∀ k, secrets st' !! k = secrets st !! k ∨ ((KSecret, k) ∈ l ∧ secrets st' !! k = None);
  or_services : ∀ k, services st' !! k = services st !! k ∨ ((KService, k) ∈ l ∧ services st' !! k = None);
  or_roles : ∀ k, (k ∈ roles st' ↔ k ∈ roles st) ∨ ((KRole, k) ∈ l ∧ k ∉ roles st');
  or_rolebindings : ∀ k, (k ∈ rolebindings st' ↔ k ∈ rolebindings st) ∨
    ((KRoleBinding, k) ∈ l ∧ k ∉ rolebindings st')
}.
Definition gone (l : list (kind * key)) (st : kstate) : Prop := Forall (λ o, ¬ exists_object o.1 o.2 st) l.

#[export] Instance only_removes_preorder l : PreOrder (only_removes l).
Proof.
  split.
  - intros st. split; auto; tauto.
  - intros s1 s2 s3 [p1 c1 x1 v1 r1 b1] [p2 c2 x2 v2 r2 b2]. split; [congruence..| | | |].
    + intros k. destruct (x1 k) as [<-|[? Hn]]; [apply x2|]. destruct (x2 k) as [->|?]; auto.
    + intros k. destruct (v1 k) as [<-|[? Hn]]; [apply v2|]. destruct (v2 k) as [->|?]; auto.
    + intros k. destruct (r1 k) as [Hk|[? Hn]], (r2 k) as [Hk'|?]; tauto.
    + intros k. destruct (b1 k) as [Hk|[? Hn]], (b2 k) as [Hk'|?]; tauto.
Qed.

Lemma only_removes_exists l st st' kd k :
  only_removes l st st' → exists_object kd k st' → exists_object kd k st.
Proof.
  intros [_ _ x v r b]. destruct kd; simpl.
  - destruct (r k); tauto.
  - destruct (b k); tauto.
  - destruct (v k) as [->|[_ ->]]; [done|]. by intros [].
  - destruct (x k) as [->|[_ ->]]; [done|]. by intros [].
Qed.

Lemma gone_removed l l' st st' : only_removes l st st' → gone l' st → gone l' st'.
Proof. intros Hr Hg. eapply Forall_impl; [apply Hg|]. intros [kd k] Hn. contradict Hn. by eapply only_removes_exists. Qed.

Lemma only_removes_keyed l st st' :
  only_removes l st st' → map_Forall (λ k s, service_key s = k) (services st) →
  map_Forall (λ k s, service_key s = k) (services st').
Proof.
  intros [_ _ _ v _ _] Hwk k s Hk. apply Hwk. destruct (v k) as [<-|[_ Hn]]; [done|].
  rewrite Hk in Hn. done.
Qed.

Lemma remove_object_only l kd k st : (kd, k) ∈ l → only_removes l st (remove_object kd k st).
Proof.
  intros Hin. destruct kd; simpl; split; simpl; auto; try (intros; left; done); intros k'.
  - destruct (decide (k' = k)) as [->|]; [right|left]; set_solver.
  - destruct (decide (k' = k)) as [->|]; [right|left]; set_solver.
  - destruct (decide (k' = k)) as [->|]; [right|left; by apply lookup_delete_ne]. split; [done|apply lookup_delete_eq].
  - destruct (decide (k' = k)) as [->|]; [right|left; by apply lookup_delete_ne]. split; [done|apply lookup_delete_eq].
Qed.

Lemma remove_object_gone kd k st : ¬ exists_object kd k (remove_object kd k st).
Proof. destruct kd; simpl; [set_solver..| |]; rewrite lookup_delete_eq; by intros []. Qed.

Section effects.
  #[local] Set Default Proof Using "Type*".
  Context {W : Type} {KC : KubeClient W} {KL : KubeLib} {QS : Quantities} {MC : Machinery}.
  Context {KS : KubeSpec W} {KLS : KubeLibSpec}.
  Context (img : string).

Lemma delete_present_effect l obj w x w' :
  obj ∈ l → delete_present obj w = (x, w') →
  only_removes l (view w) (view w') ∧ (x = Ok () → ¬ exists_object obj.1 obj.2 (view w')).
Proof.
  destruct obj as [kd k]. intros Hin Hr. unfold delete_present in Hr. inv_run Hr.
  pose proof (delete_object_law _ _ _ _ _ Hcall) as Hl. destruct r as [u|e].
  - inv_run Hr. destruct Hl as [_ ->]. split; [by apply remove_object_only|]. intros _. apply remove_object_gone.
  - assert (view w' = view w0) as -> by (destruct (is_not_found e); by inv_run Hr).
    split; [destruct Hl as [->|(_ & _ & ->)]; [done|by apply remove_object_only]|].
    intros ->. destruct (is_not_found e) eqn:He; [|by inv_run Hr].
    by destruct (delete_not_found _ _ _ _ _ Hcall He) as [-> ?].
Qed.

Lemma delete_all_effect l l' w x w' :
  l' ⊆ l → for_each delete_present l' w = (x, w') →
  only_removes l (view w) (view w') ∧ (x = Ok () → gone l' (view w')).
Proof.
  revert w. induction l' as [|o l' IH]; intros w Hl Hr; cbn [for_each] in Hr.
  { inv_run Hr. split; [done|]. intros _. constructor. }
  assert (o ∈ l) as Ho by (apply Hl; by left).
  apply bind_inv in Hr as [([] & w1 & Hc & Hr)|(e & Hc & ->)]; apply (delete_present_effect l) in Hc as [Hv Hg]; try done.
  apply IH in Hr as [Hv' Hg']; [|by intros ??; apply Hl; right].
  split; [by etrans|]. intros Hx. constructor; [|by apply Hg'].
  intros ?%(only_removes_exists _ _ _ _ _ Hv'). by apply Hg.
Qed.

(** The pooler Service the cluster should have. *)
Definition pooler_service (c : Cluster) (port : Z) (st : kstate) : Prop :=
  ∃ s, services st !! (cl_Namespace c, GetServiceName (cl_Name c)) = Some s ∧
    svc_Selector s = svc_Selector (BuildDoormanService c port) ∧
    svc_Ports s = svc_Ports (BuildDoormanService c port).
Definition service_step (c : Cluster) (st st' : kstate) : Prop :=
  st' = st ∨ ∃ s, service_key s = (cl_Namespace c, GetServiceName (cl_Name c)) ∧
    st' = set_services (<[(cl_Namespace c, GetServiceName (cl_Name c)) := s]> (services st)) st.

Lemma ensureService_effect c port w x w' :
  map_Forall (λ k s, service_key s = k) (services (view w)) →
  ensureService c port w = (x, w') →
  service_step c (view w) (view w') ∧
  (x = Ok () → pooler_service c port (view w')) ∧
  (pooler_service c port (view w) → view w' = view w).
Proof.
  intros Hwk Hr. unfold ensureService in Hr. unfold pooler_service. set (new := BuildDoormanService c port) in *.
  change (cl_Namespace c, GetServiceName (cl_Name c)) with (service_key new).
  unfold service_step. change (cl_Namespace c, GetServiceName (cl_Name c)) with (service_key new).
  inv_run Hr. apply get_service_law in Hcall as [Hv Hg]. destruct r as [s|e].
  - case_decide as Hd.
    { inv_run Hr. rewrite Hv. split_and!; [by left| |done]. intros _. by exists s. }
    assert (service_key (with_selector_ports (svc_Selector new) (svc_Ports new) s) = service_key new) as Hk
      by (by apply (Hwk _ _ Hg)).
    assert (∀ u st', patched_service s (with_selector_ports (svc_Selector new) (svc_Ports new) s) u (view w) st' →
      st' = set_services (<[service_key new := with_selector_ports (svc_Selector new) (svc_Ports new) s]> (services (view w))) (view w)) as Hp.
    { intros u st' Hp. rewrite <- Hk. eapply patched_service_replaced, Hp; [done|]. pose proof (Hwk _ _ Hg) as Hsk.
      simpl in Hsk. by rewrite Hsk. }
    apply patch_service_law in Hr. rewrite Hv in Hr. split_and!.
    + destruct x; [apply Hp in Hr; rewrite Hr; eauto|]. destruct Hr as [->|[u Hr%Hp]]; [by left|rewrite Hr; eauto].
    + intros ->. apply Hp in Hr as ->. simpl. rewrite lookup_insert_eq. eauto.
    + intros (s' & Hs' & Hsp). destruct Hd. assert (Some s' = Some s) as [= ->] by (etrans; [symmetry; exact Hs'|exact Hg]). done.
  - destruct (is_not_found e) eqn:He; simpl in Hr.
    2: { inv_run Hr. split_and!; [by left|done|done]. }
    specialize (Hg eq_refl).
    apply bind_inv in Hr as [(new' & w2 & Hc & Hr)|(e' & Hc & ->)]; unfold lift in Hc; injection Hc as Hset <-.
    2: { split_and!; [by left|done|done]. }
    apply set_controller_service in Hset as ->.
    apply create_service_law in Hr. unfold created_service in Hr.
    change (service_key (with_service_owner _ new)) with (service_key new) in Hr. rewrite Hv in Hr. split_and!.
    + destruct x; [destruct Hr as [_ ->]|destruct Hr as [->|(? & _ & ->)]]; [right|by left|right];
        by exists (with_service_owner (Some (cl_Name c)) new).
    + intros ->. destruct Hr as [_ ->]. simpl. rewrite lookup_insert_eq. eauto.
    + intros (s' & Hs' & ?). assert (Some s' = None) by (etrans; [symmetry; exact Hs'|exact Hg]). done.
Qed.

(** What [pre] does to a Cluster it decoded. *)
Definition hooked (ρ : ranger) (c : Cluster) (st : kstate) (x : res ReconcilerHooksResult) (st' : kstate) : Prop :=
  let cfg := NewFromCluster img c in
  if Enabled cfg then
    (st' = st ∧ is_ok x = false) ∨
    (Validate ρ cfg = Ok () ∧ st' = st ∧ pgdoormen st !! (cl_Namespace c, ConfigName cfg) = None ∧
       x = Ok (if decide (cl_CurrentPrimary c = "") then requeue else continue_)) ∨
    (Validate ρ cfg = Ok () ∧ ∃ pd st1, pgdoormen st !! (cl_Namespace c, ConfigName cfg) = Some pd ∧
       ClusterRef (pd_Spec pd) = cl_Name c ∧
       only_removes (legacy_rbac c) st st1 ∧ service_step c st1 st' ∧
       (pooler_service c (PoolerPort cfg) st1 → st' = st1) ∧
       (∀ y, x = Ok y → y = continue_ ∧ gone (legacy_rbac c) st1 ∧ pooler_service c (PoolerPort cfg) st'))
  else only_removes (plugin_objects c) st st' ∧ (∀ y, x = Ok y → y = continue_ ∧ gone (plugin_objects c) st').

Lemma pre_cluster_hooked ρ c w x w' :
  map_Forall (λ k s, service_key s = k) (services (view w)) →
  pre_cluster img ρ c w = (x, w') → hooked ρ c (view w) x (view w').
Proof.
  intros Hwk Hr. unfold pre_cluster in Hr. unfold hooked. set (cfg := NewFromCluster img c) in *.
  destruct (Enabled cfg) eqn:Hen; simpl in Hr.
  2: { apply bind_inv in Hr as [([] & w1 & Hc & Hr)|(e & Hc & ->)];
         apply (delete_all_effect (plugin_objects c)) in Hc as [Hv Hg]; try done.
       inv_run Hr. split; [done|]. intros y [= <-]. auto. }
  destruct (Validate ρ cfg) as [[]|e] eqn:Hval.
  2: { inv_run Hr. left. done. }
  inv_run Hr. apply get_pgdoorman_law in Hcall as [Hv Hg]. destruct r as [pd|e].
  2: { destruct (is_not_found e); inv_run Hr; [right; left|by left]. split_and!; [done..|by apply Hg|].
       by repeat case_decide. }
  unfold pre_owned in Hr. case_decide as Hd; [inv_run Hr; by left|]. right; right. split; [done|].
  apply bind_inv in Hr as [([] & w1 & Hc & Hr)|(e & Hc & ->)];
    apply (delete_all_effect (legacy_rbac c)) in Hc as [Hv1 Hg1]; try done; rewrite Hv in Hv1.
  2: { exists pd, (view w'). split_and!; [done|done|done|by left|done|done]. }
  pose proof (only_removes_keyed _ _ _ Hv1 Hwk) as Hwk1.
  assert (service_step c (view w1) (view w') ∧
    (pooler_service c (PoolerPort cfg) (view w1) → view w' = view w1) ∧
    ∀ y, x = Ok y → y = continue_ ∧ pooler_service c (PoolerPort cfg) (view w')) as (Hs & Hid & Hx).
  { apply bind_inv in Hr as [([] & w2 & Hc & Hr)|(e & Hc & ->)];
      apply ensureService_effect in Hc as (Hs & Hok & Hid); try done.
    inv_run Hr. split_and!; [done..|]. intros y [= <-]. auto. }
  exists pd, (view w1). split_and!; [done..|]. intros y [??]%Hx. auto.
Qed.

(** What removes objects and writes the Service keeps every object at its key. *)
Lemma hooked_changes ρ c st x st' :
  hooked ρ c st x st' → ∃ l st1, only_removes l st st1 ∧ (l = plugin_objects c ∨ l = legacy_rbac c) ∧ service_step c st1 st'.
Proof using.
  unfold hooked. destruct (Enabled _).
  - intros [[-> _]|[(_ & -> & _)|(_ & ? & st1 & _ & _ & ? & ? & _)]];
      [exists (legacy_rbac c), st; split_and!; [done|by right|by left]..|].
    exists (legacy_rbac c), st1. split_and!; [done|by right|done].
  - intros [? _]. exists (plugin_objects c), st'. split_and!; [done|by left|by left].
Qed.
Lemma hooked_keyed ρ c st x st' :
  hooked ρ c st x st' → map_Forall (λ k s, service_key s = k) (services st) →
  map_Forall (λ k s, service_key s = k) (services st').
Proof using.
  intros (l & st1 & Ho & _ & [->|(s & Hs & ->)])%hooked_changes Hwk; apply (only_removes_keyed _ _ _ Ho) in Hwk; [done|].
  by apply map_Forall_insert_2.
Qed.

Lemma pre_hooked ρ resource c w x w' :
  GetKind resource = Ok "Cluster" → DecodeCluster resource = Ok c →
  map_Forall (λ k s, service_key s = k) (services (view w)) →
  pre img ρ resource w = (x, w') → hooked ρ c (view w) x (view w').
Proof.
  intros Hk Hd Hwk Hr. unfold pre in Hr. rewrite Hk, Hd in Hr.
  apply pre_cluster_hooked in Hr; done.
Qed.

(** A resource that is no Cluster, or does not decode, changes nothing. *)
Lemma pre_outcome ρ resource w x w' :
  map_Forall (λ k s, service_key s = k) (services (view w)) →
  pre img ρ resource w = (x, w') → w' = w ∨ ∃ c, hooked ρ c (view w) x (view w').
Proof.
  intros Hwk Hr. unfold pre, mbind, M_bind, lift in Hr.
  destruct (GetKind resource) as [kd|e]; [|left; by injection Hr as _ <-].
  case_decide; [left; by injection Hr as _ <-|].
  destruct (DecodeCluster resource) as [c|e]; [|left; by injection Hr as _ <-].
  right. exists c. by apply pre_cluster_hooked.
Qed.

Lemma gone_only_removes l st st' : gone l st → only_removes l st st' → st' = st.
Proof.
  intros Hg [p c x v r b]. unfold gone in Hg. rewrite Forall_forall in Hg. destruct st as [p1 c1 x1 v1 r1 b1], st' as [p2 c2 x2 v2 r2 b2]; simpl in *. f_equal; auto.
  - apply map_eq. intros k. destruct (x k) as [?|[Hin Hn]]; [done|]. specialize (Hg _ Hin). simpl in Hg.
    rewrite Hn. destruct (x1 !! k); [by destruct Hg|done].
  - apply map_eq. intros k. destruct (v k) as [?|[Hin Hn]]; [done|]. specialize (Hg _ Hin). simpl in Hg.
    rewrite Hn. destruct (v1 !! k); [by destruct Hg|done].
  - apply set_eq. intros k. destruct (r k) as [?|[Hin Hn]]; [done|]. specialize (Hg _ Hin). simpl in Hg. tauto.
  - apply set_eq. intros k. destruct (b k) as [?|[Hin Hn]]; [done|]. specialize (Hg _ Hin). simpl in Hg. tauto.
Qed.

Lemma gone_legacy_service c st st' : service_step c st st' → gone (legacy_rbac c) st → gone (legacy_rbac c) st'.
Proof.
  intros [->|(s & _ & ->)]; [done|]. intros [H1 [H2 _]%Forall_cons]%Forall_cons. by repeat constructor.
Qed.

Lemma legacy_rbac_inv c kd k :
  (kd, k) ∈ legacy_rbac c →
  match kd with KSecret | KService => False | _ => k = (cl_Namespace c, GetRBACName (cl_Name c)) end.
Proof.
  intros [[= -> ->]|[[= -> ->]|[]%not_elem_of_nil]%elem_of_cons]%elem_of_cons; done.
Qed.
Lemma plugin_objects_inv c kd k :
  (kd, k) ∈ plugin_objects c →
  match kd with
  | KSecret => k = (cl_Namespace c, RenderedSecretName (cl_Name c))
  | KService => k = (cl_Namespace c, GetServiceName (cl_Name c))
  | _ => k = (cl_Namespace c, GetRBACName (cl_Name c))
  end.
Proof.
  intros [Hin|[[= -> ->]|[[= -> ->]|[]%not_elem_of_nil]%elem_of_cons]%elem_of_cons]%elem_of_app; try done.
  apply legacy_rbac_inv in Hin. by destruct kd.
Qed.

(** ** Properties *)

(** C18 — The hook never freezes a running cluster: it answers REQUEUE exactly
    when the cluster is being created (no current primary), runs the plugin and
    its PgDoorman is missing; every other answer is CONTINUE. *)
Theorem pre_requeues_only_creation ρ resource c w y w' :
  GetKind resource = Ok "Cluster" → DecodeCluster resource = Ok c →
  map_Forall (λ k s, service_key s = k) (services (view w)) →
  pre img ρ resource w = (Ok y, w') →
  let cfg := NewFromCluster img c in
  (hr_Behavior y = BEHAVIOR_REQUEUE ↔
     Enabled cfg = true ∧ pgdoormen (view w) !! (cl_Namespace c, ConfigName cfg) = None ∧ cl_CurrentPrimary c = "") ∧
  (hr_Behavior y = BEHAVIOR_REQUEUE → y = requeue ∧ view w' = view w).
Proof.
  intros Hk Hd Hwk Hr cfg. apply (pre_hooked _ _ c) in Hr; [|done..]. unfold hooked in Hr. fold cfg in Hr.
  destruct (Enabled cfg); [destruct Hr as [[_ ?]|[(_ & Hv & Hn & [= ->])|(_ & pd & st1 & Hpd & _ & _ & _ & _ & Hy)]]|].
  - done.
  - rewrite Hn. case_decide; naive_solver.
  - destruct (Hy y eq_refl) as [-> _]. rewrite Hpd. split; [|done]. split; [done|]. by intros (_ & ? & _).
  - destruct Hr as [_ Hy]. destruct (Hy y eq_refl) as [-> _]. split; [|done]. split; [done|]. by intros (? & _).
Qed.

(** C19 — Convergence: after a successful hook, a cluster without the plugin has
    none of its objects left; a cluster whose PgDoorman exists has no legacy RBAC
    and the pooler Service of its port, and that PgDoorman names it; in both cases
    any later run of the hook on the same cluster changes nothing. *)
Theorem pre_converges ρ ρ' resource c w y w' w2 x2 w2' :
  GetKind resource = Ok "Cluster" → DecodeCluster resource = Ok c →
  map_Forall (λ k s, service_key s = k) (services (view w)) →
  pre img ρ resource w = (Ok y, w') →
  view w2 = view w' → pre img ρ' resource w2 = (x2, w2') →
  let cfg := NewFromCluster img c in
  (Enabled cfg = false → gone (plugin_objects c) (view w')) ∧
  (∀ pd, Enabled cfg = true → pgdoormen (view w) !! (cl_Namespace c, ConfigName cfg) = Some pd →
     ClusterRef (pd_Spec pd) = cl_Name c ∧ gone (legacy_rbac c) (view w') ∧
     pooler_service c (PoolerPort cfg) (view w')) ∧
  view w2' = view w2.
Proof.
  intros Hk Hd Hwk Hr Hv2 Hr2 cfg. apply (pre_hooked _ _ c) in Hr; [|done..].
  apply (pre_hooked _ _ c) in Hr2; [|done|done|rewrite Hv2; by eapply hooked_keyed].
  unfold hooked in *. fold cfg in Hr, Hr2. rewrite Hv2 in *. destruct (Enabled cfg).
  - assert (∀ pd, pgdoormen (view w) !! (cl_Namespace c, ConfigName cfg) = Some pd →
     ClusterRef (pd_Spec pd) = cl_Name c ∧ gone (legacy_rbac c) (view w') ∧
     pooler_service c (PoolerPort cfg) (view w')) as Hok.
    { intros pd Hpd. destruct Hr as [[_ ?]|[(_ & _ & Hn & _)|(_ & pd' & st1 & Hpd' & Hcr & Ho & Hs & _ & Hy)]];
        [done|congruence|]. destruct (Hy y eq_refl) as (_ & Hg & Hp). rewrite Hpd in Hpd'. injection Hpd' as <-.
      split_and!; [done| |done]. by eapply gone_legacy_service. }
    split; [done|]. split; [intros pd _; apply Hok|].
    destruct Hr2 as [[-> _]|[(_ & -> & _)|(_ & pd2 & st2 & Hpd2 & _ & Ho2 & _ & Hid & _)]]; [done..|].
    assert (pgdoormen (view w) = pgdoormen (view w')) as Hsame.
    { destruct Hr as [[-> _]|[(_ & -> & _)|(_ & ? & st1 & _ & _ & Ho & Hs & _)]]; [done..|].
      rewrite <- (or_pgdoormen _ _ _ Ho). by destruct Hs as [->|(? & _ & ->)]. }
    rewrite <- Hsame in Hpd2. destruct (Hok pd2 Hpd2) as (_ & Hg & Hp).
    apply (gone_only_removes _ _ _ Hg) in Ho2 as ->. auto.
  - destruct Hr as [_ Hy]. destruct (Hy y eq_refl) as [_ Hg]. split_and!; [done|done|].
    destruct Hr2 as [Ho2 _]. by apply gone_only_removes in Ho2.
Qed.

(** C20 — A foreign PgDoorman is refused: an enabled cluster that names a PgDoorman
    of another cluster gets an error, and nothing changes. *)
Theorem pre_refuses_foreign ρ resource c pd w x w' :
  GetKind resource = Ok "Cluster" → DecodeCluster resource = Ok c →
  map_Forall (λ k s, service_key s = k) (services (view w)) →
  let cfg := NewFromCluster img c in
  Enabled cfg = true → pgdoormen (view w) !! (cl_Namespace c, ConfigName cfg) = Some pd →
  ClusterRef (pd_Spec pd) ≠ cl_Name c →
  pre img ρ resource w = (x, w') → is_ok x = false ∧ view w' = view w.
Proof.
  intros Hk Hd Hwk cfg Hen Hpd Hne Hr. apply (pre_hooked _ _ c) in Hr; [|done..].
  unfold hooked in Hr. fold cfg in Hr. rewrite Hen in Hr.
  destruct Hr as [[-> ?]|[(_ & _ & Hn & _)|(_ & ? & ? & Hpd' & ? & _)]]; [done|congruence..].
Qed.

(** C32 — Confinement: whatever fails, the hook changes no PgDoorman, no Cluster, no
    Secret but the rendered one, no Service but the pooler's and no Role or
    RoleBinding but the legacy ones; while the plugin is enabled it changes no
    Secret at all. *)
Theorem pre_confined ρ resource c w x w' :
  GetKind resource = Ok "Cluster" → DecodeCluster resource = Ok c →
  map_Forall (λ k s, service_key s = k) (services (view w)) →
  pre img ρ resource w = (x, w') →
  pgdoormen (view w') = pgdoormen (view w) ∧ clusters (view w') = clusters (view w) ∧
  (∀ k, secrets (view w') !! k = secrets (view w) !! k ∨
     (Enabled (NewFromCluster img c) = false ∧ k = (cl_Namespace c, RenderedSecretName (cl_Name c)))) ∧
  (∀ k, k ≠ (cl_Namespace c, GetServiceName (cl_Name c)) → services (view w') !! k = services (view w) !! k) ∧
  (∀ k, k ≠ (cl_Namespace c, GetRBACName (cl_Name c)) →
     (k ∈ roles (view w') ↔ k ∈ roles (view w)) ∧ (k ∈ rolebindings (view w') ↔ k ∈ rolebindings (view w))).
Proof.
  intros Hk Hd Hwk Hr. apply (pre_hooked _ _ c) in Hr; [|done..]. unfold hooked in Hr.
  assert (∀ l st st', (l = plugin_objects c ∧ Enabled (NewFromCluster img c) = false ∨ l = legacy_rbac c) → only_removes l st st' →
    pgdoormen st' = pgdoormen st ∧ clusters st' = clusters st ∧
    (∀ k, secrets st' !! k = secrets st !! k ∨
       (Enabled (NewFromCluster img c) = false ∧ k = (cl_Namespace c, RenderedSecretName (cl_Name c)))) ∧
    (∀ k, k ≠ (cl_Namespace c, GetServiceName (cl_Name c)) → services st' !! k = services st !! k) ∧
    (∀ k, k ≠ (cl_Namespace c, GetRBACName (cl_Name c)) →
       (k ∈ roles st' ↔ k ∈ roles st) ∧ (k ∈ rolebindings st' ↔ k ∈ rolebindings st))) as Hfr.
  { intros l st st' Hl [p cl xs v r b]. split_and!; [done|done|..].
    - intros k. destruct (xs k) as [?|[Hin _]]; [by left|right]. destruct Hl as [[-> ?]| ->].
      + by apply plugin_objects_inv in Hin.
      + by apply legacy_rbac_inv in Hin.
    - intros k Hne. destruct (v k) as [?|[Hin _]]; [done|]. destruct Hl as [[-> ?]| ->].
      + by apply plugin_objects_inv in Hin.
      + by apply legacy_rbac_inv in Hin.
    - assert (∀ kd k, (kd = KRole ∨ kd = KRoleBinding) → (kd, k) ∈ l → k = (cl_Namespace c, GetRBACName (cl_Name c))) as Hin.
      { intros kd k Hkd Hin. destruct Hl as [[-> ?]| ->];
          [apply plugin_objects_inv in Hin|apply legacy_rbac_inv in Hin]; by destruct Hkd as [-> | ->]. }
      intros k Hne. split; [destruct (r k) as [?|[Hk' _]]|destruct (b k) as [?|[Hk' _]]]; try done; destruct Hne.
      + apply (Hin KRole); auto.
      + apply (Hin KRoleBinding); auto. }
  destruct (Enabled _) eqn:Hen.
  - destruct Hr as [[-> _]|[(_ & -> & _)|(_ & pd & st1 & _ & _ & Ho & Hs & _)]]; [by split_and!; auto..|].
    destruct (Hfr _ _ _ (or_intror eq_refl) Ho) as (? & ? & ? & ? & ?).
    destruct Hs as [->|(s & _ & ->)]; simpl; split_and!; auto.
    intros k Hne. rewrite lookup_insert_ne by done. auto.
  - destruct Hr as [Ho _]. apply (Hfr (plugin_objects c)); auto.
Qed.
End effects.

(** ** Examples *)
Definition cluster_with (plugins : list Plugin) (primary : string) : Cluster :=
  {| cl_Namespace := "ns"; cl_Name := "my-cluster"; cl_Plugins := plugins;
     cl_ServerTLSSecret := None; cl_CurrentPrimary := primary |}.
(** Requests are named after the object they carry. *)
Definition example_machinery (Q : Quantities) : @Machinery Q := {|
  GetKind s := if decide (s = "pod") then Ok "Pod" else Ok "Cluster";
  DecodeCluster s :=
    if decide (s = "running") then Ok example_cluster
    else if decide (s = "new") then Ok (cluster_with (cl_Plugins example_cluster) "")
    else if decide (s = "disabled") then Ok (cluster_with [] "my-cluster-1")
    else Err (ExtErr "decode");
  DecodePod _ := Err (ExtErr "decode");
  CreateClusterPatch _ _ := Ok "patch";
  CreatePodPatch _ _ := Ok "patch"
|}.
#[local] Instance rx_quantities : Quantities := example_quantities.
#[local] Instance rx_machinery : Machinery := example_machinery rx_quantities.

Definition rx_pd (clusterRef : string) : PgDoorman :=
  {| pd_Namespace := "ns"; pd_Name := "my-cluster-doorman"; pd_Generation := 1; pd_Deleting := false;
     pd_Finalizers := [];
     pd_Spec := {| ClusterRef := clusterRef; Pools := ∅; General := None; Prometheus := None |};
     pd_ObservedGeneration := 0; pd_Conditions := [] |}.
Definition rx_rbac : key := ("ns", "my-cluster-pg-doorman").
(** A store with legacy RBAC, a rendered Secret and these PgDoormen. *)
Definition rx_world (pds : list PgDoorman) : mem :=
  mem_of (KState (list_to_map ((λ p, (pgdoorman_key p, p)) <$> pds)) ∅
    {[ ("ns", "my-cluster-doorman-config") :=
         {| sec_Namespace := "ns"; sec_Name := "my-cluster-doorman-config"; sec_Labels := ∅; sec_Type := "";
            sec_Data := ∅; sec_Owner := None; sec_ResourceVersion := "" |} ]} ∅ {[ rx_rbac ]} {[ rx_rbac ]}).
Definition rx_pre (resource : string) (w : mem) : res ReconcilerHooksResult * mem :=
  pre "img" default_ranger resource w.

Lemma rx_kind_new : GetKind "new" = Ok "Cluster".
Proof. reflexivity. Qed.
Lemma rx_kind_running : GetKind "running" = Ok "Cluster".
Proof. reflexivity. Qed.
Lemma rx_kind_disabled : GetKind "disabled" = Ok "Cluster".
Proof. reflexivity. Qed.
Lemma rx_decode_new : DecodeCluster "new" = Ok (cluster_with (cl_Plugins example_cluster) "").
Proof. reflexivity. Qed.
Lemma rx_decode_running : DecodeCluster "running" = Ok example_cluster.
Proof. reflexivity. Qed.
Lemma rx_decode_disabled : DecodeCluster "disabled" = Ok (cluster_with [] "my-cluster-1").
Proof. reflexivity. Qed.
Lemma rx_keyed pds : map_Forall (λ k s, service_key s = k) (services (view (rx_world pds))).
Proof. apply map_Forall_empty. Qed.

(** The CR is missing: the new cluster waits, the running one does not. *)
Lemma pre_requeues_only_creation_witness :
  (rx_pre "new" (rx_world [])).1 = Ok requeue ∧
  (rx_pre "running" (rx_world [])).1 = Ok continue_ ∧
  view (rx_pre "new" (rx_world [])).2 = view (rx_world []).
Proof.
  split; [vm_compute; reflexivity|]. split; [vm_compute; reflexivity|].
  destruct (pre_requeues_only_creation "img" default_ranger "new" (cluster_with (cl_Plugins example_cluster) "")
    (rx_world []) requeue (rx_pre "new" (rx_world [])).2 rx_kind_new rx_decode_new (rx_keyed _)) as [_ H].
  - vm_compute. reflexivity.
  - by apply H.
Defined.

Lemma pre_converges_witness :
  let w := rx_world [rx_pd "my-cluster"] in
  let w1 := (rx_pre "running" w).2 in
  gone (legacy_rbac example_cluster) (view w1) ∧ pooler_service example_cluster 6433 (view w1) ∧
  view (rx_pre "running" w1).2 = view w1.
Proof.
  intros w w1.
  destruct (pre_converges "img" default_ranger default_ranger "running" example_cluster w continue_ w1
    w1 (rx_pre "running" w1).1 (rx_pre "running" w1).2 rx_kind_running rx_decode_running (rx_keyed _)) as (_ & H & Hid).
  - vm_compute. reflexivity.
  - reflexivity.
  - apply surjective_pairing.
  - destruct (H (rx_pd "my-cluster")) as (_ & Hg & Hp); [vm_compute; reflexivity..|]. by split_and!.
Defined.

Lemma pre_refuses_foreign_witness :
  let w := rx_world [rx_pd "other"] in
  is_ok (rx_pre "running" w).1 = false ∧ view (rx_pre "running" w).2 = view w.
Proof.
  intros w. apply (pre_refuses_foreign "img" default_ranger "running" example_cluster (rx_pd "other") w
    (rx_pre "running" w).1 (rx_pre "running" w).2 rx_kind_running rx_decode_running (rx_keyed _)).
  - vm_compute. reflexivity.
  - vm_compute. reflexivity.
  - done.
  - apply surjective_pairing.
Defined.

Lemma pre_confined_witness :
  let w := rx_world [rx_pd "my-cluster"] in
  let w1 := (rx_pre "disabled" w).2 in
  pgdoormen (view w1) = pgdoormen (view w) ∧
  secrets (view w1) !! ("ns", "my-cluster-doorman-config") = None.
Proof.
  intros w w1. split; [|vm_compute; reflexivity].
  apply (pre_confined "img" default_ranger "disabled" (cluster_with [] "my-cluster-1") w
    (rx_pre "disabled" w).1 w1 rx_kind_disabled rx_decode_disabled (rx_keyed _)). apply surjective_pairing.
Defined.
