(* ===== verification/Progress.v ===== *)
(** * Progress of the control plane

    The other theorems about the controller and the reconciler hook say what a
    run that returns has done, whatever failed. Here nothing fails: against an
    API server that answers ([KubeUp]) the hook and the reconciliation of a
    PgDoorman whose inputs are in place run to completion and leave the Service
    and the configuration the cluster needs. *)
From S2P Require Import Prelude GoStd Api K8s PluginConfig DoormanConfig ConfigGen Specs Paths Kube MemClient Credentials Controller ControllerProofs Machinery Reconciler.
From stdpp Require Import options.
Open Scope Z_scope.

Section progress.
  #[local] Set Default Proof Using "Type*".
  Context {W : Type} {KC : KubeClient W} {KL : KubeLib} {KS : KubeSpec W} {KLS : KubeLibSpec}.
  Context {KU : KubeUp W}.

(** From an answering server and a world that satisfies [P], [m] returns a value
    and the server still answers. *)
Definition completes {A} (P : W → Prop) (m : M W A) (Q : A → W → Prop) : Prop :=
  triple (λ w, up w ∧ P w) m (λ r w, ∃ a, r = Ok a ∧ up w ∧ Q a w).

Lemma completes_ret {A} P (a : A) (Q : A → W → Prop) : (∀ w, P w → Q a w) → completes P (mret a) Q.
Proof. intros H. apply triple_ret. intros w [??]. eauto. Qed.
Lemma completes_bind {A B} P (m : M W A) (f : A → M W B) Q R :
  completes P m Q → (∀ a, completes (Q a) (f a) R) → completes P (m ≫= f) R.
Proof.
  intros Hm Hf. eapply (triple_bind _ (λ a w, up w ∧ Q a w)).
  - eapply triple_conseq; [apply Hm|done|]. by intros r w (a & -> & ?).
  - apply Hf.
Qed.
Lemma completes_conseq {A} P P' (m : M W A) (Q Q' : A → W → Prop) :
  completes P' m Q' → (∀ w, P w → P' w) → (∀ a w, Q' a w → Q a w) → completes P m Q.
Proof.
  intros Hm HP HQ. eapply triple_conseq; [apply Hm|naive_solver|]. intros r w (a & -> & ? & ?). eauto.
Qed.
Lemma completes_lift {A} P (x : res A) a Q : x = Ok a → (∀ w, P w → Q a w) → completes P (lift x) Q.
Proof. intros -> HQ w r w' [??]. intros [= <- <-]. eauto. Qed.
Lemma completes_try {A} P (m : M W A) (Q : res A → W → Prop) :
  completes P m (λ a, Q (Ok a)) → completes P (try_ m) Q.
Proof.
  intros Hm w r w' Hw (r' & -> & Hr)%try_inv. destruct (Hm _ _ _ Hw Hr) as (a & -> & ? & ?). eauto.
Qed.
(** A call that does not fail, whose error would be looked at; a step that is
    pure. *)
Lemma completes_bind_try {A B} P (m : M W A) (f : res A → M W B) Q R :
  completes P m Q → (∀ a, completes (Q a) (f (Ok a)) R) → completes P (try_ m ≫= f) R.
Proof.
  intros Hm Hf w r w' Hw [(x & w1 & Hc & Hr)|(e & Hc & ->)]%bind_inv;
    apply try_inv in Hc as (r' & Heq & Hc); [|done].
  injection Heq as <-. destruct (Hm _ _ _ Hw Hc) as (a & -> & ?). by eapply Hf.
Qed.
Lemma completes_bind_lift {A B} P (x : res A) a (f : A → M W B) R :
  x = Ok a → completes P (f a) R → completes P (lift x ≫= f) R.
Proof. intros -> Hf w r w' Hw Hr. by eapply Hf. Qed.
(** A pure hypothesis on the world before the run. *)
Lemma completes_assume {A} (φ : Prop) P (m : M W A) Q :
  (φ → completes P m Q) → completes (λ w, φ ∧ P w) m Q.
Proof. intros H w r w' (? & ? & ?). by apply H. Qed.

(** The store is [st]. *)
Abbreviation at_ st := (λ w : W, view w = st).

(** A read that may not find the object. *)
Lemma completes_read {A} (op : M W A) stored invisible st :
  read_law view op stored invisible → answers up op →
  completes (at_ st) (try_ op) (λ r w, view w = st ∧
    match r with Ok x => stored st = Some x | Err e => is_not_found e = true ∧ invisible st end).
Proof.
  intros Hl Ha w r w' [Hu <-] (r' & -> & Hr)%try_inv. destruct (Ha _ _ _ Hu Hr) as [Hu' He].
  destruct (Hl _ _ _ Hr) as [Hv Hs]. exists r'. split; [done|]. split; [done|]. split; [done|].
  destruct r' as [x|e]; [done|]. specialize (He e eq_refl). auto.
Qed.
Lemma completes_bind_read {A B} (op : M W A) (f : res A → M W B) stored invisible st R :
  read_law view op stored invisible → answers up op →
  (∀ x, stored st = Some x → completes (at_ st) (f (Ok x)) R) →
  (∀ e, is_not_found e = true → invisible st → completes (at_ st) (f (Err e)) R) →
  completes (at_ st) (try_ op ≫= f) R.
Proof.
  intros Hl Ha Hok Herr. eapply completes_bind; [by eapply completes_read|].
  intros [x|e] w r w' (Hu & Hw & H) Hr; [by eapply Hok|]. destruct H. by eapply Herr.
Qed.
(** A read of an object that is there. *)
Lemma completes_found {A} (op : M W A) stored invisible st x :
  read_law view op stored invisible → answers up op → stored st = Some x → ¬ invisible st →
  completes (at_ st) op (λ y w, y = x ∧ view w = st).
Proof.
  intros Hl Ha Hx Hn w r w' [Hu <-] Hr. destruct (Ha _ _ _ Hu Hr) as [Hu' He].
  destruct (Hl _ _ _ Hr) as [Hv Hs]. destruct r as [y|e].
  - exists y. split_and!; try done. congruence.
  - by destruct Hn; apply Hs, He.
Qed.
Lemma completes_write {A} (op : M W A) applied pre st :
  write_law view op applied → accepts up view op pre → pre st →
  completes (at_ st) op (λ a w, applied a st (view w)).
Proof.
  intros Hl Ha Hp w r w' [Hu <-] Hr. destruct (Ha _ _ _ Hu Hp Hr) as [Hu' Hok].
  specialize (Hl _ _ _ Hr). destruct r as [a|]; [|done]. eauto.
Qed.

Lemma get_secret_found k st s :
  visible_at k st = Some s → completes (at_ st) (get_secret k) (λ y w, y = s ∧ view w = st).
Proof.
  intros Hs. eapply completes_found; [apply get_secret_law|apply up_get_secret|done|]. simpl. congruence.
Qed.

Lemma controller_secret_set c s :
  sec_Owner s = None → SetControllerReference_secret c s = Ok (with_owner (Some (cl_Name c)) s).
Proof.
  intros Ho. pose proof (up_controller_secret c s Ho) as Hok.
  destruct (SetControllerReference_secret c s) as [s'|] eqn:E; [|done]. by apply set_controller_secret in E as ->.
Qed.
Lemma controller_service_set c s :
  svc_Owner s = None → SetControllerReference_service c s = Ok (with_service_owner (Some (cl_Name c)) s).
Proof.
  intros Ho. pose proof (up_controller_service c s Ho) as Hok.
  destruct (SetControllerReference_service c s) as [s'|] eqn:E; [|done]. by apply set_controller_service in E as ->.
Qed.

Lemma record_event_completes k ev st : completes (at_ st) (record_event k ev) (λ _, at_ st).
Proof.
  intros w r w' [Hu <-] Hr. destruct (up_record_event _ _ _ _ _ Hu I Hr) as [? _].
  apply record_event_law in Hr as [-> ?]. eauto.
Qed.

Lemma randomPassword_completes st : completes (at_ st) randomPassword (λ p w, p ≠ "" ∧ view w = st).
Proof.
  intros w r w' [Hu <-] Hr. pose proof (randomPassword_view _ _ _ Hr) as [Hv Hne]. unfold randomPassword in Hr.
  apply bind_inv in Hr as [(b & w1 & Hc & Hr)|(e & Hc & ->)];
    destruct (up_rand_Read _ _ _ _ Hu I Hc) as [Hu' Hok]; [|done].
  inv_run Hr. exists (EncodeToString b). split_and!; [done|done|by apply Hne|done].
Qed.

(** ** Reading the inputs *)
Lemma foldMW_completes {A S} (f : S → A → M W S) s l st :
  (∀ s x, x ∈ l → completes (at_ st) (f s x) (λ _, at_ st)) → completes (at_ st) (foldMW f s l) (λ _, at_ st).
Proof.
  revert s. induction l as [|x l IH]; intros s Hf; cbn [foldMW]; [by apply completes_ret|].
  eapply completes_bind; [apply Hf; by left|]. intros s'. apply IH. intros; apply Hf. by right.
Qed.
Lemma for_each_completes {A} (f : A → M W unit) l st :
  (∀ x, x ∈ l → completes (at_ st) (f x) (λ _, at_ st)) → completes (at_ st) (for_each f l) (λ _, at_ st).
Proof.
  induction l as [|x l IH]; intros Hf; cbn [for_each]; [by apply completes_ret|].
  eapply completes_bind; [apply Hf; by left|]. intros []. apply IH. intros; apply Hf. by right.
Qed.

(** The referenced key is in a Secret the controller sees. *)
Definition available (st : kstate) (ns : string) (ref : SecretKeySelector) : Prop :=
  ∃ s v, visible_at (ns, ref_Name ref) st = Some s ∧ sec_Data s !! ref_Key ref = Some v ∧ v ≠ "".

Lemma available_value st ns ref v : available st ns ref → stored_value st ns ref = Some v → v ≠ "".
Proof.
  intros (s & v' & [Hs _]%visible_at_Some & Hv & Hne). unfold stored_value, key in *. rewrite Hs. simpl. congruence.
Qed.

Lemma resolve_one_completes {A} fmt args st ns ref (f : string → M W A) :
  available st ns ref → (∀ v, completes (at_ st) (f v) (λ _, at_ st)) →
  completes (at_ st) (v ← wrap_err fmt args (ExtractSecretValue ref ns); f v) (λ _, at_ st).
Proof.
  intros (s & v & Hs & Hv & _) Hf. unfold wrap_err at 1.
  eapply completes_bind; [|apply Hf].
  eapply (completes_bind_try _ _ _ (λ _, at_ st)); [|intros; by apply completes_ret].
  unfold ExtractSecretValue. eapply completes_bind; [|].
  { unfold wrap_err. eapply completes_bind_try; [by apply get_secret_found|].
    intros y. apply (completes_ret _ _ (λ y w, y = s ∧ view w = st)). done. }
  intros y. apply completes_assume. intros ->. rewrite Hv. by apply completes_ret.
Qed.

Lemma resolve_pool_completes st ns pw name p :
  (∀ k ref, (k, ref) ∈ pool_credentials name p → available st ns ref) →
  completes (at_ st) (resolve_pool ns pw (name, p)) (λ _, at_ st).
Proof.
  intros Hp. unfold resolve_pool. apply (completes_bind _ _ _ (λ _, at_ st)).
  - unfold resolve_authQuery. destruct (ps_AuthQuery p) as [aq|] eqn:Haq; [|by apply completes_ret].
    destruct (aq_PasswordSecretRef aq) as [ref|] eqn:Href; [|by apply completes_ret].
    apply resolve_one_completes; [|intros; by apply completes_ret].
    eapply (Hp (PasswordKey name "auth_query" (aq_User aq))). unfold pool_credentials. rewrite Haq, Href. left.
  - intros pw'. apply foldMW_completes. intros pw'' u Hu. apply resolve_one_completes; [|intros; by apply completes_ret].
    eapply (Hp (PasswordKey name "user" (us_Username u))). unfold pool_credentials. apply elem_of_app. right.
    apply list_elem_of_fmap. eauto.
Qed.

Lemma ResolvePasswords_completes ρ st ns spec :
  (∀ k ref, credential spec k ref → available st ns ref) →
  completes (at_ st) (ResolvePasswords ρ ns spec) (λ _, at_ st).
Proof.
  intros Hspec. unfold ResolvePasswords. apply (completes_bind _ _ _ (λ _, at_ st)).
  - apply foldMW_completes. intros pw [name p] Hin%elem_of_range. apply resolve_pool_completes.
    intros k ref Hk. apply (Hspec k). left. eauto.
  - intros pw. unfold resolve_admin. destruct (General spec) as [g|] eqn:Hg; [|by apply completes_ret].
    destruct (gs_AdminPasswordSecretRef g) as [ref|] eqn:Hr; [|by apply completes_ret].
    apply resolve_one_completes; [|intros; by apply completes_ret].
    apply (Hspec AdminPasswordKey). right. split; [done|]. unfold admin_refs. rewrite Hg, Hr. left.
Qed.

Lemma validateSecretOwnership_completes ρ pd spec cl st :
  labelled_refs st (pd_Namespace pd) spec cl →
  completes (at_ st) (validateSecretOwnership ρ pd spec cl) (λ _, at_ st).
Proof.
  intros Hl. unfold validateSecretOwnership. apply for_each_completes. intros name Hn.
  apply (proj2 (CollectSecretNames_spec ρ spec)) in Hn. destruct (Hl name Hn) as (s & Hs & Hc).
  unfold check_owner. eapply completes_bind_try; [by apply get_secret_found|].
  intros x. apply completes_assume. intros ->. rewrite decide_False by (rewrite Hc; auto).
  by apply completes_ret.
Qed.

(** ** Writing the outputs *)
Lemma ensureFinalizer_completes pd inUse st :
  pgdoormen st !! pgdoorman_key pd = Some pd →
  completes (at_ st) (ensureFinalizer pd inUse) (λ _ w, finalizer_step pd st (view w)).
Proof.
  intros Hpd w r w' [Hu <-] Hr. pose proof (ensureFinalizer_step _ _ _ _ _ Hr) as Hs.
  unfold ensureFinalizer in Hr. destruct (Bool.eqb _ _); [inv_run Hr; eauto|].
  edestruct up_patch_pgdoorman as [Hu' Hok]; [exact Hu| |exact Hr|]; [by exists pd|].
  destruct r as [a|]; [|done]. eauto.
Qed.

Lemma ensureGeneratedAuthSecret_completes c user st :
  secrets st !! auth_key c = None ∨ is_Some (visible_at (auth_key c) st) →
  completes (at_ st) (ensureGeneratedAuthSecret c user) (λ _ w,
    (view w = st ∧ is_Some (visible_at (auth_key c) st)) ∨
    ∃ pw, pw ≠ "" ∧ created_secret (with_owner (Some (cl_Name c)) (generated_auth_secret c user pw)) () st (view w)).
Proof.
  intros Hs. unfold ensureGeneratedAuthSecret.
  apply completes_bind_read with (1 := get_secret_law _) (2 := up_get_secret _); fold (auth_key c).
  - intros s Hv. apply completes_ret. intros w Hw. left. split; [done|by eexists].
  - intros e He Hv. rewrite He. simpl.
    assert (secrets st !! auth_key c = None) as Hnone by (destruct Hs as [?|[? Hs]]; [done|congruence]).
    eapply completes_bind; [apply randomPassword_completes|]. intros pw. apply completes_assume. intros Hpw.
    eapply completes_bind_lift; [by apply controller_secret_set|].
    eapply completes_bind_try.
    { eapply completes_write; [apply create_secret_law|apply up_create_secret|exact Hnone]. }
    intros []. apply completes_ret. eauto.
Qed.

Lemma setRendered_completes r pd ok reason msg st :
  is_Some (pgdoormen st !! pgdoorman_key pd) →
  completes (at_ st) (setRendered r pd ok reason msg) (λ _ _, True).
Proof.
  intros Hpd. unfold setRendered. destruct (SetStatusCondition _ _) as [cs changed].
  destruct (negb changed && _); [by apply completes_ret|].
  apply (completes_bind _ _ _ (λ _, at_ st)).
  - destruct (_ ≫= _); [destruct (_ && _)|]; try (by apply completes_ret).
    apply record_event_completes.
  - intros []. eapply (completes_conseq _ (at_ st)); [eapply completes_write; [apply update_status_law|apply up_update_status|exact Hpd]|by intros|by intros].
Qed.

Lemma upsertSecret_completes r c data admin inPlace st :
  map_Forall (λ k s, secret_key s = k) (secrets st) →
  secrets st !! rendered_key c = None ∨ is_Some (visible_at (rendered_key c) st) →
  completes (at_ st) (upsertSecret r c data admin inPlace) (λ _ w, pgdoormen (view w) = pgdoormen st).
Proof.
  intros Hwk Hs. unfold upsertSecret.
  assert (∃ b, binarySpecJSON r inPlace = Ok b) as [b Hb].
  { unfold binarySpecJSON. destruct (r_Binary r); [destruct inPlace|]; eauto. }
  eapply completes_bind_lift; [exact Hb|].
  apply completes_bind_read with (1 := get_secret_law _) (2 := up_get_secret _);
    change (secret_key (rendered_secret c _)) with (rendered_key c).
  - intros s Hv. apply visible_at_Some in Hv as [Hst _]. case_decide; [apply completes_ret; intros w Hw; cbn in Hw; by rewrite Hw|].
    eapply (completes_conseq _ (at_ st)); [eapply completes_write; [apply patch_secret_law|apply up_patch_secret|]|done|].
    + exists s. by rewrite <- (Hwk _ _ Hst) in Hst.
    + by intros [] w (cur & v & _ & ->).
  - intros e He Hv. rewrite He. simpl.
    assert (secrets st !! rendered_key c = None) as Hnone by (destruct Hs as [?|[? Hs]]; [done|congruence]).
    eapply completes_bind_lift; [by apply controller_secret_set|].
    eapply (completes_conseq _ (at_ st)); [eapply completes_write; [apply create_secret_law|apply up_create_secret|]|done|].
    + exact Hnone.
    + by intros [] w (_ & v & ->).
Qed.

Lemma adminPasswordFallback_completes c st : completes (at_ st) (adminPasswordFallback c) (λ _, at_ st).
Proof.
  unfold adminPasswordFallback.
  assert (completes (at_ st) randomPassword (λ _, at_ st)) as Hrand.
  { eapply (completes_conseq _ (at_ st)); [apply randomPassword_completes|done|naive_solver]. }
  apply completes_bind_read with (1 := get_secret_law _) (2 := up_get_secret _).
  - intros s _. destruct (sec_Data s !! _); [case_decide|]; [done|by apply completes_ret|done].
  - intros e -> _. apply Hrand.
Qed.

Context {QS : Quantities} {YM : Yaml} {YL : YamlLaws}.
(** yaml.v3 marshals every configuration (it has no channels or functions). *)
Context (yaml_total : ∀ cfg, ∃ data, Marshal cfg = Ok data).

Lemma render_completes ρ spec ns c cfg st :
  admitted spec → (∀ k ref, credential spec k ref → available st ns ref) →
  completes (at_ st) (render ρ spec ns c cfg) (λ _, at_ st).
Proof.
  intros Hadm Hav. unfold render.
  apply (completes_bind _ _ _ (λ pw w, view w = st ∧ passwords_resolved st ns spec pw)).
  { intros w x w' [Hu Hw] Hr. destruct (ResolvePasswords_completes (ρ 3%nat) st ns spec Hav w x w' (conj Hu Hw) Hr) as (pw & -> & ? & ?).
    apply (ResolvePasswords_triple st (ρ 3%nat) ns spec w) in Hr as [_ Hpw]; [|done].
    destruct (Hpw pw eq_refl) as (l & [H1 H2] & Hl). eexists. split_and!; try done. split; [|naive_solver].
    intros k v (ref & Hin%Hl & ?)%H1. eauto. }
  intros pw. eapply (completes_conseq _ (λ w, passwords_resolved st ns spec pw ∧ view w = st)); [|naive_solver|intros ?? H; exact H].
  apply completes_assume. intros [Hpw1 Hpw2].
  eapply completes_bind; [apply adminPasswordFallback_completes|]. intros admin.
  set (pw' := EnsureAdminPassword pw admin).
  assert (users_resolved spec pw') as Hur.
  { intros name p u Hp Hu.
    assert (credential spec (PasswordKey name "user" (us_Username u)) (us_PasswordSecretRef u)) as Hcr.
    { left. exists name, p. split; [done|]. unfold pool_credentials. apply elem_of_app. right.
      apply list_elem_of_fmap. eauto. }
    destruct (Hpw2 _ _ Hcr) as [v Hv]. destruct (Hpw1 _ _ Hv) as (ref & Href & Hval).
    assert (pw' !! PasswordKey name "user" (us_Username u) = Some v) as Hv'.
    { unfold pw', EnsureAdminPassword. destruct (pw !! AdminPasswordKey); [done|].
      rewrite lookup_insert_ne; [done|]. apply not_eq_sym, PasswordKey_not_admin. }
    unfold map_get. rewrite Hv'. simpl. eapply available_value; [by eapply Hav|done]. }
  destruct (yaml_total (generated spec (PoolerPort cfg) (MetricsPort cfg) pw' (Some tls_files))) as [data Hdata].
  assert (Generate (ρ 4%nat) (ρ 5%nat) spec (PoolerPort cfg) (MetricsPort cfg) pw' (Some tls_files) = Ok data) as Hgen.
  { unfold Generate. rewrite build_config_generated. exact Hdata. }
  eapply completes_bind_lift; [exact Hgen|].
  eapply completes_bind_lift; [|by apply completes_ret].
  apply ValidateConfigBytes_ok. split; [by apply yaml_roundtrip|by apply generated_valid].
Qed.

(** ** Reconcile *)
Context (r : RenderedConfigReconciler).

(** The inputs of [pd] are in place: valid plugin parameters, a spec the API
    server admits, every referenced Secret labelled and with a value, the Secrets
    the controller writes free or its own. *)
Record inputs_ready (pd : PgDoorman) (c : Cluster) (st : kstate) : Prop := {
  in_params : valid_config (NewFromCluster (r_SidecarImage r) c);
  in_spec : admitted (pd_Spec pd);
  in_stable : stable_spec pd;
  in_users x y : has_refless (pd_Spec pd) x → has_refless (pd_Spec pd) y → x = y;
  in_refs : labelled_refs st (pd_Namespace pd) (pd_Spec pd) (cl_Name c);
  in_values k ref : credential (pd_Spec pd) k ref → available st (pd_Namespace pd) ref;
  in_auth : (∃ u, has_refless (pd_Spec pd) u) → secrets st !! auth_key c = None ∨
    (available st (pd_Namespace pd) (generated_ref (pd_Spec pd)) ∧
     ∃ s, visible_at (auth_key c) st = Some s ∧ map_get (sec_Labels s) ClusterLabel = cl_Name c);
  in_rendered : secrets st !! rendered_key c = None ∨ is_Some (visible_at (rendered_key c) st)
}.

Lemma pool_filled_credentials g name p k ref :
  (k, ref) ∈ pool_credentials name (fill_ref g p) →
  (k, ref) ∈ pool_credentials name p ∨ (ref = g ∧ is_Some (refless_user p)).
Proof.
  unfold fill_ref, pool_credentials, refless_user. destruct (ps_AuthQuery p) as [aq|] eqn:Haq; [|rewrite Haq; auto].
  destruct (aq_PasswordSecretRef aq) as [r0|] eqn:Hr; simpl; [rewrite Haq, Hr; auto|].
  intros [[= -> ->]|Hin]%elem_of_cons; eauto.
Qed.
Lemma credential_normalised spec k ref :
  credential (normalised spec) k ref →
  credential spec k ref ∨ (ref = generated_ref spec ∧ ∃ u, has_refless spec u).
Proof.
  intros [(name & p & Hp & Hin)|?]; [|by left; right]. simpl in Hp.
  apply lookup_fmap_Some in Hp as (q & <- & Hq).
  apply pool_filled_credentials in Hin as [Hin|[-> [u Hu]]]; [left; left; eauto|right].
  split; [done|]. exists u, name, q. done.
Qed.
Lemma references_credential spec n : references spec n ↔ ∃ k ref, credential spec k ref ∧ ref_Name ref = n.
Proof.
  split; [|intros (k & ref & H & <-); by eapply credential_references].
  intros [(name & p & Hp & (ref & -> & Hr)%list_elem_of_fmap)|(ref & -> & Hr)%list_elem_of_fmap].
  2: { exists AdminPasswordKey, ref. split; [by right|done]. }
  unfold pool_refs in Hr. apply elem_of_app in Hr as [Hr|(u & -> & Hu)%list_elem_of_fmap].
  - destruct (ps_AuthQuery p) as [aq|] eqn:Haq; [|by apply not_elem_of_nil in Hr].
    destruct (aq_PasswordSecretRef aq) as [r0|] eqn:Hr0; [|by apply not_elem_of_nil in Hr].
    apply list_elem_of_singleton in Hr as ->. exists (PasswordKey name "auth_query" (aq_User aq)), r0. split; [|done].
    left. exists name, p. split; [done|]. unfold pool_credentials. rewrite Haq, Hr0. left.
  - exists (PasswordKey name "user" (us_Username u)), (us_PasswordSecretRef u). split; [|done].
    left. exists name, p. split; [done|]. unfold pool_credentials. apply elem_of_app. right.
    apply list_elem_of_fmap. eauto.
Qed.
Lemma admitted_normalised spec : admitted spec → admitted (normalised spec).
Proof.
  intros (Hne & Hp & Hg). unfold normalised. split_and!; [|intros name p|done]; simpl.
  - by rewrite fmap_empty_iff.
  - intros (q & <- & Hq)%lookup_fmap_Some. destruct (Hp _ _ Hq) as (H1 & H2 & H3 & H4 & H5).
    unfold fill_ref. destruct (ps_AuthQuery q) as [aq|] eqn:Haq; [|unfold admitted_pool; by rewrite Haq].
    destruct (aq_PasswordSecretRef aq) eqn:Hr; [unfold admitted_pool; by rewrite Haq|]. destruct (H4 aq eq_refl).
    split_and!; simpl; [done|done|right; by eexists| |done]. intros aq' [= <-]. by split.
Qed.

(** What was stored in [st] is stored in [st']. *)
Definition keeps_secrets (st st' : kstate) : Prop :=
  ∀ k s, secrets st !! k = Some s → secrets st' !! k = Some s.
Lemma keeps_visible st st' k s : keeps_secrets st st' → visible_at k st = Some s → visible_at k st' = Some s.
Proof. intros Hk [? ?]%visible_at_Some. apply visible_at_Some. auto. Qed.
Lemma keeps_available st st' ns ref : keeps_secrets st st' → available st ns ref → available st' ns ref.
Proof. intros Hk (s & v & Hs & ? & ?). exists s, v. split; [by eapply keeps_visible|done]. Qed.

(** The references of the normalised spec in the store after the auth step. *)
Lemma inputs_normalised pd c st st' :
  inputs_ready pd c st → cluster_key c = cluster_of pd → keeps_secrets st st' →
  ((∃ u, has_refless (pd_Spec pd) u) → available st' (pd_Namespace pd) (generated_ref (pd_Spec pd)) ∧
     ∃ s, visible_at (auth_key c) st' = Some s ∧ map_get (sec_Labels s) ClusterLabel = cl_Name c) →
  labelled_refs st' (pd_Namespace pd) (normalised (pd_Spec pd)) (cl_Name c) ∧
  ∀ k ref, credential (normalised (pd_Spec pd)) k ref → available st' (pd_Namespace pd) ref.
Proof.
  intros Hin Hc Hk Hauth. destruct (keys_of _ _ Hc) as (_ & Hak & _ & _). split.
  - intros n (k & ref & Hcr & <-)%references_credential.
    apply credential_normalised in Hcr as [Hcr|[-> Hu]].
    + destruct (in_refs _ _ _ Hin (ref_Name ref)) as (s & Hs & Hl); [by eapply credential_references|].
      exists s. split; [by eapply keeps_visible|done].
    + destruct (Hauth Hu) as (_ & s & Hs & Hl). exists s. split; [|done]. by rewrite Hak in Hs.
  - intros k ref [Hcr|[-> Hu]]%credential_normalised.
    + eapply keeps_available, in_values; done.
    + by apply Hauth.
Qed.

Definition rendered_message (pd : PgDoorman) (c : Cluster) : gerr :=
  Errorf "generation %d rendered into secret %s" [Itoa (pd_Generation pd); RenderedSecretName (cl_Name c)].
(** The status of [pd] says that its current generation is rendered. *)
Definition says_rendered (pd : PgDoorman) (c : Cluster) (st : kstate) : Prop :=
  ∃ pd', pgdoormen st !! pgdoorman_key pd = Some pd' ∧
    FindStatusCondition (pd_Conditions pd') "Rendered" =
      Some (rendered_condition pd true "Rendered" (rendered_message pd c)).

Lemma reconcile_render_completes ρ pd c cfg spec st :
  map_Forall (λ k s, secret_key s = k) (secrets st) → pgdoormen st !! pgdoorman_key pd = Some pd →
  admitted spec → labelled_refs st (pd_Namespace pd) spec (cl_Name c) →
  (∀ k ref, credential spec k ref → available st (pd_Namespace pd) ref) →
  secrets st !! rendered_key c = None ∨ is_Some (visible_at (rendered_key c) st) →
  completes (at_ st) (reconcile_render r ρ pd c cfg spec) (λ y w, y = Done ∧ says_rendered pd c (view w)).
Proof.
  intros Hwk Hpd Hadm Hl Hav Hrs. unfold reconcile_render.
  eapply completes_bind_try; [by apply validateSecretOwnership_completes|]. intros ?.
  eapply completes_bind_try; [by apply render_completes|]. intros [data admin].
  eapply completes_bind; [by apply upsertSecret_completes|]. intros ?.
  eapply (completes_bind _ _ _ (λ _ w, says_rendered pd c (view w))); [|intros _; by apply completes_ret].
  intros w x w' [Hu Hw] Hr.
  assert (is_Some (pgdoormen (view w) !! pgdoorman_key pd)) as Hex by (exists pd; by rewrite Hw).
  destruct (setRendered_completes r pd true "Rendered" (rendered_message pd c) (view w) Hex w x w' (conj Hu eq_refl) Hr)
    as (u & -> & Hu' & _).
  exists u. split_and!; [done..|]. apply setRendered_ok in Hr; [|by rewrite Hw]. exact Hr.
Qed.

Lemma DefaultAuthSecretRefs_agreed ρ spec :
  (∀ x y, has_refless spec x → has_refless spec y → x = y) → users_named spec →
  ∃ user, DefaultAuthSecretRefs ρ spec = Ok (normalised spec, user) ∧
    (user = "" → ∀ x, ¬ has_refless spec x) ∧ (user ≠ "" → has_refless spec user).
Proof.
  intros Hagree Hn. destruct (DefaultAuthSecretRefs ρ spec) as [[spec' user]|e] eqn:Hd.
  - apply DefaultAuthSecretRefs_ok in Hd as (-> & Hx & Hu); [|done]. exists user. split_and!; [done| |done].
    intros -> x Hr. pose proof (Hx x Hr) as ->. destruct Hr as (name & p & Hp & Hr). by apply (Hn name p Hp) in Hr.
  - apply DefaultAuthSecretRefs_err in Hd as (x & y & Hne & Hx & Hy). destruct Hne. eauto.
Qed.

Lemma created_auth_keeps c user pw st st' :
  created_secret (with_owner (Some (cl_Name c)) (generated_auth_secret c user pw)) () st st' →
  keeps_secrets st st' ∧ pgdoormen st' = pgdoormen st ∧
  (∃ s, secrets st' !! auth_key c = Some s ∧ sec_Labels s = {[ ClusterLabel := cl_Name c ]} ∧
     sec_Data s = {[ "username" := user; "password" := pw ]}) ∧
  secrets st' !! rendered_key c = secrets st !! rendered_key c.
Proof.
  change (secret_key (with_owner _ _)) with (auth_key c). intros (Hnone & v & ->); simpl in *.
  change (secret_key (with_owner _ _)) with (auth_key c) in *. split_and!.
  - intros k s Hs. simpl. rewrite lookup_insert_ne; [done|]. intros <-. congruence.
  - done.
  - rewrite lookup_insert_eq. by eexists.
  - by rewrite lookup_insert_ne by apply not_eq_sym, rendered_not_auth.
Qed.

Lemma reconcile_cluster_completes ρ pd c st :
  map_Forall (λ k s, secret_key s = k) (secrets st) → pgdoormen st !! pgdoorman_key pd = Some pd →
  cluster_key c = cluster_of pd → runs r pd c → inputs_ready pd c st →
  completes (at_ st) (reconcile_cluster r ρ pd c) (λ y w, y = Done ∧ says_rendered pd c (view w)).
Proof.
  intros Hwk Hpd Hc [Hen Hcn] Hin. unfold reconcile_cluster. set (cfg := NewFromCluster _ _) in *.
  rewrite Hen, bool_decide_eq_true_2 by done. simpl.
  rewrite (proj2 (Validate_correct _ _) (in_params _ _ _ Hin)).
  pose proof (in_stable _ _ _ Hin) as (Hn & _ & _). destruct (keys_of _ _ Hc) as (_ & Hak & Hns & Hname).
  destruct (DefaultAuthSecretRefs_agreed (ρ 1%nat) (pd_Spec pd)) as (user & -> & Hempty & Hsome); [apply (in_users _ _ _ Hin)|done|].
  apply (completes_bind _ _ _ (λ ens w, ens = Ok () ∧
    map_Forall (λ k s, secret_key s = k) (secrets (view w)) ∧ pgdoormen (view w) !! pgdoorman_key pd = Some pd ∧
    (labelled_refs (view w) (pd_Namespace pd) (normalised (pd_Spec pd)) (cl_Name c) ∧
     ∀ k ref, credential (normalised (pd_Spec pd)) k ref → available (view w) (pd_Namespace pd) ref) ∧
    (secrets (view w) !! rendered_key c = None ∨ is_Some (visible_at (rendered_key c) (view w))))).
  - case_decide as Huser.
    { apply completes_ret. intros w Hw; cbn in Hw; rewrite Hw. do 3 (split; [done|]).
      split; [|apply (in_rendered _ _ _ Hin)].
      apply (inputs_normalised pd c st); [done|done|by intros k s|]. intros [u Hu]. by destruct (Hempty Huser u). }
    pose proof (in_auth _ _ _ Hin (ex_intro _ _ (Hsome Huser))) as Hauth.
    apply completes_try. eapply (completes_conseq _ (at_ st)); [apply ensureGeneratedAuthSecret_completes|done|].
    { destruct Hauth as [?|(_ & s & ? & _)]; [by left|right; by exists s]. }
    intros [] w [[Hw [s Hs]]|(pw & Hpw & Hcr)].
    + rewrite Hw. do 3 (split; [done|]).
      split; [|apply (in_rendered _ _ _ Hin)].
      apply (inputs_normalised pd c st); [done|done|by intros k s'|]. intros _.
      destruct Hauth as [Hnone|?]; [|done]. apply visible_at_Some in Hs as [? _]. congruence.
    + pose proof Hcr as (Hkeep & Hpds & (s & Hs & Hlab & Hdata) & Hren)%created_auth_keeps.
      assert (visible_at (auth_key c) (view w) = Some s) as Hvis.
      { apply visible_at_Some. split; [done|]. rewrite Hlab, lookup_singleton_eq. by eexists. }
      split; [done|]. split; [destruct Hcr as (_ & v & ->); by apply map_Forall_insert_2|].
      split; [by rewrite Hpds|]. split.
      * apply (inputs_normalised pd c st); [done..|]. intros _. split.
        -- exists s, pw. split_and!; [by rewrite Hak in Hvis| |done]. by rewrite Hdata.
        -- exists s. split; [done|]. rewrite Hlab. unfold map_get. by rewrite lookup_singleton_eq.
      * destruct (in_rendered _ _ _ Hin) as [?|[s' Hs']]; [left; congruence|right].
        exists s'. by rewrite (visible_at_eq _ st).
  - intros ens w x w' (Hu & -> & Hwk' & Hpd' & (Hl & Hav) & Hrs) Hr.
    refine (reconcile_render_completes ρ pd c cfg _ (view w) Hwk' Hpd' _ Hl Hav Hrs w x w' (conj Hu eq_refl) Hr).
    by apply admitted_normalised, Hin.
Qed.

Lemma Reconcile_completes ρ pd c st :
  well_keyed st → pgdoormen st !! pgdoorman_key pd = Some pd → pd_Deleting pd = false →
  clusters st !! cluster_of pd = Some c → runs r pd c → inputs_ready pd c st →
  completes (at_ st) (Reconcile r ρ (pgdoorman_key pd)) (λ y w, y = Done ∧ says_rendered pd c (view w)).
Proof.
  intros (Hwp & Hwc & Hws & _) Hpd Hdel Hc Hruns Hin. unfold Reconcile.
  eapply completes_bind_try.
  { eapply completes_found; [apply get_pgdoorman_law|apply up_get_pgdoorman|exact Hpd|]. simpl. congruence. }
  intros x. apply completes_assume. intros ->. fold (cluster_of pd).
  eapply completes_bind_try.
  { eapply completes_found; [apply get_cluster_law|apply up_get_cluster|exact Hc|]. simpl. congruence. }
  intros x. apply completes_assume. intros ->.
  eapply (completes_bind _ _ _ (λ oc w, oc = Some c ∧ view w = st)); [by apply completes_ret|].
  intros oc. apply completes_assume. intros ->. rewrite Hdel.
  apply (completes_bind _ _ _ (λ pd1 w, (∃ fs, pd1 = with_finalizers fs pd) ∧
    pgdoormen (view w) !! pgdoorman_key pd = Some pd1 ∧ finalizer_step pd st (view w))).
  { intros w x w' [Hu Hw] Hr.
    destruct (ensureFinalizer_completes _ _ _ Hpd w x w' (conj Hu Hw) Hr) as (pd1 & -> & Hu' & Hs).
    exists pd1. apply ensureFinalizer_ok in Hr as (Hfs & Hst & _); [|by rewrite Hw|done].
    split_and!; [done..| |done]. destruct Hfs as [fs ->]. exact Hst. }
  intros pd1 w x w' (Hu & [fs ->] & Hst & Hfin) Hr.
  assert (secrets (view w) = secrets st) as Hsec by (by apply finalizer_step_secrets in Hfin).
  refine (reconcile_cluster_completes ρ (with_finalizers fs pd) c (view w) _ Hst (Hwc _ _ Hc) Hruns _ w x w' (conj Hu eq_refl) Hr).
  - by rewrite Hsec.
  - destruct Hin as [H1 H2 H3 H4 H5 H6 H7 H8].
    assert (∀ k, visible_at k (view w) = visible_at k st) as Hvis by (intros; apply visible_at_eq; by rewrite Hsec).
    split; simpl; [done..| | | |]; unfold labelled_refs, available; setoid_rewrite Hvis; try rewrite Hsec; done.
Qed.

(** A reconciliation of a live PgDoorman whose inputs are in place returns, leaves
    a Rendered condition that is true for its generation, and settles the store. *)
Lemma Reconcile_ready ρ req w pd c x w' :
  up w → well_keyed (view w) → pgdoormen (view w) !! req = Some pd → pd_Deleting pd = false →
  clusters (view w) !! cluster_of pd = Some c → runs r pd c → inputs_ready pd c (view w) →
  Reconcile r ρ req w = (x, w') →
  x = Ok Done ∧ up w' ∧ settled r pd c (view w') ∧
  ∃ pd' cond, pgdoormen (view w') !! req = Some pd' ∧
    FindStatusCondition (pd_Conditions pd') "Rendered" = Some cond ∧
    cond_Status cond = true ∧ cond_ObservedGeneration cond = pd_Generation pd.
Proof.
  intros Hu Hwk Hpd Hdel Hc Hruns Hin Hr. pose proof Hwk as (Hwp & _).
  pose proof (Hwp _ _ Hpd) as Hkey; simpl in Hkey. subst req.
  destruct (Reconcile_completes ρ pd c (view w) Hwk Hpd Hdel Hc Hruns Hin w x w' (conj Hu eq_refl) Hr)
    as (y & -> & Hu' & -> & pd' & Hpd' & Hf).
  split_and!; [done..| |by eexists pd', _].
  destruct (Reconcile_settles r ρ (pgdoorman_key pd) w Done w' pd c) as (pd2 & cond & Hpd2 & Hcond & _ & Hset);
    [done..|apply Hin|done|]. apply Hset. rewrite Hpd' in Hpd2. injection Hpd2 as <-.
  rewrite Hf in Hcond. by injection Hcond as <-.
Qed.

(** ** The reconciler hook *)
Context {MC : Machinery}.

Lemma delete_present_completes o : completes (λ _, True) (delete_present o) (λ _ _, True).
Proof.
  intros w x w' [Hu _] Hr. unfold delete_present in Hr.
  apply bind_inv in Hr as [(d & w1 & Hc & Hr)|(e & Hc & ->)]; apply try_inv in Hc as (d' & [= <-] & Hc).
  destruct (up_delete_object _ _ _ _ _ Hu Hc) as [Hu' He]. destruct d as [u|e]; [inv_run Hr; eauto|].
  rewrite (He e eq_refl) in Hr. inv_run Hr. eauto.
Qed.
Lemma delete_all_completes l : completes (λ _, True) (for_each delete_present l) (λ _ _, True).
Proof.
  induction l as [|o l IH]; cbn [for_each]; [by apply completes_ret|].
  eapply completes_bind; [apply delete_present_completes|]. intros []. apply IH.
Qed.

Lemma ensureService_completes c port st :
  map_Forall (λ k s, service_key s = k) (services st) →
  completes (at_ st) (ensureService c port) (λ _ _, True).
Proof.
  intros Hwk. unfold ensureService. apply completes_bind_read with (1 := get_service_law _) (2 := up_get_service _).
  - intros s Hs. case_decide; [by apply completes_ret|].
    eapply (completes_conseq _ (at_ st)); [eapply completes_write| |]; [..|done|done].
    + apply patch_service_law.
    + apply up_patch_service.
    + simpl. unfold with_selector_ports, service_key at 1; simpl. pose proof (Hwk _ _ Hs) as Hk; simpl in Hk.
      unfold service_key in Hk. rewrite Hk. by exists s.
  - intros e He Hn. rewrite He. simpl. eapply completes_bind_lift; [by apply controller_service_set|].
    eapply (completes_conseq _ (at_ st)); [eapply completes_write| |]; [..|done|done].
    + apply create_service_law.
    + apply up_create_service.
    + done.
Qed.

(** The hook of an enabled cluster that has its PgDoorman. *)
Lemma pre_completes ρ resource c pd st :
  GetKind resource = Ok "Cluster" → DecodeCluster resource = Ok c →
  map_Forall (λ k s, service_key s = k) (services st) →
  let cfg := NewFromCluster (r_SidecarImage r) c in
  Enabled cfg = true → valid_config cfg → pgdoormen st !! (cl_Namespace c, ConfigName cfg) = Some pd →
  ClusterRef (pd_Spec pd) = cl_Name c →
  completes (at_ st) (pre (r_SidecarImage r) ρ resource) (λ y _, y = continue_).
Proof.
  intros Hk Hd Hwk cfg Hen Hval Hpd Href. unfold pre. rewrite Hk, Hd.
  eapply completes_bind_lift; [done|]. rewrite decide_False by auto.
  eapply completes_bind_lift; [done|]. unfold pre_cluster. fold cfg. rewrite Hen. simpl.
  eapply completes_bind_lift; [by apply Validate_correct|].
  eapply completes_bind_try.
  { eapply completes_found; [apply get_pgdoorman_law|apply up_get_pgdoorman|exact Hpd|]. intros Hn. by pose proof (eq_trans (eq_sym Hpd) Hn). }
  intros x. apply completes_assume. intros ->. unfold pre_owned. rewrite decide_False by auto.
  eapply (completes_bind _ _ _ (λ _ w, map_Forall (λ k s, service_key s = k) (services (view w)))).
  - intros w x w' [Hu Hw] Hr. destruct (delete_all_completes _ _ _ _ (conj Hu I) Hr) as ([] & -> & Hu' & _).
    exists (). split_and!; [done..|]. apply (delete_all_effect (legacy_rbac c)) in Hr as [Hv _]; [|done].
    eapply only_removes_keyed; [exact Hv|by rewrite Hw].
  - intros [] w x w' [Hu Hwk'] Hr.
    refine (completes_bind (at_ (view w)) _ _ (λ _ _, True) _ (ensureService_completes _ _ (view w) Hwk') _ w x w' (conj Hu eq_refl) Hr).
    intros []. by apply completes_ret.
Qed.
End progress.
