(* ===== verification/ControlPlane.v ===== *)
(** * The plugin as a whole: what is in the rendered Secrets

    The controller and the reconciler hook of one plugin work on the same store,
    beside the users and the operator. A rendered Secret has a type: its document is a
    configuration that the wrapper accepts, it carries an admin password, the
    label of its cluster, and no binary spec or one that the wrapper reads. *)
From S2P Require Import Prelude GoStd Api K8s PluginConfig DoormanConfig ConfigGen Specs Json Paths Kube MemClient.
From S2P Require Import Credentials Controller ControllerProofs Machinery Reconciler.
From stdpp Require Import options.
Open Scope Z_scope.

(** What the wrapper and the next reconciliation rely on. *)
Record well_rendered `{Yaml} (cl : string) (s : Secret) : Prop := {
  wr_label : sec_Labels s !! ClusterLabel = Some cl;
  wr_config : ∃ cfg, Unmarshal (map_get (sec_Data s) ConfigKey) = Ok cfg ∧ valid_doorman cfg;
  wr_admin : map_get (sec_Data s) generatedAdminPasswordKey ≠ "";
  wr_binary : map_get (sec_Data s) BinarySpecKey = "" ∨
    is_ok (ParseBinarySpec (map_get (sec_Data s) BinarySpecKey)) = true
}.
Definition rendered_typed `{Yaml} (st : kstate) : Prop :=
  ∀ ns cl s, secrets st !! (ns, RenderedSecretName cl) = Some s → well_rendered cl s.
(** The type of a store. *)
Definition well_typed `{Yaml} (st : kstate) : Prop := well_keyed st ∧ rendered_typed st.

(** Users and the operator may do anything to the store but write rendered
    Secrets; they may delete them. *)
Record others (st st' : kstate) : Prop := {
  ot_keyed : well_keyed st';
  ot_rendered : ∀ ns cl, secrets st' !! (ns, RenderedSecretName cl) = secrets st !! (ns, RenderedSecretName cl) ∨
    secrets st' !! (ns, RenderedSecretName cl) = None
}.

(** The spec that loadBinarySpec gives the controller: never without URL or digest. *)
Definition usable_binary (r : RenderedConfigReconciler) : Prop :=
  ∀ spec, r_Binary r = Some spec → valid_spec spec ∧ bs_URL spec ≠ "" ∧ bs_SHA256 spec ≠ ∅.

(** ** Names *)
#[export] Instance RenderedSecretName_inj : Inj (=) (=) RenderedSecretName.
Proof. intros c1 c2 H. by apply app_string_inj_r in H. Qed.
Lemma rendered_name_not_auth c1 c2 : RenderedSecretName c1 ≠ GeneratedAuthSecretName c2.
Proof.
  unfold RenderedSecretName, GeneratedAuthSecretName. intros H. apply (f_equal (last ∘ chars)) in H. simpl in H.
  by rewrite !chars_app, !last_app in H.
Qed.

Section effects.
  #[local] Set Default Proof Using "Type*".
  Context {W : Type} {KC : KubeClient W} {KL : KubeLib} {QS : Quantities} {YM : Yaml} {MC : Machinery}.
  Context {KS : KubeSpec W} {KLS : KubeLibSpec}.
  Context (r : RenderedConfigReconciler).

(** One step of the plugin's surroundings or of the plugin: any reconciliation and
    any hook call, whatever fails in them. *)
Inductive plane_step (w : W) : W → Prop :=
  | P_reconcile ρ req x w' : Reconcile r ρ req w = (x, w') → plane_step w w'
  | P_pre ρ resource x w' : pre (r_SidecarImage r) ρ resource w = (x, w') → plane_step w w'
  | P_others w' : others (view w) (view w') → plane_step w w'.

(** ** Keys *)
Definition same_secrets (st st' : kstate) : Prop := secrets st' = secrets st.
Lemma status_step_keyed pd st st' : status_step pd st st' → well_keyed st → well_keyed st'.
Proof using.
  intros [->|(o & cs & old & Hold & ->)]; [done|]. intros (Hp & ? & ? & ?). split_and!; try done. simpl.
  apply map_Forall_insert_2; [|done]. by apply Hp in Hold.
Qed.
Lemma patched_keyed p answer st st' : patched_pgdoorman p answer st st' → well_keyed st → well_keyed st'.
Proof using.
  intros (old & Hold & -> & ->) (Hp & ? & ? & ?). split_and!; try done. simpl.
  destruct (_ && _); [by apply map_Forall_delete|]. apply map_Forall_insert_2; [|done]. by apply Hp in Hold.
Qed.
Lemma finalizer_step_keyed pd st st' : finalizer_step pd st st' → well_keyed st → well_keyed st'.
Proof using. intros [->|(fs & a & _ & Hp)]; [done|]. by eapply patched_keyed. Qed.
Lemma secret_insert_keyed s st :
  well_keyed st → well_keyed (set_secrets (<[secret_key s := s]> (secrets st)) st).
Proof using. intros (? & ? & ? & ?). split_and!; try done. by apply map_Forall_insert_2. Qed.
Lemma publish_step_keyed pd c st st' : publish_step r pd c st st' → well_keyed st → well_keyed st'.
Proof using.
  intros [->|(?&?&?&_&_&_&_&_&_&(s & _ & _ & <- & ->)%write_step_secrets)]; [done|]. apply secret_insert_keyed.
Qed.
Lemma auth_step_well_keyed pd c st st' : auth_step pd c st st' → well_keyed st → well_keyed st'.
Proof using.
  intros [->|(?&?&user&pw&_&_&_&_&v&->)]; [done|].
  apply (secret_insert_keyed (with_version v (with_owner _ (generated_auth_secret c user pw)))).
Qed.
Lemma reconciled_keyed pd st x st' : reconciled r pd st x st' → well_keyed st → well_keyed st'.
Proof using.
  intros Hr Hk. destruct Hr as [| | |x answer st' _ _ Hp|e st' _ Hf|fs st0 x st' _ Hf _ _ Hc]; try done.
  - by eapply patched_keyed.
  - by eapply finalizer_step_keyed.
  - apply (finalizer_step_keyed _ _ _ Hf) in Hk. destruct (clusters st !! cluster_of pd) as [c|]; [|by subst].
    case_decide; [|by subst]. destruct Hc as (st1 & Ha & [(st2 & Hp & Hs) _]).
    eauto using status_step_keyed, publish_step_keyed, auth_step_well_keyed.
Qed.
Lemma hooked_well_keyed img ρ c st x st' : hooked img ρ c st x st' → well_keyed st → well_keyed st'.
Proof using.
  intros Hh (Hp & Hc & Hs & Hv). pose proof (hooked_keyed _ _ _ _ _ _ Hh Hv) as Hv'.
  apply hooked_changes in Hh as (l & st1 & [Hp1 Hc1 Hs1 _ _ _] & _ & Hst).
  assert (pgdoormen st' = pgdoormen st ∧ clusters st' = clusters st ∧ secrets st' = secrets st1) as (Hp' & Hc' & Hsec)
    by (by destruct Hst as [->|(? & _ & ->)]).
  unfold well_keyed. rewrite Hp', Hc', Hsec. split_and!; try done. intros k s Hk. destruct (Hs1 k) as [Heq|[_ Hn]]; [|congruence].
  apply Hs. by rewrite <- Heq.
Qed.

(** ** Contents *)
Lemma binarySpecJSON_typed inPlace b :
  usable_binary r → binarySpecJSON r inPlace = Ok b →
  default "" b = "" ∨ is_ok (ParseBinarySpec (default "" b)) = true.
Proof using.
  intros Hu. unfold binarySpecJSON. destruct (r_Binary r) as [spec|] eqn:Hspec; [|intros [= <-]; by left].
  destruct inPlace; [|intros [= <-]; by left]. intros [= <-]. right. simpl.
  destruct (Hu spec Hspec) as (Hv & Hurl & Hsha).
  by rewrite (proj2 (ParseBinarySpec_ok _ spec) (conj (json_roundtrip _ Hv) (conj Hurl Hsha))).
Qed.
Lemma publish_typed pd c st st' :
  usable_binary r → publish_step r pd c st st' → rendered_typed st → rendered_typed st'.
Proof using.
  intros Hu [->|(data & admin & b & _ & Hren & Hne & _ & Hb & _ & (s & Hd & Hl & Hk & ->)%write_step_secrets)]; [done|].
  intros Ht ns cl s'. simpl. destruct (decide (rendered_key c = (ns, RenderedSecretName cl))) as [He|He].
  2: { rewrite lookup_insert_ne by done. apply Ht. }
  rewrite <- He, lookup_insert_eq. intros [= <-]. injection He as _ <-%(inj RenderedSecretName).
  destruct (rendered_data_get data admin b) as (H1 & H2 & H3).
  destruct Hren as (_ & _ & _ & _ & acc & _ & _ & _ & _ & _ & Hun & Hval).
  split; rewrite ?Hd, ?H1, ?H2, ?H3; [done|by exists acc|done|by eapply binarySpecJSON_typed].
Qed.
Lemma auth_typed pd c st st' : auth_step pd c st st' → rendered_typed st → rendered_typed st'.
Proof using.
  intros [->|(?&?&?&?&_&_&_&_&v&->)]; [done|]. intros Ht ns cl s. simpl.
  rewrite lookup_insert_ne; [apply Ht|]. intros [= _ He]. by apply (rendered_name_not_auth cl (cl_Name c)).
Qed.
Lemma rendered_typed_secrets st st' : secrets st' = secrets st → rendered_typed st → rendered_typed st'.
Proof using. intros He Ht ns cl s. rewrite He. apply Ht. Qed.
Lemma reconciled_typed pd st x st' :
  usable_binary r → reconciled r pd st x st' → rendered_typed st → rendered_typed st'.
Proof.
  intros Hu Hr Ht.
  apply reconciled_secrets in Hr as [?|(c & st0 & st1 & st2 & _ & _ & _ & Hs0 & Ha & Hp & Hs)]; [by eapply rendered_typed_secrets|].
  apply (rendered_typed_secrets st2); [done|]. eapply publish_typed; [done..|]. eapply auth_typed; [done|].
  by apply (rendered_typed_secrets st).
Qed.
Lemma removed_typed st st' :
  (∀ ns cl, secrets st' !! (ns, RenderedSecretName cl) = secrets st !! (ns, RenderedSecretName cl) ∨
    secrets st' !! (ns, RenderedSecretName cl) = None) → rendered_typed st → rendered_typed st'.
Proof using. intros Hs Ht ns cl s Hl. apply (Ht ns cl). by destruct (Hs ns cl) as [<-|Hn]; [|rewrite Hl in Hn]. Qed.

Lemma plane_step_typed w w' : usable_binary r → plane_step w w' → well_typed (view w) → well_typed (view w').
Proof.
  intros Hu Hs [Hk Ht]. destruct Hs as [ρ req x w' Hr|ρ resource x w' Hr|w' [Hk' Ho]].
  - apply Reconcile_reconciled in Hr; [|done]. destruct (pgdoormen (view w) !! req); [|by rewrite Hr].
    destruct Hr as [_ Hr]. split; [by eapply reconciled_keyed|by eapply reconciled_typed].
  - apply pre_outcome in Hr as [->|(c & Hr)]; [done| |by destruct Hk as (_ & _ & _ & ?)]. split; [by eapply hooked_well_keyed|].
    apply hooked_changes in Hr as (l & st1 & Hrm & _ & Hst). apply (removed_typed (view w)); [|done]. intros ns cl.
    assert (secrets (view w') = secrets st1) as -> by (by destruct Hst as [->|(? & _ & ->)]).
    destruct (or_secrets _ _ _ Hrm (ns, RenderedSecretName cl)) as [Hx|[_ Hx]]; [by left|by right].
  - split; [done|]. by apply (removed_typed (view w)).
Qed.

(** Type safety of the store: through every sequence of reconciliations and hook
    calls of the plugin, whatever calls fail in them and whatever else happens to
    the store in between, the objects stay at their keys, and every rendered
    Secret there is holds a configuration the wrapper accepts, an admin password,
    the label of its cluster, and no binary spec the wrapper could not read. *)
Theorem rendered_stay_typed w w' :
  usable_binary r → well_typed (view w) → rtc plane_step w w' → well_typed (view w').
Proof. intros Hu Ht Hs. induction Hs as [|w1 w2 w3 Hs _ IH]; [done|]. by apply IH, (plane_step_typed w1). Qed.
End effects.

(** ** Example: the example of the controller with a binary to publish *)
#[local] Existing Instances ex_quantities ex_yaml.
#[local] Instance plane_machinery : Machinery := example_machinery ex_quantities.
Definition plane_reconciler : RenderedConfigReconciler :=
  {| r_Recorder := true; r_Binary := Some example_spec_json; r_SidecarImage := "img" |}.

Lemma plane_usable : usable_binary plane_reconciler.
Proof.
  intros spec [= <-]. split; [apply example_spec_json_valid|].
  split; apply (ex_decide _); vm_compute; reflexivity.
Qed.
Lemma typed_start (Y : Yaml) : @well_typed Y (view ex_world).
Proof.
  split; [apply ex_well_keyed|]. intros ns cl s Hs.
  apply (lookup_singleton_Some (M := gmap key) ("ns", "alice-pw") (ns, RenderedSecretName cl) (example_secret "alice-pw" {[ "password" := "s3cret" ]})) in Hs as [[= _ He] _].
  apply (f_equal (last ∘ chars)) in He. simpl in He. unfold RenderedSecretName in He.
  by rewrite chars_app, last_app in He.
Qed.
Lemma plane_typed_start : well_typed (view ex_world).
Proof. apply typed_start. Qed.

(** A reconciliation publishes, a later one fails at its first call, and the hook
    then creates the Service. *)
Definition plane_after : mem := (Reconcile plane_reconciler ex_order ex_req ex_world).2.
Definition plane_faulty : mem := Mem (m_state plane_after) [true] (m_rand plane_after) (m_events plane_after).
Lemma plane_faulty_view : view plane_faulty = view plane_after.
Proof. unfold plane_faulty. generalize plane_after. by intros []. Qed.
Definition plane_failed : mem := (Reconcile plane_reconciler ex_order ex_req plane_faulty).2.
Definition plane_hooked : mem := (pre "img" default_ranger "running" plane_failed).2.
Lemma rendered_stay_typed_witness :
  (∃ s, secrets (view plane_hooked) !! ("ns", "my-cluster-doorman-config") = Some s ∧
     well_rendered "my-cluster" s) ∧
  size (services (view plane_hooked)) = 1%nat.
Proof.
  split; [|vm_compute; reflexivity].
  destruct (rendered_stay_typed plane_reconciler ex_world plane_hooked plane_usable plane_typed_start) as [_ Ht].
  - apply (rtc_l _ _ plane_after); [by eapply (P_reconcile _ _ ex_order ex_req), surjective_pairing|].
    apply (rtc_l _ _ plane_faulty).
    { apply P_others. split; [apply (ex_decide _); vm_compute; reflexivity|]. intros. left. by rewrite plane_faulty_view. }
    apply (rtc_l _ _ plane_failed); [by eapply (P_reconcile _ _ ex_order ex_req), surjective_pairing|].
    apply rtc_once. by eapply (P_pre _ _ default_ranger "running"), surjective_pairing.
  - assert (is_Some (secrets (view plane_hooked) !! ("ns", "my-cluster-doorman-config"))) as [s Hs]
      by (apply (ex_decide _); vm_compute; reflexivity).
    exists s. split; [exact Hs|]. exact (Ht _ "my-cluster" s Hs).
Defined.
