(* ===== verification/Recovery.v ===== *)
(** * Recovery of the control plane

    The hook and the reconciliation of one cluster may fail at any call, any
    number of times and in any order. What they leave behind never makes a later
    run fail: the inputs of a ready PgDoorman stay ready, so that the first hook
    and reconciliation against an API server that answers end the work. *)
From S2P Require Import Prelude GoStd Api K8s PluginConfig DoormanConfig ConfigGen Specs Paths Kube MemClient Credentials Controller ControllerProofs Machinery Reconciler Progress ControlPlane.
From stdpp Require Import options.
Open Scope Z_scope.

Section recovery.
  #[local] Set Default Proof Using "Type*".
  Context {W : Type} {KC : KubeClient W} {KL : KubeLib} {KS : KubeSpec W} {KLS : KubeLibSpec}.
  Context {QS : Quantities} {YM : Yaml} {MC : Machinery} (r : RenderedConfigReconciler).

(** One run of the plugin for this PgDoorman or its Cluster, whatever fails. *)
Inductive work (req : key) (resource : string) (w : W) : W → Prop :=
  | W_reconcile ρ x w' : Reconcile r ρ req w = (x, w') → work req resource w w'
  | W_hook ρ x w' : pre (r_SidecarImage r) ρ resource w = (x, w') → work req resource w w'.

(** *** Same spec, same inputs *)
Definition same_inputs (pd pd' : PgDoorman) : Prop :=
  pgdoorman_key pd' = pgdoorman_key pd ∧ pd_Spec pd' = pd_Spec pd ∧ pd_Generation pd' = pd_Generation pd ∧
  pd_Deleting pd' = pd_Deleting pd.

Lemma inputs_same pd pd' c st : same_inputs pd pd' → inputs_ready r pd c st → inputs_ready r pd' c st.
Proof using.
  intros ([= Hns Hn] & Hspec & _) [H1 H2 H3 H4 H5 H6 H7 H8]. unfold stable_spec in *.
  split; unfold stable_spec; rewrite ?Hspec, ?Hns; done.
Qed.
Lemma settled_same pd pd' c st : same_inputs pd pd' → settled r pd' c st → settled r pd c st.
Proof using.
  intros ([= Hns Hn] & Hspec & _) (data & admin & b & Hr & Hrest). exists data, admin, b. split; [|done].
  unfold rendering in *. by rewrite Hspec, Hns in Hr.
Qed.
Lemma runs_same pd pd' c : same_inputs pd pd' → runs r pd c → runs r pd' c.
Proof using. intros ([= _ Hn] & _). unfold runs. by rewrite Hn. Qed.
Lemma same_inputs_trans pd pd' pd2 : same_inputs pd pd' → same_inputs pd' pd2 → same_inputs pd pd2.
Proof using.
  intros (? & ? & ? & ?) (? & ? & ? & ?). by split_and!; congruence.
Qed.

(** *** What a reconciliation does to the inputs *)
Lemma finalizer_step_live pd st st' :
  pgdoormen st !! pgdoorman_key pd = Some pd → pd_Deleting pd = false → finalizer_step pd st st' →
  is_Some (pgdoormen st' !! pgdoorman_key pd).
Proof using.
  intros Hpd Hd [->|(fs & a & _ & old & Hold & -> & ->)]; [by eexists|].
  change (pgdoorman_key (with_finalizers fs pd)) with (pgdoorman_key pd) in *. simpl.
  rewrite Hpd in Hold. injection Hold as <-. rewrite Hd. simpl. rewrite lookup_insert_eq. by eexists.
Qed.

Lemma reconciled_live pd st x st' :
  pgdoormen st !! pgdoorman_key pd = Some pd → pd_Deleting pd = false → reconciled r pd st x st' →
  is_Some (pgdoormen st' !! pgdoorman_key pd).
Proof using.
  intros Hpd Hd Hr. destruct Hr as [e| | |x answer st' Hd'|e st' _ Hf|fs st0 x st' _ Hf Hst _ Hc]; try congruence.
  - by eexists.
  - by eapply finalizer_step_live.
  - destruct (clusters st !! cluster_of pd) as [c|]; [|subst; by eexists].
    case_decide; [|subst; by eexists]. destruct Hc as (st1 & Ha & [(st2 & Hp & Hs) _]).
    assert (pgdoormen st2 = pgdoormen st0) as Heq.
    { transitivity (pgdoormen st1).
      - by destruct Hp as [->|(?&?&?&_&_&_&_&_&_&(?&_&_&_&->)%write_step_secrets)].
      - by destruct Ha as [->|(?&?&?&?&_&_&_&_&v&->)]. }
    destruct Hs as [->|(o & cs & old & Hold & ->)]; [rewrite Heq, Hst; by eexists|]. simpl.
    change (pgdoorman_key (with_status o cs (with_finalizers fs pd))) with (pgdoorman_key pd).
    rewrite lookup_insert_eq. by eexists.
Qed.

Lemma confined_visible pd st st' k s :
  confined pd st st' → k ≠ rendered_of pd → visible_at k st = Some s → visible_at k st' = Some s.
Proof using.
  intros Hcf Hk [Hs Hl]%visible_at_Some. apply visible_at_Some. split; [|done].
  destruct (decide (k = auth_of pd)) as [->|Hne]; [by apply Hcf|]. by rewrite (cf_secrets _ _ _ Hcf).
Qed.
Lemma confined_available pd st st' ref :
  confined pd st st' → ref_Name ref ≠ RenderedSecretName (ClusterRef (pd_Spec pd)) →
  available st (pd_Namespace pd) ref → available st' (pd_Namespace pd) ref.
Proof using.
  intros Hcf Hne (s & v & Hs & ? & ?). exists s, v. split; [|done].
  eapply confined_visible; [exact Hcf| |exact Hs]. unfold rendered_of. by intros [= ?].
Qed.

(** The generated Secret: absent, or what a normalised spec reads. *)
Definition auth_ready (pd : PgDoorman) (c : Cluster) (st : kstate) : Prop :=
  secrets st !! auth_key c = None ∨
  (available st (pd_Namespace pd) (generated_ref (pd_Spec pd)) ∧
   ∃ s, visible_at (auth_key c) st = Some s ∧ map_get (sec_Labels s) ClusterLabel = cl_Name c).

Lemma auth_step_ready pd c st st' :
  cluster_key c = cluster_of pd → secrets st !! auth_key c = None → auth_step pd c st st' → auth_ready pd c st'.
Proof using.
  intros Hc Hnone [->|(ρ & spec & user & pw & _ & [_ Hpw] & _ & Hcr)]; [by left|right].
  destruct (keys_of _ _ Hc) as (_ & Hak & _ & _).
  pose proof Hcr as (_ & _ & (s & Hs & Hlab & Hdata) & _)%created_auth_keeps.
  assert (visible_at (auth_key c) st' = Some s) as Hvis.
  { apply visible_at_Some. split; [done|]. rewrite Hlab, lookup_singleton_eq. by eexists. }
  split.
  - exists s, pw. split_and!; [by rewrite Hak in Hvis|by rewrite Hdata|done].
  - exists s. split; [done|]. rewrite Hlab. unfold map_get. by rewrite lookup_singleton_eq.
Qed.

Lemma publish_step_rendered pd c st st' :
  publish_step r pd c st st' → secrets st !! rendered_key c = None ∨ is_Some (visible_at (rendered_key c) st) →
  secrets st' !! rendered_key c = None ∨ is_Some (visible_at (rendered_key c) st').
Proof using.
  intros [->|(?&?&?&_&_&_&_&_&_&(s & _ & Hl & _ & ->)%write_step_secrets)] Hs; [done|right].
  exists s. apply visible_at_Some. simpl. split; [apply lookup_insert_eq|by eexists].
Qed.
Lemma publish_step_auth pd c st st' k :
  publish_step r pd c st st' → k ≠ rendered_key c → secrets st' !! k = secrets st !! k.
Proof using.
  intros [->|(?&?&?&_&_&_&_&_&_&(s & _ & _ & _ & ->)%write_step_secrets)] Hk; [done|]. by apply lookup_insert_ne.
Qed.

Lemma secrets_rendered c st st' :
  secrets st' = secrets st → secrets st !! rendered_key c = None ∨ is_Some (visible_at (rendered_key c) st) →
  secrets st' !! rendered_key c = None ∨ is_Some (visible_at (rendered_key c) st').
Proof using. unfold visible_at. by intros ->. Qed.

Lemma reconciled_inputs pd c st x st' :
  map_Forall (λ k c, cluster_key c = k) (clusters st) →
  pgdoormen st !! pgdoorman_key pd = Some pd → clusters st !! cluster_of pd = Some c →
  inputs_ready r pd c st → reconciled r pd st x st' → inputs_ready r pd c st'.
Proof.
  intros Hwc Hpd Hc Hin Hr. pose proof (reconciled_confined r _ _ _ _ Hwc Hpd Hr) as Hcf.
  pose proof (Hwc _ _ Hc) as Hkey; simpl in Hkey. destruct (keys_of _ _ Hkey) as (Hrk & Hak & _ & _).
  pose proof (in_stable _ _ _ _ Hin) as (_ & _ & Hself).
  assert (∀ k ref, credential (pd_Spec pd) k ref → ref_Name ref ≠ RenderedSecretName (ClusterRef (pd_Spec pd))) as Hnr.
  { intros k ref Hcr Heq. apply Hself. rewrite <- Heq. by eapply credential_references. }
  assert (auth_of pd ≠ rendered_of pd) as Har.
  { intros [= He]. by apply (rendered_name_not_auth (ClusterRef (pd_Spec pd)) (ClusterRef (pd_Spec pd))). }
  split; try apply Hin.
  - intros name Href. destruct (in_refs _ _ _ _ Hin name Href) as (s & Hs & Hl). exists s. split; [|done].
    eapply confined_visible; [exact Hcf| |exact Hs]. intros [= ->]. by apply Hself.
  - intros k ref Hcr. eapply confined_available; [done|by eapply Hnr|by eapply in_values].
  - intros Hu. destruct (in_auth _ _ _ _ Hin Hu) as [Hnone|(Hav & s & Hs & Hl)].
    2: { right. split.
         - eapply confined_available; [done| |done]. simpl. intros He.
           by apply (rendered_name_not_auth (ClusterRef (pd_Spec pd)) (ClusterRef (pd_Spec pd))).
         - exists s. split; [|done]. eapply confined_visible; [done|congruence|done]. }
    apply reconciled_secrets in Hr as [Hsec|(c' & st0 & st1 & st2 & _ & Hc' & _ & Hs0 & Ha & Hp & Hs)].
    { left. by rewrite Hsec. }
    rewrite Hc in Hc'. injection Hc' as <-.
    assert (secrets st' !! auth_key c = secrets st1 !! auth_key c) as Hauth.
    { rewrite Hs. eapply publish_step_auth; [done|congruence]. }
    apply auth_step_ready in Ha as [Hn|(Hav & s & Hvis & Hl)]; [left; congruence| |done|by rewrite Hs0].
    right. pose proof (visible_at_eq _ _ _ Hauth) as Hveq. split.
    + destruct Hav as (s' & v & Hs' & Hv). exists s', v. split; [|done]. rewrite <- Hs'.
      change (pd_Namespace pd, ref_Name (generated_ref (pd_Spec pd))) with (auth_of pd). by rewrite <- Hak.
    + exists s. by rewrite Hveq.
  - apply reconciled_secrets in Hr as [Hsec|(c' & st0 & st1 & st2 & _ & Hc' & _ & Hs0 & Ha & Hp & Hs)].
    { by eapply secrets_rendered, in_rendered. }
    rewrite Hc in Hc'. injection Hc' as <-. eapply secrets_rendered; [done|].
    eapply publish_step_rendered; [done|]. destruct Ha as [->|(ρ & spec & user & pw & _ & _ & _ & Hcr)].
    + by eapply secrets_rendered, in_rendered.
    + apply created_auth_keeps in Hcr as (_ & _ & _ & Hren).
      pose proof (secrets_rendered c _ _ Hs0 (in_rendered _ _ _ _ Hin)) as H0.
      destruct H0 as [?|[s' ?]]; [left; congruence|right; exists s'; by rewrite (visible_at_eq _ st0)].
Qed.

(** *** Readiness through any number of runs *)
(** The cluster is stored with its PgDoorman, live and with its inputs in place. *)
Record serviceable (pd : PgDoorman) (c : Cluster) (st : kstate) : Prop := {
  sv_keyed : well_keyed st;
  sv_cluster : clusters st !! cluster_of pd = Some c;
  sv_pgdoorman : ∃ pd', pgdoormen st !! pgdoorman_key pd = Some pd' ∧ same_inputs pd pd';
  sv_inputs : inputs_ready r pd c st
}.

(** An enabled hook takes nothing from a store but legacy RBAC. *)
Lemma hooked_enabled img ρ c st x st' :
  Enabled (NewFromCluster img c) = true → hooked img ρ c st x st' →
  pgdoormen st' = pgdoormen st ∧ clusters st' = clusters st ∧ secrets st' = secrets st.
Proof using.
  unfold hooked. intros ->. intros [[-> _]|[(_ & -> & _)|(_ & pd & st1 & _ & _ & Ho & Hs & _)]]; [done..|].
  assert (secrets st1 = secrets st) as Hsec.
  { apply map_eq. intros k. destruct (or_secrets _ _ _ Ho k) as [?|[Hin _]]; [done|]. by apply legacy_rbac_inv in Hin. }
  destruct Ho as [? ? _ _ _ _]. by destruct Hs as [->|(s & _ & ->)].
Qed.

Lemma inputs_secrets pd c st st' : secrets st' = secrets st → inputs_ready r pd c st → inputs_ready r pd c st'.
Proof using.
  intros Hs Hin. assert (∀ k, visible_at k st' = visible_at k st) as Hv by (intros; apply visible_at_eq; by rewrite Hs).
  destruct Hin as [H1 H2 H3 H4 H5 H6 H7 H8].
  split; unfold labelled_refs, available in *; try setoid_rewrite Hv; try rewrite Hs; done.
Qed.

Lemma work_serviceable resource pd c w w' :
  GetKind resource = Ok "Cluster" → DecodeCluster resource = Ok c → runs r pd c → pd_Deleting pd = false →
  work (pgdoorman_key pd) resource w w' → serviceable pd c (view w) → serviceable pd c (view w').
Proof.
  intros Hk Hd [Hen _] Hdel Hw [Hwk Hc (pd' & Hpd & Hsame) Hin].
  destruct Hw as [ρ x w' Hr|ρ x w' Hr].
  - apply Reconcile_reconciled in Hr; [|done]. rewrite Hpd in Hr. destruct Hr as [Hkey Hr].
    pose proof Hsame as (Hkey' & Hspec & Hgen & Hdel').
    assert (cluster_of pd' = cluster_of pd) as Hco by (unfold cluster_of; injection Hkey' as ??; congruence).
    pose proof Hwk as (_ & Hwc & _ & _). rewrite <- Hkey in Hpd.
    pose proof (reconciled_confined r _ _ _ _ Hwc Hpd Hr) as Hcf.
    destruct (reconciled_live _ _ _ _ Hpd ltac:(congruence) Hr) as [pd2 Hpd2].
    pose proof (reconciled_keyed r _ _ _ _ Hr Hwk) as Hwk'. split.
    + done.
    + by rewrite (cf_clusters _ _ _ Hcf).
    + exists pd2. rewrite <- Hkey. split; [done|]. apply (same_inputs_trans _ pd'); [done|].
      destruct (cf_self _ _ _ Hcf _ Hpd2) as (p & Hp & Hs). rewrite Hpd in Hp. injection Hp as <-.
      destruct Hwk' as (Hwp & _), Hs as (? & ? & ? & _). split; [by apply (Hwp _ _ Hpd2)|done].
    + apply (inputs_same pd'); [split_and!; congruence|].
      eapply reconciled_inputs; [done|done|by rewrite Hco|by eapply inputs_same|done].
  - apply (pre_hooked _ _ _ c) in Hr; [|done|done|by destruct Hwk as (_ & _ & _ & ?)].
    pose proof (hooked_well_keyed _ _ _ _ _ _ Hr Hwk) as Hwk'.
    apply hooked_enabled in Hr as (Hp & Hcl & Hs); [|done].
    split; [done|by rewrite Hcl|rewrite Hp; eauto|by eapply inputs_secrets].
Qed.

(** What the hook leaves, and the reconciliation does not touch. *)
Lemma hook_outcome ρ resource pd c w w' :
  GetKind resource = Ok "Cluster" → DecodeCluster resource = Ok c →
  map_Forall (λ k s, service_key s = k) (services (view w)) →
  let cfg := NewFromCluster (r_SidecarImage r) c in
  Enabled cfg = true → pgdoormen (view w) !! (cl_Namespace c, ConfigName cfg) = Some pd →
  pre (r_SidecarImage r) ρ resource w = (Ok continue_, w') →
  gone (legacy_rbac c) (view w') ∧ pooler_service c (PoolerPort cfg) (view w').
Proof.
  intros Hk Hd Hws cfg Hen Hpd Hr. apply (pre_hooked _ _ _ c) in Hr; [|done..].
  unfold hooked in Hr. fold cfg in Hr. rewrite Hen in Hr.
  destruct Hr as [[_ ?]|[(_ & _ & Hn & _)|(_ & pd' & st1 & _ & _ & Ho & Hs & _ & Hy)]]; [done| |].
  - by pose proof (eq_trans (eq_sym Hpd) Hn).
  - destruct (Hy _ eq_refl) as (_ & Hg & Hp). split; [by eapply gone_legacy_service|done].
Qed.
Lemma reconcile_keeps_hooked ρ req w x w' c port :
  well_keyed (view w) → Reconcile r ρ req w = (x, w') →
  gone (legacy_rbac c) (view w) → pooler_service c port (view w) →
  gone (legacy_rbac c) (view w') ∧ pooler_service c port (view w').
Proof.
  intros Hwk Hr Hg Hp. pose proof Hwk as (Hwp & Hwc & _).
  apply Reconcile_reconciled in Hr; [|done]. destruct (pgdoormen (view w) !! req) as [pd|] eqn:Hpd; [|by rewrite Hr].
  destruct Hr as [Hk Hr]. rewrite <- Hk in Hpd.
  pose proof (reconciled_confined r _ _ _ _ Hwc Hpd Hr) as [_ Hsv [Hro Hrb] _ _ _ _].
  split; [|unfold pooler_service; by rewrite Hsv].
  apply Forall_cons in Hg as [H1 [H2 _]%Forall_cons]. simpl in *.
  repeat constructor; simpl; by rewrite ?Hro, ?Hrb.
Qed.

Context {KU : KubeUp W} {YL : YamlLaws}.
(** Encoding a configuration does not fail. *)
Context (yaml_total : ∀ cfg, ∃ data, Marshal cfg = Ok data).

(** From a serviceable store, one hook and one reconciliation end the work. *)
Lemma serviceable_ends ρ ρ' resource pd c w2 :
  GetKind resource = Ok "Cluster" → DecodeCluster resource = Ok c → runs r pd c → pd_Deleting pd = false →
  serviceable pd c (view w2) → up w2 →
  ∃ w3 w4,
    pre (r_SidecarImage r) ρ resource w2 = (Ok continue_, w3) ∧
    Reconcile r ρ' (pgdoorman_key pd) w3 = (Ok Done, w4) ∧ up w4 ∧
    gone (legacy_rbac c) (view w4) ∧
    pooler_service c (PoolerPort (NewFromCluster (r_SidecarImage r) c)) (view w4) ∧
    settled r pd c (view w4) ∧
    ∃ pd' cond, pgdoormen (view w4) !! pgdoorman_key pd = Some pd' ∧
      FindStatusCondition (pd_Conditions pd') "Rendered" = Some cond ∧
      cond_Status cond = true ∧ cond_ObservedGeneration cond = pd_Generation pd.
Proof.
  intros Hk Hd Hruns Hdel Hsv Hu.
  pose proof (sv_cluster _ _ _ Hsv) as Hc2. destruct (sv_keyed _ _ _ Hsv) as (_ & Hwc & _ & Hws).
  pose proof (Hwc _ _ Hc2) as Hkey; simpl in Hkey. destruct (keys_of _ _ Hkey) as (_ & _ & Hns & Hname).
  pose proof Hruns as [Hen Hcn]. destruct (sv_pgdoorman _ _ _ Hsv) as (pd2 & Hpd2 & _ & Hspec2 & _).
  destruct (pre (r_SidecarImage r) ρ resource w2) as [y w3] eqn:Hpre.
  destruct (pre_completes r ρ resource c pd2 (view w2) Hk Hd Hws Hen) with (4 := conj Hu (eq_refl (view w2))) (5 := Hpre)
    as (? & -> & Hu3 & ->); [apply (sv_inputs _ _ _ Hsv)|by rewrite Hns, Hcn|by rewrite Hspec2|].
  assert (serviceable pd c (view w3)) as Hsv3 by (eapply work_serviceable; [done..|by eapply W_hook|done]).
  destruct (sv_pgdoorman _ _ _ Hsv3) as (pd3 & Hpd3 & Hsame3). pose proof Hsame3 as (Hkey3 & Hspec3 & Hgen3 & Hdel3).
  assert (cluster_of pd3 = cluster_of pd) as Hco3 by (unfold cluster_of; injection Hkey3 as ??; congruence).
  destruct (Reconcile r ρ' (pgdoorman_key pd) w3) as [z w4] eqn:Hr.
  destruct (Reconcile_ready yaml_total r ρ' (pgdoorman_key pd) w3 pd3 c z w4) as (-> & Hu4 & Hset & Hcond);
    [done|apply Hsv3|done|congruence|rewrite Hco3; apply Hsv3|by eapply runs_same|by eapply inputs_same, Hsv3|done|].
  destruct (hook_outcome ρ resource pd2 c w2 w3) as [Hg Hp];
    [done..|by destruct (sv_keyed _ _ _ Hsv) as (_ & _ & _ & ?)|by rewrite Hns, Hcn|done|].
  destruct (reconcile_keeps_hooked ρ' (pgdoorman_key pd) w3 (Ok Done) w4 c _ (sv_keyed _ _ _ Hsv3) Hr Hg Hp) as [Hg4 Hp4].
  exists w3, w4. split_and!; [done..|by eapply settled_same|]. destruct Hcond as (pd4 & cond & ? & ? & ? & ?).
  exists pd4, cond. split_and!; [done..|]. congruence.
Qed.

(** Recovery: whatever happened in any number of earlier hooks and
    reconciliations of a cluster with its PgDoorman (each may have stopped at any
    failing call), once the API server answers, the next hook lets CloudNativePG go
    on and the next reconciliation ends, and together they leave no legacy RBAC,
    the pooler Service of the plugin's port, a rendered Secret that holds the
    configuration of the spec, and a Rendered condition that is true for the
    PgDoorman's generation. *)
Theorem control_plane_recovers ρ ρ' resource pd c w w1 w2 :
  GetKind resource = Ok "Cluster" → DecodeCluster resource = Ok c → well_keyed (view w) →
  pgdoormen (view w) !! pgdoorman_key pd = Some pd → pd_Deleting pd = false →
  clusters (view w) !! cluster_of pd = Some c → runs r pd c → inputs_ready r pd c (view w) →
  rtc (work (pgdoorman_key pd) resource) w w1 → view w2 = view w1 → up w2 →
  ∃ w3 w4,
    pre (r_SidecarImage r) ρ resource w2 = (Ok continue_, w3) ∧
    Reconcile r ρ' (pgdoorman_key pd) w3 = (Ok Done, w4) ∧ up w4 ∧
    gone (legacy_rbac c) (view w4) ∧
    pooler_service c (PoolerPort (NewFromCluster (r_SidecarImage r) c)) (view w4) ∧
    settled r pd c (view w4) ∧
    ∃ pd' cond, pgdoormen (view w4) !! pgdoorman_key pd = Some pd' ∧
      FindStatusCondition (pd_Conditions pd') "Rendered" = Some cond ∧
      cond_Status cond = true ∧ cond_ObservedGeneration cond = pd_Generation pd.
Proof.
  intros Hk Hd Hwk Hpd Hdel Hc Hruns Hin Hw Hv Hu.
  apply serviceable_ends; [done..| |done].
  rewrite Hv. clear Hv w2 Hu. assert (serviceable pd c (view w)) as Hsv by (split; [done..|by exists pd|done]).
  clear -Hk Hd Hruns Hdel Hw Hsv KS KLS. induction Hw as [|wa wb wc Hs _ IH]; [done|].
  apply IH. by eapply work_serviceable.
Qed.
End recovery.

(** ** Example: the PgDoorman of the controller's example *)
#[local] Instance px_quantities : Quantities := example_quantities.
#[local] Instance px_yaml : Yaml := numeral_yaml.
#[local] Instance px_yaml_laws : YamlLaws := numeral_yaml_laws.

Lemma px_refless u : has_refless example_spec u → u = "doorman_auth".
Proof. intros (name & p & Hp & Hr). unfold example_spec in Hp. cbn [Pools] in Hp.
  apply lookup_singleton_Some in Hp as [<- <-]. vm_compute in Hr. congruence. Qed.
Lemma px_credential k ref : credential example_spec k ref → ref = {| ref_Name := "alice-pw"; ref_Key := "password" |}.
Proof.
  intros [(name & p & Hp & Hin)|[_ Hin]]; [|by apply not_elem_of_nil in Hin]. unfold example_spec in Hp. cbn [Pools] in Hp.
  apply lookup_singleton_Some in Hp as [<- <-]. by apply list_elem_of_singleton in Hin as [= _ ->].
Qed.
Lemma px_ready : inputs_ready ex_reconciler ex_pd example_cluster (view ex_world).
Proof.
  split.
  - apply (Validate_correct default_ranger). by vm_compute.
  - apply example_admitted.
  - apply ex_stable.
  - by intros x y ->%px_refless ->%px_refless.
  - intros name (k & ref & ->%px_credential & <-)%references_credential. by eexists.
  - intros k ref ->%px_credential. by eexists _, _.
  - by left.
  - by left.
Qed.

#[local] Instance px_machinery : Machinery := example_machinery px_quantities.

Lemma px_total cfg : ∃ data, Marshal cfg = Ok data.
Proof. by eexists. Qed.

(** A reconciliation stopped by its sixth call, a hook stopped by its third, and
    then a server that answers. *)
Definition px_start : mem := ex_mem ex_pd [false; false; false; false; false; true; false; false; true].
Definition px_stopped : mem :=
  (pre "img" default_ranger "running" (Reconcile ex_reconciler ex_order ex_req px_start).2).2.
Definition px_again : mem := Mem (view px_stopped) [] (Z.of_nat <$> seq 1 64) [].

Lemma control_plane_recovers_witness :
  ∃ w3 w4, pre "img" default_ranger "running" px_again = (Ok continue_, w3) ∧
    Reconcile ex_reconciler ex_order ex_req w3 = (Ok Done, w4) ∧
    settled ex_reconciler ex_pd example_cluster (view w4) ∧ pooler_service example_cluster 6433 (view w4).
Proof.
  destruct (control_plane_recovers ex_reconciler px_total default_ranger ex_order "running"
    ex_pd example_cluster px_start px_stopped px_again) as (w3 & w4 & ? & ? & _ & _ & ? & ? & _).
  - reflexivity.
  - reflexivity.
  - apply ex_well_keyed.
  - apply ex_lookup.
  - reflexivity.
  - apply lookup_singleton_eq.
  - apply ex_runs.
  - apply px_ready.
  - eapply rtc_l; [eapply W_reconcile, surjective_pairing|].
    eapply rtc_l; [eapply W_hook, surjective_pairing|]. apply rtc_refl.
  - reflexivity.
  - split; [done|]. by repeat constructor.
  - exists w3, w4. split_and!; assumption.
Defined.
