(* ===== verification/Concurrent.v ===== *)
(** * The control plane interleaved call by call

    [ControlPlane] takes each reconciliation and each hook call as one step. Here
    any number of them run at once, on all the replicas of the plugin: between two
    calls to the API server the others, the users and the operator may do anything,
    any call may fail, and a read may answer from a cache that lags behind by any
    amount ([KubeLag]). *)
From S2P Require Import Prelude Threads GoStd Api K8s PluginConfig DoormanConfig ConfigGen Specs Json Paths Kube MemClient.
From S2P Require Import Credentials Controller ControllerProofs Machinery Reconciler ControlPlane.
From stdpp Require Import options.
Open Scope Z_scope.

(** ** The code as sequences of calls *)
Section cuts.
  Context {W : Type} {KC : KubeClient W} {KL : KubeLib} {QS : Quantities} {YM : Yaml} {MC : Machinery}.
  Context (r : RenderedConfigReconciler).

#[export] Instance cut_get_pgdoorman k : Steps (get_pgdoorman k) := one_call _.
#[export] Instance cut_get_cluster k : Steps (get_cluster k) := one_call _.
#[export] Instance cut_get_secret k : Steps (get_secret k) := one_call _.
#[export] Instance cut_get_service k : Steps (get_service k) := one_call _.
#[export] Instance cut_create_secret s : Steps (create_secret s) := one_call _.
#[export] Instance cut_create_service s : Steps (create_service s) := one_call _.
#[export] Instance cut_patch_secret b s : Steps (patch_secret b s) := one_call _.
#[export] Instance cut_patch_service b s : Steps (patch_service b s) := one_call _.
#[export] Instance cut_patch_pgdoorman p : Steps (patch_pgdoorman p) := one_call _.
#[export] Instance cut_update_status p : Steps (update_status p) := one_call _.
#[export] Instance cut_delete_object kd k : Steps (delete_object kd k) := one_call _.
#[export] Instance cut_record_event k ev : Steps (record_event k ev) := one_call _.
#[export] Instance cut_rand_Read n : Steps (rand_Read n) := one_call _.

#[export] Program Instance cut_lift {A} (x : res A) : Steps (W := W) (lift x) := {| steps := Ret x |}.
Next Obligation. done. Qed.
#[export] Instance cut_for_each {A} (f : A → M W unit) `{!∀ x, Steps (f x)} l : Steps (for_each f l).
Proof. induction l as [|x l IH]; simpl; apply _. Defined.
#[export] Instance cut_foldMW {S A} (f : S → A → M W S) `{!∀ s x, Steps (f s x)} l : ∀ s, Steps (foldMW f s l).
Proof. induction l as [|x l IH]; intros s; simpl; apply _. Defined.
#[export] Instance cut_wrap_err {A} fmt args (m : M W A) `{!Steps m} : Steps (wrap_err fmt args m).
Proof. unfold wrap_err. cut_steps. Defined.

#[export] Instance cut_ExtractSecretValue ref ns : Steps (ExtractSecretValue ref ns).
Proof. unfold ExtractSecretValue. cut_steps. Defined.
#[export] Instance cut_resolve_user ns p pw u : Steps (resolve_user ns p pw u).
Proof. unfold resolve_user. cut_steps. Defined.
#[export] Instance cut_resolve_authQuery ns p pw aq : Steps (resolve_authQuery ns p pw aq).
Proof. unfold resolve_authQuery. cut_steps. Defined.
#[export] Instance cut_resolve_pool ns pw e : Steps (resolve_pool ns pw e).
Proof. unfold resolve_pool. destruct e. cut_steps. Defined.
#[export] Instance cut_resolve_admin ns pw spec : Steps (resolve_admin ns pw spec).
Proof. unfold resolve_admin. cut_steps. Defined.
#[export] Instance cut_ResolvePasswords ρ ns spec : Steps (ResolvePasswords ρ ns spec).
Proof. unfold ResolvePasswords. cut_steps. Defined.

#[export] Instance cut_eventf pd reason msg : Steps (eventf r pd reason msg).
Proof. unfold eventf. cut_steps. Defined.
#[export] Instance cut_setRendered pd ok reason msg : Steps (setRendered r pd ok reason msg).
Proof. unfold setRendered. cut_steps. Defined.
#[export] Instance cut_reconcileDeletion pd inUse : Steps (reconcileDeletion r pd inUse).
Proof. unfold reconcileDeletion. cut_steps. Defined.
#[export] Instance cut_ensureFinalizer pd inUse : Steps (ensureFinalizer pd inUse).
Proof. unfold ensureFinalizer. cut_steps. Defined.
#[export] Instance cut_check_owner ns cl name : Steps (check_owner ns cl name).
Proof. unfold check_owner. cut_steps. Defined.
#[export] Instance cut_validateSecretOwnership ρ pd spec cl : Steps (validateSecretOwnership ρ pd spec cl).
Proof. unfold validateSecretOwnership. apply _. Defined.
#[export] Instance cut_randomPassword : Steps randomPassword.
Proof. unfold randomPassword. cut_steps. Defined.
#[export] Instance cut_ensureGeneratedAuthSecret c user : Steps (ensureGeneratedAuthSecret c user).
Proof. unfold ensureGeneratedAuthSecret. cut_steps. Defined.
#[export] Instance cut_adminPasswordFallback c : Steps (adminPasswordFallback c).
Proof. unfold adminPasswordFallback. cut_steps. Defined.
#[export] Instance cut_upsertSecret c data admin inPlace : Steps (upsertSecret r c data admin inPlace).
Proof. unfold upsertSecret. cut_steps. Defined.
#[export] Instance cut_render ρ spec ns c cfg : Steps (render ρ spec ns c cfg).
Proof. unfold render. cut_steps. Defined.
#[export] Instance cut_report_failure pd reason ev e res : Steps (report_failure r pd reason ev e res).
Proof. unfold report_failure. cut_steps. Defined.
#[export] Instance cut_reconcile_render ρ pd c cfg spec : Steps (reconcile_render r ρ pd c cfg spec).
Proof. unfold reconcile_render. cut_steps. Defined.
#[export] Instance cut_reconcile_cluster ρ pd c : Steps (reconcile_cluster r ρ pd c).
Proof. unfold reconcile_cluster. cut_steps. Defined.
#[export] Instance cut_Reconcile ρ req : Steps (Reconcile r ρ req).
Proof. unfold Reconcile. cut_steps. Defined.

#[export] Instance cut_delete_present o : Steps (delete_present o).
Proof. unfold delete_present. cut_steps. Defined.
#[export] Instance cut_cleanup c : Steps (cleanup c).
Proof. unfold cleanup. apply _. Defined.
#[export] Instance cut_cleanupLegacyRBAC c : Steps (cleanupLegacyRBAC c).
Proof. unfold cleanupLegacyRBAC. apply _. Defined.
#[export] Instance cut_ensureService c port : Steps (ensureService c port).
Proof. unfold ensureService. cut_steps. Defined.
#[export] Instance cut_pre_owned c cfg pd : Steps (pre_owned c cfg pd).
Proof. unfold pre_owned. cut_steps. Defined.
#[export] Instance cut_pre_cluster img ρ c : Steps (pre_cluster img ρ c).
Proof. unfold pre_cluster. cut_steps. Defined.
#[export] Instance cut_pre img ρ resource : Steps (pre img ρ resource).
Proof. unfold pre. cut_steps. Defined.
End cuts.

(** ** An API server seen through caches

    A read answers with an object of the key it was asked for, of any time; writes
    are as in [KubeSpec]. *)
Definition lagging {W A} (store : W → kstate) (op : M W A) (φ : A → Prop) : Prop :=
  ∀ w r w', op w = (r, w') → store w' = store w ∧ ∀ x, r = Ok x → φ x.
Class KubeLag (W : Type) `{KubeClient W} : Type := {
  store : W → kstate;
  lag_get_pgdoorman k : lagging store (get_pgdoorman k) (λ p, pgdoorman_key p = k);
  lag_get_cluster k : lagging store (get_cluster k) (λ c, cluster_key c = k);
  lag_get_secret k : lagging store (get_secret k) (λ s, secret_key s = k);
  lag_get_service k : lagging store (get_service k) (λ s, service_key s = k);
  lag_create_secret s : write_law store (create_secret s) (created_secret s);
  lag_create_service s : write_law store (create_service s) (created_service s);
  lag_patch_secret b s : write_law store (patch_secret b s) (patched_secret b s);
  lag_patch_service b s : write_law store (patch_service b s) (patched_service b s);
  lag_patch_pgdoorman p : write_law store (patch_pgdoorman p) (patched_pgdoorman p);
  (** The server answers with the object that was patched. *)
  lag_patch_answer p w a w' : patch_pgdoorman p w = (Ok a, w') → pgdoorman_key a = pgdoorman_key p;
  lag_update_status p : write_law store (update_status p) (updated_status p);
  lag_delete_object kd k : write_law store (delete_object kd k) (deleted_object kd k);
  lag_record_event k ev : lagging store (record_event k ev) (λ _, True);
  lag_rand_Read n : lagging store (rand_Read n) (λ l, length l = n)
}.

(** ** Computations whose calls keep within a guarantee, whatever happens in between *)
Section within.
  #[local] Set Default Proof Using "Type*".
  Context {W : Type} {KC : KubeClient W} {LG : KubeLag W} (G : kstate → kstate → Prop) (G_refl : ∀ st, G st st).

Definition call_within (h : history W) (w : W) : Prop := G (store (now h)) (store w).
Definition within {A} (m : M W A) {cut : Steps m} (Q : res A → Prop) : Prop :=
  sound (λ _ _, True) call_within (λ _, True) m (λ r _, Q r).

Lemma within_mono {A} (m : M W A) `{!Steps m} Q Q' : within m Q' → (∀ r, Q' r → Q r) → within m Q.
Proof using. intros Hm HQ. eapply sound_post; [exact Hm|]. intros r h. apply HQ. Qed.
Lemma within_ret {A} (a : A) (Q : res A → Prop) : Q (Ok a) → within (mret a) Q.
Proof using. intros HQ. apply sound_ret; [done|]. by intros. Qed.
Lemma within_throw {A} e (Q : res A → Prop) : Q (Err e) → within (throw e) Q.
Proof using. intros HQ. apply sound_throw; [done|]. by intros. Qed.
Lemma within_lift {A} (x : res A) (Q : res A → Prop) : Q x → within (lift x) Q.
Proof using. intros HQ h _ h' _. exact HQ. Qed.
Lemma within_bind {A B} (m : M W A) (f : A → M W B) `{!Steps m} `{!∀ a, Steps (f a)} (P : A → Prop) Q :
  within m (λ r, match r with Ok a => P a | Err e => Q (Err e) end) → (∀ a, P a → within (f a) Q) → within (m ≫= f) Q.
Proof using.
  intros Hm Hf. apply sound_bind with (P' := λ a _, P a); [exact Hm|]. intros a h Ha. by apply Hf.
Qed.
Lemma within_try {A} (m : M W A) `{!Steps m} Q :
  within m (λ r, Q (Ok r)) → within (try_ m) Q.
Proof using.
  intros Hm. eapply sound_post; [apply sound_try, Hm|]. by intros [r|e] h.
Qed.
Lemma within_bind_try {A B} (m : M W A) (f : res A → M W B) `{!Steps m} `{!∀ r, Steps (f r)} P Q :
  within m P → (∀ x, P x → within (f x) Q) → within (try_ m ≫= f) Q.
Proof using.
  intros Hm Hf. apply within_bind with (P := P); [|done]. by apply within_try.
Qed.
(** Where only the guarantee matters. *)
Notation runs_within m := (within m (λ _, True)).
Lemma within_any {A} (m : M W A) `{!Steps m} Q : within m Q → runs_within m.
Proof using. intros Hm. by eapply within_mono. Qed.
Lemma within_seq {A B} (m : M W A) (f : A → M W B) `{!Steps m} `{!∀ a, Steps (f a)} :
  runs_within m → (∀ a, runs_within (f a)) → runs_within (m ≫= f).
Proof using.
  intros Hm Hf. apply within_bind with (P := λ _, True); [|by intros].
  eapply within_mono; [exact Hm|]. by intros [].
Qed.
Lemma within_for_each {A} (f : A → M W unit) `{!∀ x, Steps (f x)} l :
  (∀ x, x ∈ l → runs_within (f x)) → runs_within (for_each f l).
Proof using.
  induction l as [|x l IH]; intros Hf; [by apply within_ret|].
  apply within_seq; [apply Hf; by left|]. intros _. apply IH. intros y Hy. apply Hf. by right.
Qed.
Lemma within_foldMW {S A} (f : S → A → M W S) `{!∀ s x, Steps (f s x)} l s :
  (∀ s x, runs_within (f s x)) → runs_within (foldMW f s l).
Proof using.
  intros Hf. revert s. induction l as [|x l IH]; intros s; [by apply within_ret|].
  apply within_seq; [apply Hf|]. intros s'. apply IH.
Qed.

Lemma within_read {A} (op : M W A) (φ : A → Prop) :
  lagging store op φ → within op (cut := one_call op) (λ r, ∀ x, r = Ok x → φ x).
Proof.
  intros Hl. apply sound_call; [done|by intros ? ??|]. intros h x w _ Hr. apply Hl in Hr as [Hs Hx].
  split; [|done]. unfold call_within. rewrite Hs. apply G_refl.
Qed.
Lemma within_write {A} (op : M W A) applied (Q : res A → Prop) :
  write_law store op applied → (∀ a st st', applied a st st' → G st st') → (∀ w x w', op w = (x, w') → Q x) →
  within op (cut := one_call op) Q.
Proof.
  intros Hl Hg HQ. apply sound_call; [done|by intros ? ??|]. intros h x w _ Hr. split; [|by eapply HQ].
  apply Hl in Hr. unfold call_within. destruct x as [a|e]; [by eapply Hg|].
  destruct Hr as [->|[a Hr]]; [apply G_refl|by eapply Hg].
Qed.
End within.

(** ** What one call may do *)
(** A generated Secret of [cl]. *)
Record generated_for (cl : string) (s : Secret) : Prop := {
  gf_label : sec_Labels s = {[ ClusterLabel := cl ]};
  gf_password : map_get (sec_Data s) "password" ≠ ""
}.
(** A call of the reconciliation of [req]: it writes the finalizers and the status
    of that PgDoorman, rendered Secrets of its namespace, and generated Secrets
    that do not exist; and it keeps the type of the store. *)
Record reconcile_call `{Yaml} (req : key) (st st' : kstate) : Prop := {
  rc_clusters : clusters st' = clusters st;
  rc_services : services st' = services st;
  rc_rbac : roles st' = roles st ∧ rolebindings st' = rolebindings st;
  rc_others : ∀ k, k ≠ req → pgdoormen st' !! k = pgdoormen st !! k;
  rc_self : ∀ p', pgdoormen st' !! req = Some p' → ∃ p, pgdoormen st !! req = Some p ∧
    pd_Spec p' = pd_Spec p ∧ pd_Generation p' = pd_Generation p ∧ pd_Deleting p' = pd_Deleting p;
  rc_gone : pgdoormen st' !! req = None → ∀ p, pgdoormen st !! req = Some p → pd_Deleting p = true;
  rc_secrets : ∀ k, secrets st' !! k = secrets st !! k ∨
    (k.1 = req.1 ∧ ∃ cl s, secrets st' !! k = Some s ∧
     (k.2 = RenderedSecretName cl ∨ (k.2 = GeneratedAuthSecretName cl ∧ secrets st !! k = None ∧ generated_for cl s)));
  rc_typed : well_typed st → well_typed st'
}.
(** A call of the hook for [c]. *)
Record hook_call `{Yaml} (img : string) `{Quantities} (c : Cluster) (st st' : kstate) : Prop := {
  hc_pgdoormen : pgdoormen st' = pgdoormen st;
  hc_clusters : clusters st' = clusters st;
  hc_secrets : ∀ k, secrets st' !! k = secrets st !! k ∨
    (Enabled (NewFromCluster img c) = false ∧ k = rendered_key c ∧ secrets st' !! k = None);
  hc_services : ∀ k, k ≠ (cl_Namespace c, GetServiceName (cl_Name c)) → services st' !! k = services st !! k;
  hc_rbac : ∀ k, k ≠ (cl_Namespace c, GetRBACName (cl_Name c)) →
    (k ∈ roles st' ↔ k ∈ roles st) ∧ (k ∈ rolebindings st' ↔ k ∈ rolebindings st);
  hc_typed : well_typed st → well_typed st'
}.

(** What makes a rendered Secret well typed. *)
Record well_content `{Yaml} (d : gmap string string) : Prop := {
  wc_config : ∃ cfg, Unmarshal (map_get d ConfigKey) = Ok cfg ∧ valid_doorman cfg;
  wc_admin : map_get d generatedAdminPasswordKey ≠ "";
  wc_binary : map_get d BinarySpecKey = "" ∨ is_ok (ParseBinarySpec (map_get d BinarySpecKey)) = true
}.
Lemma well_rendered_content `{Yaml} cl s :
  well_rendered cl s ↔ sec_Labels s !! ClusterLabel = Some cl ∧ well_content (sec_Data s).
Proof. split; [intros []; by repeat split|intros [? []]; by split]. Qed.

Lemma map_get_patch (P : string → Prop) base new cur k :
  P (map_get cur k) → P (map_get new k) → P (map_get (patch_map base new cur) k).
Proof. unfold map_get. rewrite lookup_patch_map. unfold patch_field. by case_decide. Qed.
(** Patches of well-typed contents are well typed, whatever they were computed from. *)
Lemma well_content_patch `{Yaml} base new cur :
  well_content new → well_content cur → well_content (patch_map base new cur).
Proof.
  intros [H1 H2 H3] [H4 H5 H6]. split.
  - by apply (map_get_patch (λ x, ∃ cfg, Unmarshal x = Ok cfg ∧ valid_doorman cfg)).
  - by apply (map_get_patch (λ x, x ≠ "")).
  - by apply (map_get_patch (λ x, x = "" ∨ is_ok (ParseBinarySpec x) = true)).
Qed.

Section reconcile_calls.
  #[local] Set Default Proof Using "Type*".
  Context {YM : Yaml}.

Lemma reconcile_call_refl req st : reconcile_call req st st.
Proof. split; eauto. congruence. Qed.
Lemma hook_call_refl {QS : Quantities} img c st : hook_call img c st st.
Proof. split; eauto. Qed.

Lemma typed_insert_rendered k cl s st :
  k.2 = RenderedSecretName cl → secret_key s = k → well_rendered cl s → well_typed st →
  well_typed (set_secrets (<[k := s]> (secrets st)) st).
Proof.
  intros Hk Hs Hw [Hwk Ht]. subst k. split; [by apply secret_insert_keyed|]. intros ns cl' s'. simpl.
  destruct (decide (secret_key s = (ns, RenderedSecretName cl'))) as [He|He].
  - rewrite He, lookup_insert_eq. intros [= <-]. rewrite He in Hk. simpl in Hk.
    by apply (inj RenderedSecretName) in Hk as ->.
  - rewrite lookup_insert_ne by done. apply Ht.
Qed.

Lemma rendered_write_call req k cl s st :
  k.1 = req.1 → k.2 = RenderedSecretName cl → secret_key s = k → (well_typed st → well_rendered cl s) →
  reconcile_call req st (set_secrets (<[k := s]> (secrets st)) st).
Proof.
  intros Hns Hk Hs Hw. split; simpl; eauto; [congruence| |].
  - intros k'. destruct (decide (k' = k)) as [->|Hne]; [right|left; by rewrite lookup_insert_ne].
    split; [done|]. exists cl, s. rewrite lookup_insert_eq. split; [done|]. by left.
  - intros Ht. eapply typed_insert_rendered; eauto.
Qed.

Lemma auth_create_call req cl s st st' u :
  sec_Namespace s = req.1 → sec_Name s = GeneratedAuthSecretName cl → generated_for cl s → created_secret s u st st' →
  reconcile_call req st st'.
Proof.
  intros Hns Hn Hg (Hnone & v & ->). split; simpl; eauto; [congruence| |].
  - intros k. destruct (decide (k = secret_key s)) as [->|Hne]; [right|left; by rewrite lookup_insert_ne].
    split; [done|]. exists cl, (with_version v s). rewrite lookup_insert_eq. split; [done|]. right.
    split_and!; [done..|]. by destruct Hg.
  - intros [Hwk Ht]. split; [apply (secret_insert_keyed (with_version v s)), Hwk|]. intros ns cl' s'. simpl.
    rewrite lookup_insert_ne; [apply Ht|]. unfold secret_key. intros [= _ He]. rewrite Hn in He.
    by apply (rendered_name_not_auth cl' cl).
Qed.

Lemma pgdoormen_call req m st :
  (∀ k, k ≠ req → m !! k = pgdoormen st !! k) →
  (∀ p', m !! req = Some p' → ∃ p, pgdoormen st !! req = Some p ∧
    pd_Spec p' = pd_Spec p ∧ pd_Generation p' = pd_Generation p ∧ pd_Deleting p' = pd_Deleting p) →
  (m !! req = None → ∀ p, pgdoormen st !! req = Some p → pd_Deleting p = true) →
  (well_keyed st → map_Forall (λ k p, pgdoorman_key p = k) m) →
  reconcile_call req st (set_pgdoormen m st).
Proof.
  intros H1 H2 H3 Hk. split; simpl; auto. intros [Hwk Ht]. split; [|by apply (rendered_typed_secrets st)].
  pose proof (Hk Hwk). destruct Hwk as (_ & ? & ? & ?). by split_and!.
Qed.

Lemma patched_call req p a st st' :
  pgdoorman_key p = req → patched_pgdoorman p a st st' → reconcile_call req st st'.
Proof.
  intros <- (old & Hold & -> & ->). apply pgdoormen_call.
  - intros k Hk. destruct (_ && _); [by rewrite lookup_delete_ne|by rewrite lookup_insert_ne].
  - intros p'. destruct (_ && _); [by rewrite lookup_delete_eq|]. rewrite lookup_insert_eq. intros [= <-]. by exists old.
  - destruct (_ && _) eqn:E; [|by rewrite lookup_insert_eq]. apply andb_true_iff in E as [Hd _]. intros _ p'.
    rewrite Hold. by intros [= <-].
  - intros (Hp & _). destruct (_ && _); [by apply map_Forall_delete|].
    apply map_Forall_insert_2; [by apply (Hp _ _ Hold)|done].
Qed.

Lemma status_call req p u st st' :
  pgdoorman_key p = req → updated_status p u st st' → reconcile_call req st st'.
Proof.
  intros <- (old & Hold & ->). apply pgdoormen_call.
  - intros k Hk. by rewrite lookup_insert_ne.
  - intros p'. rewrite lookup_insert_eq. intros [= <-]. by exists old.
  - by rewrite lookup_insert_eq.
  - intros (Hp & _). apply map_Forall_insert_2; [by apply (Hp _ _ Hold)|done].
Qed.
End reconcile_calls.

(** ** A reconciliation *)
Section reconcile_within.
  #[local] Set Default Proof Using "Type*".
  Context {W : Type} {KC : KubeClient W} {KL : KubeLib} {KLS : KubeLibSpec} {QS : Quantities} {YM : Yaml}.
  Context {LG : KubeLag W} (r : RenderedConfigReconciler) (req : key).
  #[local] Notation rwithin m Q := (within (reconcile_call req) m Q).
  #[local] Notation runs m := (rwithin m (λ _, True)).

Lemma runs_read {A} (op : M W A) φ : lagging store op φ → within (reconcile_call req) op (cut := one_call op) (λ _, True).
Proof using. intros Hl. eapply within_any, within_read, Hl. intros. apply reconcile_call_refl. Qed.
Lemma read_within {A} (op : M W A) φ :
  lagging store op φ → within (reconcile_call req) op (cut := one_call op) (λ x, ∀ a, x = Ok a → φ a).
Proof using. intros Hl. apply within_read; [|done]. intros. apply reconcile_call_refl. Qed.
Lemma write_within {A} (op : M W A) applied :
  write_law store op applied → (∀ a st st', applied a st st' → reconcile_call req st st') →
  within (reconcile_call req) op (cut := one_call op) (λ _, True).
Proof using. intros Hl Hg. eapply within_write; [|done|done|done]. intros. apply reconcile_call_refl. Qed.

Lemma wrap_err_within {A} fmt args (m : M W A) `{!Steps m} : runs m → runs (wrap_err fmt args m).
Proof using.
  intros Hm. apply within_bind_try with (P := λ _, True); [done|]. intros [a|e] _; [by apply within_ret|by apply within_throw].
Qed.
Lemma ExtractSecretValue_within ref ns : runs (ExtractSecretValue ref ns).
Proof.
  apply within_seq; [eapply wrap_err_within, runs_read, lag_get_secret|]. intros s.
  destruct (sec_Data s !! ref_Key ref); [by apply within_ret|by apply within_throw].
Qed.
Lemma resolve_authQuery_within ns p pw aq : runs (resolve_authQuery ns p pw aq).
Proof.
  unfold resolve_authQuery, cut_resolve_authQuery. destruct aq as [aq|]; [|by apply within_ret].
  destruct (aq_PasswordSecretRef aq) as [ref|]; [|by apply within_ret].
  apply within_seq; [apply wrap_err_within, ExtractSecretValue_within|]. intros v. by apply within_ret.
Qed.
Lemma resolve_pool_within ns pw e : runs (resolve_pool ns pw e).
Proof.
  unfold resolve_pool, cut_resolve_pool. destruct e as [name pool]. apply within_seq; [apply resolve_authQuery_within|].
  intros pw'. apply within_foldMW. intros pw2 u. apply within_seq; [apply wrap_err_within, ExtractSecretValue_within|].
  intros v. by apply within_ret.
Qed.
Lemma ResolvePasswords_within ρ ns spec : runs (ResolvePasswords ρ ns spec).
Proof.
  apply within_seq; [apply within_foldMW; intros; apply resolve_pool_within|]. intros pw.
  unfold resolve_admin, cut_resolve_admin. destruct (General spec) as [g|]; [|by apply within_ret].
  destruct (gs_AdminPasswordSecretRef g) as [ref|]; [|by apply within_ret].
  apply within_seq; [apply wrap_err_within, ExtractSecretValue_within|]. intros v. by apply within_ret.
Qed.

(** Events and status. *)
Lemma eventf_within pd reason msg : runs (eventf r pd reason msg).
Proof.
  unfold eventf, cut_eventf. destruct (r_Recorder r); [eapply runs_read, lag_record_event|by apply within_ret].
Qed.
Lemma setRendered_within pd ok reason msg : pgdoorman_key pd = req → runs (setRendered r pd ok reason msg).
Proof.
  intros Hk. unfold setRendered, cut_setRendered. cbv zeta. destruct (SetStatusCondition _ _) as [cs changed].
  destruct (negb changed && _); [by apply within_ret|]. apply within_seq.
  - destruct (_ ≫= _) as [c|]; [|by apply within_ret].
    destruct (ok && _ && _); [eapply runs_read, lag_record_event|by apply within_ret].
  - intros u. eapply write_within; [apply lag_update_status|]. intros a st st'. by apply status_call.
Qed.
Lemma report_failure_within pd reason ev e res : pgdoorman_key pd = req → runs (report_failure r pd reason ev e res).
Proof.
  intros Hk. apply within_seq; [apply eventf_within|]. intros _.
  apply within_seq; [by apply setRendered_within|]. intros _. by apply within_ret.
Qed.

(** The finalizer. *)
Lemma reconcileDeletion_within pd inUse : pgdoorman_key pd = req → runs (reconcileDeletion r pd inUse).
Proof.
  intros Hk. unfold reconcileDeletion, cut_reconcileDeletion. destruct (negb _); [by apply within_ret|].
  destruct inUse; (apply within_seq; [|intros _; by apply within_ret]); [apply eventf_within|].
  eapply write_within; [apply lag_patch_pgdoorman|]. intros a st st'. by apply patched_call.
Qed.
Lemma ensureFinalizer_within pd inUse :
  pgdoorman_key pd = req → rwithin (ensureFinalizer pd inUse) (λ x, ∀ pd', x = Ok pd' → pgdoorman_key pd' = req).
Proof.
  intros Hk. unfold ensureFinalizer, cut_ensureFinalizer. cbv zeta. destruct (Bool.eqb _ _).
  - apply within_ret. by intros ? [= <-].
  - eapply within_write; [intros; apply reconcile_call_refl|apply lag_patch_pgdoorman| |].
    + intros a st st'. by apply patched_call.
    + intros w x w' Hr pd' ->. apply lag_patch_answer in Hr. by rewrite Hr.
Qed.

(** The inputs. *)
Lemma validateSecretOwnership_within ρ pd spec cl : runs (validateSecretOwnership ρ pd spec cl).
Proof.
  apply within_for_each. intros name _. unfold check_owner, cut_check_owner.
  eapply within_bind_try; [eapply runs_read, lag_get_secret|]. intros [s|e] _.
  - case_decide; [by apply within_throw|by apply within_ret].
  - destruct (is_not_found e); by apply within_throw.
Qed.
Lemma randomPassword_within : rwithin randomPassword (λ x, ∀ a, x = Ok a → a ≠ "").
Proof.
  eapply within_bind with (P := λ l, length l = 16%nat).
  - eapply within_mono; [apply read_within, lag_rand_Read|]. intros [l|e] Hl; [by apply Hl|done].
  - intros l Hl. apply within_ret. intros a [= <-]. apply EncodeToString_nonempty. by intros ->.
Qed.
Lemma adminPasswordFallback_within c : rwithin (adminPasswordFallback c) (λ x, ∀ a, x = Ok a → a ≠ "").
Proof.
  unfold adminPasswordFallback, cut_adminPasswordFallback.
  eapply within_bind_try; [eapply runs_read, lag_get_secret|]. intros [s|e] _.
  - destruct (sec_Data s !! _) as [prev|]; [|apply randomPassword_within].
    case_decide; [apply randomPassword_within|]. apply within_ret. by intros a [= <-].
  - destruct (is_not_found e); [apply randomPassword_within|by apply within_throw].
Qed.
Lemma ensureGeneratedAuthSecret_within c user : cl_Namespace c = req.1 → runs (ensureGeneratedAuthSecret c user).
Proof.
  intros Hns. unfold ensureGeneratedAuthSecret, cut_ensureGeneratedAuthSecret. cbv zeta.
  eapply within_bind_try; [eapply runs_read, lag_get_secret|]. intros [s|e] _; [by apply within_ret|].
  destruct (negb _); [by apply within_throw|].
  apply within_bind with (P := λ pw, pw ≠ "").
  { eapply within_mono; [apply randomPassword_within|]. intros [pw|e'] H; [by apply H|done]. }
  intros pw Hpw.
  apply within_bind with (P := λ s, s = with_owner (Some (cl_Name c)) (generated_auth_secret c user pw)).
  { apply within_lift. destruct (SetControllerReference_secret _ _) as [s|] eqn:E; [|done]. by apply set_controller_secret in E. }
  intros s ->. eapply within_bind_try.
  - eapply write_within; [apply lag_create_secret|]. intros a st st'. apply (auth_create_call _ (cl_Name c)); [done..|].
    split; [done|]. unfold map_get. simpl. by rewrite lookup_insert_ne, lookup_singleton_eq by done.
  - intros [[]|e'] _; [by apply within_ret|]. destruct (is_already_exists e'); by apply within_throw.
Qed.
Lemma render_within ρ spec ns c cfg :
  rwithin (render ρ spec ns c cfg) (λ x, ∀ data admin, x = Ok (data, admin) →
    admin ≠ "" ∧ ∃ acc, Unmarshal data = Ok acc ∧ valid_doorman acc).
Proof.
  apply within_bind with (P := λ _, True).
  { eapply within_mono; [apply ResolvePasswords_within|]. by intros []. }
  intros pw _. apply within_bind with (P := λ a, a ≠ "").
  { eapply within_mono; [apply adminPasswordFallback_within|]. intros [a|e] Ha; [by apply Ha|done]. }
  intros admin Hne. apply within_bind with (P := λ _, True); [apply within_lift; by destruct (Generate _ _ _ _ _ _ _)|].
  intros data _. apply within_bind with (P := λ acc, Unmarshal data = Ok acc ∧ valid_doorman acc).
  { apply within_lift. destruct (ValidateConfigBytes _ _) as [acc|] eqn:E; [|done]. by apply ValidateConfigBytes_ok in E. }
  intros acc Hacc. apply within_ret. intros d a [= <- <-]. split; [done|]. by exists acc.
Qed.

(** The publication. *)
Lemma rendered_content data admin b acc :
  Unmarshal data = Ok acc → valid_doorman acc → admin ≠ "" →
  (default "" b = "" ∨ is_ok (ParseBinarySpec (default "" b)) = true) → well_content (rendered_data data admin b).
Proof using.
  intros Hu Hv Hne Hb. destruct (rendered_data_get data admin b) as (H1 & H2 & H3).
  split; rewrite ?H1, ?H2, ?H3; [by exists acc|done|done].
Qed.
Lemma upsertSecret_within c data admin inPlace :
  usable_binary r → cl_Namespace c = req.1 → admin ≠ "" → (∃ acc, Unmarshal data = Ok acc ∧ valid_doorman acc) →
  runs (upsertSecret r c data admin inPlace).
Proof.
  intros Hu Hns Hne (acc & Hun & Hval). unfold upsertSecret, cut_upsertSecret.
  apply within_bind with (P := λ b, default "" b = "" ∨ is_ok (ParseBinarySpec (default "" b)) = true).
  { apply within_lift. destruct (binarySpecJSON r inPlace) as [b|] eqn:E; [|done]. by eapply binarySpecJSON_typed. }
  intros b Hb. cbv zeta. pose proof (rendered_content data admin b acc Hun Hval Hne Hb) as Hcont.
  eapply within_bind_try; [apply read_within, lag_get_secret|].
  change (secret_key (rendered_secret c _)) with (rendered_key c). intros [s|e] Hs.
  - specialize (Hs s eq_refl). case_decide; [by apply within_ret|].
    eapply write_within; [apply lag_patch_secret|]. intros u st st' (cur & v & Hcur & ->).
    change (secret_key (with_data _ _ s)) with (secret_key s) in *. rewrite Hs in *.
    apply (rendered_write_call _ _ (cl_Name c)); [done|done|exact Hs|].
    intros [Hwk Ht]. pose proof (Ht _ _ _ Hcur) as [Hl Hc]%well_rendered_content.
    apply well_rendered_content. split; [|by apply well_content_patch]. simpl.
    rewrite lookup_patch_map, lookup_insert_eq. unfold patch_field. by case_decide.
  - destruct (negb _); [by apply within_throw|].
    apply within_bind with (P := λ s, s = with_owner (Some (cl_Name c)) (rendered_secret c (rendered_data data admin b))).
    { apply within_lift. destruct (SetControllerReference_secret _ _) as [s|] eqn:E; [|done]. by apply set_controller_secret in E. }
    intros s ->. eapply write_within; [apply lag_create_secret|]. intros u st st' (_ & v & ->).
    apply (rendered_write_call _ _ (cl_Name c)); [done|done|done|]. intros _.
    apply well_rendered_content. split; [apply lookup_singleton_eq|done].
Qed.

Lemma reconcile_render_within ρ pd c cfg spec :
  usable_binary r → pgdoorman_key pd = req → cl_Namespace c = req.1 → runs (reconcile_render r ρ pd c cfg spec).
Proof.
  intros Hu Hk Hns. unfold reconcile_render, cut_reconcile_render.
  eapply within_bind_try; [apply validateSecretOwnership_within|]. intros [[]|e] _; [|by apply report_failure_within].
  eapply within_bind_try; [apply render_within|]. intros [[data admin]|e] Hrd; [|by apply report_failure_within].
  destruct (Hrd _ _ eq_refl) as (Hne & Hacc).
  apply within_seq; [by apply upsertSecret_within|]. intros _.
  apply within_seq; [by apply setRendered_within|]. intros _. by apply within_ret.
Qed.
Lemma reconcile_cluster_within ρ pd c :
  usable_binary r → pgdoorman_key pd = req → cl_Namespace c = req.1 → runs (reconcile_cluster r ρ pd c).
Proof.
  intros Hu Hk Hns. unfold reconcile_cluster, cut_reconcile_cluster. cbv zeta.
  destruct (_ || _); [by apply within_ret|]. destruct (Validate _ _); [|by apply report_failure_within].
  destruct (DefaultAuthSecretRefs _ _) as [[spec user]|e]; [|by apply report_failure_within].
  apply within_seq.
  - case_decide; [by apply within_ret|].
    apply within_try. by eapply within_mono; [apply ensureGeneratedAuthSecret_within|].
  - intros [[]|e]; [by apply reconcile_render_within|by apply report_failure_within].
Qed.
Lemma Reconcile_within ρ : usable_binary r → runs (Reconcile r ρ req).
Proof.
  intros Hu. unfold Reconcile, cut_Reconcile.
  eapply within_bind_try; [apply read_within, lag_get_pgdoorman|]. intros [pd|e] Hpd.
  2: { apply within_seq; [by apply within_lift|]. intros _. by apply within_ret. }
  specialize (Hpd pd eq_refl).
  eapply within_bind_try; [apply read_within, lag_get_cluster|]. intros found Hfound.
  apply within_bind with (P := λ oc, ∀ c, oc = Some c → cl_Namespace c = req.1).
  { destruct found as [c|e].
    - apply within_ret. intros ? [= <-]. specialize (Hfound c eq_refl). rewrite <- Hpd. by injection Hfound.
    - destruct (is_not_found e); [by apply within_ret|by apply within_throw]. }
  intros oc Hoc. cbv zeta. destruct (pd_Deleting pd); [by apply reconcileDeletion_within|].
  apply within_bind with (P := λ pd', pgdoorman_key pd' = req).
  { eapply within_mono; [by apply ensureFinalizer_within|]. intros [pd'|e] H; [by apply H|done]. }
  intros pd' Hk. destruct oc as [c|]; [|by apply within_ret]. apply reconcile_cluster_within; auto.
Qed.
End reconcile_within.

(** ** A hook call *)
Section hook_within.
  #[local] Set Default Proof Using "Type*".
  Context {W : Type} {KC : KubeClient W} {KL : KubeLib} {KLS : KubeLibSpec} {QS : Quantities} {YM : Yaml} {MC : Machinery}.
  Context {LG : KubeLag W} (img : string) (c : Cluster).
  #[local] Notation runs m := (within (hook_call img c) m (λ _, True)).

Lemma deleted_call kd k u st st' :
  (kd, k) ∈ plugin_objects c → ((kd, k) ∈ legacy_rbac c ∨ Enabled (NewFromCluster img c) = false) →
  deleted_object kd k u st st' → hook_call img c st st'.
Proof using.
  intros Hin Hen (_ & ->). pose proof (remove_object_only _ _ _ st Hin) as Ho.
  pose proof (plugin_objects_inv _ _ _ Hin) as Hk. destruct Ho as [Hp Hc Hs Hv Hr Hb]. split; auto.
  - intros k'. destruct (Hs k') as [?|[Hin' Hn]]; [by left|].
    destruct kd; simpl in *; try (by left). subst k.
    destruct (decide (k' = (cl_Namespace c, RenderedSecretName (cl_Name c)))) as [->|Hne];
      [|left; by apply lookup_delete_ne]. right. split; [|done].
    destruct Hen as [Hl|?]; [by apply legacy_rbac_inv in Hl|done].
  - intros k' Hne. destruct (Hv k') as [?|[Hin' Hn]]; [done|]. by apply plugin_objects_inv in Hin'.
  - intros k' Hne. split; [destruct (Hr k') as [?|[Hin' _]]|destruct (Hb k') as [?|[Hin' _]]]; try done;
      by apply plugin_objects_inv in Hin'.
  - intros [Hwk Ht]. split.
    + destruct Hwk as (? & ? & H1 & H2). split_and!; [by rewrite Hp|by rewrite Hc| |].
      * intros k' s Hk'. apply H1. destruct (Hs k') as [<-|[_ Hn]]; [done|congruence].
      * intros k' s Hk'. apply H2. destruct (Hv k') as [<-|[_ Hn]]; [done|congruence].
    + apply (removed_typed st); [|done]. intros ns cl. destruct (Hs (ns, RenderedSecretName cl)) as [?|[_ ?]]; auto.
Qed.
Lemma delete_all_within l :
  (∀ o, o ∈ l → o ∈ plugin_objects c ∧ (o ∈ legacy_rbac c ∨ Enabled (NewFromCluster img c) = false)) →
  runs (for_each delete_present l).
Proof.
  intros Hl. apply within_for_each. intros [kd k] [H1 H2]%Hl. unfold delete_present, cut_delete_present.
  apply within_bind_try with (P := λ _, True).
  - eapply within_write; [intros; apply hook_call_refl|apply lag_delete_object| |done].
    intros u st st'. by apply deleted_call.
  - intros [u|e] _; [by apply within_ret|]. destruct (is_not_found e); [by apply within_ret|by apply within_throw].
Qed.

Lemma service_call s st :
  service_key s = (cl_Namespace c, GetServiceName (cl_Name c)) →
  hook_call img c st (set_services (<[service_key s := s]> (services st)) st).
Proof using.
  intros Hk. split; simpl; eauto.
  - intros k Hne. rewrite lookup_insert_ne by congruence. done.
  - intros [(? & ? & ? & H) Ht]. split; [|by apply (rendered_typed_secrets st)]. split_and!; [done..|].
    by apply map_Forall_insert_2.
Qed.
Lemma ensureService_within port : runs (ensureService c port).
Proof.
  unfold ensureService, cut_ensureService. cbv zeta.
  eapply within_bind_try; [apply within_read; [intros; apply hook_call_refl|apply lag_get_service]|].
  intros [s|e] Hs.
  - specialize (Hs s eq_refl). case_decide; [by apply within_ret|].
    eapply within_write; [intros; apply hook_call_refl|apply lag_patch_service| |done].
    intros u st st' (cur & _ & ->). exact (service_call (patch_Service s (with_selector_ports _ _ s) cur) st Hs).
  - destruct (negb _); [by apply within_throw|].
    apply within_bind with (P := λ s, service_key s = (cl_Namespace c, GetServiceName (cl_Name c))).
    { apply within_lift. destruct (SetControllerReference_service _ _) as [s|] eqn:E; [|done]. by apply set_controller_service in E as ->. }
    intros s Hk. eapply within_write; [intros; apply hook_call_refl|apply lag_create_service| |done].
    intros u st st' (_ & ->). by apply service_call.
Qed.
Lemma pre_cluster_within ρ : runs (pre_cluster img ρ c).
Proof.
  unfold pre_cluster, cut_pre_cluster. cbv zeta. destruct (Enabled _) eqn:Hen; simpl.
  2: { apply within_seq; [|intros _; by apply within_ret]. apply delete_all_within. intros o Ho. auto. }
  apply within_seq; [by apply within_lift|]. intros _.
  eapply within_bind_try; [apply within_read; [intros; apply hook_call_refl|apply lag_get_pgdoorman]|].
  intros [pd|e] _; [|destruct (is_not_found e); [by apply within_ret|by apply within_throw]].
  unfold pre_owned, cut_pre_owned. case_decide; [by apply within_throw|].
  apply within_seq.
  - apply delete_all_within. intros o Ho. split; [|by left]. unfold plugin_objects. apply elem_of_app. by left.
  - intros _. apply within_seq; [apply ensureService_within|]. intros _. by apply within_ret.
Qed.
End hook_within.

(** ** Any number of both *)
Section plane.
  #[local] Set Default Proof Using "Type*".
  Context {W : Type} {KC : KubeClient W} {KL : KubeLib} {KLS : KubeLibSpec} {QS : Quantities} {YM : Yaml} {MC : Machinery}.
  Context {LG : KubeLag W} (r : RenderedConfigReconciler) (rest : kstate → kstate → Prop).

(** A reconciliation of [req], and a hook call for [c], with the calls still to come. *)
Inductive task : Type :=
  | Reconciling (req : key) (p : prog W result)
  | Hooking (c : Cluster) (p : prog W ReconcilerHooksResult).
Record plane : Type := Plane { pl_tasks : list task; pl_world : W }.

(** The next call of a program. *)
Definition next_call {A} (p : prog W A) (w : W) (p' : prog W A) (w' : W) : Prop :=
  match p with Ret _ => False | Do m k => ∃ x, m w = (x, w') ∧ p' = k x end.
Inductive task_call : task → W → task → W → Prop :=
  | C_reconcile req p w p' w' : next_call p w p' w' → task_call (Reconciling req p) w (Reconciling req p') w'
  | C_hook c p w p' w' : next_call p w p' w' → task_call (Hooking c p) w (Hooking c p') w'.

(** Requests arrive at any time (a hook request that does not decode makes no
    call), each task makes its calls, and the rest of the world does what it may
    ([rest]). *)
Inductive plane_move : plane → plane → Prop :=
  | S_reconcile ρ req ts w :
      plane_move (Plane ts w) (Plane (ts ++ [Reconciling req (steps (Reconcile r ρ req))]) w)
  | S_hook ρ resource c ts w : DecodeCluster resource = Ok c →
      plane_move (Plane ts w) (Plane (ts ++ [Hooking c (steps (pre (r_SidecarImage r) ρ resource))]) w)
  | S_call i t t' ts w w' : ts !! i = Some t → task_call t w t' w' →
      plane_move (Plane ts w) (Plane (<[i := t']> ts) w')
  | S_others ts w w' : rest (store w) (store w') → plane_move (Plane ts w) (Plane ts w').

Definition allowed (t : task) (st st' : kstate) : Prop :=
  match t with
  | Reconciling req _ => reconcile_call req st st'
  | Hooking c _ => hook_call (r_SidecarImage r) c st st'
  end.

(** *** Every task keeps within what it is allowed *)
Definition program_ok {A} (G : kstate → kstate → Prop) (p : prog W A) (w : W) : Prop :=
  ∃ h, now h = w ∧ safe (λ _ _, True) (call_within G) (λ _ _, True) p h.
Definition task_ok (t : task) (w : W) : Prop :=
  match t with
  | Reconciling req p => program_ok (reconcile_call req) p w
  | Hooking c p => program_ok (hook_call (r_SidecarImage r) c) p w
  end.

Lemma program_ok_steps {A} G (m : M W A) `{!Steps m} w : within G m (λ _, True) → program_ok G (steps m) w.
Proof using. intros Hm. exists (w, []). split; [done|]. by apply Hm. Qed.
Lemma program_ok_others {A} G (p : prog W A) w w' : program_ok G p w → program_ok G p w'.
Proof using.
  intros (h & <- & Hs). exists (push w' h). split; [done|]. eapply safe_others; [|exact Hs].
  apply rtc_once. by exists w'.
Qed.
Lemma program_ok_call {A} G (p p' : prog W A) w w' :
  program_ok G p w → next_call p w p' w' → G (store w) (store w') ∧ program_ok G p' w'.
Proof using.
  intros (h & <- & Hs). destruct p as [x|X m k]; [done|]. intros (x & Hm & ->).
  destruct (Hs h x w') as [HG Hk]; [apply rtc_refl|done|]. split; [done|]. by exists (push w' h).
Qed.
Lemma task_ok_others t w w' : task_ok t w → task_ok t w'.
Proof using. destruct t; apply program_ok_others. Qed.
Lemma task_ok_call t t' w w' : task_ok t w → task_call t w t' w' → allowed t (store w) (store w') ∧ task_ok t' w'.
Proof using. intros Ht Hc. destruct Hc; by eapply program_ok_call. Qed.

Lemma allowed_typed t st st' : allowed t st st' → well_typed st → well_typed st'.
Proof using. destruct t; [apply rc_typed|apply hc_typed]. Qed.

Lemma pre_within ρ resource c :
  DecodeCluster resource = Ok c →
  within (hook_call (r_SidecarImage r) c) (pre (r_SidecarImage r) ρ resource) (λ _, True).
Proof.
  intros Hd. unfold pre, cut_pre. apply within_seq; [by apply within_lift|]. intros kd. case_decide; [by apply within_ret|].
  apply within_bind with (P := λ c', c' = c); [apply within_lift; by rewrite Hd|]. intros c' ->. apply pre_cluster_within.
Qed.

Definition plane_ok (k : plane) : Prop := well_typed (store (pl_world k)) ∧ Forall (λ t, task_ok t (pl_world k)) (pl_tasks k).

Lemma tasks_ok_others ts w w' : Forall (λ t, task_ok t w) ts → Forall (λ t, task_ok t w') ts.
Proof using. intros Hts. eapply Forall_impl; [exact Hts|]. intros t. apply task_ok_others. Qed.
Lemma plane_move_ok k k' :
  usable_binary r → (∀ st st', rest st st' → others st st') → plane_move k k' → plane_ok k → plane_ok k'.
Proof.
  intros Hu Hrest Hm [Ht Hts].
  destruct Hm as [ρ req ts w|ρ resource c ts w Hd|i t t' ts w w' Hi Hc|ts w w' [Hk Ho]%Hrest]; cbn [pl_world pl_tasks] in *.
  - split; [done|]. cbn [pl_world pl_tasks]. apply Forall_app_2; [done|]. apply Forall_singleton, (program_ok_steps (reconcile_call req) (Reconcile r ρ req)). by apply Reconcile_within.
  - split; [done|]. cbn [pl_world pl_tasks]. apply Forall_app_2; [done|]. apply Forall_singleton, (program_ok_steps _ (pre (r_SidecarImage r) ρ resource)). by apply pre_within.
  - destruct (task_ok_call t t' w w') as [Ha Ht']; [by eapply (Forall_lookup_1 _ _ _ _ Hts)|done|].
    split; simpl; [by eapply allowed_typed|]. apply Forall_insert; [|done]. by eapply tasks_ok_others.
  - destruct Ht as [_ Hr]. split; simpl; [|by eapply tasks_ok_others]. split; [done|]. by eapply removed_typed.
Qed.

Lemma plane_ok_calls ts w i t t' w' :
  plane_ok (Plane ts w) → ts !! i = Some t → task_call t w t' w' → allowed t (store w) (store w').
Proof using.
  intros [_ Hts] Hi Hc. simpl in Hts. eapply task_ok_call; [|done]. by eapply (Forall_lookup_1 _ _ _ _ Hts).
Qed.
Lemma plane_ok_reached k k' :
  usable_binary r → (∀ st st', rest st st' → others st st') → rtc plane_move k k' → plane_ok k → plane_ok k'.
Proof.
  intros Hu Hrest. induction 1 as [|k1 k2 k3 Hm _ IH]; [done|]. intros H0. apply IH. by eapply plane_move_ok.
Qed.
Lemma plane_ok_start w : well_typed (store w) → plane_ok (Plane [] w).
Proof using. intros Ht. by split; [|apply Forall_nil_2]. Qed.
End plane.


(** ** Example: an in-memory server behind a cache *)
Record cached : Type := Cached { ca_mem : mem; ca_cache : kstate }.
Definition on_server {A} (m : M mem A) : M cached A := λ w,
  let '(r, m') := m (ca_mem w) in (r, Cached m' (ca_cache w)).
(** A read of the cache. *)
Definition from_cache {A} (key_of : A → key) (k : key) (f : kstate → option A) : M cached A := λ w,
  (match f (ca_cache w) with
   | Some x => if decide (key_of x = k) then Ok x else Err (NotFound "")
   | None => Err (NotFound "")
   end, w).

Definition answered {W} (p : PgDoorman) (m : M W PgDoorman) : M W PgDoorman := λ w,
  let '(r, w') := m w in
  (match r with
   | Ok a => if decide (pgdoorman_key a = pgdoorman_key p) then Ok a else Err (ExtErr "answer")
   | Err e => Err e
   end, w').

#[export] Instance cached_client : KubeClient cached := {|
  get_pgdoorman k := from_cache pgdoorman_key k (λ s, pgdoormen s !! k);
  get_cluster k := from_cache cluster_key k (λ s, clusters s !! k);
  get_secret k := from_cache secret_key k (λ s, secrets s !! k ≫= visible);
  get_service k := from_cache service_key k (λ s, services s !! k);
  list_pgdoormen ns := on_server (list_pgdoormen ns);
  create_secret x := on_server (create_secret x);
  create_service x := on_server (create_service x);
  patch_secret b x := on_server (patch_secret b x);
  patch_service b x := on_server (patch_service b x);
  patch_pgdoorman p := answered p (on_server (patch_pgdoorman p));
  update_status p := on_server (update_status p);
  delete_object kd k := on_server (delete_object kd k);
  record_event k ev := on_server (record_event k ev);
  rand_Read n := on_server (rand_Read n)
|}.

Lemma from_cache_lags {A} key_of k (f : kstate → option A) :
  lagging (m_state ∘ ca_mem) (from_cache key_of k f) (λ x, key_of x = k).
Proof.
  intros w x w'. unfold from_cache. destruct (f (ca_cache w)) as [y|]; [case_decide|]; intros [= <- <-]; split; try done.
  by intros ? [= <-].
Qed.
Lemma on_server_writes {A} (m : M mem A) applied :
  write_law m_state m applied → write_law (m_state ∘ ca_mem) (on_server m) applied.
Proof.
  intros Hl w x w'. unfold on_server. destruct (m (ca_mem w)) as [y m'] eqn:Hm. intros [= <- <-]. by apply Hl in Hm.
Qed.
#[export] Program Instance cached_lag : KubeLag cached := {| store := m_state ∘ ca_mem |}.
Next Obligation. intros k. apply from_cache_lags. Qed.
Next Obligation. intros k. apply from_cache_lags. Qed.
Next Obligation. intros k. apply from_cache_lags. Qed.
Next Obligation. intros k. apply from_cache_lags. Qed.
Next Obligation. intros s. exact (on_server_writes _ _ (create_secret_law s)). Qed.
Next Obligation. intros s. exact (on_server_writes _ _ (create_service_law s)). Qed.
Next Obligation. intros b s. exact (on_server_writes _ _ (patch_secret_law b s)). Qed.
Next Obligation. intros b s. exact (on_server_writes _ _ (patch_service_law b s)). Qed.
Next Obligation.
  intros p w x w'. simpl. unfold answered. destruct (on_server _ w) as [y w2] eqn:Hm.
  pose proof (on_server_writes (call (mem_patch_pgdoorman p)) _ (patch_pgdoorman_law (W := mem) p) w y w2 Hm) as Hl.
  intros [= <- <-]. destruct y as [a|]; [|done]. case_decide; [done|]. right. by exists a.
Qed.
Next Obligation.
  intros p w a w'. simpl. unfold answered. destruct (on_server _ w) as [y w2]. intros Hr.
  injection Hr as H _. destruct y as [b|]; [|done]. case_decide; [|done]. congruence.
Qed.
Next Obligation. intros p. exact (on_server_writes _ _ (update_status_law p)). Qed.
Next Obligation. intros kd k. exact (on_server_writes _ _ (delete_object_law kd k)). Qed.
Next Obligation. intros k ev w x w' Hr. simpl in Hr. unfold on_server in Hr. by simplify_eq/=. Qed.
Next Obligation.
  intros n w x w' Hr. change (on_server (rand_Read (W := mem) n) w = (x, w')) in Hr. unfold on_server in Hr.
  destruct (rand_Read n (ca_mem w)) as [y m'] eqn:Hm. injection Hr as <- <-.
  apply rand_Read_law in Hm as [Hv Hl]. split; [exact Hv|]. intros l ->. by apply Hl.
Qed.

(** [n] calls of a program. *)
Section calls.
  Context {W : Type}.
Fixpoint calls {A} (n : nat) (p : prog W A) (w : W) : prog W A * W :=
  match n, p with
  | S n, Do m k => let '(x, w') := m w in calls n (k x) w'
  | _, _ => (p, w)
  end.
Lemma calls_moves `{KubeClient W, KL : KubeLib, QS : Quantities, YM : Yaml, MC : Machinery, LG : !KubeLag W} r rest i req n p ts w :
  ts !! i = Some (Reconciling req p) →
  rtc (plane_move r rest) (Plane ts w) (Plane (<[i := Reconciling req (calls n p w).1]> ts) (calls n p w).2).
Proof.
  revert p ts w. induction n as [|n IH]; intros p ts w Hi; simpl.
  { by rewrite list_insert_id. }
  destruct p as [x|X m k]; [by rewrite list_insert_id|]. destruct (m w) as [x w'] eqn:Hm.
  eapply rtc_l.
  - eapply (S_call _ _ _ _ (Reconciling req (k x))); [exact Hi|]. constructor. simpl. eauto.
  - specialize (IH (k x) (<[i := Reconciling req (k x)]> ts) w').
    rewrite list_insert_insert_eq in IH. apply IH, list_lookup_insert_eq. by eapply lookup_lt_Some.
Qed.
End calls.

(** Two reconciliations of one PgDoorman at once (the old and the new leader): the
    first creates the generated Secret, the caches catch up, the second runs, and
    the first goes on with what it had read. *)
#[local] Existing Instances ex_quantities ex_yaml plane_machinery.

Definition cx_start : cached := Cached ex_world (ex_state ex_pd).
Definition cx_task : prog cached result := steps (Reconcile plane_reconciler ex_order ex_req).
Definition caught_up (w : cached) : cached := Cached (ca_mem w) (m_state (ca_mem w)).

Definition cx_first : prog cached result * cached := calls 6 cx_task cx_start.
Definition cx_second : prog cached result * cached := calls 40 cx_task (caught_up cx_first.2).
Definition cx_last : prog cached result * cached := calls 40 cx_first.1 (caught_up cx_second.2).

Lemma catches_up r ts w : well_keyed (store w) → rtc (plane_move (W := cached) r others) (Plane ts w) (Plane ts (caught_up w)).
Proof. intros Hk. apply rtc_once, S_others. split; [done|]. intros. by left. Qed.
Lemma cx_typed_start : well_typed (store cx_start).
Proof. exact plane_typed_start. Qed.
Lemma cx_moves : rtc (plane_move plane_reconciler others) (Plane [] cx_start)
  (Plane [Reconciling ex_req cx_last.1; Reconciling ex_req cx_second.1] cx_last.2).
Proof.
  trans (Plane [Reconciling ex_req cx_task; Reconciling ex_req cx_task] cx_start).
  { eapply rtc_l; [apply (S_reconcile _ _ ex_order ex_req)|]. apply rtc_once. apply (S_reconcile _ _ ex_order ex_req [_]). }
  etrans; [by apply (calls_moves plane_reconciler others 0 ex_req 6 cx_task)|].
  etrans; [by apply catches_up; split_and!; apply (ex_decide _); vm_compute; reflexivity|].
  etrans; [by apply (calls_moves plane_reconciler others 1 ex_req 40 cx_task)|].
  etrans; [by apply catches_up; split_and!; apply (ex_decide _); vm_compute; reflexivity|].
  by apply (calls_moves plane_reconciler others 0 ex_req 40 cx_first.1).
Qed.
Definition answer (p : prog cached result) : option (res result) := match p with Ret x => Some x | Do _ _ => None end.


(** The finalizers are patched as a list computed from what was read, with no
    resource version in the patch: a finalizer another controller added since is
    dropped. *)
Definition backed_up : PgDoorman := with_finalizers ("backup" :: pd_Finalizers ex_pd) ex_pd.
Example lost_finalizer_example :
  let w := (Reconcile plane_reconciler ex_order ex_req (Cached (ex_mem backed_up []) (ex_state ex_pd))).2 in
  pd_Finalizers <$> pgdoormen (store (W := cached) (Cached (ex_mem backed_up []) (ex_state ex_pd))) !! ex_req
    = Some ["backup"; "other"] ∧
  pd_Finalizers <$> pgdoormen (store w) !! ex_req = Some ["other"; Finalizer].
Proof. split; vm_compute; reflexivity. Qed.
