(* ===== verification/Convergence.v ===== *)
(** * Convergence after any interleaving

    [Recovery] starts from whatever whole runs left behind. Here the history is one
    of [Concurrent]: any number of hooks and reconciliations, of this and of other
    clusters and PgDoormen, cut anywhere, interleaved call by call, reading from
    stale caches. As long as nobody else takes the inputs of the cluster away, one
    hook and one reconciliation against a server that answers end the work. *)
From S2P Require Import Prelude Threads GoStd Api K8s PluginConfig DoormanConfig ConfigGen Specs Paths Kube MemClient.
From S2P Require Import Credentials Controller ControllerProofs Machinery Reconciler Progress ControlPlane Recovery Concurrent.
From stdpp Require Import options.
Open Scope Z_scope.

(** What the calls of the plugin do to the Secrets: rendered ones are written and
    deleted, generated ones created, all others kept. *)
Definition plugin_secrets (st st' : kstate) : Prop := ∀ k,
  secrets st' !! k = secrets st !! k ∨ (∃ cl, k.2 = RenderedSecretName cl) ∨
  ∃ cl s, k.2 = GeneratedAuthSecretName cl ∧ secrets st !! k = None ∧ secrets st' !! k = Some s ∧ generated_for cl s.

Section calls.
  #[local] Set Default Proof Using "Type*".
  Context {QS : Quantities} {YM : Yaml} (r : RenderedConfigReconciler).

Lemma allowed_secrets {W} `{KubeClient W} t st st' : allowed (W := W) r t st st' → plugin_secrets st st'.
Proof using.
  intros Ha k. destruct t as [req p|c p]; simpl in Ha.
  - destruct (rc_secrets _ _ _ Ha k) as [?|(_ & cl & s & Hs & [Hk|(Hk & Hn & Hg)])]; [by left|right; left; by exists cl|].
    right; right. by exists cl, s.
  - destruct (hc_secrets _ _ _ _ Ha k) as [?|(_ & -> & _)]; [by left|right; left]. by exists (cl_Name c).
Qed.

(** A visible Secret that belongs to the cluster and is not its rendered one stays. *)
Lemma plugin_secrets_keep cl st st' k s :
  well_typed st → plugin_secrets st st' → visible_at k st = Some s → map_get (sec_Labels s) ClusterLabel = cl →
  k.2 ≠ RenderedSecretName cl → visible_at k st' = Some s.
Proof using.
  intros [_ Ht] Hp Hv Hl Hk. apply visible_at_Some in Hv as [Hs Hvis]. apply visible_at_Some. split; [|done].
  destruct (Hp k) as [He|[(cl' & Hn)|(cl' & s' & _ & Hn & _)]]; [exact (eq_trans He Hs)| |by pose proof (eq_trans (eq_sym Hn) Hs)].
  destruct k as [ns name]. simpl in *. subst name. pose proof (wr_label _ _ (Ht _ _ _ Hs)) as Hlab.
  unfold map_get in Hl. rewrite Hlab in Hl. simpl in Hl. congruence.
Qed.
#[export] Instance GeneratedAuthSecretName_inj : Inj (=) (=) GeneratedAuthSecretName.
Proof. intros c1 c2 H. by apply app_string_inj_r in H. Qed.

Lemma plugin_secrets_inputs pd c st st' :
  cluster_key c = cluster_of pd → well_typed st → well_typed st' → plugin_secrets st st' →
  inputs_ready r pd c st → inputs_ready r pd c st'.
Proof.
  intros Hkey Ht Ht' Hp Hin. destruct (keys_of _ _ Hkey) as (_ & Hak & Hns & Hname).
  pose proof (in_stable _ _ _ _ Hin) as (_ & _ & Hself).
  assert (∀ name s, name ≠ RenderedSecretName (cl_Name c) → visible_at (pd_Namespace pd, name) st = Some s →
    map_get (sec_Labels s) ClusterLabel = cl_Name c → visible_at (pd_Namespace pd, name) st' = Some s) as Hkeep
    by (intros name s Hne Hv Hl; exact (plugin_secrets_keep _ st st' _ s Ht Hp Hv Hl Hne)).
  assert (∀ name, references (pd_Spec pd) name → name ≠ RenderedSecretName (cl_Name c)) as Hnr
    by (intros name Href ->; apply Hself; by rewrite <- Hname).
  split; try apply Hin.
  - intros name Href. destruct (in_refs _ _ _ _ Hin name Href) as (s & Hs & Hl). exists s. split; [|done]. auto.
  - intros k ref Href. destruct (in_values _ _ _ _ Hin k ref Href) as (s & v & Hs & Hv). exists s, v. split; [|done].
    apply credential_references in Href. destruct (in_refs _ _ _ _ Hin _ Href) as (s' & Hs' & Hl). simplify_eq. auto.
  - intros Hu. assert (GeneratedAuthSecretName (cl_Name c) ≠ RenderedSecretName (cl_Name c)) as Hne
      by (intros He; by apply (rendered_name_not_auth (cl_Name c) (cl_Name c))).
    assert (auth_key c = (pd_Namespace pd, GeneratedAuthSecretName (cl_Name c))) as Hk by (unfold auth_key; by rewrite Hns).
    assert ((pd_Namespace pd, ref_Name (generated_ref (pd_Spec pd))) = auth_key c) as Hg by (rewrite Hk; simpl; by rewrite Hname).
    destruct (in_auth _ _ _ _ Hin Hu) as [Hnone|((s' & v & Hs' & Hv) & s & Hs & Hl)].
    + destruct (Hp (auth_key c)) as [He|[(cl & Hr)|(cl & s & Hcl & _ & Hs & Hlab & Hpw)]];
        [left; exact (eq_trans He Hnone)| |right].
      { by destruct (rendered_name_not_auth cl (cl_Name c)). }
      simpl in Hcl. apply (inj GeneratedAuthSecretName) in Hcl as <-.
      assert (visible_at (auth_key c) st' = Some s) as Hvis.
      { apply visible_at_Some. split; [done|]. rewrite Hlab, lookup_singleton_eq. by eexists. }
      split; [|exists s; split; [done|]; unfold map_get; by rewrite Hlab, lookup_singleton_eq].
      unfold map_get in Hpw. destruct (sec_Data s !! "password") as [pw|] eqn:Hd; [|done].
      exists s, pw. by rewrite Hg.
    + right. assert (visible_at (auth_key c) st' = Some s) as Hvis by (rewrite Hk in *; by apply Hkeep).
      split; [|by exists s]. exists s', v. rewrite Hg in *. by rewrite Hs in Hs'; simplify_eq.
  - destruct (secrets st' !! rendered_key c) as [s|] eqn:Hs; [right|by left].
    destruct Ht' as [_ Ht']. pose proof (wr_label _ _ (Ht' _ _ _ Hs)) as Hl. exists s. apply visible_at_Some. by split; [|eexists].
Qed.
End calls.

(** ** Through any history *)
Section history.
  #[local] Set Default Proof Using "Type*".
  Context {W : Type} {KC : KubeClient W} {KL : KubeLib} {KLS : KubeLibSpec} {QS : Quantities} {YM : Yaml} {MC : Machinery}.
  Context {LG : KubeLag W} (r : RenderedConfigReconciler).

(** The rest of the world does anything that leaves the PgDoorman, its cluster and
    its inputs in place. *)
Definition inputs_kept (pd : PgDoorman) (c : Cluster) (st st' : kstate) : Prop :=
  others st st' ∧ (serviceable r pd c st → serviceable r pd c st').

Lemma call_pgdoorman t st st' pd k :
  allowed (W := W) r t st st' → pd_Deleting pd = false →
  (∃ pd', pgdoormen st !! k = Some pd' ∧ same_inputs pd pd') → well_keyed st' → k = pgdoorman_key pd →
  ∃ pd', pgdoormen st' !! k = Some pd' ∧ same_inputs pd pd'.
Proof using.
  intros Ha Hdel (pd' & Hpd & Hkey & Hspec & Hgen & Hd) (Hwp & _) ->. destruct t as [req p|c p]; simpl in Ha.
  2: { exists pd'. rewrite (hc_pgdoormen _ _ _ _ Ha). done. }
  destruct (decide (pgdoorman_key pd = req)) as [<-|Hne].
  2: { exists pd'. rewrite (rc_others _ _ _ Ha) by done. done. }
  destruct (pgdoormen st' !! pgdoorman_key pd) as [pd2|] eqn:Hpd2.
  - exists pd2. split; [done|]. destruct (rc_self _ _ _ Ha _ Hpd2) as (p0 & Hp0 & ? & ? & ?). simplify_eq.
    split; [by apply (Hwp _ _ Hpd2)|]. by split_and!; congruence.
  - pose proof (rc_gone _ _ _ Ha Hpd2 _ Hpd). congruence.
Qed.

Lemma call_serviceable t st st' pd c :
  allowed (W := W) r t st st' → pd_Deleting pd = false → well_typed st → serviceable r pd c st → serviceable r pd c st'.
Proof.
  intros Ha Hdel Ht [Hwk Hc Hpd Hin]. pose proof (allowed_typed r t st st' Ha Ht) as Ht'.
  assert (clusters st' = clusters st) as Hcl by (destruct t; [apply Ha|apply Ha]).
  pose proof Hwk as (_ & Hwc & _). pose proof (Hwc _ _ Hc) as Hkey; simpl in Hkey. split.
  - apply Ht'.
  - by rewrite Hcl.
  - eapply call_pgdoorman; [exact Ha|done|done|apply Ht'|done].
  - eapply plugin_secrets_inputs; [done|exact Ht|exact Ht'|exact (allowed_secrets r t st st' Ha)|done].
Qed.

Lemma history_serviceable pd c k k' :
  usable_binary r → pd_Deleting pd = false → rtc (plane_move r (inputs_kept pd c)) k k' →
  plane_ok r k → serviceable r pd c (store (pl_world k)) → serviceable r pd c (store (pl_world k')).
Proof.
  intros Hu Hdel. induction 1 as [|k1 k2 k3 Hm _ IH]; [done|]. intros Hok Hsv.
  apply IH; [eapply plane_move_ok; [done| |done|done]; by intros ?? []|].
  destruct Hm as [ρ req ts w|ρ resource c' ts w _|i t t' ts w w' Hi Hc|ts w w' [_ Hk]]; [done|done| |by apply Hk].
  eapply call_serviceable; [by eapply plane_ok_calls|done|apply Hok|done].
Qed.

Context {V : Type} {KV : KubeClient V} {KSV : KubeSpec V} {KUV : KubeUp V} {YL : YamlLaws}.
(** Encoding a configuration does not fail. *)
Context (yaml_total : ∀ cfg, ∃ data, Marshal cfg = Ok data).

(** C10 — Convergence: whatever hooks and reconciliations of any clusters and PgDoormen
    were started on whatever replicas, wherever each was cut off, however their
    calls were interleaved and however stale what they read, once the API server
    answers and the caches have caught up, the next hook of a cluster with its
    PgDoorman and inputs in place lets CloudNativePG go on and the next
    reconciliation ends, and together they leave no legacy RBAC, the pooler
    Service of the plugin's port, a rendered Secret that holds the configuration
    of the spec, and a Rendered condition that is true for the PgDoorman's
    generation. *)
Theorem control_plane_converges ρ ρ' resource pd c (w0 : W) ts w (v : V) :
  usable_binary r → well_typed (store w0) →
  GetKind resource = Ok "Cluster" → DecodeCluster resource = Ok c →
  pgdoormen (store w0) !! pgdoorman_key pd = Some pd → pd_Deleting pd = false →
  clusters (store w0) !! cluster_of pd = Some c → runs r pd c → inputs_ready r pd c (store w0) →
  rtc (plane_move r (inputs_kept pd c)) (Plane [] w0) (Plane ts w) → view v = store w → up v →
  ∃ v1 v2,
    pre (r_SidecarImage r) ρ resource v = (Ok continue_, v1) ∧
    Reconcile r ρ' (pgdoorman_key pd) v1 = (Ok Done, v2) ∧ up v2 ∧
    gone (legacy_rbac c) (view v2) ∧
    pooler_service c (PoolerPort (NewFromCluster (r_SidecarImage r) c)) (view v2) ∧
    settled r pd c (view v2) ∧
    ∃ pd' cond, pgdoormen (view v2) !! pgdoorman_key pd = Some pd' ∧
      FindStatusCondition (pd_Conditions pd') "Rendered" = Some cond ∧
      cond_Status cond = true ∧ cond_ObservedGeneration cond = pd_Generation pd.
Proof.
  intros Hb Ht Hk Hd Hpd Hdel Hc Hruns Hin Hs Hv Hu.
  apply serviceable_ends; [done..| |done]. rewrite Hv.
  apply (history_serviceable pd c (Plane [] w0) (Plane ts w)); [done..|by apply plane_ok_start|].
  split; [apply Ht|done|by exists pd|done].
Qed.
End history.

(** ** Example: two reconciliations and a hook at once, all cut off *)
#[local] Existing Instances px_quantities px_yaml px_yaml_laws px_machinery.

(** The first stops after it has created the generated Secret, which the second
    does not see in its cache and cannot create. *)
Definition cv_task : prog cached result := steps (Reconcile ex_reconciler ex_order ex_req).
Definition cv_start : cached := Cached ex_world (ex_state ex_pd).
Definition cv_first : prog cached result * cached := calls 6 cv_task cv_start.
Definition cv_second : prog cached result * cached := calls 40 cv_task cv_first.2.
Definition cv_after : mem := Mem (m_state (ca_mem cv_second.2)) [] (Z.of_nat <$> seq 1 64) [].
Definition cv_plane : plane (W := cached) := Plane [Reconciling ex_req cv_first.1; Reconciling ex_req cv_second.1] cv_second.2.

Lemma cv_moves rest : rtc (plane_move ex_reconciler rest) (Plane [] cv_start) cv_plane.
Proof.
  trans (Plane [Reconciling ex_req cv_task; Reconciling ex_req cv_task] cv_start).
  { eapply rtc_l; [apply (S_reconcile _ _ ex_order ex_req)|]. apply rtc_once. apply (S_reconcile _ _ ex_order ex_req [_]). }
  etrans; [by apply (calls_moves ex_reconciler rest 0 ex_req 6 cv_task)|].
  by apply (calls_moves ex_reconciler rest 1 ex_req 40 cv_task).
Qed.

Lemma control_plane_converges_witness :
  (map_to_list (secrets (view cv_after))).*1 = [("ns", "my-cluster-doorman-auth"); ("ns", "alice-pw")] ∧
  ∃ v1 v2, pre "img" default_ranger "running" cv_after = (Ok continue_, v1) ∧
    Reconcile ex_reconciler ex_order ex_req v1 = (Ok Done, v2) ∧
    settled ex_reconciler ex_pd example_cluster (view v2) ∧ pooler_service example_cluster 6433 (view v2).
Proof.
  split; [vm_compute; reflexivity|].
  destruct (control_plane_converges ex_reconciler px_total default_ranger ex_order "running"
    ex_pd example_cluster cv_start (pl_tasks cv_plane) cv_second.2 cv_after) as (v1 & v2 & ? & ? & _ & _ & ? & ? & _).
  - done.
  - apply typed_start.
  - reflexivity.
  - reflexivity.
  - apply ex_lookup.
  - reflexivity.
  - apply lookup_singleton_eq.
  - apply ex_runs.
  - apply px_ready.
  - apply cv_moves.
  - reflexivity.
  - by repeat constructor.
  - exists v1, v2. split_and!; assumption.
Defined.
