(* ===== verification/Operator.v ===== *)
(** * The operator webhooks (internal/operator)

    Admission of a Cluster ([validateClusterCreate], [validateClusterChange]) and
    its defaulting ([MutateCluster]). *)
From S2P Require Import Prelude GoStd Api K8s PluginConfig Specs Kube Machinery MemClient Reconciler.
From stdpp Require Import options.
Open Scope Z_scope.

Record ValidationError : Type := { ve_PathComponents : list string; ve_Message : gerr }.

Section operator.
  Context {W : Type} {KC : KubeClient W} {QS : Quantities} {MC : Machinery}.
  (** The [SIDECAR_IMAGE] of the process and whether [Client] is set. *)
  Context (SidecarImage : string) (hasClient : bool).

Definition plugins_error (e : gerr) : ValidationError :=
  {| ve_PathComponents := ["spec"; "plugins"]; ve_Message := e |}.

Definition validateConfig (ρ : ranger) (cfg : PluginConfiguration) : list ValidationError :=
  if negb (Enabled cfg) then []
  else match Validate ρ cfg with Ok _ => [] | Err e => [plugins_error e] end.

Definition validateClusterRef (cluster : Cluster) (cfg : PluginConfiguration) (requireExists : bool)
    : M W (list ValidationError) :=
  if negb hasClient || negb (Enabled cfg) || bool_decide (ConfigName cfg = "") then mret []
  else
    got ← try_ (get_pgdoorman (cl_Namespace cluster, ConfigName cfg));
    match got with
    | Err e =>
        if is_not_found e then
          if requireExists
          then mret [plugins_error (Errorf "PgDoorman %q not found in namespace %q"
                                      [ConfigName cfg; cl_Namespace cluster])]
          else mret []
        else mret []
    | Ok pd =>
        if decide (ClusterRef (pd_Spec pd) ≠ cl_Name cluster)
        then mret [plugins_error (Errorf "PgDoorman %q belongs to cluster %q (spec.clusterRef), not %q"
                                    [ConfigName cfg; ClusterRef (pd_Spec pd); cl_Name cluster])]
        else mret []
    end.

Definition validateClusterCreate (ρ : ranger) (definition : string) : M W (list ValidationError) :=
  cluster ← lift (DecodeCluster definition);
  let cfg := NewFromCluster SidecarImage cluster in
  errs ← validateClusterRef cluster cfg false;
  mret (validateConfig ρ cfg ++ errs).

Definition validateClusterChange (ρ : ranger) (newCluster : string) : M W (list ValidationError) :=
  cluster ← lift (DecodeCluster newCluster);
  let cfg := NewFromCluster SidecarImage cluster in
  errs ← validateClusterRef cluster cfg true;
  mret (validateConfig ρ cfg ++ errs).

(** The loop of [MutateCluster] over the plugins of the copy. *)
Definition mutate_plugin (p : Plugin) : Plugin :=
  if decide (pl_Name p ≠ PluginName) then p
  else {| pl_Name := pl_Name p; pl_Enabled := pl_Enabled p; pl_Parameters := SetDefaults (pl_Parameters p) |}.
Definition mutatedCluster (c : Cluster) : Cluster :=
  {| cl_Namespace := cl_Namespace c; cl_Name := cl_Name c; cl_Plugins := mutate_plugin <$> cl_Plugins c;
     cl_ServerTLSSecret := cl_ServerTLSSecret c; cl_CurrentPrimary := cl_CurrentPrimary c |}.

Definition MutateCluster (definition : string) : res string :=
  cluster ← DecodeCluster definition;
  CreateClusterPatch (mutatedCluster cluster) cluster.
End operator.

(** ** Defaulting *)
Lemma SetDefaults_lookup params k :
  SetDefaults params !! k =
    match params !! k with
    | Some v => Some v
    | None => if decide (k = ParamPoolerPort) then Some (Itoa DefaultPoolerPort)
              else if decide (k = ParamMetricsPort) then Some (Itoa DefaultMetricsPort) else None
    end.
Proof.
  assert (∀ p v (m : gmap string string), set_if_absent p v m !! k =
    match m !! k with Some x => Some x | None => if decide (k = p) then Some v else None end) as Hset.
  { intros p v m. unfold set_if_absent. destruct (m !! p) as [x|] eqn:Hp.
    - destruct (m !! k) eqn:Hk; [done|]. case_decide; [congruence|done].
    - case_decide; subst; [by rewrite lookup_insert_eq, Hp|]. rewrite lookup_insert_ne by done. by destruct (m !! k). }
  unfold SetDefaults. rewrite !Hset. destruct (params !! k); [done|]. repeat case_decide; try done.
Qed.

Lemma read_plugin_defaults `{Quantities} img params :
  read_plugin (initial_config img) (SetDefaults params) = read_plugin (initial_config img) params.
Proof.
  assert (∀ p, p ≠ ParamPoolerPort → p ≠ ParamMetricsPort → SetDefaults params !! p = params !! p) as Hne.
  { intros p ??. rewrite SetDefaults_lookup. destruct (params !! p); [done|]. by repeat case_decide. }
  assert (parse_port (SetDefaults params) ParamPoolerPort DefaultPoolerPort
    = parse_port params ParamPoolerPort DefaultPoolerPort) as Hp.
  { unfold parse_port. rewrite SetDefaults_lookup. by destruct (params !! ParamPoolerPort). }
  assert (parse_port (SetDefaults params) ParamMetricsPort DefaultMetricsPort
    = parse_port params ParamMetricsPort DefaultMetricsPort) as Hm.
  { unfold parse_port. rewrite SetDefaults_lookup. by destruct (params !! ParamMetricsPort). }
  unfold read_plugin. cbn [PoolerPort MetricsPort initial_config]. rewrite Hp, Hm.
  unfold parse_bool, setResource. by rewrite !Hne.
Qed.

Lemma list_find_mutate ps :
  list_find enabled_entry (mutate_plugin <$> ps) = prod_map id mutate_plugin <$> list_find enabled_entry ps.
Proof.
  assert (∀ p, enabled_entry (mutate_plugin p) ↔ enabled_entry p) as He
    by (intros p; unfold mutate_plugin, enabled_entry; by case_decide).
  induction ps as [|p ps IH]; [done|]. cbn [fmap list_fmap list_find].
  destruct (decide (enabled_entry p)) as [Hp|Hp].
  - by rewrite decide_True by (by apply He).
  - rewrite decide_False by (by rewrite He). rewrite IH. by destruct (list_find _ ps) as [[]|].
Qed.

(** ** Properties *)

(** Defaulting is neutral and stable: the mutated Cluster reads as the same
    plugin configuration, mutating it again changes nothing, no explicit parameter
    and no other plugin's entry is altered, and every entry of the plugin ends up
    with both ports written. *)
Theorem mutatedCluster_neutral `{Quantities} img c :
  NewFromCluster img (mutatedCluster c) = NewFromCluster img c ∧
  mutatedCluster (mutatedCluster c) = mutatedCluster c ∧
  Forall2 (λ p p', pl_Name p' = pl_Name p ∧ pl_Enabled p' = pl_Enabled p ∧
      pl_Parameters p ⊆ pl_Parameters p' ∧ (pl_Name p ≠ PluginName → p' = p) ∧
      (pl_Name p = PluginName → is_Some (pl_Parameters p' !! ParamPoolerPort) ∧
         is_Some (pl_Parameters p' !! ParamMetricsPort)))
    (cl_Plugins c) (cl_Plugins (mutatedCluster c)).
Proof.
  split_and!.
  - unfold NewFromCluster. rewrite !scan_plugins_find. cbn [cl_Plugins mutatedCluster].
    rewrite list_find_mutate. destruct (list_find _ (cl_Plugins c)) as [[i p]|] eqn:Hf; [simpl|done].
    apply list_find_Some in Hf as (_ & [Hn _] & _). unfold mutate_plugin. rewrite decide_False by auto.
    apply read_plugin_defaults.
  - unfold mutatedCluster; simpl. f_equal. rewrite <- list_fmap_compose. apply list_fmap_ext. intros _ p _.
    unfold compose, mutate_plugin. destruct (decide (pl_Name p ≠ PluginName)) as [Hn|Hn]; cbn [pl_Name pl_Enabled pl_Parameters];
      (destruct (decide (pl_Name p ≠ PluginName)); [|]); try done.
    f_equal. apply map_eq. intros k. rewrite !SetDefaults_lookup. destruct (pl_Parameters p !! k); [done|].
    by repeat case_decide.
  - cbn [cl_Plugins mutatedCluster]. apply Forall2_fmap_r, Forall_Forall2_diag, Forall_forall. intros p _.
    unfold compose, mutate_plugin. destruct (decide (pl_Name p ≠ PluginName)) as [Hn|Hn];
      [split; [done|]; split; [done|]; split; [reflexivity|]; by split|]. simpl. split_and!; try done.
    + apply map_subseteq_spec. intros k v Hk. by rewrite SetDefaults_lookup, Hk.
    + intros _. rewrite !SetDefaults_lookup. split.
      * destruct (pl_Parameters p !! ParamPoolerPort); eauto.
      * destruct (pl_Parameters p !! ParamMetricsPort); eauto.
Qed.

Section admission.
  #[local] Set Default Proof Using "Type*".
  Context {W : Type} {KC : KubeClient W} {QS : Quantities} {MC : Machinery} {KS : KubeSpec W}.
  Context (img : string).

(** The read of the PgDoorman got an answer: the object or "not found". *)
Definition answered (k : key) (w : W) : Prop :=
  match (get_pgdoorman k w).1 with Ok _ => True | Err e => is_not_found e = true end.

(** The key of the PgDoorman a cluster names. *)
Definition named_pd (c : Cluster) (cfg : PluginConfiguration) : key := (cl_Namespace c, ConfigName cfg).

(** What the store says about the PgDoorman a cluster names; only a change
    requires it to exist. *)
Definition reference_ok (must : bool) (c : Cluster) (cfg : PluginConfiguration) (st : kstate) : Prop :=
  match pgdoormen st !! named_pd c cfg with
  | Some pd => ClusterRef (pd_Spec pd) = cl_Name c
  | None => must = false
  end.

Lemma validateClusterRef_run c cfg must w :
  Enabled cfg = true → ConfigName cfg ≠ "" →
  ∃ errs w', validateClusterRef true c cfg must w = (Ok errs, w') ∧ view w' = view w ∧
    (errs = [] ↔ (answered (named_pd c cfg) w → reference_ok must c cfg (view w))).
Proof.
  intros He Hn. unfold validateClusterRef, answered, reference_ok.
  rewrite He, bool_decide_eq_false_2 by done. simpl. unfold mbind, M_bind, try_.
  change (cl_Namespace c, ConfigName cfg) with (named_pd c cfg).
  destruct (get_pgdoorman _ w) as [r w1] eqn:Hr. apply get_pgdoorman_law in Hr as [Hv Hg]. simpl.
  destruct r as [pd|e].
  - rewrite Hg. case_decide; eexists _, _; (split; [reflexivity|]); (split; [done|]); naive_solver.
  - destruct (is_not_found e) eqn:Hnf; [rewrite (Hg eq_refl); destruct must|];
      eexists _, _; (split; [reflexivity|]); (split; [done|]); naive_solver.
Qed.

(** C33 — Admission: on a Cluster that decodes, creation and change always answer;
    the answer has no error exactly when a disabled plugin, or valid parameters
    with, as far as the read of the PgDoorman was answered, a PgDoorman that names
    the cluster back (on creation it may be missing, on change it must exist).  A
    read that fails blocks no admission, and admission changes nothing. *)
Theorem admission_correct ρ doc c w :
  DecodeCluster doc = Ok c →
  let cfg := NewFromCluster img c in
  ∃ e1 w1 e2 w2,
    validateClusterCreate img true ρ doc w = (Ok e1, w1) ∧ view w1 = view w ∧
    validateClusterChange img true ρ doc w = (Ok e2, w2) ∧ view w2 = view w ∧
    (e1 = [] ↔ (Enabled cfg = true → valid_config cfg ∧
       (answered (named_pd c cfg) w → reference_ok false c cfg (view w)))) ∧
    (e2 = [] ↔ (Enabled cfg = true → valid_config cfg ∧
       (answered (named_pd c cfg) w → reference_ok true c cfg (view w)))).
Proof.
  intros Hd cfg. unfold validateClusterCreate, validateClusterChange. rewrite Hd. fold cfg.
  assert (∀ must, ∃ errs w1, (_ ← lift (DecodeCluster doc);
      errs ← validateClusterRef true c cfg must; mret (validateConfig ρ cfg ++ errs)) w = (Ok errs, w1) ∧
    view w1 = view w ∧ (errs = [] ↔ (Enabled cfg = true → valid_config cfg ∧
       (answered (named_pd c cfg) w → reference_ok must c cfg (view w))))) as Hrun.
  { intros must. unfold lift. rewrite Hd. unfold mbind, M_bind, mret, M_ret. unfold validateConfig.
    destruct (Enabled cfg) eqn:He; simpl.
    2: { unfold validateClusterRef. rewrite He. simpl. eexists _, _. split; [reflexivity|]. by split. }
    assert (is_ok (Validate ρ cfg) = true ↔ valid_config cfg) as Hval by apply Validate_is_ok.
    destruct (decide (ConfigName cfg = "")) as [Hn|Hn].
    - unfold validateClusterRef. rewrite Hn. simpl. rewrite He. simpl. eexists _, _.
      split; [reflexivity|]. split; [done|]. destruct (Validate ρ cfg) as [[]|e]; simpl in *.
      + apply proj1 in Hval. specialize (Hval eq_refl). by destruct Hval as (_ & ? & _).
      + split; [done|]. intros Hx. destruct (Hx eq_refl) as [Hx' _]. by apply Hval in Hx'.
    - destruct (validateClusterRef_run c cfg must w) as (errs & w1 & -> & Hv & Hiff); [done..|].
      eexists _, _. split; [reflexivity|]. split; [done|]. destruct (Validate ρ cfg) as [[]|e]; simpl in *.
      + rewrite Hiff. split; [intros; split; [by apply Hval|done]|]. intros Hx. by apply Hx.
      + split; [done|]. intros Hx. destruct (Hx eq_refl) as [Hx' _]. by apply Hval in Hx'. }
  destruct (Hrun false) as (e1 & w1 & H1 & Hv1 & Hi1), (Hrun true) as (e2 & w2 & H2 & Hv2 & Hi2).
  rewrite Hd in H1, H2. by exists e1, w1, e2, w2.
Qed.
End admission.

(** ** Examples *)
#[local] Instance ox_quantities : Quantities := example_quantities.
#[local] Instance ox_machinery : Machinery := example_machinery ox_quantities.
Lemma ox_decode : DecodeCluster "new" = Ok (cluster_with (cl_Plugins example_cluster) "").
Proof. reflexivity. Qed.

(** A cluster whose PgDoorman is missing: it may be created, but not changed to. *)
Lemma admission_correct_witness :
  ∃ e1 w1 e2 w2,
    validateClusterCreate "img" true default_ranger "new" (rx_world []) = (Ok e1, w1) ∧ e1 = [] ∧
    validateClusterChange "img" true default_ranger "new" (rx_world []) = (Ok e2, w2) ∧ e2 ≠ [].
Proof.
  destruct (admission_correct "img" default_ranger "new" (cluster_with (cl_Plugins example_cluster) "")
    (rx_world []) ox_decode) as (e1 & w1 & e2 & w2 & H1 & _ & H2 & _ & Hi1 & Hi2).
  exists e1, w1, e2, w2. split; [done|]. split.
  { apply (f_equal fst) in H1. vm_compute in H1. by injection H1. }
  split; [done|]. intros ->. destruct (proj1 Hi2 eq_refl) as [_ Hx]; [by vm_compute|].
  specialize (Hx ltac:(by vm_compute)). by vm_compute in Hx.
Defined.
