(* ===== verification/Lifecycle.v ===== *)
(** * The lifecycle hook (internal/lifecycle)

    [lifecycleHook] injects the pooler sidecar and its volumes in the pods of a
    cluster that runs the plugin. *)
From S2P Require Import Prelude GoStd Api K8s PluginConfig Specs Kube Machinery Controller Reconciler.
From stdpp Require Import options.
Open Scope Z_scope.

Definition sidecarContainerName : string := "pg-doorman".
Definition scratchVolumeName : string := "pg-doorman-scratch".
Definition scratchMountPath : string := "/tmp".
Definition tlsVolumeName : string := "pg-doorman-server-tls".
Definition tlsMountPath : string := "/etc/pg-doorman-tls".
Definition configVolumeName : string := "pg-doorman-config".
Definition configMountPath : string := "/etc/pg-doorman-config".
Definition podInfoVolumeName : string := "pg-doorman-podinfo".
Definition podInfoMountPath : string := "/etc/pg-doorman-podinfo".
Definition instanceRoleLabel : string := "cnpg.io/instanceRole".
Definition StorageMediumMemory : string := "Memory".

Definition serverTLSSecretName (cluster : Cluster) : string :=
  match cl_ServerTLSSecret cluster with
  | Some s => if decide (s = "") then cl_Name cluster +:+ "-server" else s
  | None => cl_Name cluster +:+ "-server"
  end.

Definition hasVolume (volumes : list Volume) (name : string) : bool :=
  existsb (λ v, bool_decide (vol_Name v = name)) volumes.

(** Replace the first element with this name, or append. *)
Fixpoint replace_or_append {A} (name_of : A → string) (x : A) (l : list A) : list A :=
  match l with
  | [] => [x]
  | y :: l => if decide (name_of y = name_of x) then x :: l else y :: replace_or_append name_of x l
  end.

Definition ensureVolume (volume : Volume) (volumes : list Volume) : list Volume :=
  replace_or_append vol_Name volume volumes.

Section lifecycle.
  Context {QS : Quantities} {MC : Machinery} (SidecarImage : string).

Definition scratch_volume : Volume := {| vol_Name := scratchVolumeName; vol_Source := EmptyDir StorageMediumMemory |}.
Definition tls_volume (cluster : Cluster) : Volume :=
  {| vol_Name := tlsVolumeName; vol_Source := SecretVolume (serverTLSSecretName cluster) |}.
Definition podinfo_volume : Volume :=
  {| vol_Name := podInfoVolumeName;
     vol_Source := DownwardAPI [("role", "metadata.labels['" +:+ instanceRoleLabel +:+ "']")] |}.
Definition config_volume (cluster : Cluster) : Volume :=
  {| vol_Name := configVolumeName; vol_Source := SecretVolume (cl_Name cluster +:+ "-doorman-config") |}.

Definition sidecar (cfg : PluginConfiguration) : Container := {|
  ct_Name := sidecarContainerName;
  ct_Image := PluginConfig.SidecarImage cfg;
  ct_Ports := [{| cp_Name := "pooler"; cp_ContainerPort := to_int32 (PoolerPort cfg); cp_Protocol := "TCP" |};
               {| cp_Name := "pgd-metrics"; cp_ContainerPort := to_int32 (MetricsPort cfg); cp_Protocol := "TCP" |}];
  ct_Env := [("CONFIG_SOURCE", configMountPath +:+ "/pg_doorman.yaml");
             ("HEALTH_PORT", Itoa WrapperHealthPort);
             ("LOG_LEVEL", LogLevel cfg);
             ("TLS_CERT_PATH", tlsMountPath +:+ "/tls.crt");
             ("TLS_KEY_PATH", tlsMountPath +:+ "/tls.key");
             ("ROLE_FILE", podInfoMountPath +:+ "/role")];
  ct_VolumeMounts := [{| vm_Name := scratchVolumeName; vm_MountPath := scratchMountPath; vm_ReadOnly := false |};
                      {| vm_Name := tlsVolumeName; vm_MountPath := tlsMountPath; vm_ReadOnly := true |};
                      {| vm_Name := configVolumeName; vm_MountPath := configMountPath; vm_ReadOnly := true |};
                      {| vm_Name := podInfoVolumeName; vm_MountPath := podInfoMountPath; vm_ReadOnly := true |}];
  ct_Resources := cfg_Resources cfg;
  ct_ReadinessProbe := None;
  ct_StartupProbe := None;
  ct_LivenessProbe := Some {| pr_Path := "/healthz"; pr_Port := WrapperHealthPort;
                              pr_InitialDelaySeconds := 10; pr_PeriodSeconds := 30 |};
  ct_SecurityContext := Some {| sc_RunAsNonRoot := Some true; sc_AllowPrivilegeEscalation := Some false;
                                sc_ReadOnlyRootFilesystem := Some true; sc_Privileged := Some false;
                                sc_SeccompProfile := Some "RuntimeDefault"; sc_DropCapabilities := ["ALL"] |};
  ct_RestartPolicy := Some "Always"
|}.

Definition injectSidecar (cfg : PluginConfiguration) (cluster : Cluster) (spec : PodSpec) : PodSpec :=
  let volumes := pod_Volumes spec in
  let volumes := if negb (hasVolume volumes scratchVolumeName) then volumes ++ [scratch_volume] else volumes in
  let volumes := ensureVolume (tls_volume cluster) volumes in
  let volumes := ensureVolume podinfo_volume volumes in
  let volumes := ensureVolume (config_volume cluster) volumes in
  {| pod_Volumes := volumes;
     pod_InitContainers := replace_or_append ct_Name (sidecar cfg) (pod_InitContainers spec);
     pod_Containers := pod_Containers spec |}.

(** The hook's answer: no patch, or the patch of the mutated pod. *)
Definition reconcilePod (object : string) (cfg : PluginConfiguration) (cluster : Cluster) : res (option string) :=
  match DecodePod object with
  | Err e => Err (Wrapf "cannot decode pod: %w" [] e)
  | Ok pod =>
      match CreatePodPatch (injectSidecar cfg cluster pod) pod with
      | Err e => Err (Wrapf "cannot create patch: %w" [] e)
      | Ok patch => Ok (Some patch)
      end
  end.

Definition lifecycleHook (ρ : ranger) (object clusterDefinition : string) : res (option string) :=
  match GetKind object with
  | Err e => Err (Wrapf "cannot get object kind: %w" [] e)
  | Ok kind =>
      match DecodeCluster clusterDefinition with
      | Err e => Err (Wrapf "cannot decode cluster: %w" [] e)
      | Ok cluster =>
          let cfg := NewFromCluster SidecarImage cluster in
          if negb (Enabled cfg) then Ok None
          else
            _ ← Validate ρ cfg;
            if decide (kind = "Pod") then reconcilePod object cfg cluster else Ok None
      end
  end.
End lifecycle.

(** ** Replace or append *)
Section replace.
  Context {A : Type} (name_of : A → string).

(** [x] is the first element of its name. *)
Definition first_named (x : A) (l : list A) : Prop :=
  ∃ i, l !! i = Some x ∧ ∀ j y, (j < i)%nat → l !! j = Some y → name_of y ≠ name_of x.

Lemma first_named_cons x y l : name_of y ≠ name_of x → first_named x l → first_named x (y :: l).
Proof.
  intros Hne (i & Hi & Hlt). exists (S i). split; [done|].
  intros [|j] z Hj; simpl; [by intros [= <-]|]. apply Hlt. lia.
Qed.
Lemma first_named_here x l : first_named x (x :: l).
Proof. exists 0%nat. split; [done|lia]. Qed.
Lemma first_named_inv x y l : first_named x (y :: l) → y = x ∨ (name_of y ≠ name_of x ∧ first_named x l).
Proof.
  intros ([|i] & Hi & Hlt); simplify_eq/=; [by left|right]. split; [apply (Hlt 0%nat); [lia|done]|].
  exists i. split; [done|]. intros j z Hj Hz. apply (Hlt (S j)); [lia|done].
Qed.

Lemma replace_or_append_first x l : first_named x (replace_or_append name_of x l).
Proof.
  induction l as [|y l IH]; simpl; [apply first_named_here|].
  case_decide; [apply first_named_here|by apply first_named_cons].
Qed.

Lemma replace_or_append_keeps_first x y l :
  name_of y ≠ name_of x → first_named x l → first_named x (replace_or_append name_of y l).
Proof.
  intros Hne. induction l as [|z l IH]; [by intros ([|?] & ? & _)|].
  intros [->|[Hz Hf]]%first_named_inv; simpl.
  - rewrite decide_False by done. apply first_named_here.
  - case_decide; apply first_named_cons; auto.
Qed.

Lemma elem_of_replace_or_append x l : x ∈ replace_or_append name_of x l.
Proof. destruct (replace_or_append_first x l) as (i & Hi & _). by eapply list_elem_of_lookup_2. Qed.

(** The other elements stay, in order. *)
Lemma replace_or_append_others x l :
  filter (λ y, name_of y ≠ name_of x) (replace_or_append name_of x l) = filter (λ y, name_of y ≠ name_of x) l.
Proof.
  induction l as [|y l IH]; simpl; [by rewrite filter_cons_False by auto|].
  case_decide as Hd; [by rewrite !filter_cons_False by (rewrite ?Hd; auto)|].
  by rewrite !filter_cons_True, IH by done.
Qed.

Lemma replace_or_append_present x l z :
  z ∈ l → name_of z ≠ name_of x → z ∈ replace_or_append name_of x l.
Proof.
  intros Hz Hne. assert (z ∈ filter (λ y, name_of y ≠ name_of x) (replace_or_append name_of x l)) as Hf.
  { rewrite replace_or_append_others. by apply list_elem_of_filter. }
  by apply list_elem_of_filter in Hf as [_ ?].
Qed.

Lemma replace_or_append_same x l : first_named x l → replace_or_append name_of x l = l.
Proof.
  induction l as [|y l IH]; [by intros ([|?] & ? & _)|].
  intros [->|[Hy Hf]]%first_named_inv; simpl; [by rewrite decide_True|].
  rewrite decide_False by done. by rewrite IH.
Qed.
End replace.

Lemma hasVolume_true vs name : hasVolume vs name = true ↔ ∃ v, v ∈ vs ∧ vol_Name v = name.
Proof.
  unfold hasVolume. rewrite existsb_exists. setoid_rewrite <- list_elem_of_In.
  by setoid_rewrite bool_decide_eq_true.
Qed.

(** The volumes the plugin owns. *)
Definition plugin_volumes : list string := [scratchVolumeName; tlsVolumeName; podInfoVolumeName; configVolumeName].

Section properties.
  #[local] Set Default Proof Using "Type*".
  Context {QS : Quantities} {MC : Machinery}.

(** Injecting the sidecar is idempotent: a pod that was already mutated (the
    EVALUATE pass, or a second webhook call) is left exactly as it is, so the hook
    causes no endless stream of patches. *)
Lemma injectSidecar_idempotent cfg cluster spec :
  injectSidecar cfg cluster (injectSidecar cfg cluster spec) = injectSidecar cfg cluster spec.
Proof.
  assert (∀ vs v, hasVolume vs scratchVolumeName = true → hasVolume (ensureVolume v vs) scratchVolumeName = true) as Hhas.
  { intros vs v (z & Hz & Hn)%hasVolume_true. apply hasVolume_true.
    destruct (decide (vol_Name v = scratchVolumeName)) as [Hv|Hv].
    - exists v. split; [apply elem_of_replace_or_append|done].
    - exists z. split; [|done]. apply replace_or_append_present; congruence. }
  assert (let vs := if negb (hasVolume (pod_Volumes spec) scratchVolumeName)
                    then pod_Volumes spec ++ [scratch_volume] else pod_Volumes spec in
          hasVolume vs scratchVolumeName = true) as Hs.
  { destruct (hasVolume (pod_Volumes spec) scratchVolumeName) eqn:Hs; simpl; [done|].
    apply hasVolume_true. exists scratch_volume. split; [set_solver|done]. }
  unfold injectSidecar; cbn -[hasVolume ensureVolume scratchVolumeName] in *.
  set (vs := if negb _ then _ else _) in *.
  rewrite (Hhas _ _ (Hhas _ _ (Hhas _ _ Hs))). cbn [negb]. unfold ensureVolume. f_equal.
  - assert (∀ a b l, vol_Name a ≠ vol_Name b → first_named vol_Name b l →
      first_named vol_Name b (replace_or_append vol_Name a l)) as Hk by (intros; by apply replace_or_append_keeps_first).
    rewrite (replace_or_append_same _ (tls_volume cluster)).
    2: { do 2 (apply Hk; [intros Heq; by vm_compute in Heq|]). apply replace_or_append_first. }
    rewrite (replace_or_append_same _ podinfo_volume).
    2: { apply Hk; [intros Heq; by vm_compute in Heq|]. apply replace_or_append_first. }
    apply replace_or_append_same, replace_or_append_first.
  - apply replace_or_append_same, replace_or_append_first.
Qed.

Lemma ensureVolume_filter (P : Volume → Prop) `{∀ v, Decision (P v)} v vs :
  (∀ w, P w → vol_Name w ≠ vol_Name v) → ¬ P v → filter P (ensureVolume v vs) = filter P vs.
Proof.
  intros HP Hv. unfold ensureVolume. induction vs as [|w vs IH]; simpl; [by rewrite filter_cons_False|].
  destruct (decide (vol_Name w = vol_Name v)) as [Hd|Hd].
  - rewrite !filter_cons_False; [done| |done]. intros Hw. by apply (HP w).
  - destruct (decide (P w)); [by rewrite !filter_cons_True, IH|by rewrite !filter_cons_False, IH].
Qed.

(** Injection is conservative: the pod's own containers, its other init
    containers and its other volumes are all kept, unchanged and in order. *)
Lemma injectSidecar_preserves cfg cluster spec :
  let spec' := injectSidecar cfg cluster spec in
  pod_Containers spec' = pod_Containers spec ∧
  filter (λ c, ct_Name c ≠ sidecarContainerName) (pod_InitContainers spec')
    = filter (λ c, ct_Name c ≠ sidecarContainerName) (pod_InitContainers spec) ∧
  filter (λ v, vol_Name v ∉ plugin_volumes) (pod_Volumes spec')
    = filter (λ v, vol_Name v ∉ plugin_volumes) (pod_Volumes spec).
Proof.
  split_and!; [done|apply (replace_or_append_others ct_Name (sidecar cfg))|].
  unfold injectSidecar; cbn -[hasVolume ensureVolume plugin_volumes].
  rewrite !ensureVolume_filter by (unfold plugin_volumes; simpl; set_solver).
  destruct (hasVolume _ _); simpl; [done|]. rewrite filter_app, (filter_cons_False _ scratch_volume).
  - by rewrite app_nil_r.
  - unfold plugin_volumes; simpl; set_solver.
Qed.

(** C36 — Injection is a conservative update: injecting again changes nothing (so a pod
    that was already mutated gets no endless stream of patches), and the pod's own
    containers, its other init containers and its other volumes are all kept,
    unchanged and in order. *)
Theorem injectSidecar_conservative cfg cluster spec :
  let spec' := injectSidecar cfg cluster spec in
  injectSidecar cfg cluster spec' = spec' ∧
  pod_Containers spec' = pod_Containers spec ∧
  filter (λ c, ct_Name c ≠ sidecarContainerName) (pod_InitContainers spec')
    = filter (λ c, ct_Name c ≠ sidecarContainerName) (pod_InitContainers spec) ∧
  filter (λ v, vol_Name v ∉ plugin_volumes) (pod_Volumes spec')
    = filter (λ v, vol_Name v ∉ plugin_volumes) (pod_Volumes spec).
Proof. intros spec'. split; [apply injectSidecar_idempotent|apply injectSidecar_preserves]. Qed.

(** The source a pod gives a volume name (the first entry counts). *)
Definition volume_source (vs : list Volume) (name : string) : option VolumeSource :=
  vol_Source ∘ snd <$> list_find (λ v, vol_Name v = name) vs.

Lemma first_named_source v vs : first_named vol_Name v vs → volume_source vs (vol_Name v) = Some (vol_Source v).
Proof.
  intros (i & Hi & Hlt). unfold volume_source.
  assert (list_find (λ w, vol_Name w = vol_Name v) vs = Some (i, v)) as ->; [|done].
  apply list_find_Some. split_and!; [done..|]. intros j w Hj ?. by eapply Hlt.
Qed.

Lemma injected_first cfg cluster spec v :
  v ∈ [tls_volume cluster; podinfo_volume; config_volume cluster] →
  first_named vol_Name v (pod_Volumes (injectSidecar cfg cluster spec)).
Proof.
  unfold injectSidecar, ensureVolume; cbn [pod_Volumes]. intros Hin.
  repeat (apply elem_of_cons in Hin as [->|Hin]); [..|by apply not_elem_of_nil in Hin];
    repeat (apply replace_or_append_first ||
      (apply replace_or_append_keeps_first; [intros Heq; by vm_compute in Heq|])).
Qed.

Lemma injected_volume cfg cluster spec v :
  v ∈ [tls_volume cluster; podinfo_volume; config_volume cluster] →
  volume_source (pod_Volumes (injectSidecar cfg cluster spec)) (vol_Name v) = Some (vol_Source v).
Proof. intros Hv. by apply first_named_source, injected_first. Qed.

(** The pod has a scratch volume, and without one of its own it is the plugin's. *)
Lemma injected_scratch cfg cluster spec :
  is_Some (volume_source (pod_Volumes (injectSidecar cfg cluster spec)) scratchVolumeName) ∧
  (hasVolume (pod_Volumes spec) scratchVolumeName = false →
   volume_source (pod_Volumes (injectSidecar cfg cluster spec)) scratchVolumeName = Some (EmptyDir StorageMediumMemory)).
Proof.
  assert (∃ v, v ∈ (if negb (hasVolume (pod_Volumes spec) scratchVolumeName)
    then pod_Volumes spec ++ [scratch_volume] else pod_Volumes spec) ∧ vol_Name v = scratchVolumeName ∧
    (hasVolume (pod_Volumes spec) scratchVolumeName = false →
      first_named vol_Name scratch_volume (pod_Volumes spec ++ [scratch_volume]))) as (v & Hv' & Hn & Hf).
  { destruct (hasVolume _ _) eqn:Hh; simpl.
    - apply hasVolume_true in Hh as (v & ? & ?). by exists v.
    - exists scratch_volume. split_and!; [set_solver|done|]. intros _. exists (length (pod_Volumes spec)).
      split; [by rewrite list_lookup_middle|]. intros j y Hj Hy Hyn. rewrite lookup_app_l in Hy by done.
      apply not_true_iff_false in Hh. apply Hh, hasVolume_true. exists y. split; [by eapply list_elem_of_lookup_2|done]. }
  unfold injectSidecar, ensureVolume; cbn [pod_Volumes]. split.
  - unfold volume_source. apply fmap_is_Some, (list_find_elem_of _ _ v); [|done].
    do 3 (apply replace_or_append_present; [|rewrite Hn; intros Heq; by vm_compute in Heq]). done.
  - intros Hh. rewrite Hh in *. simpl. apply (first_named_source scratch_volume).
    do 3 (apply replace_or_append_keeps_first; [intros Heq; by vm_compute in Heq|]). auto.
Qed.

Lemma to_int32_id n : 0 ≤ n < 2 ^ 31 → to_int32 n = n.
Proof. intros Hn. unfold to_int32. rewrite Z.mod_small; lia. Qed.

(** C4 — The injected sidecar is what the wrapper and the kubelet need, for valid
    parameters: it is the first init container of its name and restarts always (a
    native sidecar); it has no readiness or startup probe that could gate
    PostgreSQL; its two ports are the configured ones, distinct and off the
    ports of the pod; every mount has its volume; the config volume is the very
    Secret the controller renders and CONFIG_SOURCE the key it renders into; a pod
    without a scratch volume of its own gets one in memory. *)
Theorem injectSidecar_runs cfg cluster spec ρ :
  Validate ρ cfg = Ok () →
  let spec' := injectSidecar cfg cluster spec in
  let s := sidecar cfg in
  first_named ct_Name s (pod_InitContainers spec') ∧
  ct_RestartPolicy s = Some "Always" ∧ ct_ReadinessProbe s = None ∧ ct_StartupProbe s = None ∧
  (cp_ContainerPort <$> ct_Ports s) = [PoolerPort cfg; MetricsPort cfg] ∧
  NoDup ([WrapperHealthPort; 5432; 8000; 9187] ++ (cp_ContainerPort <$> ct_Ports s)) ∧
  Forall (λ m, is_Some (volume_source (pod_Volumes spec') (vm_Name m))) (ct_VolumeMounts s) ∧
  volume_source (pod_Volumes spec') configVolumeName = Some (SecretVolume (RenderedSecretName (cl_Name cluster))) ∧
  ("CONFIG_SOURCE", configMountPath +:+ "/" +:+ ConfigKey) ∈ ct_Env s ∧
  volume_source (pod_Volumes spec') tlsVolumeName = Some (SecretVolume (serverTLSSecretName cluster)) ∧
  (hasVolume (pod_Volumes spec) scratchVolumeName = false →
     volume_source (pod_Volumes spec') scratchVolumeName = Some (EmptyDir StorageMediumMemory)).
Proof.
  intros Hv spec' s. assert (valid_config cfg) as (_ & _ & [Hp Hpr] & [Hm Hmr] & Hne & _)
    by (apply (Validate_is_ok ρ); by rewrite Hv).
  assert ((cp_ContainerPort <$> ct_Ports s) = [PoolerPort cfg; MetricsPort cfg]) as Hports
    by (unfold s; simpl; rewrite !to_int32_id by lia; done).
  pose proof (injected_volume cfg cluster spec : ∀ v, _ → volume_source (pod_Volumes spec') (vol_Name v) = _) as Hsrc.
  destruct (injected_scratch cfg cluster spec) as [Hin Hscr]; fold spec' in Hin, Hscr.
  assert (volume_source (pod_Volumes spec') tlsVolumeName = Some (SecretVolume (serverTLSSecretName cluster))) as Htls
    by (apply (Hsrc (tls_volume cluster)); set_solver).
  assert (volume_source (pod_Volumes spec') configVolumeName = Some (SecretVolume (RenderedSecretName (cl_Name cluster)))) as Hcfg
    by (apply (Hsrc (config_volume cluster)); set_solver).
  assert (is_Some (volume_source (pod_Volumes spec') podInfoVolumeName)) as Hinfo
    by (eexists; apply (Hsrc podinfo_volume); set_solver).
  split_and!; try done.
  - apply replace_or_append_first.
  - rewrite Hports. clear -Hpr Hmr Hne. unfold WrapperHealthPort. rewrite !not_elem_of_cons in Hpr, Hmr.
    destruct Hpr as (?&?&?&?&_), Hmr as (?&?&?&?&_). simpl.
    repeat (apply NoDup_cons; split); [..|apply NoDup_nil_2];
      intros Hin; repeat (apply elem_of_cons in Hin as [Hin|Hin]; [lia|]); by apply not_elem_of_nil in Hin.
  - unfold s; simpl. repeat apply Forall_cons_2; [| | | |apply Forall_nil_2]; simpl.
    + exact Hin.
    + exact (mk_is_Some _ _ Htls).
    + exact (mk_is_Some _ _ Hcfg).
    + exact Hinfo.
  - left.
Qed.

(** The hook's answers: a cluster without the plugin gets no patch, invalid
    parameters stop the pod with their error, and otherwise a pod gets the patch
    of its injected version and any other object none. *)
Theorem lifecycleHook_correct img ρ object clusterDefinition kind cluster :
  GetKind object = Ok kind → DecodeCluster clusterDefinition = Ok cluster →
  let cfg := NewFromCluster img cluster in
  match lifecycleHook img ρ object clusterDefinition with
  | Ok None => Enabled cfg = false ∨ (valid_config cfg ∧ kind ≠ "Pod")
  | Ok (Some patch) => Enabled cfg = true ∧ valid_config cfg ∧ kind = "Pod" ∧
      ∃ pod, DecodePod object = Ok pod ∧ CreatePodPatch (injectSidecar cfg cluster pod) pod = Ok patch
  | Err e => Enabled cfg = true ∧
      (¬ valid_config cfg ∨ (kind = "Pod" ∧ (is_ok (DecodePod object) = false ∨
         ∃ pod, DecodePod object = Ok pod ∧ is_ok (CreatePodPatch (injectSidecar cfg cluster pod) pod) = false)))
  end.
Proof.
  intros Hk Hc cfg. unfold lifecycleHook. rewrite Hk, Hc. fold cfg.
  destruct (Enabled cfg) eqn:He; simpl; [|by left].
  pose proof (Validate_is_ok ρ cfg) as Hval. unfold mbind, res_bind.
  destruct (Validate ρ cfg) as [[]|e]; simpl in Hval.
  - apply proj1 in Hval. specialize (Hval eq_refl). case_decide as Hd; [|by right]. unfold reconcilePod.
    destruct (DecodePod object) as [pod|] eqn:Hp; simpl; [|by split; auto].
    destruct (CreatePodPatch _ pod) eqn:Hpatch; split_and!; eauto.
    right. split; [done|]. right. exists pod. by rewrite Hpatch.
  - split; [done|]. left. intros Hv. by apply Hval in Hv.
Qed.
End properties.

(** ** Examples *)
#[local] Instance lx_quantities : Quantities := example_quantities.
Definition lx_pod : PodSpec :=
  {| pod_Volumes := [{| vol_Name := "pgdata"; vol_Source := OtherVolume "pvc" |};
                     {| vol_Name := tlsVolumeName; vol_Source := OtherVolume "stale" |}];
     pod_InitContainers := []; pod_Containers := [] |}.
#[local] Instance lx_machinery : Machinery := {|
  GetKind s := Ok s; DecodeCluster _ := Ok example_cluster; DecodePod _ := Ok lx_pod;
  CreateClusterPatch _ _ := Ok ""; CreatePodPatch _ _ := Ok "patch"
|}.
Definition lx_config : PluginConfiguration := NewFromCluster "img" example_cluster.

Lemma injectSidecar_runs_witness :
  volume_source (pod_Volumes (injectSidecar lx_config example_cluster lx_pod)) tlsVolumeName
    = Some (SecretVolume "my-cluster-server") ∧
  NoDup [8081; 5432; 8000; 9187; 6433; 9127].
Proof.
  destruct (injectSidecar_runs lx_config example_cluster lx_pod reverse_ranger) as (_&_&_&_&_&Hnd&_&_&_&Htls&_).
  - vm_compute. reflexivity.
  - split; [exact Htls|exact Hnd].
Defined.

Lemma lx_kind : GetKind "Pod" = Ok "Pod".
Proof. reflexivity. Qed.
Lemma lx_decode : DecodeCluster "" = Ok example_cluster.
Proof. reflexivity. Qed.
Lemma lifecycleHook_correct_witness :
  lifecycleHook "img" default_ranger "Pod" "" = Ok (Some "patch") ∧ valid_config lx_config.
Proof.
  assert (lifecycleHook "img" default_ranger "Pod" "" = Ok (Some "patch")) as Hr by (vm_compute; reflexivity).
  split; [exact Hr|].
  pose proof (lifecycleHook_correct "img" default_ranger "Pod" "" "Pod" example_cluster lx_kind lx_decode) as H.
  cbv zeta in H. rewrite Hr in H. apply H.
Defined.
