(* ===== verification/Hooks.v ===== *)
(** * The hook server of the plugin (internal/identity, internal/metrics, cmd/plugin: CNPGI.Start)

    What the plugin tells the operator about itself, the services it registers,
    and the entry points of the hooks, which time each call and count its failures. *)
From S2P Require Import Prelude GoStd Json K8s PluginConfig Kube MemClient Machinery Reconciler Operator Lifecycle.
From stdpp Require Import options.
Open Scope Z_scope.

(** ** Identity *)
Inductive service_type := TYPE_LIFECYCLE_SERVICE | TYPE_OPERATOR_SERVICE | TYPE_RECONCILER_HOOKS.
#[export] Instance service_type_eq_dec : EqDecision service_type.
Proof. solve_decision. Defined.
Record metadata : Type := {
  md_Name : string; md_Version : string; md_DisplayName : string; md_ProjectUrl : string;
  md_RepositoryUrl : string; md_License : string; md_LicenseUrl : string; md_Maturity : string
}.
Definition Data : metadata := {|
  md_Name := PluginName; md_Version := "0.4.1"; md_DisplayName := "PgDoorman";
  md_ProjectUrl := "https://github.com/ermakov-oleg/cnpg-pg-doorman";
  md_RepositoryUrl := "https://github.com/ermakov-oleg/cnpg-pg-doorman";
  md_License := "Apache-2.0";
  md_LicenseUrl := "https://github.com/ermakov-oleg/cnpg-pg-doorman/blob/main/LICENSE";
  md_Maturity := "alpha"
|}.
Definition GetPluginMetadata : metadata := Data.
Definition GetPluginCapabilities : list service_type :=
  [TYPE_LIFECYCLE_SERVICE; TYPE_OPERATOR_SERVICE; TYPE_RECONCILER_HOOKS].
Definition Probe_ready : bool := true.

(** ** What each service answers when asked for its capabilities *)
Inductive operation := TYPE_CREATE | TYPE_EVALUATE.
Inductive rpc := TYPE_VALIDATE_CLUSTER_CREATE | TYPE_VALIDATE_CLUSTER_CHANGE | TYPE_MUTATE_CLUSTER.
Definition lifecycle_capabilities : list (string * string * list operation) :=
  [("", "Pod", [TYPE_CREATE; TYPE_EVALUATE])].
Definition reconciler_capabilities : list string := ["Cluster"].
Definition operator_capabilities : list rpc :=
  [TYPE_VALIDATE_CLUSTER_CREATE; TYPE_VALIDATE_CLUSTER_CHANGE; TYPE_MUTATE_CLUSTER].

(** ** Hook metrics *)
Record hook_metrics : Type := {
  hookDuration : list (string * Z);     (* the observations, oldest first *)
  hookErrors : gmap string Z
}.
Definition zero_hook_metrics : hook_metrics := {| hookDuration := []; hookErrors := ∅ |}.
Definition errors_of (hook : string) (m : hook_metrics) : Z := default 0 (hookErrors m !! hook).
Definition observe_duration (hook : string) (d : Z) (m : hook_metrics) : hook_metrics :=
  {| hookDuration := hookDuration m ++ [(hook, d)]; hookErrors := hookErrors m |}.
Definition inc_error (hook : string) (m : hook_metrics) : hook_metrics :=
  {| hookDuration := hookDuration m; hookErrors := <[hook := errors_of hook m + 1]> (hookErrors m) |}.

Section hooks.
  Context {W : Type}.
  (** [time.Now] *)
  Context (now : W → Z).

Definition Observe {A} (hook : string) (fn : M W A) : M (W * hook_metrics) A := λ wm,
  let start := now wm.1 in
  let '(result, w) := fn wm.1 in
  let m := observe_duration hook (now w - start) wm.2 in
  (result, (w, match result with Err _ => inc_error hook m | Ok _ => m end)).
(** A call that is not observed. *)
Definition unobserved {A} (fn : M W A) : M (W * hook_metrics) A := λ wm,
  let '(result, w) := fn wm.1 in (result, (w, wm.2)).

(** ** The services *)
Context {KC : KubeClient W} {KL : KubeLib} {QS : Quantities} {MC : Machinery}.
Context (SidecarImage : string) (ρ : ranger).

Inductive request : Type :=
  | PreRequest (resource : string)
  | PostRequest (resource : string)
  | LifecycleRequest (object cluster : string)
  | ValidateCreateRequest (definition : string)
  | ValidateChangeRequest (newCluster : string)
  | MutateRequest (definition : string).
Inductive reply : Type :=
  | HookReply (result : ReconcilerHooksResult)
  | PatchReply (patch : option string)
  | ValidationReply (errors : list ValidationError).

(** The hook of a request without the metrics. *)
Definition handle (q : request) : M W reply :=
  match q with
  | PreRequest resource => r ← pre SidecarImage ρ resource; mret (HookReply r)
  | PostRequest resource => r ← Post resource; mret (HookReply r)
  | LifecycleRequest object cluster => p ← lift (lifecycleHook SidecarImage ρ object cluster); mret (PatchReply p)
  | ValidateCreateRequest d => es ← validateClusterCreate SidecarImage true ρ d; mret (ValidationReply es)
  | ValidateChangeRequest d => es ← validateClusterChange SidecarImage true ρ d; mret (ValidationReply es)
  | MutateRequest d => p ← lift (MutateCluster d); mret (PatchReply (Some p))
  end.

(** The name a request is observed under. *)
Definition hook_name (q : request) : option string :=
  match q with
  | PreRequest _ => Some "reconciler.Pre"
  | LifecycleRequest _ _ => Some "lifecycle.LifecycleHook"
  | ValidateCreateRequest _ => Some "operator.ValidateClusterCreate"
  | ValidateChangeRequest _ => Some "operator.ValidateClusterChange"
  | PostRequest _ | MutateRequest _ => None
  end.
Definition service_of (q : request) : service_type :=
  match q with
  | PreRequest _ | PostRequest _ => TYPE_RECONCILER_HOOKS
  | LifecycleRequest _ _ => TYPE_LIFECYCLE_SERVICE
  | ValidateCreateRequest _ | ValidateChangeRequest _ | MutateRequest _ => TYPE_OPERATOR_SERVICE
  end.

(** The entry points of the services. *)
Definition Pre (resource : string) : M (W * hook_metrics) ReconcilerHooksResult :=
  Observe "reconciler.Pre" (pre SidecarImage ρ resource).
Definition LifecycleHook (object cluster : string) : M (W * hook_metrics) (option string) :=
  Observe "lifecycle.LifecycleHook" (lift (lifecycleHook SidecarImage ρ object cluster)).
Definition ValidateClusterCreate (definition : string) : M (W * hook_metrics) (list ValidationError) :=
  Observe "operator.ValidateClusterCreate" (validateClusterCreate SidecarImage true ρ definition).
Definition ValidateClusterChange (newCluster : string) : M (W * hook_metrics) (list ValidationError) :=
  Observe "operator.ValidateClusterChange" (validateClusterChange SidecarImage true ρ newCluster).

(** The server with its services registered. *)
Definition serve (q : request) : M (W * hook_metrics) reply :=
  match q with
  | PreRequest resource => r ← Pre resource; mret (HookReply r)
  | PostRequest resource => r ← unobserved (Post resource); mret (HookReply r)
  | LifecycleRequest object cluster => p ← LifecycleHook object cluster; mret (PatchReply p)
  | ValidateCreateRequest d => es ← ValidateClusterCreate d; mret (ValidationReply es)
  | ValidateChangeRequest d => es ← ValidateClusterChange d; mret (ValidationReply es)
  | MutateRequest d => p ← unobserved (lift (MutateCluster d)); mret (PatchReply (Some p))
  end.
Lemma serve_handle q wm :
  serve q wm = match hook_name q with
               | Some hook => Observe hook (handle q) wm
               | None => unobserved (handle q) wm
               end.
Proof.
  destruct q; cbn [serve hook_name handle]; unfold Pre, LifecycleHook, ValidateClusterCreate, ValidateClusterChange, Observe, unobserved;
    unfold mbind, M_bind, mret, M_ret;
    [destruct (pre _ _ _ _) as [[] ?]|destruct (Post _ _) as [[] ?]|destruct (lift _ _) as [[] ?]
    |destruct (validateClusterCreate _ _ _ _ _) as [[] ?]|destruct (validateClusterChange _ _ _ _ _) as [[] ?]
    |destruct (lift _ _) as [[] ?]]; done.
Qed.

(** The server at work: requests one after the other. *)
Fixpoint serve_all (qs : list request) (wm : W * hook_metrics) : list (res reply) * (W * hook_metrics) :=
  match qs with
  | [] => ([], wm)
  | q :: qs =>
      let '(r, wm) := serve q wm in
      let '(rs, wm) := serve_all qs wm in (r :: rs, wm)
  end.
Fixpoint handle_all (qs : list request) (w : W) : list (res reply) * W :=
  match qs with
  | [] => ([], w)
  | q :: qs =>
      let '(r, w) := handle q w in
      let '(rs, w) := handle_all qs w in (r :: rs, w)
  end.

(** Requests and results of one hook, all of them and those that failed. *)
Definition calls (hook : string) (qrs : list (request * res reply)) : list (request * res reply) :=
  filter (λ qr, hook_name qr.1 = Some hook) qrs.
Definition failures (hook : string) (qrs : list (request * res reply)) : list (request * res reply) :=
  filter (λ qr, is_ok qr.2 = false) (calls hook qrs).

(** C34 — The metrics are transparent and exact: the answers and the effects are those
    of the hooks alone, every observed hook has one duration per call, none of
    them negative when the clock does not go backwards, and its error counter grows by
    the calls that failed. *)
Theorem serve_all_observed qs w m :
  (∀ q w, now w ≤ now (handle q w).2) →
  ∃ rs w' m', serve_all qs (w, m) = (rs, (w', m')) ∧ handle_all qs w = (rs, w') ∧
    ∀ hook,
      errors_of hook m' = errors_of hook m + Z.of_nat (length (failures hook (zip qs rs))) ∧
      ∃ ds, hookDuration m' = hookDuration m ++ ds ∧ Forall (λ d, 0 ≤ d.2) ds ∧
        length (filter (λ d, d.1 = hook) ds) = length (calls hook (zip qs rs)).
Proof.
  intros Hnow. revert w m. induction qs as [|q qs IH]; intros w m.
  { exists [], w, m. split_and!; [done..|]. intros hook. split; [simpl; lia|]. exists []. by rewrite app_nil_r. }
  cbn [serve_all handle_all]. rewrite serve_handle. unfold Observe, unobserved. specialize (Hnow q w) as Hq.
  destruct (handle q w) as [r w1] eqn:Hh. simpl in Hq.
  destruct (hook_name q) as [name|] eqn:Hn; cbn [fst snd]; rewrite Hh.
  - set (m1 := match r with Err _ => _ | Ok _ => _ end).
    destruct (IH w1 m1) as (rs & w' & m' & -> & -> & Hm). exists (r :: rs), w', m'. split_and!; [done..|].
    intros hook. destruct (Hm hook) as (He & ds & Hd & Hpos & Hlen). split.
    + rewrite He. unfold failures, calls. simpl. unfold m1, errors_of. rewrite filter_cons. simpl. rewrite Hn.
      destruct (decide (Some name = Some hook)) as [[= ->]|Hne].
      * rewrite filter_cons. simpl. destruct r; simpl; [done|].
        unfold errors_of. simpl. rewrite lookup_insert_eq. simpl. lia.
      * destruct r; simpl; [done|]. unfold errors_of. simpl. rewrite lookup_insert_ne by congruence. done.
    + exists ((name, now w1 - now w) :: ds). split_and!.
      * rewrite Hd. unfold m1. destruct r; simpl; by rewrite <- app_assoc.
      * constructor; [simpl; lia|done].
      * unfold calls. simpl. rewrite !filter_cons. simpl. rewrite Hn.
        repeat case_decide; simplify_eq; simpl; by rewrite Hlen.
  - destruct (IH w1 m) as (rs & w' & m' & -> & -> & Hm). exists (r :: rs), w', m'. split_and!; [done..|].
    intros hook. destruct (Hm hook) as (He & ds & Hd & Hpos & Hlen).
    assert (calls hook (zip (q :: qs) (r :: rs)) = calls hook (zip qs rs)) as Hc.
    { unfold calls. simpl. rewrite filter_cons. simpl. by rewrite Hn, decide_False. }
    unfold failures. rewrite Hc. split; [exact He|]. by exists ds.
Qed.

(** Every service a request is for is one the plugin advertises, and the other way round. *)
Lemma services_advertised s : s ∈ GetPluginCapabilities ↔ ∃ q, service_of q = s.
Proof.
  split; [|by intros [[] <-]; repeat first [left | right]].
  intros _. destruct s; [by exists (LifecycleRequest "" "")|by exists (MutateRequest "")|by exists (PostRequest "")].
Qed.
End hooks.

(** ** The kind of an object definition (internal/utils) *)
Module Utils.
Fixpoint decode_kind (kind : string) (ms : list (string * json)) : option string :=
  match ms with
  | [] => Some kind
  | (k, x) :: ms => kind ← (if field_matches "kind" k then decode_string kind x else Some kind); decode_kind kind ms
  end.
Definition GetKind (definition : string) : res string :=
  match (x ← parse definition;
         match x with
         | JObject ms => decode_kind "" ms
         | JNull => Some ""
         | _ => None
         end) with
  | Some kind => Ok kind
  | None => Err (Wrapf "failed to unmarshal object definition: %w" [] (ExtErr "json"))
  end.

Lemma decode_kind_skips kind ms :
  Forall (λ m, field_matches "kind" m.1 = false) ms → decode_kind kind ms = Some kind.
Proof. induction 1 as [|[k x] ms Hk _ IH]; [done|]. simpl in *. by rewrite Hk. Qed.

(** In a document with other members before and after it, the kind is found. *)
Lemma GetKind_finds before kind after befores afters :
  utf8_valid kind →
  Forall2 (member_reads (maxNestingDepth - 1)) before befores → Forall2 (member_reads (maxNestingDepth - 1)) after afters →
  Forall (λ m, field_matches "kind" m.1 = false) (befores ++ afters) →
  GetKind (json_object (before ++ ("kind", marshal_string kind) :: after)) = Ok kind.
Proof.
  intros Hk Hb Ha [Hfb Hfa]%Forall_app. unfold GetKind.
  rewrite (parse_reads _ (JObject (befores ++ ("kind", JString kind) :: afters))).
  - cbn [mbind option_bind].
    assert (decode_kind "" (befores ++ ("kind", JString kind) :: afters) = Some kind) as ->; [|done].
    induction Hfb as [|[k x] l Hx _ IH] in before, Hb |- *; simpl in *.
    + by apply decode_kind_skips.
    + rewrite Hx. simpl. destruct before; [by inversion Hb|]. apply Forall2_cons in Hb as [_ Hb]. by eapply IH.
  - apply reads_object; [done|]. apply Forall2_app; [done|]. apply Forall2_cons; split; [|done].
    split_and!; [done..|]. by apply reads_string.
Qed.
End Utils.

(** ** Example: four calls, one of which fails and one of which is not observed *)
#[local] Instance hx_quantities : Quantities := example_quantities.
#[local] Instance hx_machinery : Machinery := example_machinery hx_quantities.

Definition example_requests : list request :=
  [PreRequest "running"; PreRequest "disabled"; MutateRequest "new"; ValidateCreateRequest "new"].
Definition example_served : list (res reply) * (mem * hook_metrics) :=
  serve_all (λ _, 0) "img" default_ranger example_requests (rx_world [rx_pd "other"], zero_hook_metrics).
Lemma serve_all_observed_witness :
  is_ok <$> example_served.1 = [false; true; true; true] ∧
  errors_of "reconciler.Pre" example_served.2.2 = 1 ∧
  example_served.1 = (handle_all "img" default_ranger example_requests (rx_world [rx_pd "other"])).1.
Proof.
  split; [vm_compute; reflexivity|]. unfold example_served.
  destruct (serve_all_observed (λ _, 0) "img" default_ranger example_requests (rx_world [rx_pd "other"]) zero_hook_metrics)
    as (rs & w' & m' & -> & Hh & Hm); [done|].
  rewrite Hh. split; [|done]. cbn [fst snd]. destruct (Hm "reconciler.Pre") as [-> _]. apply (f_equal fst) in Hh. simpl in Hh.
  rewrite <- Hh. vm_compute. reflexivity.
Defined.
