(* ===== verification/Os.v ===== *)
(** * The wrapper's operating system

    The state the wrapper acts on: files, directories, the process table, the
    clock, the metrics, the signals it has sent, the state of its supervised
    process, and three scripts that resolve what the environment decides: which
    system calls fail (and after how many bytes a failing write does), the
    suffixes of temporary files and the answers of the network. *)
From S2P Require Import Prelude GoStd GoTime Sha256.
From stdpp Require Import options.
Open Scope Z_scope.

Record file : Type := File { f_Data : string; f_Mode : Z }.
#[export] Instance file_eq_dec : EqDecision file.
Proof. solve_decision. Defined.

(** The wrapper's metrics (metrics.go). *)
Record metrics : Type := {
  ReloadsSuccess : Z; ReloadsFailure : Z;
  ProcessRestartsTotal : Z;
  UpgradesSuccess : Z; UpgradesFailure : Z;
  ConfigStale : Z; BinaryStale : Z
}.
Definition zero_metrics : metrics :=
  {| ReloadsSuccess := 0; ReloadsFailure := 0; ProcessRestartsTotal := 0; UpgradesSuccess := 0;
     UpgradesFailure := 0; ConfigStale := 0; BinaryStale := 0 |}.

(** A directory of /proc: its name, the bytes of [cmdline] and the target of
    [exe] when they can be read. *)
Record proc : Type := { pr_Name : string; pr_Cmdline : option string; pr_Exe : option string }.

Inductive signal : Type := SIGHUP | SIGTERM | SIGUSR2 | SIGKILL.
#[export] Instance signal_eq_dec : EqDecision signal.
Proof. solve_decision. Defined.

(** The mutable fields of [Process] (process.go): the pid of [cmd.Process] when
    it is set, and the post-upgrade bookkeeping. *)
Record process : Type := {
  p_cmd : option Z;
  p_adoptedPid : Z;
  p_upgradeRequested : bool;
  p_upgradeRequestedAt : Z
}.

(** An HTTP response: [rs_Body] is what can be read, followed by a read error
    when [rs_Broken]. *)
Record response : Type := {
  rs_StatusCode : Z; rs_Status : string; rs_ContentLength : Z; rs_Body : string; rs_Broken : bool
}.

Record os : Type := Os {
  o_files : gmap string file;
  o_dirs : gset string;
  o_faults : list (option nat);   (* [Some n]: this call fails, a write after [n] bytes *)
  o_temps : list string;
  o_network : list (res response);
  o_metrics : metrics;
  o_clock : Z;                    (* nanoseconds *)
  o_procs : list proc;            (* in the order of ReadDir *)
  o_signals : list (Z * signal);  (* sent so far *)
  o_process : process
}.

Definition set_files f (w : os) : os :=
  Os f (o_dirs w) (o_faults w) (o_temps w) (o_network w) (o_metrics w) (o_clock w) (o_procs w) (o_signals w) (o_process w).
Definition set_dirs d (w : os) : os :=
  Os (o_files w) d (o_faults w) (o_temps w) (o_network w) (o_metrics w) (o_clock w) (o_procs w) (o_signals w) (o_process w).
Definition set_faults f (w : os) : os :=
  Os (o_files w) (o_dirs w) f (o_temps w) (o_network w) (o_metrics w) (o_clock w) (o_procs w) (o_signals w) (o_process w).
Definition set_network n (w : os) : os :=
  Os (o_files w) (o_dirs w) (o_faults w) (o_temps w) n (o_metrics w) (o_clock w) (o_procs w) (o_signals w) (o_process w).
Definition set_metrics m (w : os) : os :=
  Os (o_files w) (o_dirs w) (o_faults w) (o_temps w) (o_network w) m (o_clock w) (o_procs w) (o_signals w) (o_process w).
Definition set_procs p (w : os) : os :=
  Os (o_files w) (o_dirs w) (o_faults w) (o_temps w) (o_network w) (o_metrics w) (o_clock w) p (o_signals w) (o_process w).
Definition set_clock c (w : os) : os :=
  Os (o_files w) (o_dirs w) (o_faults w) (o_temps w) (o_network w) (o_metrics w) c (o_procs w) (o_signals w) (o_process w).
Definition set_signals s (w : os) : os :=
  Os (o_files w) (o_dirs w) (o_faults w) (o_temps w) (o_network w) (o_metrics w) (o_clock w) (o_procs w) s (o_process w).
Definition set_process p (w : os) : os :=
  Os (o_files w) (o_dirs w) (o_faults w) (o_temps w) (o_network w) (o_metrics w) (o_clock w) (o_procs w) (o_signals w) p.

(** ** System calls *)

(** A call the script may fail, with what a failed call does all the same. *)
Definition syscall {A} (partial : nat → os → os) (f : os → res A * os) : M os A := λ w,
  match o_faults w with
  | Some n :: fs => (Err (ExtErr "io"), partial n (set_faults fs w))
  | None :: fs => f (set_faults fs w)
  | [] => f w
  end.
Definition plain_call {A} (f : os → res A * os) : M os A := syscall (λ _ w, w) f.

(** What opening a path that is no file says. *)
Definition no_file (path : string) (w : os) : gerr :=
  if decide (path ∈ o_dirs w) then ExtErr "is a directory" else ENOENT path.
Definition ReadFile (path : string) : M os string := plain_call (λ w,
  (match o_files w !! path with Some f => Ok (f_Data f) | None => Err (no_file path w) end, w)).

(** [filepath.Dir] of a clean path: what precedes the last slash. *)
Fixpoint last_slash (s : string) : option string :=
  match s with
  | EmptyString => None
  | String c s' =>
      match last_slash s' with
      | Some d => Some (String c d)
      | None => if decide (c = "/"%char) then Some "" else None
      end
  end.
Definition Dir (path : string) : string :=
  match last_slash path with Some "" => "/" | Some d => d | None => "." end.

(** [filepath.Join] of a clean directory and a name. *)
Definition Join (dir name : string) : string :=
  if decide (dir = ".") then name
  else if decide (dir = "/") then "/" +:+ name
  else dir +:+ "/" +:+ name.

(** [os.ReadDir]: the names under a directory in order, and which are directories. *)
Definition child (dir path : string) : option string :=
  name ← strip_prefix (if decide (dir = "/") then "/" else dir +:+ "/") path;
  if decide (name = "" ∨ "/"%char ∈ chars name) then None else Some name.
Definition children (dir : string) (w : os) : list string :=
  sort_strings (remove_dups (omap (child dir) (elements (o_dirs w) ++ (map_to_list (o_files w)).*1))).
Definition ReadDir (dir : string) : M os (list (string * bool)) := plain_call (λ w,
  (if decide (dir ∈ o_dirs w)
   then Ok ((λ name, (name, bool_decide (Join dir name ∈ o_dirs w))) <$> children dir w)
   else match o_files w !! dir with Some _ => Err (ExtErr "not a directory") | None => Err (ENOENT dir) end, w)).

(** [os.OpenFile] with [O_RDWR|O_CREATE|O_TRUNC]: an existing file keeps its mode. *)
Definition OpenTrunc (path : string) (mode : Z) : M os unit := plain_call (λ w,
  if decide (Dir path ∈ o_dirs w)
  then (Ok (), set_files (<[path := File "" (match o_files w !! path with Some f => f_Mode f | None => mode end)]> (o_files w)) w)
  else (Err (ENOENT path), w)).

Definition append_file (path data : string) (w : os) : os :=
  match o_files w !! path with
  | Some f => set_files (<[path := File (f_Data f +:+ data) (f_Mode f)]> (o_files w)) w
  | None => w
  end.
(** Writing to the open file at [path]. *)
Definition Write (path data : string) : M os unit :=
  syscall (λ n, append_file path (String.substring 0 n data)) (λ w, (Ok (), append_file path data w)).
Definition Sync (path : string) : M os unit := plain_call (λ w, (Ok (), w)).
Definition Close (path : string) : M os unit := plain_call (λ w, (Ok (), w)).
Definition Chmod (path : string) (mode : Z) : M os unit := plain_call (λ w,
  match o_files w !! path with
  | Some f => (Ok (), set_files (<[path := File (f_Data f) mode]> (o_files w)) w)
  | None => (Err (ENOENT path), w)
  end).
Definition Remove (path : string) : M os unit := plain_call (λ w,
  match o_files w !! path with
  | Some _ => (Ok (), set_files (delete path (o_files w)) w)
  | None => (Err (ENOENT path), w)
  end).
Definition Rename (src dst : string) : M os unit := plain_call (λ w,
  match o_files w !! src with
  | Some f => if decide (Dir dst ∈ o_dirs w)
              then (Ok (), set_files (<[dst := f]> (delete src (o_files w))) w)
              else (Err (ENOENT dst), w)
  | None => (Err (ENOENT src), w)
  end).
Definition MkdirAll (path : string) : M os unit := plain_call (λ w, (Ok (), set_dirs ({[path]} ∪ o_dirs w) w)).

(** [os.CreateTemp] of a pattern that ends in a star: the first suffix of the script that is free. *)
Definition CreateTemp (dir prefix : string) : M os string := plain_call (λ w,
  if decide (dir ∈ o_dirs w) then
    match list_find (λ s, o_files w !! (dir +:+ "/" +:+ prefix +:+ s) = None) (o_temps w) with
    | Some (_, s) =>
        let path := dir +:+ "/" +:+ prefix +:+ s in
        (Ok path, set_files (<[path := File "" 384]> (o_files w)) w)
    | None => (Err (AlreadyExists dir), w)
    end
  else (Err (ENOENT dir), w)).

(** [os.WriteFile] (0600 files): open, write, close. *)
Definition WriteFile (path data : string) (mode : Z) : M os unit :=
  _ ← OpenTrunc path mode;
  written ← try_ (Write path data);
  closed ← try_ (Close path);
  match written with
  | Err e => throw e
  | Ok _ => lift closed
  end.

Definition is_not_exist (e : gerr) : bool := match e with ENOENT _ => true | _ => false end.

(** [FileSHA256]: the hex digest of a file. *)
Definition FileSHA256 (path : string) : M os string :=
  data ← ReadFile path; mret (Sum256 data).

(** [client.Do]: the next answer of the network. *)
Definition http_Do : M os response := λ w,
  match o_network w with
  | r :: rs => (r, set_network rs w)
  | [] => (Err (ExtErr "connection refused"), w)
  end.

(** ** Programs the wrapper runs or trusts

    pg_doorman itself: whether a binary (its bytes) accepts a config (its bytes)
    under [--test-config]. *)
Class PgDoormanBinary : Type := test_accepts : string → string → bool.

(** crypto/x509 and encoding/pem. *)
Class Crypto : Type := {
  pem_Decode : string → option (string * string);      (* type, bytes *)
  ParsePKCS8PrivateKey : string → res string;
  ParseECPrivateKey : string → res string;
  ParsePKCS1PrivateKey : string → res string;
  MarshalPKCS8PrivateKey : string → res string;
  pem_EncodeToMemory : string → string → string;
  AppendCertsFromPEM : string → bool
}.

(** ** What the calls change *)

(** Only the files of [P] may differ; directories only grow. *)
Record files_frame (P : string → Prop) (w w' : os) : Prop := {
  ff_files : ∀ k, ¬ P k → o_files w' !! k = o_files w !! k;
  ff_dirs : o_dirs w ⊆ o_dirs w'
}.
#[export] Instance files_frame_preorder P : PreOrder (files_frame P).
Proof.
  split; [by split|]. intros w1 w2 w3 [f1 d1] [f2 d2]. split; [|set_solver].
  intros k Hk. by rewrite f2, f1.
Qed.
Lemma files_frame_weaken (P Q : string → Prop) w w' : (∀ k, P k → Q k) → files_frame P w w' → files_frame Q w w'.
Proof. intros HPQ []. split; auto. Qed.
Notation framed P := (keeps_rel (files_frame P)).

(** Nothing but files, directories and scripts changes. *)
Record quiet_rel (w w' : os) : Prop := {
  qr_metrics : o_metrics w' = o_metrics w;
  qr_process : o_process w' = o_process w;
  qr_signals : o_signals w' = o_signals w;
  qr_clock : o_clock w' = o_clock w;
  qr_procs : o_procs w' = o_procs w
}.
#[export] Instance quiet_rel_preorder : PreOrder quiet_rel.
Proof. split; [by split|]. intros w1 w2 w3 [] []. split; congruence. Qed.
Notation quiet := (keeps_rel quiet_rel).

Lemma keeps_syscall {A} (R : os → os → Prop) `{!PreOrder R} part (f : os → res A * os) :
  (∀ fs w, R w (set_faults fs w)) → (∀ n w, R w (part n w)) → (∀ w, R w (f w).2) → keeps_rel R (syscall part f).
Proof.
  intros Hs Hp Hf w r w'. unfold syscall.
  destruct (o_faults w) as [|[n|] fs].
  - intros Hr. specialize (Hf w). by rewrite Hr in Hf.
  - intros [= <- <-]. etrans; [apply (Hs fs)|apply Hp].
  - intros Hr. specialize (Hf (set_faults fs w)). rewrite Hr in Hf. etrans; [apply (Hs fs)|done].
Qed.

Section frames.
  Context (P : string → Prop).

Lemma framed_syscall {A} part (f : os → res A * os) :
  (∀ n w, files_frame P w (part n w)) → (∀ w, files_frame P w (f w).2) → framed P (syscall part f).
Proof. intros Hp Hf. apply keeps_syscall; [apply _|intros fs w; by split|exact Hp|exact Hf]. Qed.
Lemma files_frame_set_files f w :
  (∀ k, ¬ P k → f !! k = o_files w !! k) → files_frame P w (set_files f w).
Proof. intros Hf. by split. Qed.

Lemma framed_read path : framed P (ReadFile path).
Proof. apply framed_syscall; [done|]. intros w. by destruct (o_files w !! path). Qed.
Lemma framed_open path mode : P path → framed P (OpenTrunc path mode).
Proof.
  intros HP. apply framed_syscall; [done|]. intros w. case_decide; [|done]. apply files_frame_set_files.
  intros k Hk. apply lookup_insert_ne. by intros ->.
Qed.
Lemma append_file_frame path data w : P path → files_frame P w (append_file path data w).
Proof.
  intros HP. unfold append_file. destruct (o_files w !! path); [|done]. apply files_frame_set_files.
  intros k Hk. apply lookup_insert_ne. by intros ->.
Qed.
Lemma framed_write path data : P path → framed P (Write path data).
Proof. intros HP. apply framed_syscall; intros; by apply append_file_frame. Qed.
Lemma framed_sync path : framed P (Sync path).
Proof. by apply framed_syscall. Qed.
Lemma framed_close path : framed P (Close path).
Proof. by apply framed_syscall. Qed.
Lemma framed_chmod path mode : P path → framed P (Chmod path mode).
Proof.
  intros HP. apply framed_syscall; [done|]. intros w. destruct (o_files w !! path); [|done].
  apply files_frame_set_files. intros k Hk. apply lookup_insert_ne. by intros ->.
Qed.
Lemma framed_remove path : P path → framed P (Remove path).
Proof.
  intros HP. apply framed_syscall; [done|]. intros w. destruct (o_files w !! path); [|done].
  apply files_frame_set_files. intros k Hk. apply lookup_delete_ne. by intros ->.
Qed.
Lemma framed_rename src dst : P src → P dst → framed P (Rename src dst).
Proof.
  intros Hs Hd. apply framed_syscall; [done|]. intros w. destruct (o_files w !! src); [|done].
  case_decide; [|done]. apply files_frame_set_files. intros k Hk.
  rewrite lookup_insert_ne by (by intros ->). apply lookup_delete_ne. by intros ->.
Qed.
Lemma framed_mkdir path : framed P (MkdirAll path).
Proof. apply framed_syscall; [done|]. intros w. split; [done|]. simpl. set_solver. Qed.
Lemma framed_http : framed P http_Do.
Proof. intros w r w'. unfold http_Do. destruct (o_network w); intros [= <- <-]; by split. Qed.
Lemma framed_WriteFile path data mode : P path → framed P (WriteFile path data mode).
Proof.
  intros HP. unfold WriteFile. apply keeps_bind; [apply _|by apply framed_open|]. intros _.
  apply keeps_bind; [apply _|by apply keeps_try, framed_write|]. intros wr.
  apply keeps_bind; [apply _|by apply keeps_try, framed_close|]. intros c.
  destruct wr; [apply keeps_lift|apply keeps_throw]; apply _.
Qed.
End frames.

Lemma quiet_syscall {A} part (f : os → res A * os) :
  (∀ n w, quiet_rel w (part n w)) → (∀ w, quiet_rel w (f w).2) → quiet (syscall part f).
Proof. intros Hp Hf. apply keeps_syscall; [apply _|intros fs w; by split|exact Hp|exact Hf]. Qed.
Lemma append_file_quiet path data w : quiet_rel w (append_file path data w).
Proof. unfold append_file. by destruct (o_files w !! path). Qed.

Lemma quiet_read path : quiet (ReadFile path).
Proof. apply quiet_syscall; [done|]. intros w. by destruct (o_files w !! path). Qed.
Lemma quiet_open path mode : quiet (OpenTrunc path mode).
Proof. apply quiet_syscall; [done|]. intros w. by case_decide. Qed.
Lemma quiet_write path data : quiet (Write path data).
Proof. apply quiet_syscall; intros; apply append_file_quiet. Qed.
Lemma quiet_sync path : quiet (Sync path).
Proof. by apply quiet_syscall. Qed.
Lemma quiet_close path : quiet (Close path).
Proof. by apply quiet_syscall. Qed.
Lemma quiet_chmod path mode : quiet (Chmod path mode).
Proof. apply quiet_syscall; [done|]. intros w. by destruct (o_files w !! path). Qed.
Lemma quiet_remove path : quiet (Remove path).
Proof. apply quiet_syscall; [done|]. intros w. by destruct (o_files w !! path). Qed.
Lemma quiet_rename src dst : quiet (Rename src dst).
Proof. apply quiet_syscall; [done|]. intros w. destruct (o_files w !! src); [|done]. by case_decide. Qed.
Lemma quiet_mkdir path : quiet (MkdirAll path).
Proof. by apply quiet_syscall. Qed.
Lemma quiet_http : quiet http_Do.
Proof. intros w r w'. unfold http_Do. destruct (o_network w); intros [= <- <-]; by split. Qed.
Lemma quiet_temp dir prefix : quiet (CreateTemp dir prefix).
Proof.
  apply quiet_syscall; [done|]. intros w. case_decide; [|done].
  by destruct (list_find _ _) as [[]|].
Qed.
Lemma quiet_WriteFile path data mode : quiet (WriteFile path data mode).
Proof.
  unfold WriteFile. apply keeps_bind; [apply _|apply quiet_open|]. intros _.
  apply keeps_bind; [apply _|apply keeps_try, quiet_write|]. intros wr.
  apply keeps_bind; [apply _|apply keeps_try, quiet_close|]. intros c.
  destruct wr; [apply keeps_lift|apply keeps_throw]; apply _.
Qed.

Create HintDb frames.
#[export] Hint Resolve framed_read framed_open framed_write framed_sync framed_close framed_chmod
  framed_remove framed_rename framed_mkdir framed_http framed_WriteFile
  quiet_read quiet_open quiet_write quiet_sync quiet_close quiet_chmod quiet_remove quiet_rename
  quiet_mkdir quiet_http quiet_temp quiet_WriteFile : frames.

(** Walks through a sequence of calls, each of which keeps the relation. *)
Ltac keep_step :=
  first
    [ match goal with H : ∀ _, keeps_rel _ _ |- _ => solve [apply H] end
    | apply keeps_ret; apply _ | apply keeps_throw; apply _ | apply keeps_lift; apply _
    | apply keeps_gets; apply _ | apply keeps_bind; [apply _| |intros ?]
    | apply keeps_try | apply keeps_ignore
    | solve [auto with frames]
    | match goal with
      | |- keeps_rel _ (match ?x with _ => _ end) => destruct x
      end ].
Ltac keep := repeat keep_step.
(** As [keep], the hints before the binds. *)
Ltac keep_hints := repeat first [solve [auto with frames] | keep_step].
