(* ===== verification/WrapperFiles.v ===== *)
(** * Writing files (internal/wrapper: validator.go, tlskey.go)

    The atomic replacement of the config, the validation run of pg_doorman and
    the conversion of the TLS key. *)
From S2P Require Import Prelude GoStd Os Paths.
From stdpp Require Import options.
Open Scope Z_scope.

Definition CandidateSuffix : string := ".next.yaml".
Definition ValidateConfigFlag : string := "--test-config".

Section files.
  Context {PB : PgDoormanBinary} {CR : Crypto}.

(** The temporary file, written, synced and closed. *)
Definition write_tmp (tmp data : string) : M os unit :=
  _ ← OpenTrunc tmp 384;
  written ← try_ (Write tmp data);
  match written with
  | Err e => _ ← ignore (Close tmp); _ ← ignore (Remove tmp); throw e
  | Ok _ =>
      synced ← try_ (Sync tmp);
      match synced with
      | Err e => _ ← ignore (Close tmp); _ ← ignore (Remove tmp); throw e
      | Ok _ =>
          closed ← try_ (Close tmp);
          match closed with
          | Err e => _ ← ignore (Remove tmp); throw e
          | Ok _ => mret ()
          end
      end
  end.

Definition AtomicWrite (path data : string) : M os unit :=
  let tmp := path +:+ ".tmp" in
  _ ← write_tmp tmp data;
  Rename tmp path.

(** [NewBinaryConfigTester binary]: a run of [binary path --test-config]; a run
    that cannot start or outlives its deadline fails like a rejection. *)
Definition test_config (binary path : string) : M os unit := plain_call (λ w,
  match o_files w !! binary, o_files w !! path with
  | Some b, Some c =>
      if test_accepts (f_Data b) (f_Data c) then (Ok (), w)
      else (Err (Errorf "pg_doorman --test-config failed: %w: %s" []), w)
  | _, _ => (Err (Errorf "pg_doorman --test-config failed: %w: %s" []), w)
  end).

Definition parse_key (type bytes : string) : res string :=
  let wrap r := match r with
                | Ok k => Ok k
                | Err e => Err (Wrapf "cannot parse TLS key (%s): %w" [type] e)
                end in
  if decide (type = "PRIVATE KEY") then wrap (ParsePKCS8PrivateKey bytes)
  else if decide (type = "EC PRIVATE KEY") then wrap (ParseECPrivateKey bytes)
  else if decide (type = "RSA PRIVATE KEY") then wrap (ParsePKCS1PrivateKey bytes)
  else Err (Errorf "unsupported TLS key PEM type %q" [type]).

(** The PKCS#8 PEM of a key file. *)
Definition convert_key (srcPath data : string) : res string :=
  match pem_Decode data with
  | None => Err (Errorf "no PEM block in TLS key %s" [srcPath])
  | Some (type, bytes) =>
      key ← parse_key type bytes;
      match MarshalPKCS8PrivateKey key with
      | Err e => Err (Wrapf "cannot convert TLS key to PKCS#8: %w" [] e)
      | Ok der => Ok (pem_EncodeToMemory "PRIVATE KEY" der)
      end
  end.

Definition EnsurePKCS8Key (srcPath dstPath : string) : M os unit :=
  read ← try_ (ReadFile srcPath);
  match read with
  | Err e => throw (Wrapf "cannot read TLS key: %w" [] e)
  | Ok data =>
      out ← lift (convert_key srcPath data);
      let tmp := dstPath +:+ ".tmp" in
      _ ← WriteFile tmp out 384;
      Rename tmp dstPath
  end.
End files.

(** ** What they change *)
Section lemmas.
  Context {PB : PgDoormanBinary} {CR : Crypto}.

Lemma framed_test P b path : framed P (test_config b path).
Proof.
  apply framed_syscall; [done|]. intros w. destruct (o_files w !! b), (o_files w !! path); try done.
  by destruct (test_accepts _ _).
Qed.
Lemma quiet_test b path : quiet (test_config b path).
Proof.
  apply quiet_syscall; [done|]. intros w. destruct (o_files w !! b), (o_files w !! path); try done.
  by destruct (test_accepts _ _).
Qed.
Hint Resolve framed_test quiet_test : frames.

Lemma framed_write_tmp (P : string → Prop) tmp data : P tmp → framed P (write_tmp tmp data).
Proof. intros ?. unfold write_tmp. keep. Qed.
Lemma framed_AtomicWrite (P : string → Prop) path data : P path → P (path +:+ ".tmp") → framed P (AtomicWrite path data).
Proof. intros ??. unfold AtomicWrite. apply keeps_bind; [apply _|by apply framed_write_tmp|intros _; by apply framed_rename]. Qed.
Lemma quiet_AtomicWrite path data : quiet (AtomicWrite path data).
Proof. unfold AtomicWrite, write_tmp. keep. Qed.
Lemma framed_EnsurePKCS8Key (P : string → Prop) src dst : P dst → P (dst +:+ ".tmp") → framed P (EnsurePKCS8Key src dst).
Proof. intros ??. unfold EnsurePKCS8Key. keep. Qed.
Lemma quiet_EnsurePKCS8Key src dst : quiet (EnsurePKCS8Key src dst).
Proof. unfold EnsurePKCS8Key. keep. Qed.

(** ** Successful calls *)
Lemma syscall_ok {A} part (f : os → res A * os) w a w' :
  syscall part f w = (Ok a, w') → ∃ fs, f (set_faults fs w) = (Ok a, w').
Proof.
  unfold syscall. destruct (o_faults w) as [|[n|] fs] eqn:Hf; [|done|eauto].
  intros Hr. exists []. by destruct w; simpl in *; subst.
Qed.

Lemma Write_ok path data w w' :
  Write path data w = (Ok (), w') → o_files w' = o_files (append_file path data w).
Proof.
  intros (fs & [= <-])%syscall_ok. unfold append_file. simpl. by destruct (o_files w !! path).
Qed.
Lemma OpenTrunc_ok path mode w w' :
  OpenTrunc path mode w = (Ok (), w') → ∃ m, o_files w' = <[path := File "" m]> (o_files w).
Proof. intros (fs & Hr)%syscall_ok. case_decide; [|done]. injection Hr as <-. eauto. Qed.
Lemma Rename_ok src dst w w' :
  Rename src dst w = (Ok (), w') →
  ∃ f, o_files w !! src = Some f ∧ o_files w' = <[dst := f]> (delete src (o_files w)).
Proof.
  intros (fs & Hr)%syscall_ok. simpl in Hr. destruct (o_files w !! src) as [f|]; [|done].
  case_decide; [|done]. injection Hr as <-. eauto.
Qed.
Lemma Rename_err src dst w e w' : Rename src dst w = (Err e, w') → o_files w' = o_files w.
Proof.
  unfold Rename, plain_call, syscall. destruct (o_faults w) as [|[n|] fs].
  2: by intros [= _ <-].
  all: simpl; destruct (o_files w !! src); [case_decide|]; by intros [= _ <-].
Qed.
Lemma test_config_ok b path w w' :
  test_config b path w = (Ok (), w') → o_files w' = o_files w ∧
  ∃ fb fc, o_files w !! b = Some fb ∧ o_files w !! path = Some fc ∧ test_accepts (f_Data fb) (f_Data fc) = true.
Proof.
  intros (fs & Hr)%syscall_ok. simpl in Hr. destruct (o_files w !! b) as [fb|], (o_files w !! path) as [fc|]; try done.
  destruct (test_accepts _ _) eqn:Ht; [|done]. injection Hr as <-. eauto 10.
Qed.
Lemma ReadFile_ok path w data w' :
  ReadFile path w = (Ok data, w') → o_files w' = o_files w ∧ f_Data <$> o_files w !! path = Some data.
Proof.
  intros (fs & Hr)%syscall_ok. simpl in Hr. destruct (o_files w !! path) as [f|]; [|done].
  by injection Hr as <- <-.
Qed.
Lemma ReadFile_files path w r w' : ReadFile path w = (r, w') → o_files w' = o_files w.
Proof.
  unfold ReadFile, plain_call, syscall. destruct (o_faults w) as [|[n|] fs].
  all: try (simpl; destruct (o_files w !! path)). all: by intros [= _ <-].
Qed.
Lemma Sync_files path w r w' : Sync path w = (r, w') → o_files w' = o_files w.
Proof. unfold Sync, plain_call, syscall. destruct (o_faults w) as [|[n|] fs]; by intros [= _ <-]. Qed.
Lemma Close_files path w r w' : Close path w = (r, w') → o_files w' = o_files w.
Proof. unfold Close, plain_call, syscall. destruct (o_faults w) as [|[n|] fs]; by intros [= _ <-]. Qed.

Lemma write_tmp_ok tmp data w w' :
  write_tmp tmp data w = (Ok (), w') → f_Data <$> o_files w' !! tmp = Some data.
Proof.
  intros Hr. unfold write_tmp in Hr.
  apply bind_inv in Hr as [([] & w1 & Ho & Hr)|(e & _ & ?)]; [|done].
  apply OpenTrunc_ok in Ho as [m Ho].
  apply bind_inv in Hr as [(wr & w2 & Hw & Hr)|(e & _ & ?)]; [|done].
  apply try_inv in Hw as (? & [= <-] & Hw). destruct wr as [[]|e]; [|inv_run Hr; done].
  apply Write_ok in Hw. unfold append_file in Hw. rewrite Ho, lookup_insert_eq in Hw. simpl in Hw.
  apply bind_inv in Hr as [(sy & w3 & Hs & Hr)|(e & _ & ?)]; [|done].
  apply try_inv in Hs as (? & [= <-] & Hs). apply Sync_files in Hs. destruct sy as [[]|e]; [|inv_run Hr; done].
  apply bind_inv in Hr as [(cl & w4 & Hc & Hr)|(e & _ & ?)]; [|done].
  apply try_inv in Hc as (? & [= <-] & Hc). apply Close_files in Hc. destruct cl as [[]|e]; [|inv_run Hr; done].
  inv_run Hr. by rewrite Hc, Hs, Hw, lookup_insert_eq.
Qed.

Lemma app_neq path suffix : suffix ≠ "" → path ≠ path +:+ suffix.
Proof.
  intros Hs Heq. apply Hs. apply (f_equal String.length) in Heq. rewrite str_length_app in Heq.
  destruct suffix; [done|]. simpl in Heq. lia.
Qed.

(** A file outside the frame of a call keeps its content. *)
Lemma framed_lookup {A} (P : string → Prop) (m : M os A) w r w' k :
  framed P m → m w = (r, w') → ¬ P k → o_files w' !! k = o_files w !! k.
Proof. intros Hm Hr Hk. destruct (Hm _ _ _ Hr) as [Hf _]. by apply Hf. Qed.

Lemma AtomicWrite_ok path data w w' :
  AtomicWrite path data w = (Ok (), w') → f_Data <$> o_files w' !! path = Some data.
Proof.
  intros [([] & w1 & Hc & Hr)|(e & _ & ?)]%bind_inv; [|done].
  apply write_tmp_ok in Hc. apply Rename_ok in Hr as (f & Hf & ->). rewrite lookup_insert_eq. simpl.
  by rewrite Hf in Hc.
Qed.

(** ** Calls that are not made to fail *)
Lemma no_fault {A} part (f : os → res A * os) w : o_faults w = [] → syscall part f w = f w.
Proof. unfold syscall. by intros ->. Qed.
Lemma no_fault_try {A} part (f : os → res A * os) w a w' :
  o_faults w = [] → f w = (Ok a, w') → try_ (syscall part f) w = (Ok (Ok a), w').
Proof. intros Hf Hr. unfold try_. by rewrite no_fault, Hr. Qed.

Lemma bind_run {A B} (m : M os A) (f : A → M os B) w a w1 : m w = (Ok a, w1) → (m ≫= f) w = f a w1.
Proof. unfold mbind, M_bind. by intros ->. Qed.

Lemma set_files_id f w : set_files f w = Os f (o_dirs w) (o_faults w) (o_temps w) (o_network w)
  (o_metrics w) (o_clock w) (o_procs w) (o_signals w) (o_process w).
Proof. done. Qed.

Lemma write_tmp_runs tmp data w :
  o_faults w = [] → Dir tmp ∈ o_dirs w →
  ∃ m, write_tmp tmp data w = (Ok (), set_files (<[tmp := File data m]> (o_files w)) w).
Proof.
  intros Hf Hd. unfold write_tmp. eexists.
  erewrite bind_run; [|unfold OpenTrunc, plain_call; rewrite no_fault by done; by rewrite decide_True].
  cbv beta. erewrite bind_run; [|apply no_fault_try; [done|]; unfold append_file; cbn [o_files set_files];
    rewrite lookup_insert_eq; reflexivity].
  cbv beta iota. erewrite bind_run; [|by apply no_fault_try]. cbv beta iota.
  erewrite bind_run; [|by apply no_fault_try]. cbv beta iota. unfold mret, M_ret. f_equal.
  unfold set_files; simpl. by rewrite insert_insert_eq.
Qed.

Lemma Rename_runs src dst f w :
  o_faults w = [] → o_files w !! src = Some f → Dir dst ∈ o_dirs w →
  Rename src dst w = (Ok (), set_files (<[dst := f]> (delete src (o_files w))) w).
Proof. intros Hf Hs Hd. unfold Rename, plain_call. rewrite no_fault by done. by rewrite Hs, decide_True. Qed.

Lemma AtomicWrite_runs path data w :
  o_faults w = [] → Dir (path +:+ ".tmp") ∈ o_dirs w → Dir path ∈ o_dirs w →
  ∃ w', AtomicWrite path data w = (Ok (), w') ∧ o_faults w' = [] ∧ o_dirs w' = o_dirs w ∧
    o_metrics w' = o_metrics w ∧ f_Data <$> o_files w' !! path = Some data ∧
    ∀ k, k ≠ path → k ≠ path +:+ ".tmp" → o_files w' !! k = o_files w !! k.
Proof.
  intros Hf Ht Hd. unfold AtomicWrite. destruct (write_tmp_runs (path +:+ ".tmp") data w Hf Ht) as [m Hm].
  erewrite bind_run by exact Hm. cbv beta.
  rewrite (Rename_runs _ _ (File data m)); [|done|apply lookup_insert_eq|done].
  eexists. split; [reflexivity|]. simpl. split_and!; [done..|by rewrite lookup_insert_eq|].
  intros k ??. by rewrite lookup_insert_ne, lookup_delete_ne, lookup_insert_ne.
Qed.

(** C37 — [AtomicWrite] is atomic: whatever system call fails, and however many
    bytes a failing write wrote, the target holds its old content or exactly the
    data, the latter whenever the call succeeds; no file but the target and its
    temporary changes. *)
Theorem AtomicWrite_atomic path data w r w' :
  AtomicWrite path data w = (r, w') →
  match r with
  | Ok _ => f_Data <$> o_files w' !! path = Some data
  | Err _ => o_files w' !! path = o_files w !! path
  end ∧
  ∀ k, k ≠ path → k ≠ path +:+ ".tmp" → o_files w' !! k = o_files w !! k.
Proof.
  intros Hr. split.
  2: { intros k ??. eapply (framed_lookup (λ k, k = path ∨ k = path +:+ ".tmp")); [|done|naive_solver].
       apply framed_AtomicWrite; auto. }
  unfold AtomicWrite in Hr. set (tmp := path +:+ ".tmp") in *.
  assert (path ≠ tmp) as Hne by (by apply app_neq).
  apply bind_inv in Hr as [([] & w1 & Hc & Hr)|(e & Hc & ->)].
  - destruct r as [[]|e].
    + apply write_tmp_ok in Hc. apply Rename_ok in Hr as (f & Hf & ->). rewrite lookup_insert_eq. simpl.
      by rewrite Hf in Hc.
    + apply Rename_err in Hr as ->. eapply (framed_lookup (λ k, k = tmp)); [by apply framed_write_tmp|done|done].
  - eapply (framed_lookup (λ k, k = tmp)); [by apply framed_write_tmp|done|done].
Qed.
End lemmas.

#[export] Hint Resolve framed_test quiet_test framed_AtomicWrite quiet_AtomicWrite
  framed_EnsurePKCS8Key quiet_EnsurePKCS8Key : frames.

(** A write torn after three bytes. *)
Lemma AtomicWrite_atomic_witness :
  let w := Os {[ "/tmp/c" := File "old" 384 ]} {[ "/tmp" ]} [None; Some 3%nat] [] [] zero_metrics 0 [] []
             {| p_cmd := None; p_adoptedPid := 0; p_upgradeRequested := false; p_upgradeRequestedAt := 0 |} in
  let w' := (AtomicWrite "/tmp/c" "new content" w).2 in
  o_files w' !! "/tmp/c" = Some (File "old" 384).
Proof.
  intros w w'.
  destruct (AtomicWrite_atomic "/tmp/c" "new content" w (AtomicWrite "/tmp/c" "new content" w).1 w'
    (surjective_pairing _)) as [H _].
  vm_compute in H. exact H.
Defined.
