(* ===== verification/FileWatcher.v ===== *)
(** * The config watcher (internal/wrapper/filewatcher.go)

    [check] applies a change of the mounted config to the running pg_doorman:
    validation, candidate file, test run of the real binary, rename, then a reload
    or a restart of the process behind the [Supervisor] interface. *)
From S2P Require Import Prelude GoStd Api ConfigGen DoormanConfig Paths Os WrapperFiles.
From stdpp Require Import options.
Open Scope Z_scope.

(** The [Reloader], [Restarter] and [Upgrader] interfaces of the watchers. *)
Class Supervisor : Type := {
  Reload : M os unit;
  Restart : M os unit;
  Upgrade : M os unit;
  UpgradeInFlight : M os bool
}.
(** What the watchers rely on: the supervisor leaves files and metrics alone. *)
Definition same_disk (w w' : os) : Prop :=
  o_files w' = o_files w ∧ o_dirs w' = o_dirs w ∧ o_metrics w' = o_metrics w.
#[export] Instance same_disk_preorder : PreOrder same_disk.
Proof. split; [done|]. intros w1 w2 w3 (?&?&?) (?&?&?). unfold same_disk. split_and!; congruence. Qed.
Class SupervisorLaws `{Supervisor} : Prop := {
  Reload_disk : keeps_rel same_disk Reload;
  Restart_disk : keeps_rel same_disk Restart;
  Upgrade_disk : keeps_rel same_disk Upgrade;
  UpgradeInFlight_disk : keeps_rel same_disk UpgradeInFlight
}.

(** ** Metrics *)
Definition ConfigStale_Set (v : Z) : M os unit := modify (λ w, let m := o_metrics w in
  set_metrics {| ReloadsSuccess := ReloadsSuccess m; ReloadsFailure := ReloadsFailure m;
    ProcessRestartsTotal := ProcessRestartsTotal m; UpgradesSuccess := UpgradesSuccess m;
    UpgradesFailure := UpgradesFailure m; ConfigStale := v; BinaryStale := BinaryStale m |} w).
Definition ReloadsTotal_Inc (success : bool) : M os unit := modify (λ w, let m := o_metrics w in
  set_metrics {| ReloadsSuccess := ReloadsSuccess m + (if success then 1 else 0);
    ReloadsFailure := ReloadsFailure m + (if success then 0 else 1);
    ProcessRestartsTotal := ProcessRestartsTotal m; UpgradesSuccess := UpgradesSuccess m;
    UpgradesFailure := UpgradesFailure m; ConfigStale := ConfigStale m; BinaryStale := BinaryStale m |} w).
Definition BinaryStale_Set (v : Z) : M os unit := modify (λ w, let m := o_metrics w in
  set_metrics {| ReloadsSuccess := ReloadsSuccess m; ReloadsFailure := ReloadsFailure m;
    ProcessRestartsTotal := ProcessRestartsTotal m; UpgradesSuccess := UpgradesSuccess m;
    UpgradesFailure := UpgradesFailure m; ConfigStale := ConfigStale m; BinaryStale := v |} w).

Record FileWatcher : Type := {
  fw_sourcePath : string;
  fw_runtimePath : string;
  fw_rawKeyPath : string;
  fw_keyPath : string;
  fw_testConfig : option string;   (* the binary of the tester, [None] for nil *)
  fw_lastApplied : string
}.
Definition with_lastApplied (data : string) (fw : FileWatcher) : FileWatcher :=
  {| fw_sourcePath := fw_sourcePath fw; fw_runtimePath := fw_runtimePath fw; fw_rawKeyPath := fw_rawKeyPath fw;
     fw_keyPath := fw_keyPath fw; fw_testConfig := fw_testConfig fw; fw_lastApplied := data |}.

Definition NewFileWatcher (sourcePath runtimePath rawKeyPath keyPath : string) : FileWatcher :=
  {| fw_sourcePath := sourcePath; fw_runtimePath := runtimePath; fw_rawKeyPath := rawKeyPath;
     fw_keyPath := keyPath; fw_testConfig := Some RuntimeBinaryPath; fw_lastApplied := "" |}.

Section filewatcher.
  Context {PB : PgDoormanBinary} {CR : Crypto} {YM : Yaml} {SV : Supervisor}.

(** Up to the test run: the candidate is on disk and accepted. *)
Definition stage_candidate (fw : FileWatcher) (data : string) : M os unit :=
  _ ← (if decide (fw_rawKeyPath fw = "") then mret () else EnsurePKCS8Key (fw_rawKeyPath fw) (fw_keyPath fw));
  let candidate := fw_runtimePath fw +:+ CandidateSuffix in
  _ ← AtomicWrite candidate data;
  match fw_testConfig fw with
  | Some binary =>
      tested ← try_ (test_config binary candidate);
      match tested with
      | Err e => _ ← ignore (Remove candidate); throw e
      | Ok _ => mret ()
      end
  | None => mret ()
  end.

Definition materialize (fw : FileWatcher) (data : string) : M os unit :=
  _ ← stage_candidate fw data;
  Rename (fw_runtimePath fw +:+ CandidateSuffix) (fw_runtimePath fw).

Definition ApplyInitial (fw : FileWatcher) : M os FileWatcher :=
  data ← ReadFile (fw_sourcePath fw);
  _ ← materialize fw data;
  mret (with_lastApplied data fw).

Definition needs_restart (ρ : ranger) (lastApplied : string) (newCfg : DoormanConfig) : bool :=
  match ValidateConfigBytes ρ lastApplied with
  | Ok oldCfg => NeedsProcessRestart oldCfg newCfg
  | Err _ => false
  end.

(** From a validated change on. *)
Definition apply_change (fw : FileWatcher) (data : string) (needsRestart : bool) : M os FileWatcher :=
  materialized ← try_ (materialize fw data);
  match materialized with
  | Err _ => _ ← ReloadsTotal_Inc false; mret fw
  | Ok _ =>
      applied ← try_ (if needsRestart then Restart else Reload);
      match applied with
      | Err _ => _ ← ReloadsTotal_Inc false; mret fw
      | Ok _ =>
          _ ← ConfigStale_Set 0;
          _ ← ReloadsTotal_Inc true;
          mret (with_lastApplied data fw)
      end
  end.

Definition check (ρ1 ρ2 : ranger) (fw : FileWatcher) : M os FileWatcher :=
  read ← try_ (ReadFile (fw_sourcePath fw));
  match read with
  | Err _ => mret fw
  | Ok data =>
      if decide (data = fw_lastApplied fw) then mret fw
      else
        _ ← ConfigStale_Set 1;
        match ValidateConfigBytes ρ1 data with
        | Err _ => _ ← ReloadsTotal_Inc false; mret fw
        | Ok newCfg => apply_change fw data (needs_restart ρ2 (fw_lastApplied fw) newCfg)
        end
  end.
End filewatcher.

(** ** Properties *)

(** The installed config is one the installed binary accepts. *)
Definition accepted_by `{PgDoormanBinary} (binary config : string) (w : os) : Prop :=
  ∃ fb fc, o_files w !! binary = Some fb ∧ o_files w !! config = Some fc ∧
    test_accepts (f_Data fb) (f_Data fc) = true.

(** The files of a watcher do not collide with each other or with its binary. *)
Definition fw_files (fw : FileWatcher) : list string :=
  let candidate := fw_runtimePath fw +:+ CandidateSuffix in
  [candidate; candidate +:+ ".tmp"] ++
  (if decide (fw_rawKeyPath fw = "") then [] else [fw_keyPath fw; fw_keyPath fw +:+ ".tmp"]).
Definition apart (fw : FileWatcher) : Prop :=
  fw_runtimePath fw ∉ fw_files fw ∧
  ∀ b, fw_testConfig fw = Some b → b ∉ fw_files fw ∧ b ≠ fw_runtimePath fw.

Section lemmas.
  #[local] Set Default Proof Using "Type*".
  Context {PB : PgDoormanBinary} {CR : Crypto}.

Lemma framed_stage fw data : framed (.∈ fw_files fw) (stage_candidate fw data).
Proof.
  unfold stage_candidate, fw_files. set (candidate := fw_runtimePath fw +:+ CandidateSuffix).
  apply keeps_bind; [apply _| |intros []].
  - case_decide; [apply keeps_ret; apply _|]. apply framed_EnsurePKCS8Key; set_solver.
  - apply keeps_bind; [apply _| |intros []].
    + apply framed_AtomicWrite; set_solver.
    + destruct (fw_testConfig fw) as [b|]; [|keep].
      apply keeps_bind; [apply _|apply keeps_try, framed_test|intros [[]|e]]; [keep|].
      apply keeps_bind; [apply _|apply keeps_ignore, framed_remove; set_solver|intros []]. keep.
Qed.
Lemma quiet_stage fw data : quiet (stage_candidate fw data).
Proof. unfold stage_candidate. keep. Qed.

Lemma stage_ok fw data w w' :
  apart fw → stage_candidate fw data w = (Ok (), w') →
  f_Data <$> o_files w' !! (fw_runtimePath fw +:+ CandidateSuffix) = Some data ∧
  ∀ b, fw_testConfig fw = Some b →
    ∃ fb, o_files w' !! b = Some fb ∧ test_accepts (f_Data fb) data = true.
Proof.
  intros [_ Hb] Hr. unfold stage_candidate in Hr. set (candidate := fw_runtimePath fw +:+ CandidateSuffix) in *.
  apply bind_inv in Hr as [([] & w1 & _ & Hr)|(e & _ & ?)]; [|done].
  apply bind_inv in Hr as [([] & w2 & Hw & Hr)|(e & _ & ?)]; [|done].
  apply AtomicWrite_ok in Hw. destruct (fw_testConfig fw) as [b|]; [|inv_run Hr; by split].
  apply bind_inv in Hr as [(t & w3 & Ht & Hr)|(e & _ & ?)]; [|done].
  apply try_inv in Ht as (? & [= <-] & Ht). destruct t as [[]|e].
  2: { apply bind_inv in Hr as [(? & ? & _ & Hr)|(? & _ & ?)]; [inv_run Hr|]; done. }
  inv_run Hr. apply test_config_ok in Ht as (Hf & fb & fc & Hfb & Hfc & Hacc).
  rewrite Hf. split; [done|]. intros ? [= <-]. exists fb. split; [done|].
  rewrite Hfc in Hw. by injection Hw as <-.
Qed.

(** [materialize]: the runtime config keeps its content, or becomes the data
    after the tester's binary accepted it; the tester's binary is not touched. *)
Lemma materialize_effect fw data w r w' :
  apart fw → materialize fw data w = (r, w') →
  (∀ k, k ≠ fw_runtimePath fw → k ∉ fw_files fw → o_files w' !! k = o_files w !! k) ∧
  match r with
  | Ok _ => f_Data <$> o_files w' !! fw_runtimePath fw = Some data ∧
      ∀ b, fw_testConfig fw = Some b → accepted_by b (fw_runtimePath fw) w'
  | Err _ => o_files w' !! fw_runtimePath fw = o_files w !! fw_runtimePath fw
  end.
Proof.
  intros Ha Hr. pose proof Ha as [Hrt Hb]. unfold materialize in Hr.
  set (candidate := fw_runtimePath fw +:+ CandidateSuffix) in *.
  assert (candidate ∈ fw_files fw) as Hcin by (left).
  apply bind_inv in Hr as [([] & w1 & Hc & Hr)|(e & Hc & ->)];
    pose proof (λ k, framed_lookup _ _ _ _ _ k (framed_stage fw data) Hc) as Hfr.
  2: { split; [auto|]. by apply Hfr. }
  destruct r as [[]|e].
  - apply Rename_ok in Hr as (f & Hf & Hw'). destruct (stage_ok _ _ _ _ Ha Hc) as [Hd Hacc].
    fold candidate in Hd. rewrite Hf in Hd. injection Hd as Hd. split; [|split].
    + intros k Hk Hkf. rewrite Hw', lookup_insert_ne, lookup_delete_ne; [by apply Hfr| |done].
      intros <-. done.
    + rewrite Hw', lookup_insert_eq. by f_equal/=.
    + intros b Hbt. destruct (Hacc b Hbt) as (fb & Hfb & Ht), (Hb b Hbt) as [Hbf Hbr].
      exists fb, f. rewrite Hw', lookup_insert_eq, lookup_insert_ne by done.
      rewrite lookup_delete_ne by (by intros <-). split_and!; [done..|]. by rewrite Hd.
  - apply Rename_err in Hr as ->. split; [auto|]. by apply Hfr.
Qed.
Lemma materialize_runs fw data b fb w :
  apart fw → o_faults w = [] → fw_rawKeyPath fw = "" → fw_testConfig fw = Some b →
  o_files w !! b = Some fb → test_accepts (f_Data fb) data = true →
  {[ Dir (fw_runtimePath fw); Dir (fw_runtimePath fw +:+ CandidateSuffix);
     Dir ((fw_runtimePath fw +:+ CandidateSuffix) +:+ ".tmp") ]} ⊆ o_dirs w →
  ∃ w', materialize fw data w = (Ok (), w') ∧ o_metrics w' = o_metrics w ∧
    f_Data <$> o_files w' !! fw_runtimePath fw = Some data.
Proof.
  intros Ha Hf Hkey Hb Hfb Hacc Hdirs. pose proof Ha as [_ Hbin]. destruct (Hbin b Hb) as [Hbf _].
  unfold materialize, stage_candidate. rewrite Hkey, Hb, decide_True by done.
  set (candidate := fw_runtimePath fw +:+ CandidateSuffix) in *.
  destruct (AtomicWrite_runs candidate data w) as (w1 & H1 & Hf1 & Hd1 & Hm1 & Hc1 & Hk1); [done|set_solver..|].
  destruct (o_files w1 !! candidate) as [fc|] eqn:Hfc; [|done]. injection Hc1 as Hc1.
  assert (o_files w1 !! b = Some fb) as Hb1.
  { rewrite Hk1; [done|intros ->; apply Hbf; left|intros ->; apply Hbf; right; left]. }
  assert (test_config b candidate w1 = (Ok (), w1)) as Ht.
  { unfold test_config, plain_call. rewrite no_fault by done. by rewrite Hb1, Hfc, Hc1, Hacc. }
  eexists. split; [|split].
  - erewrite bind_run.
    2: { erewrite bind_run by reflexivity. cbv beta. erewrite bind_run by exact H1. cbv beta.
         unfold mbind, M_bind, try_. rewrite Ht. reflexivity. }
    cbv beta. apply Rename_runs; [done|exact Hfc|]. rewrite Hd1. set_solver.
  - done.
  - simpl. rewrite lookup_insert_eq. simpl. by rewrite Hc1.
Qed.

End lemmas.

Section check.
  #[local] Set Default Proof Using "Type*".
  Context {PB : PgDoormanBinary} {CR : Crypto} {YM : Yaml} {SV : Supervisor} {SL : SupervisorLaws}.

Lemma metric_files v w r w' : ConfigStale_Set v w = (r, w') → o_files w' = o_files w.
Proof. by intros [= _ <-]. Qed.

(** What a check did: nothing, a rejected or unfinished change, or an applied
    one. *)
Inductive checked (fw : FileWatcher) (w w' : os) : FileWatcher → Prop :=
  | C_idle : o_files w' = o_files w → o_metrics w' = o_metrics w → checked fw w w' fw
  | C_rejected data : f_Data <$> o_files w !! fw_sourcePath fw = Some data → data ≠ fw_lastApplied fw →
      o_files w' !! fw_runtimePath fw = o_files w !! fw_runtimePath fw →
      ConfigStale (o_metrics w') = 1 → checked fw w w' fw
  | C_unsignalled data cfg : f_Data <$> o_files w !! fw_sourcePath fw = Some data → data ≠ fw_lastApplied fw →
      Unmarshal data = Ok cfg → valid_doorman cfg →
      f_Data <$> o_files w' !! fw_runtimePath fw = Some data →
      (∀ b, fw_testConfig fw = Some b → accepted_by b (fw_runtimePath fw) w') →
      ConfigStale (o_metrics w') = 1 → checked fw w w' fw
  | C_applied data cfg : f_Data <$> o_files w !! fw_sourcePath fw = Some data → data ≠ fw_lastApplied fw →
      Unmarshal data = Ok cfg → valid_doorman cfg →
      f_Data <$> o_files w' !! fw_runtimePath fw = Some data →
      (∀ b, fw_testConfig fw = Some b → accepted_by b (fw_runtimePath fw) w') →
      ConfigStale (o_metrics w') = 0 →
      (∃ w1 w2, (needs_restart default_ranger (fw_lastApplied fw) cfg = true → Restart w1 = (Ok (), w2)) ∧
                (needs_restart default_ranger (fw_lastApplied fw) cfg = false → Reload w1 = (Ok (), w2)) ∧
                f_Data <$> o_files w1 !! fw_runtimePath fw = Some data) →
      checked fw w w' (with_lastApplied data fw).

Lemma needs_restart_det ρ1 ρ2 l cfg : needs_restart ρ1 l cfg = needs_restart ρ2 l cfg.
Proof.
  unfold needs_restart. destruct (ValidateConfigBytes ρ1 l) as [c1|e1] eqn:H1, (ValidateConfigBytes ρ2 l) as [c2|e2] eqn:H2; [| | |done].
  - apply ValidateConfigBytes_ok in H1 as [H1 _], H2 as [H2 _]. congruence.
  - apply ValidateConfigBytes_ok in H1. apply (ValidateConfigBytes_ok ρ2) in H1. congruence.
  - apply ValidateConfigBytes_ok in H2. apply (ValidateConfigBytes_ok ρ1) in H2. congruence.
Qed.

Lemma apply_change_checked ρ fw data cfg w0 w r w' :
  apart fw → f_Data <$> o_files w0 !! fw_sourcePath fw = Some data → data ≠ fw_lastApplied fw →
  Unmarshal data = Ok cfg → valid_doorman cfg → o_files w = o_files w0 → ConfigStale (o_metrics w) = 1 →
  apply_change fw data (needs_restart ρ (fw_lastApplied fw) cfg) w = (r, w') →
  ∃ fw', r = Ok fw' ∧ checked fw w0 w' fw'.
Proof.
  intros Ha Hsrc Hne Hu Hv Hw0 Hst Hr. unfold apply_change in Hr.
  apply bind_inv in Hr as [(m & w1 & Hm & Hr)|(e & Hm & ->)]; apply try_inv in Hm as (? & [= <-] & Hm).
  assert (o_metrics w1 = o_metrics w) as Hm1.
  { assert (quiet (materialize fw data)) as Hq by (unfold materialize; pose proof (quiet_stage fw data); keep).
    by destruct (Hq _ _ _ Hm). }
  apply materialize_effect in Hm as [Hfr Hm]; [|done]. destruct m as [[]|e].
  2: { unfold ConfigStale_Set, ReloadsTotal_Inc in Hr. inv_run Hr. eexists. split; [done|]. apply (C_rejected _ _ _ data); simpl; congruence. }
  destruct Hm as [Hd Hacc].
  apply bind_inv in Hr as [(ap & w2 & Hap & Hr)|(e & Hap & ->)]; apply try_inv in Hap as (? & [= <-] & Hap).
  assert (same_disk w1 w2) as (Hf2 & _ & Hm2).
  { destruct (needs_restart _ _ _); [by eapply Restart_disk|by eapply Reload_disk]. }
  assert (∀ b, fw_testConfig fw = Some b → ∀ w3, o_files w3 = o_files w2 → accepted_by b (fw_runtimePath fw) w3) as Hacc'.
  { intros b Hb w3 Hw3. destruct (Hacc b Hb) as (fb & fc & ?). exists fb, fc. by rewrite Hw3, Hf2. }
  destruct ap as [[]|e].
  - unfold ConfigStale_Set, ReloadsTotal_Inc in Hr. inv_run Hr. eexists. split; [done|]. apply (C_applied _ _ _ data cfg); simpl; auto.
    + by rewrite Hf2.
    + exists w1, w2. rewrite (needs_restart_det default_ranger ρ). destruct (needs_restart ρ _ _); split_and!; done.
  - unfold ConfigStale_Set, ReloadsTotal_Inc in Hr. inv_run Hr. eexists. split; [done|]. apply (C_unsignalled _ _ _ data cfg); simpl; auto.
    + by rewrite Hf2.
    + congruence.
Qed.

Lemma check_checked ρ1 ρ2 fw w r w' :
  apart fw → check ρ1 ρ2 fw w = (r, w') → ∃ fw', r = Ok fw' ∧ checked fw w w' fw'.
Proof.
  intros Ha Hr. unfold check in Hr.
  apply bind_inv in Hr as [(rd & w1 & Hrd & Hr)|(e & Hrd & ->)]; apply try_inv in Hrd as (? & [= <-] & Hrd).
  destruct (quiet_read _ _ _ _ Hrd) as [Hm1 _ _ _ _]. pose proof (ReadFile_files _ _ _ _ Hrd) as Hf1.
  destruct rd as [data|e]; [|inv_run Hr; eexists; split; [done|by apply C_idle]].
  apply ReadFile_ok in Hrd as [_ Hsrc]. case_decide as Hd.
  { inv_run Hr. eexists. split; [done|by apply C_idle]. }
  apply bind_inv in Hr as [([] & w2 & Hs & Hr)|(e & Hs & ->)]; [|done].
  unfold ConfigStale_Set, modify in Hs. injection Hs as <-.
  destruct (ValidateConfigBytes ρ1 data) as [cfg|e] eqn:Hval.
  - apply ValidateConfigBytes_ok in Hval as [Hu Hv]. refine (apply_change_checked ρ2 fw data cfg w _ r w' Ha Hsrc Hd Hu Hv _ _ Hr); [exact Hf1|reflexivity].
  - unfold ConfigStale_Set, ReloadsTotal_Inc in Hr. inv_run Hr. eexists. split; [done|]. apply (C_rejected _ _ _ data); simpl; congruence.
Qed.

(** Metrics and the supervisor do not touch files. *)
Lemma framed_modify P f :
  (∀ w, o_files (f w) = o_files w ∧ o_dirs (f w) = o_dirs w) → framed P (modify f).
Proof.
  intros Hf. apply keeps_modify; [apply _|]. intros w. destruct (Hf w) as [Hf1 Hf2].
  split; [by rewrite Hf1|by rewrite Hf2].
Qed.
Lemma framed_disk P (m : M os unit) : keeps_rel same_disk m → framed P m.
Proof. intros Hm w r w' Hr. destruct (Hm _ _ _ Hr) as (Hf & Hd & _). split; [by rewrite Hf|by rewrite Hd]. Qed.

Lemma framed_check ρ1 ρ2 fw :
  framed (λ k, k = fw_runtimePath fw ∨ k ∈ fw_files fw) (check ρ1 ρ2 fw).
Proof.
  unfold check, apply_change, materialize.
  assert (∀ data, framed (λ k, k = fw_runtimePath fw ∨ k ∈ fw_files fw) (stage_candidate fw data)) as Hst.
  { intros data w0 r0 w1 Hr0. eapply files_frame_weaken; [|by eapply framed_stage]. auto. }
  keep; try (by apply framed_modify); try apply Hst; try apply framed_disk, Restart_disk;
    try apply framed_disk, Reload_disk.
  apply framed_rename; [right; left|by left].
Qed.


Lemma check_keeps ρ1 ρ2 fw b w r w' :
  apart fw → fw_testConfig fw = Some b → accepted_by b (fw_runtimePath fw) w →
  check ρ1 ρ2 fw w = (r, w') → accepted_by b (fw_runtimePath fw) w'.
Proof.
  intros Ha Hb Hacc Hr. pose proof Ha as [Hrt Hbin]. destruct (Hbin b Hb) as [Hbf Hbr].
  assert (o_files w' !! b = o_files w !! b) as Hkeep.
  { eapply framed_lookup; [apply (framed_check ρ1 ρ2 fw)|done|]. by intros [?|?]. }
  apply check_checked in Hr as (fw' & _ & Hck); [|done].
  assert (o_files w' !! fw_runtimePath fw = o_files w !! fw_runtimePath fw → accepted_by b (fw_runtimePath fw) w') as Hsame.
  { intros Hs. destruct Hacc as (fb & fc & ?). exists fb, fc. by rewrite Hkeep, Hs. }
  destruct Hck; auto. apply Hsame. congruence.
Qed.

(** The runtime config is always one the installed binary accepts: if it is
    so before a check, it is so after it. *)
Theorem check_keeps_accepted ρ1 ρ2 fw b w r w' :
  apart fw → fw_testConfig fw = Some b → accepted_by b (fw_runtimePath fw) w →
  check ρ1 ρ2 fw w = (r, w') → accepted_by b (fw_runtimePath fw) w'.
Proof. apply check_keeps. Qed.

(** ** Progress *)

(** The supervisor accepts reloads and restarts in [w]-like states. *)
Definition supervisor_up (needsRestart : bool) (files : gmap string file) : Prop :=
  ∀ w, o_files w = files → ∃ w', (if needsRestart then Restart else Reload) w = (Ok (), w').

Lemma check_progress ρ1 ρ2 fw data cfg b fb w :
  apart fw → o_faults w = [] → fw_rawKeyPath fw = "" → fw_testConfig fw = Some b →
  f_Data <$> o_files w !! fw_sourcePath fw = Some data → data ≠ fw_lastApplied fw →
  Unmarshal data = Ok cfg → valid_doorman cfg →
  o_files w !! b = Some fb → test_accepts (f_Data fb) data = true →
  {[ Dir (fw_runtimePath fw); Dir (fw_runtimePath fw +:+ CandidateSuffix);
     Dir ((fw_runtimePath fw +:+ CandidateSuffix) +:+ ".tmp") ]} ⊆ o_dirs w →
  (∀ files, supervisor_up (needs_restart ρ2 (fw_lastApplied fw) cfg) files) →
  ∃ w', check ρ1 ρ2 fw w = (Ok (with_lastApplied data fw), w') ∧
    f_Data <$> o_files w' !! fw_runtimePath fw = Some data ∧
    ConfigStale (o_metrics w') = 0 ∧ ReloadsSuccess (o_metrics w') = ReloadsSuccess (o_metrics w) + 1.
Proof.
  intros Ha Hf Hkey Hb Hsrc Hne Hu Hv Hfb Hacc Hdirs Hsup. unfold check.
  destruct (o_files w !! fw_sourcePath fw) as [fs|] eqn:Hfs; [|done]. injection Hsrc as Hsrc.
  erewrite bind_run; [|unfold ReadFile, plain_call; apply no_fault_try; [done|]; rewrite Hfs; reflexivity].
  cbv beta iota. rewrite Hsrc, decide_False by done. erewrite bind_run by reflexivity. cbv beta.
  assert (ValidateConfigBytes ρ1 data = Ok cfg) as -> by (by apply ValidateConfigBytes_ok).
  unfold apply_change.
  match goal with |- context [mbind _ _ ?w0] => set (w0' := w0) end.
  destruct (materialize_runs fw data b fb w0') as (w1 & H1 & Hm1 & Hd1); try done.
  erewrite bind_run; [|unfold try_; rewrite H1; reflexivity]. cbv beta iota.
  destruct (Hsup (o_files w1) w1 eq_refl) as [w2 H2].
  assert (same_disk w1 w2) as (Hf2 & _ & Hm2).
  { destruct (needs_restart _ _ _); [by eapply Restart_disk|by eapply Reload_disk]. }
  erewrite bind_run; [|unfold try_; rewrite H2; reflexivity]. cbv beta iota.
  eexists. split; [reflexivity|]. simpl. rewrite Hf2, Hm2, Hm1. done.
Qed.

(** Progress: when no call fails, a readable mounted config that differs from
    the applied one, is valid, and is accepted by the installed binary is applied
    by the next check: it is the runtime config, it is the new last applied one,
    the gauge is 0 and the success is counted. *)
Theorem check_applies ρ1 ρ2 fw data cfg b fb w :
  apart fw → o_faults w = [] → fw_rawKeyPath fw = "" → fw_testConfig fw = Some b →
  f_Data <$> o_files w !! fw_sourcePath fw = Some data → data ≠ fw_lastApplied fw →
  Unmarshal data = Ok cfg → valid_doorman cfg →
  o_files w !! b = Some fb → test_accepts (f_Data fb) data = true →
  {[ Dir (fw_runtimePath fw); Dir (fw_runtimePath fw +:+ CandidateSuffix);
     Dir ((fw_runtimePath fw +:+ CandidateSuffix) +:+ ".tmp") ]} ⊆ o_dirs w →
  (∀ files, supervisor_up (needs_restart ρ2 (fw_lastApplied fw) cfg) files) →
  ∃ w', check ρ1 ρ2 fw w = (Ok (with_lastApplied data fw), w') ∧
    f_Data <$> o_files w' !! fw_runtimePath fw = Some data ∧
    ConfigStale (o_metrics w') = 0 ∧ ReloadsSuccess (o_metrics w') = ReloadsSuccess (o_metrics w) + 1.
Proof. apply check_progress. Qed.

(** The gauge is not cleared when a rejected change is taken back: a check that
    finds the mounted config equal to the applied one changes nothing at all, so
    the gauge stays at the 1 the rejected change left although the two agree. *)
Theorem check_revert_keeps_stale ρ1 ρ2 fw w r w' :
  f_Data <$> o_files w !! fw_sourcePath fw = Some (fw_lastApplied fw) →
  check ρ1 ρ2 fw w = (r, w') → r = Ok fw ∧ o_files w' = o_files w ∧ o_metrics w' = o_metrics w.
Proof.
  intros Hsrc Hr. unfold check in Hr.
  apply bind_inv in Hr as [(rd & w1 & Hrd & Hr)|(e & Hrd & ->)]; apply try_inv in Hrd as (? & [= <-] & Hrd).
  destruct (quiet_read _ _ _ _ Hrd) as [Hm1 _ _ _ _]. pose proof (ReadFile_files _ _ _ _ Hrd) as Hf1.
  destruct rd as [data|e]; [|by inv_run Hr].
  apply ReadFile_ok in Hrd as [_ Hd]. rewrite Hsrc in Hd. injection Hd as <-.
  rewrite decide_True in Hr by done. by inv_run Hr.
Qed.
End check.

(** ** Examples *)

(** A supervisor that only records what it was asked to send to pid 7. *)
Definition recording_supervisor : Supervisor := {|
  Reload := modify (λ w, set_signals (o_signals w ++ [(7, SIGHUP)]) w);
  Restart := modify (λ w, set_signals (o_signals w ++ [(7, SIGTERM)]) w);
  Upgrade := modify (λ w, set_signals (o_signals w ++ [(7, SIGUSR2)]) w);
  UpgradeInFlight := mret false
|}.
Lemma recording_supervisor_laws : @SupervisorLaws recording_supervisor.
Proof. split; intros w r w' Hr; by injection Hr as <- <-. Qed.
Definition example_crypto : Crypto := {|
  pem_Decode _ := None; ParsePKCS8PrivateKey := Ok; ParseECPrivateKey := Ok; ParsePKCS1PrivateKey := Ok;
  MarshalPKCS8PrivateKey := Ok; pem_EncodeToMemory _ b := b; AppendCertsFromPEM _ := true
|}.
(** Binary [v1] accepts the first two configs, [v2] the last two. *)
Definition example_binary : PgDoormanBinary := λ b c,
  bool_decide ((b, c) ∈ [("v1", "cfg1"); ("v1", "cfg2"); ("v2", "cfg2"); ("v2", "cfg3")]).
Definition example_docs : Yaml := table_yaml
  [("cfg1", example_config); ("cfg2", generated example_spec 6433 9127 example_passwords None);
   ("cfg3", generated example_spec 6434 9127 example_passwords None)].

Definition idle_process : process :=
  {| p_cmd := None; p_adoptedPid := 0; p_upgradeRequested := false; p_upgradeRequestedAt := 0 |}.
(** A pod that runs [v1] on [cfg1], with this mounted config and these faults. *)
Definition example_os (mounted : string) (faults : list (option nat)) : os :=
  Os {[ ConfigSourcePath := File mounted 420; RuntimeConfigPath := File "cfg1" 384;
        RuntimeBinaryPath := File "v1" 493; ImageBinaryPath := File "v1" 493 ]}
     {[ "/tmp"; "/tmp/bin" ]} faults ["a"; "b"] [] zero_metrics 0 [] [] idle_process.
Definition example_fw : FileWatcher :=
  with_lastApplied "cfg1" (NewFileWatcher ConfigSourcePath RuntimeConfigPath "" ConvertedTLSKeyPath).

#[local] Instance fx_supervisor : Supervisor := recording_supervisor.
#[local] Instance fx_laws : SupervisorLaws := recording_supervisor_laws.
#[local] Instance fx_crypto : Crypto := example_crypto.
#[local] Instance fx_binary : PgDoormanBinary := example_binary.
#[local] Instance fx_docs : Yaml := example_docs.
Definition fx_check (w : os) : res FileWatcher * os := check default_ranger reverse_ranger example_fw w.

Lemma fx_apart : apart example_fw.
Proof.
  split; [apply (bool_decide_eq_true_1 _); by vm_compute|]. intros b [= <-].
  split; apply (bool_decide_eq_true_1 _); by vm_compute.
Qed.


(** The rename of the candidate fails. *)
Lemma check_keeps_accepted_witness :
  let w := example_os "cfg2" [None; None; None; None; None; None; None; Some 0%nat] in
  ConfigStale (o_metrics (fx_check w).2) = 1 ∧ accepted_by RuntimeBinaryPath RuntimeConfigPath (fx_check w).2.
Proof.
  intros w. split; [vm_compute; reflexivity|].
  apply (check_keeps_accepted default_ranger reverse_ranger example_fw RuntimeBinaryPath w (fx_check w).1 _ fx_apart eq_refl).
  - exists (File "v1" 493), (File "cfg1" 384). split_and!; vm_compute; reflexivity.
  - apply surjective_pairing.
Defined.

Lemma fx_up b files : supervisor_up b files.
Proof. intros w _. destruct b; eexists; reflexivity. Qed.
Lemma fx_cfg2 : ValidateConfigBytes default_ranger "cfg2" = Ok (generated example_spec 6433 9127 example_passwords None).
Proof. vm_compute. reflexivity. Qed.
Lemma check_applies_witness :
  ∃ w', fx_check (example_os "cfg2" []) = (Ok (with_lastApplied "cfg2" example_fw), w') ∧
    ConfigStale (o_metrics w') = 0.
Proof.
  destruct (proj1 (ValidateConfigBytes_ok _ _ _) fx_cfg2) as [Hu Hv].
  destruct (check_applies default_ranger reverse_ranger example_fw "cfg2" (generated example_spec 6433 9127 example_passwords None) RuntimeBinaryPath (File "v1" 493)
    (example_os "cfg2" []) fx_apart eq_refl eq_refl eq_refl) as (w' & Hr & _ & Hst & _).
  - vm_compute. reflexivity.
  - done.
  - exact Hu.
  - exact Hv.
  - vm_compute. reflexivity.
  - vm_compute. reflexivity.
  - apply (bool_decide_eq_true_1 _). vm_compute. reflexivity.
  - intros files. apply fx_up.
  - exists w'. split; [exact Hr|exact Hst].
Defined.

(** A rejected change that is taken back: the mounted, the applied and the
    runtime config agree again, and the gauge still says 1. *)
Definition remount (data : string) (w : os) : os := set_files (<[ConfigSourcePath := File data 420]> (o_files w)) w.
Lemma check_revert_stale_example :
  let w1 := (fx_check (example_os "broken" [])).2 in
  let w2 := (fx_check (remount "cfg1" w1)).2 in
  f_Data <$> o_files w2 !! ConfigSourcePath = f_Data <$> o_files w2 !! RuntimeConfigPath ∧
  ConfigStale (o_metrics w2) = 1.
Proof. split; vm_compute; reflexivity. Qed.
