(* ===== verification/Rollout.v ===== *)
(** * From a PgDoorman to the pooler

    The controller and the wrapper composed: what the status of a PgDoorman calls
    rendered is what the wrapper of a pod that mounts the Secret applies. *)
From S2P Require Import Prelude GoStd Api Specs K8s PluginConfig ConfigGen Paths Kube MemClient Credentials.
From S2P Require Import DoormanConfig Controller ControllerProofs Os WrapperFiles FileWatcher.
From stdpp Require Import options.
Open Scope Z_scope.

Section rollout.
  #[local] Set Default Proof Using "Type*".
  Context {W : Type} {KC : KubeClient W} {KL : KubeLib} {QS : Quantities} {YM : Yaml}.
  Context {KS : KubeSpec W} {KLS : KubeLibSpec}.
  Context {PB : PgDoormanBinary} {CR : Crypto} {SV : Supervisor} {SL : SupervisorLaws}.
  Context (r : RenderedConfigReconciler).

(** A pod that has mounted [s] and not applied it yet: the watcher's paths are
    in order, no call fails, the process can be signalled, and the installed
    binary accepts the mounted config. *)
Record ready (fw : FileWatcher) (s : Secret) (w : os) : Prop := {
  rd_apart : apart fw;
  rd_key : fw_rawKeyPath fw = "";
  rd_faults : o_faults w = [];
  rd_mounted : f_Data <$> o_files w !! fw_sourcePath fw = Some (map_get (sec_Data s) ConfigKey);
  rd_new : map_get (sec_Data s) ConfigKey ≠ fw_lastApplied fw;
  rd_binary : ∃ b fb, fw_testConfig fw = Some b ∧ o_files w !! b = Some fb ∧
    test_accepts (f_Data fb) (map_get (sec_Data s) ConfigKey) = true;
  rd_dirs : {[ Dir (fw_runtimePath fw); Dir (fw_runtimePath fw +:+ CandidateSuffix);
     Dir ((fw_runtimePath fw +:+ CandidateSuffix) +:+ ".tmp") ]} ⊆ o_dirs w;
  rd_process : ∀ restart files, supervisor_up restart files
}.

End rollout.

(** ** Example: the first configuration of the cluster of the controller's example *)
#[local] Existing Instances ex_quantities ex_yaml.
#[local] Instance rollout_supervisor : Supervisor := recording_supervisor.
#[local] Instance rollout_laws : SupervisorLaws := recording_supervisor_laws.
#[local] Instance rollout_crypto : Crypto := example_crypto.
#[local] Instance rollout_binary : PgDoormanBinary := λ b c, bool_decide (b = "v1" ∧ c = "doc").

(** The pod ran another config until the kubelet updated the mounted Secret. *)
Lemma rollout_ready s :
  map_get (sec_Data s) ConfigKey = "doc" → ready example_fw s (example_os "doc" []).
Proof.
  intros Hs. split; rewrite ?Hs; try done.
  - apply fx_apart.
  - exists RuntimeBinaryPath, (File "v1" 493). by vm_compute.
  - apply (bool_decide_eq_true_1 _). by vm_compute.
  - intros b files w _. destruct b; by eexists.
Qed.

