(* ===== verification/BinarySync.v ===== *)
(** * Binary delivery (internal/wrapper: binarysync.go, startup.go)

    Installing the desired pg_doorman binary at the path the wrapper executes:
    from the runtime path itself, the image or the delivery endpoint, with the
    digest of the spec as the only authority on what gets installed. *)
From S2P Require Import Prelude GoStd Sha256 Paths ConfigGen DoormanConfig Os WrapperFiles FileWatcher.
From stdpp Require Import options.
Open Scope Z_scope.

Definition maxBinaryBytes : Z := Z.shiftl 256 20.
Definition tmp_prefix : string := ".pg_doorman-".

Record BinarySyncer : Type := {
  sy_specPath : string;
  sy_imagePath : string;
  sy_runtimePath : string;
  sy_arch : string
}.

(** [io.LimitReader(r, n)] of what can be read. *)
Definition limited (n : Z) (body : string) : string :=
  if Z.of_nat (String.length body) <=? n then body else String.substring 0 (Z.to_nat n) body.

Section binarysync.
  Context {PB : PgDoormanBinary} {CR : Crypto} {YM : Yaml}.

Definition httpClientFor (spec : BinarySpec) : res unit :=
  if decide (bs_CABundle spec ≠ "") then
    if AppendCertsFromPEM (bs_CABundle spec) then Ok ()
    else Err (Errorf "binary spec: cannot parse CA bundle" [])
  else Ok ().

(** The deferred [Close] and [Remove] of a temporary file. *)
Definition with_cleanup {A} (tmp : string) (body : M os A) : M os A :=
  r ← try_ body;
  _ ← ignore (Close tmp);
  _ ← ignore (Remove tmp);
  lift r.

(** The end of every installation: mode, sync, close, rename. *)
Definition finish_install (tmp destPath : string) : M os unit :=
  _ ← Chmod tmp 493;
  _ ← Sync tmp;
  _ ← Close tmp;
  Rename tmp destPath.

(** The download into the temporary file and its verification. *)
Definition receive (resp : response) (wantSHA tmp destPath : string) : M os unit :=
  let data := limited (maxBinaryBytes + 1) (rs_Body resp) in
  _ ← Write tmp data;
  if rs_Broken resp && (Z.of_nat (String.length (rs_Body resp)) <=? maxBinaryBytes)
  then throw (ExtErr "unexpected EOF")
  else if maxBinaryBytes <? Z.of_nat (String.length data)
  then throw (Errorf "binary exceeds the %d byte limit" [Itoa maxBinaryBytes])
  else if decide (Sum256 data ≠ wantSHA)
  then throw (Errorf "downloaded binary digest mismatch: got %s want %s" [Sum256 data; wantSHA])
  else finish_install tmp destPath.

Definition create_download_tmp (destPath : string) : M os string :=
  tmp ← try_ (CreateTemp (Dir destPath) tmp_prefix);
  match tmp with
  | Ok tmp => mret tmp
  | Err _ => _ ← MkdirAll (Dir destPath); CreateTemp (Dir destPath) tmp_prefix
  end.

Definition Download (spec : BinarySpec) (wantSHA destPath : string) : M os unit :=
  _ ← lift (httpClientFor spec);
  resp ← http_Do;
  if negb (rs_StatusCode resp =? 200) then throw (Errorf "binary endpoint returned %s" [rs_Status resp])
  else if maxBinaryBytes <? rs_ContentLength resp
  then throw (Errorf "binary endpoint declared %d bytes, over the %d byte limit"
                [Itoa (rs_ContentLength resp); Itoa maxBinaryBytes])
  else
    tmp ← create_download_tmp destPath;
    with_cleanup tmp (receive resp wantSHA tmp destPath).

Definition Open (path : string) : M os unit := plain_call (λ w,
  (match o_files w !! path with Some _ => Ok () | None => Err (ENOENT path) end, w)).

(** [src] is the open file at [srcPath]. *)
Definition atomicInstall (destPath srcPath : string) : M os unit :=
  _ ← MkdirAll (Dir destPath);
  tmp ← CreateTemp (Dir destPath) tmp_prefix;
  with_cleanup tmp (
    data ← ReadFile srcPath;
    _ ← Write tmp data;
    finish_install tmp destPath).

(** The digest of the runtime binary when it can be read. *)
Definition installFromImage (s : BinarySyncer) (wantSHA : string) : M os unit :=
  img ← try_ (FileSHA256 (sy_imagePath s));
  match img with
  | Err e => throw (Wrapf "hashing image binary: %w" [] e)
  | Ok imgSHA =>
      if decide (wantSHA ≠ "" ∧ imgSHA ≠ wantSHA)
      then throw (Errorf "image binary digest mismatch: got %s want %s" [imgSHA; wantSHA])
      else
        cur ← try_ (FileSHA256 (sy_runtimePath s));
        if decide (cur = Ok imgSHA) then mret ()
        else
          _ ← Open (sy_imagePath s);
          r ← try_ (atomicInstall (sy_runtimePath s) (sy_imagePath s));
          _ ← ignore (Close (sy_imagePath s));
          lift r
  end.

Definition RevertToImage (s : BinarySyncer) : M os bool :=
  img ← try_ (FileSHA256 (sy_imagePath s));
  match img with
  | Err e => throw (Wrapf "hashing image binary: %w" [] e)
  | Ok imgSHA =>
      cur ← try_ (FileSHA256 (sy_runtimePath s));
      if decide (cur = Ok imgSHA) then mret false
      else _ ← installFromImage s ""; mret true
  end.

(** From a spec with a digest for this architecture on. *)
Definition ensure_desired (s : BinarySyncer) (data : option string) (spec : BinarySpec) (desired : string)
    : M os (option string) :=
  cur ← try_ (FileSHA256 (sy_runtimePath s));
  if decide (cur = Ok desired) then mret data
  else
    img ← try_ (FileSHA256 (sy_imagePath s));
    if decide (img = Ok desired) then _ ← installFromImage s desired; mret data
    else
      downloaded ← try_ (Download spec desired (sy_runtimePath s));
      match downloaded with
      | Err _ =>
          _ ← BinaryStale_Set 1;
          _ ← installFromImage s "";
          mret None
      | Ok _ => _ ← BinaryStale_Set 0; mret data
      end.

(** The result is the watcher's seed ([None] for nil). *)
Definition EnsureAtStartup (s : BinarySyncer) : M os (option string) :=
  read ← try_ (ReadFile (sy_specPath s));
  data ← (match read with
          | Ok data => mret (Some data)
          | Err e => if is_not_exist e then mret None else throw e
          end);
  let spec := match data with
              | Some data => match ParseBinarySpec data with Ok spec => Some spec | Err _ => None end
              | None => None
              end in
  let desired := match spec with Some spec => map_get (bs_SHA256 spec) (sy_arch s) | None => "" end in
  match spec with
  | Some spec =>
      if decide (desired = "") then _ ← installFromImage s ""; mret data
      else ensure_desired s data spec desired
  | None => _ ← installFromImage s ""; mret data
  end.

(** [ApplyInitialConfig] (startup.go): the watcher and the seed. *)
Definition ApplyInitialConfig (fw : FileWatcher) (s : BinarySyncer) (seed : option string)
    : M os (FileWatcher * option string) :=
  applied ← try_ (ApplyInitial fw);
  match applied with
  | Ok fw' => mret (fw', seed)
  | Err e =>
      reverted ← try_ (RevertToImage s);
      match reverted with
      | Err revertErr => throw (Joined e (Wrapf "reverting to the image binary: %w" [] revertErr))
      | Ok false => throw e
      | Ok true =>
          _ ← BinaryStale_Set 1;
          fw' ← ApplyInitial fw;
          mret (fw', None)
      end
  end.
End binarysync.

(** ** What is installed *)

(** Names of temporary files next to [dest]. *)
Definition temp_name (dest k : string) : Prop := ∃ s, k = Dir dest +:+ "/" +:+ tmp_prefix +:+ s.
Definition install_files (dest : string) (k : string) : Prop := k = dest ∨ temp_name dest k.

Section lemmas.
  #[local] Set Default Proof Using "Type*".
  Context {PB : PgDoormanBinary} {CR : Crypto} {YM : Yaml}.

Lemma framed_temp P dir : (∀ s, P (dir +:+ "/" +:+ tmp_prefix +:+ s)) → framed P (CreateTemp dir tmp_prefix).
Proof.
  intros HP. apply framed_syscall; [done|]. intros w. case_decide; [|done].
  destruct (list_find _ _) as [[i s]|]; [|done]. apply files_frame_set_files.
  intros k Hk. apply lookup_insert_ne. intros <-. apply Hk, HP.
Qed.

Lemma CreateTemp_ok dir w tmp w' :
  CreateTemp dir tmp_prefix w = (Ok tmp, w') →
  (∃ s, tmp = dir +:+ "/" +:+ tmp_prefix +:+ s) ∧ o_files w !! tmp = None ∧
  o_files w' = <[tmp := File "" 384]> (o_files w).
Proof.
  intros (fs & Hr)%syscall_ok. case_decide; [|done]. simpl in Hr.
  destruct (list_find _ _) as [[i s]|] eqn:Hl; [|done]. injection Hr as <- <-.
  apply list_find_Some in Hl as (_ & Hn & _). eauto.
Qed.

Lemma Chmod_ok path mode w w' :
  Chmod path mode w = (Ok (), w') → ∃ f, o_files w !! path = Some f ∧ o_files w' = <[path := File (f_Data f) mode]> (o_files w).
Proof.
  intros (fs & Hr)%syscall_ok. simpl in Hr. destruct (o_files w !! path) as [f|]; [|done]. injection Hr as <-. eauto.
Qed.

Lemma finish_install_staged dest tmp f0 w r w' :
  dest ≠ tmp → o_files w !! tmp = Some f0 → finish_install tmp dest w = (r, w') →
  (∀ k, k ≠ tmp → k ≠ dest → o_files w' !! k = o_files w !! k) ∧
  match r with
  | Err _ => o_files w' !! dest = o_files w !! dest
  | Ok _ => o_files w' !! dest = Some (File (f_Data f0) 493)
  end.
Proof.
  intros Hne Hf0 Hr. split.
  { intros k ??. eapply (framed_lookup (λ k, k = tmp ∨ k = dest)); [|done|naive_solver]. unfold finish_install. keep. }
  unfold finish_install in Hr.
  assert (∀ A (m : M os A) v r v', framed (λ k, k = tmp) m → m v = (r, v') → o_files v' !! dest = o_files v !! dest) as Hfr.
  { intros A m v x v' Hm Hx. by eapply (framed_lookup (λ k, k = tmp)). }
  apply bind_inv in Hr as [([] & w1 & Hc & Hr)|(e & Hc & ->)]; [|eapply Hfr; [by apply framed_chmod|done]].
  pose proof (Hfr _ _ _ _ _ (framed_chmod _ tmp 493 eq_refl) Hc) as H1.
  apply Chmod_ok in Hc as (f & Hf & Hw1). rewrite Hf0 in Hf. injection Hf as <-.
  apply bind_inv in Hr as [([] & w2 & Hc & Hr)|(e & Hc & ->)]; apply Sync_files in Hc; [|by rewrite Hc].
  apply bind_inv in Hr as [([] & w3 & Hc' & Hr)|(e & Hc' & ->)]; apply Close_files in Hc'; [|by rewrite Hc', Hc].
  destruct r as [[]|e].
  - apply Rename_ok in Hr as (f & Hf & ->). rewrite Hc', Hc, Hw1, lookup_insert_eq in Hf. injection Hf as <-.
    apply lookup_insert_eq.
  - apply Rename_err in Hr as ->. by rewrite Hc', Hc.
Qed.

Lemma receive_staged resp want dest tmp w r w' :
  dest ≠ tmp → o_files w !! tmp = Some (File "" 384) → receive resp want tmp dest w = (r, w') →
  (∀ k, k ≠ tmp → k ≠ dest → o_files w' !! k = o_files w !! k) ∧
  match r with
  | Err _ => o_files w' !! dest = o_files w !! dest
  | Ok _ => ∃ data, o_files w' !! dest = Some (File data 493) ∧ Sum256 data = want
  end.
Proof.
  intros Hne Hf0 Hr. split.
  { intros k ??. eapply (framed_lookup (λ k, k = tmp ∨ k = dest)); [|done|naive_solver].
    unfold receive, finish_install. keep. }
  unfold receive in Hr. set (data := limited _ _) in *.
  apply bind_inv in Hr as [([] & w1 & Hc & Hr)|(e & Hc & ->)].
  2: { by eapply (framed_lookup (λ k, k = tmp)); [by apply framed_write|..]. }
  apply Write_ok in Hc. unfold append_file in Hc. rewrite Hf0 in Hc. simpl in Hc.
  assert (o_files w1 !! dest = o_files w !! dest) as Hd by (rewrite Hc; by apply lookup_insert_ne).
  destruct (_ && _); [by inv_run Hr|]. destruct (_ <? _); [by inv_run Hr|].
  case_decide as Hsum; [by inv_run Hr|].
  apply (finish_install_staged _ _ (File data 384)) in Hr as [_ Hr]; [|done|by rewrite Hc, lookup_insert_eq].
  destruct r as [[]|e]; [|congruence]. exists data. split; [done|]. by destruct (decide (Sum256 data = want)).
Qed.

Lemma with_cleanup_files {A} tmp (body : M os A) w r w' :
  with_cleanup tmp body w = (r, w') →
  ∃ w1, body w = (r, w1) ∧ ∀ k, k ≠ tmp → o_files w' !! k = o_files w1 !! k.
Proof.
  intros Hr. unfold with_cleanup in Hr.
  apply bind_inv in Hr as [(x & w1 & Hb & Hr)|(e & Hb & ->)]; apply try_inv in Hb as (? & [= <-] & Hb).
  apply bind_inv in Hr as [(u & w2 & Hc & Hr)|(e & Hc & ->)]; apply ignore_inv in Hc as [? [r1 Hc]]; [|done].
  apply bind_inv in Hr as [(u' & w3 & Hc' & Hr)|(e & Hc' & ->)]; apply ignore_inv in Hc' as [? [r2 Hc']]; [|done].
  inv_run Hr. exists w1. split; [done|]. intros k Hk. apply Close_files in Hc.
  rewrite <- Hc. by eapply (framed_lookup (λ k, k = tmp)); [by apply framed_remove|..].
Qed.

Lemma create_download_tmp_ok dest w tmp w' :
  create_download_tmp dest w = (Ok tmp, w') →
  temp_name dest tmp ∧ o_files w !! tmp = None ∧ o_files w' = <[tmp := File "" 384]> (o_files w).
Proof.
  intros Hr. unfold create_download_tmp in Hr.
  apply bind_inv in Hr as [(x & w1 & Hc & Hr)|(e & _ & ?)]; [|done]. apply try_inv in Hc as (? & [= <-] & Hc).
  destruct x as [tmp'|e]; [inv_run Hr; by apply CreateTemp_ok in Hc|].
  assert (o_files w1 = o_files w) as Hw1.
  { revert Hc. unfold CreateTemp, plain_call, syscall. destruct (o_faults w) as [|[n|] fs].
    2: by intros [= _ <-].
    all: case_decide; [destruct (list_find _ _) as [[]|]|]; by intros [= _ <-]. }
  apply bind_inv in Hr as [([] & w2 & Hm & Hr)|(e' & _ & ?)]; [|done].
  apply syscall_ok in Hm as (fs & [= <-]). apply CreateTemp_ok in Hr. simpl in Hr. by rewrite Hw1 in Hr.
Qed.
Lemma create_download_tmp_err dest w e w' : create_download_tmp dest w = (Err e, w') → o_files w' = o_files w.
Proof.
  assert (∀ w e w', CreateTemp (Dir dest) tmp_prefix w = (Err e, w') → o_files w' = o_files w) as Htmp.
  { intros w0 e0 w0'. unfold CreateTemp, plain_call, syscall. destruct (o_faults w0) as [|[n|] fs].
    2: by intros [= _ <-].
    all: case_decide; [destruct (list_find _ _) as [[]|]|]; by intros [= _ <-]. }
  intros Hr. unfold create_download_tmp in Hr.
  apply bind_inv in Hr as [(x & w1 & Hc & Hr)|(e' & Hc & ?)]; apply try_inv in Hc as (? & [= <-] & Hc).
  destruct x as [tmp'|e']; [by inv_run Hr|]. apply Htmp in Hc.
  apply bind_inv in Hr as [([] & w2 & Hm & Hr)|(e2 & Hm & _)].
  - apply syscall_ok in Hm as (fs & [= <-]). apply Htmp in Hr. simpl in Hr. congruence.
  - revert Hm. unfold MkdirAll, plain_call, syscall. destruct (o_faults w1) as [|[n|] fs]; intros [= _ <-]; done.
Qed.

Lemma http_files w r w' : http_Do w = (r, w') → o_files w' = o_files w.
Proof. unfold http_Do. destruct (o_network w); by intros [= _ <-]. Qed.

(** Whatever the network answers and whichever call fails, the destination is
    what it was or content with the wanted digest. *)
Lemma Download_effect spec want dest w r w' :
  ¬ temp_name dest dest → Download spec want dest w = (r, w') →
  (∀ k, ¬ install_files dest k → o_files w' !! k = o_files w !! k) ∧
  match r with
  | Err _ => o_files w' !! dest = o_files w !! dest
  | Ok _ => ∃ data, o_files w' !! dest = Some (File data 493) ∧ Sum256 data = want
  end.
Proof.
  intros Hnt Hr. unfold Download in Hr.
  apply bind_inv in Hr as [([] & w1 & Hc & Hr)|(e & Hc & ->)]; unfold lift in Hc; injection Hc as Hc <-; [|done].
  apply bind_inv in Hr as [(resp & w2 & Hh & Hr)|(e & Hh & ->)]; apply http_files in Hh; [|by rewrite Hh].
  rewrite <- Hh.
  destruct (negb _); [by inv_run Hr|]. destruct (_ <? _); [by inv_run Hr|].
  apply bind_inv in Hr as [(tmp & w3 & Hc' & Hr)|(e & Hc' & ->)].
  2: { apply create_download_tmp_err in Hc'. by rewrite Hc'. }
  apply create_download_tmp_ok in Hc' as (Htmp & Hn & Hw3).
  assert (dest ≠ tmp) as Hne by (by intros <-).
  apply with_cleanup_files in Hr as (w4 & Hr & Hw').
  apply receive_staged in Hr as [Hf Hr]; [|done|by rewrite Hw3, lookup_insert_eq].
  split.
  - intros k Hk. assert (k ≠ tmp) by (intros ->; apply Hk; by right). assert (k ≠ dest) by (intros ->; apply Hk; by left).
    rewrite Hw', Hf, Hw3 by done. by apply lookup_insert_ne.
  - rewrite Hw' by done. rewrite Hw3, lookup_insert_ne in Hr by done. done.
Qed.

Lemma CreateTemp_err dir w e w' : CreateTemp dir tmp_prefix w = (Err e, w') → o_files w' = o_files w.
Proof.
  unfold CreateTemp, plain_call, syscall. destruct (o_faults w) as [|[n|] fs].
  2: by intros [= _ <-].
  all: case_decide; [destruct (list_find _ _) as [[]|]|]; by intros [= _ <-].
Qed.
Lemma MkdirAll_files path w r w' : MkdirAll path w = (r, w') → o_files w' = o_files w.
Proof. unfold MkdirAll, plain_call, syscall. destruct (o_faults w) as [|[n|] fs]; by intros [= _ <-]. Qed.
Lemma Open_files path w r w' : Open path w = (r, w') → o_files w' = o_files w.
Proof.
  unfold Open, plain_call, syscall. destruct (o_faults w) as [|[n|] fs].
  2: by intros [= _ <-].
  all: destruct (_ !! _); by intros [= _ <-].
Qed.
Lemma FileSHA256_inv path w r w' :
  FileSHA256 path w = (r, w') →
  o_files w' = o_files w ∧ ∀ d, r = Ok d → ∃ f, o_files w !! path = Some f ∧ Sum256 (f_Data f) = d.
Proof.
  intros Hr. unfold FileSHA256 in Hr.
  apply bind_inv in Hr as [(data & w1 & Hc & Hr)|(e & Hc & ->)]; pose proof (ReadFile_files _ _ _ _ Hc) as Hf; [|done].
  inv_run Hr. split; [done|]. intros d [= <-].
  apply ReadFile_ok in Hc as [_ Hc]. apply fmap_Some in Hc as (f & ? & ->). eauto.
Qed.

Lemma atomicInstall_effect dest src w r w' :
  ¬ temp_name dest dest → ¬ temp_name dest src → atomicInstall dest src w = (r, w') →
  (∀ k, ¬ install_files dest k → o_files w' !! k = o_files w !! k) ∧
  match r with
  | Err _ => o_files w' !! dest = o_files w !! dest
  | Ok _ => ∃ f, o_files w !! src = Some f ∧ o_files w' !! dest = Some (File (f_Data f) 493)
  end.
Proof.
  intros Hnt Hsrc Hr. unfold atomicInstall in Hr.
  apply bind_inv in Hr as [([] & w1 & Hm & Hr)|(e & Hm & ->)]; apply MkdirAll_files in Hm; [|by rewrite Hm].
  rewrite <- Hm.
  apply bind_inv in Hr as [(tmp & w2 & Hc & Hr)|(e & Hc & ->)].
  2: { apply CreateTemp_err in Hc. by rewrite Hc. }
  apply CreateTemp_ok in Hc as (Htmp & Hn & Hw2). change (temp_name dest tmp) in Htmp.
  assert (dest ≠ tmp) as Hne by (by intros <-). assert (src ≠ tmp) as Hne2 by (by intros <-).
  apply with_cleanup_files in Hr as (w3 & Hr & Hw').
  assert (∀ k, k ≠ tmp → o_files w2 !! k = o_files w1 !! k) as Hw2'.
  { intros k Hk. rewrite Hw2. by apply lookup_insert_ne. }
  assert ((∀ k, k ≠ tmp → k ≠ dest → o_files w3 !! k = o_files w2 !! k)) as Hframe.
  { intros k ??. eapply (framed_lookup (λ k, k = tmp ∨ k = dest)); [|done|naive_solver].
    unfold finish_install. keep. }
  split.
  { intros k Hk. assert (k ≠ tmp) by (intros ->; apply Hk; by right). assert (k ≠ dest) by (intros ->; apply Hk; by left).
    by rewrite Hw', Hframe, Hw2'. }
  rewrite Hw', <- (Hw2' dest) by done.
  apply bind_inv in Hr as [(data & w4 & Hrd & Hr)|(e & Hrd & ->)]; pose proof (ReadFile_files _ _ _ _ Hrd) as H4.
  2: by rewrite H4.
  apply bind_inv in Hr as [([] & w5 & Hwr & Hr)|(e & Hwr & ->)].
  2: { rewrite <- H4. by eapply (framed_lookup (λ k, k = tmp)); [by apply framed_write|..]. }
  apply Write_ok in Hwr. unfold append_file in Hwr. rewrite H4, Hw2, lookup_insert_eq in Hwr. simpl in Hwr.
  apply (finish_install_staged _ _ (File data 384)) in Hr as [_ Hr]; [|done|by rewrite Hwr, lookup_insert_eq].
  apply ReadFile_ok in Hrd as [_ (f & Hf & ->)%fmap_Some].
  destruct r as [[]|e].
  - exists f. split; [|done]. by rewrite <- Hw2'.
  - rewrite Hr, Hwr, lookup_insert_ne by done. by rewrite Hw2.
Qed.
(** The runtime path holds what the image path held. *)
Definition image_installed (s : BinarySyncer) (w w' : os) : Prop :=
  ∃ fi f, o_files w !! sy_imagePath s = Some fi ∧ o_files w' !! sy_runtimePath s = Some f ∧
    Sum256 (f_Data f) = Sum256 (f_Data fi).
(** The paths of a syncer do not collide with its temporary files. *)
Definition sy_apart (s : BinarySyncer) : Prop :=
  ¬ temp_name (sy_runtimePath s) (sy_runtimePath s) ∧ ¬ install_files (sy_runtimePath s) (sy_imagePath s).

Lemma installFromImage_effect s want w r w' :
  sy_apart s → installFromImage s want w = (r, w') →
  (∀ k, ¬ install_files (sy_runtimePath s) k → o_files w' !! k = o_files w !! k) ∧
  match r with
  | Err _ => o_files w' !! sy_runtimePath s = o_files w !! sy_runtimePath s
  | Ok _ => image_installed s w w' ∧
      (want ≠ "" → ∃ f, o_files w' !! sy_runtimePath s = Some f ∧ Sum256 (f_Data f) = want)
  end.
Proof.
  intros [Hnt Himg] Hr. unfold installFromImage in Hr.
  apply bind_inv in Hr as [(img & w1 & Hi & Hr)|(e & Hi & ->)]; apply try_inv in Hi as (? & [= <-] & Hi);
    apply FileSHA256_inv in Hi as [Hf1 Hi].
  destruct img as [imgSHA|e]; [|inv_run Hr; by rewrite Hf1].
  destruct (Hi _ eq_refl) as (fi & Hfi & Hsum). clear Hi.
  case_decide as Hw; [inv_run Hr; by rewrite Hf1|].
  apply bind_inv in Hr as [(cur & w2 & Hi & Hr)|(e & Hi & ->)]; apply try_inv in Hi as (? & [= <-] & Hi);
    apply FileSHA256_inv in Hi as [Hf2 Hi]; rewrite Hf1 in Hf2.
  assert (∀ w3 f, o_files w3 !! sy_runtimePath s = Some f → Sum256 (f_Data f) = imgSHA →
    image_installed s w w3 ∧ (want ≠ "" → ∃ f, o_files w3 !! sy_runtimePath s = Some f ∧ Sum256 (f_Data f) = want)) as Hdone.
  { intros w3 f Hf Hs. split; [exists fi, f; by rewrite Hsum|]. intros Hwant. exists f. split; [done|].
    destruct (decide (imgSHA = want)); [congruence|]. by destruct Hw. }
  case_decide as Hcur.
  { inv_run Hr. destruct (Hi _ eq_refl) as (f & Hf & Hs). split; [by rewrite Hf2|].
    rewrite Hf1 in Hf. eapply Hdone; [by rewrite Hf2|done]. }
  apply bind_inv in Hr as [([] & w3 & Ho & Hr)|(e & Ho & ->)]; apply Open_files in Ho; rewrite Hf2 in Ho; [|by rewrite Ho].
  apply bind_inv in Hr as [(x & w4 & Ha & Hr)|(e & Ha & ->)]; apply try_inv in Ha as (? & [= <-] & Ha).
  apply atomicInstall_effect in Ha as [Hfr Ha]; [|done|intros ?; apply Himg; by right].
  apply bind_inv in Hr as [([] & w5 & Hc & Hr)|(e & Hc & ->)]; apply ignore_inv in Hc as [? [r1 Hc]]; [|done].
  apply Close_files in Hc. inv_run Hr. split; [intros k Hk; by rewrite Hc, Hfr, Ho|].
  destruct r as [[]|e]; [|by rewrite Hc, Ha, Ho].
  destruct Ha as (f & Hf & Hd). rewrite Ho, Hfi in Hf. injection Hf as <-.
  eapply Hdone; [by rewrite Hc|done].
Qed.

Lemma quiet_open_ro path : quiet (Open path).
Proof. apply quiet_syscall; [done|]. intros w. by destruct (o_files w !! path). Qed.
#[local] Hint Resolve quiet_open_ro : frames.
Lemma quiet_installFromImage s want : quiet (installFromImage s want).
Proof. unfold installFromImage, FileSHA256, atomicInstall, with_cleanup, finish_install. keep. Qed.

Lemma ReadFile_missing path w e w' :
  ReadFile path w = (Err e, w') → is_not_exist e = true → o_files w !! path = None.
Proof.
  unfold ReadFile, plain_call, syscall. destruct (o_faults w) as [|[n|] fs].
  2: by intros [= <- _].
  all: simpl; by destruct (o_files w !! path).
Qed.

(** The digest this pod should run, empty when the spec does not say. *)
Definition desired_of (s : BinarySyncer) (data : string) : string :=
  match ParseBinarySpec data with Ok spec => map_get (bs_SHA256 spec) (sy_arch s) | Err _ => "" end.

(** The outcome of a startup, from the files and the binary spec it began with. *)
Definition ensured (s : BinarySyncer) (w : os) (r : res (option string)) (w' : os) : Prop :=
  (∀ k, ¬ install_files (sy_runtimePath s) k → o_files w' !! k = o_files w !! k) ∧
  match r with
  | Err _ => o_files w' !! sy_runtimePath s = o_files w !! sy_runtimePath s
  | Ok None => image_installed s w w' ∧
      (o_files w !! sy_specPath s = None ∨ BinaryStale (o_metrics w') = 1)
  | Ok (Some data) => f_Data <$> o_files w !! sy_specPath s = Some data ∧
      if decide (desired_of s data = "") then image_installed s w w'
      else ∃ f, o_files w' !! sy_runtimePath s = Some f ∧ Sum256 (f_Data f) = desired_of s data
  end.

Lemma ensure_desired_correct s data spec w0 w r w' :
  sy_apart s → o_files w = o_files w0 → f_Data <$> o_files w0 !! sy_specPath s = Some data →
  ParseBinarySpec data = Ok spec → desired_of s data ≠ "" →
  ensure_desired s (Some data) spec (desired_of s data) w = (r, w') → ensured s w0 r w'.
Proof.
  intros Ha Hw Hdata Hspec Hdes Hr. unfold ensure_desired in Hr. pose proof Ha as [Hnt Himg].
  apply bind_inv in Hr as [(cur & w1 & Hi & Hr)|(e & Hi & ->)]; apply try_inv in Hi as (? & [= <-] & Hi);
    apply FileSHA256_inv in Hi as [Hf1 Hi]; rewrite Hw in Hf1.
  case_decide as Hc.
  { inv_run Hr. destruct (Hi _ eq_refl) as (f & Hf & Hs). split; [by rewrite Hf1|]. split; [done|].
    rewrite decide_False by done. exists f. by rewrite Hf1, <- Hw. }
  apply bind_inv in Hr as [(img & w2 & Hi2 & Hr)|(e & Hi2 & ->)]; apply try_inv in Hi2 as (? & [= <-] & Hi2);
    apply FileSHA256_inv in Hi2 as [Hf2 _]; rewrite Hf1 in Hf2.
  case_decide as Hc2.
  { apply bind_inv in Hr as [([] & w3 & Hc3 & Hr)|(e & Hc3 & ->)];
      apply installFromImage_effect in Hc3 as [Hfr Hc3]; [|done| |done]; rewrite Hf2 in Hfr.
    - inv_run Hr. split; [done|]. split; [done|]. rewrite decide_False by done. by apply Hc3.
    - split; [done|]. by rewrite Hc3, Hf2. }
  apply bind_inv in Hr as [(dl & w3 & Hd & Hr)|(e & Hd & ->)]; apply try_inv in Hd as (? & [= <-] & Hd).
  apply Download_effect in Hd as [Hfr Hd]; [|done]. rewrite Hf2 in Hfr, Hd. destruct dl as [[]|e].
  - unfold BinaryStale_Set in Hr. inv_run Hr. split; [done|]. split; [done|]. rewrite decide_False by done.
    destruct Hd as (d & Hd & Hs). by exists (File d 493).
  - apply bind_inv in Hr as [([] & w4 & Hs & Hr)|(e' & Hs & ->)]; [|done].
    unfold BinaryStale_Set, modify in Hs. injection Hs as <-.
    apply bind_inv in Hr as [([] & w5 & Hc3 & Hr)|(e' & Hc3 & ->)];
      destruct (quiet_installFromImage _ _ _ _ _ Hc3) as [Hm _ _ _ _];
      apply installFromImage_effect in Hc3 as [Hfr' Hc3]; [|done| |done]; simpl in Hfr', Hc3.
    + inv_run Hr. split; [intros k Hk; by rewrite Hfr', Hfr|]. split; [|right; by rewrite Hm].
      destruct Hc3 as [(fi & f & Hfi & ?) _]. exists fi, f. simpl in Hfi. by rewrite Hfr in Hfi.
    + split; [intros k Hk; by rewrite Hfr', Hfr|]. congruence.
Qed.

(** C21 — Startup, whatever the network answers and whichever call fails, installs
    at the runtime path content with the digest the spec asks for, or else the
    content of the image; the watcher's seed is the spec whose digest is now
    installed (or which names none for this machine), and is nil only when there
    is no spec or the download failed and the stale gauge is raised; nothing
    but the binary and its temporary files changes, and an error leaves the
    installed binary alone. *)
Theorem EnsureAtStartup_correct s w r w' :
  sy_apart s → EnsureAtStartup s w = (r, w') → ensured s w r w'.
Proof.
  intros Ha Hr. unfold EnsureAtStartup in Hr.
  apply bind_inv in Hr as [(rd & w1 & Hrd & Hr)|(e & Hrd & ->)]; apply try_inv in Hrd as (? & [= <-] & Hrd).
  pose proof (ReadFile_files _ _ _ _ Hrd) as Hf1.
  assert (∀ r w', installFromImage s "" w1 = (r, w') →
    (∀ k, ¬ install_files (sy_runtimePath s) k → o_files w' !! k = o_files w !! k) ∧
    match r with Ok _ => image_installed s w w' | Err _ => o_files w' !! sy_runtimePath s = o_files w !! sy_runtimePath s end) as Himg.
  { intros r0 w0 H0. apply installFromImage_effect in H0 as [Hfr H0]; [|done]. rewrite Hf1 in Hfr.
    split; [done|]. destruct r0; [|by rewrite H0, Hf1]. destruct H0 as [(fi & f & Hfi & ?) _]. exists fi, f. by rewrite <- Hf1. }
  destruct rd as [data|e].
  - apply ReadFile_ok in Hrd as [_ Hdata].
    apply bind_inv in Hr as [(? & ? & [= <- <-] & Hr)|(e & ? & ->)]; [|done].
    destruct (ParseBinarySpec data) as [spec|e] eqn:Hspec.
    + assert (map_get (bs_SHA256 spec) (sy_arch s) = desired_of s data) as Hdes by (unfold desired_of; by rewrite Hspec).
      rewrite Hdes in Hr. case_decide as Hd; [|by eapply ensure_desired_correct].
      apply bind_inv in Hr as [([] & w2 & Hc & Hr)|(e & Hc & ->)]; apply Himg in Hc as [Hfr Hc].
      * inv_run Hr. split; [done|]. split; [done|]. by rewrite decide_True.
      * by split.
    + assert (desired_of s data = "") as Hd by (unfold desired_of; by rewrite Hspec).
      apply bind_inv in Hr as [([] & w2 & Hc & Hr)|(e' & Hc & ->)]; apply Himg in Hc as [Hfr Hc].
      * inv_run Hr. split; [done|]. split; [done|]. by rewrite decide_True.
      * by split.
  - destruct (is_not_exist e) eqn:He.
    + apply (ReadFile_missing _ _ _ _ Hrd) in He.
      apply bind_inv in Hr as [(? & ? & [= <- <-] & Hr)|(e' & ? & ->)]; [|done].
      apply bind_inv in Hr as [([] & w2 & Hc & Hr)|(e' & Hc & ->)]; apply Himg in Hc as [Hfr Hc].
      * inv_run Hr. split; [done|]. split; [done|]. by left.
      * by split.
    + apply bind_inv in Hr as [(? & ? & ? & Hr)|(e' & [= <- <-] & ->)]; [done|]. split; by rewrite Hf1.
Qed.
Lemma RevertToImage_effect s w r w' :
  sy_apart s → RevertToImage s w = (r, w') →
  (∀ k, ¬ install_files (sy_runtimePath s) k → o_files w' !! k = o_files w !! k) ∧
  match r with
  | Err _ | Ok false => o_files w' !! sy_runtimePath s = o_files w !! sy_runtimePath s
  | Ok true => image_installed s w w'
  end.
Proof.
  intros Ha Hr. unfold RevertToImage in Hr.
  apply bind_inv in Hr as [(img & w1 & Hi & Hr)|(e & Hi & ->)]; apply try_inv in Hi as (? & [= <-] & Hi);
    apply FileSHA256_inv in Hi as [Hf1 _].
  destruct img as [imgSHA|e]; [|inv_run Hr; by rewrite Hf1].
  apply bind_inv in Hr as [(cur & w2 & Hi & Hr)|(e & Hi & ->)]; apply try_inv in Hi as (? & [= <-] & Hi);
    apply FileSHA256_inv in Hi as [Hf2 _]; rewrite Hf1 in Hf2.
  case_decide; [inv_run Hr; by rewrite Hf2|].
  apply bind_inv in Hr as [([] & w3 & Hc & Hr)|(e & Hc & ->)];
    apply installFromImage_effect in Hc as [Hfr Hc]; [|done| |done]; rewrite Hf2 in Hfr.
  - inv_run Hr. split; [done|]. destruct Hc as [(fi & f & Hfi & ?) _]. exists fi, f. by rewrite <- Hf2.
  - split; [done|]. by rewrite Hc, Hf2.
Qed.

Lemma ApplyInitial_effect fw w r w' :
  apart fw → ApplyInitial fw w = (r, w') →
  (∀ k, k ≠ fw_runtimePath fw → k ∉ fw_files fw → o_files w' !! k = o_files w !! k) ∧
  match r with
  | Err _ => o_files w' !! fw_runtimePath fw = o_files w !! fw_runtimePath fw
  | Ok fw' => ∃ data, fw' = with_lastApplied data fw ∧ f_Data <$> o_files w !! fw_sourcePath fw = Some data ∧
      f_Data <$> o_files w' !! fw_runtimePath fw = Some data ∧
      ∀ b, fw_testConfig fw = Some b → accepted_by b (fw_runtimePath fw) w'
  end.
Proof.
  intros Ha Hr. unfold ApplyInitial in Hr.
  apply bind_inv in Hr as [(data & w1 & Hrd & Hr)|(e & Hrd & ->)]; pose proof (ReadFile_files _ _ _ _ Hrd) as Hf1;
    [|by rewrite Hf1].
  apply ReadFile_ok in Hrd as [_ Hdata].
  apply bind_inv in Hr as [([] & w2 & Hm & Hr)|(e & Hm & ->)]; apply materialize_effect in Hm as [Hfr Hm]; [|done| |done];
    rewrite Hf1 in Hfr.
  - inv_run Hr. split; [done|]. destruct Hm as [Hd Hacc]. by exists data.
  - split; [done|]. by rewrite Hm, Hf1.
Qed.

(** The watcher of the config and the syncer of the binary share the binary and
    nothing else. *)
Record startup_apart (fw : FileWatcher) (s : BinarySyncer) : Prop := {
  sa_watcher : apart fw;
  sa_syncer : sy_apart s;
  sa_tester : fw_testConfig fw = Some (sy_runtimePath s);
  sa_source : fw_sourcePath fw ≠ fw_runtimePath fw ∧ fw_sourcePath fw ∉ fw_files fw ∧
    ¬ install_files (sy_runtimePath s) (fw_sourcePath fw);
  sa_image : sy_imagePath s ≠ fw_runtimePath fw ∧ sy_imagePath s ∉ fw_files fw;
  sa_config : ¬ install_files (sy_runtimePath s) (fw_runtimePath fw)
}.

Lemma ApplyInitialConfig_sound fw s seed w fw' seed' w' :
  startup_apart fw s → ApplyInitialConfig fw s seed w = (Ok (fw', seed'), w') →
  accepted_by (sy_runtimePath s) (fw_runtimePath fw) w' ∧
  (∃ data, fw' = with_lastApplied data fw ∧ f_Data <$> o_files w !! fw_sourcePath fw = Some data ∧
    f_Data <$> o_files w' !! fw_runtimePath fw = Some data) ∧
  ((seed' = seed ∧ o_files w' !! sy_runtimePath s = o_files w !! sy_runtimePath s) ∨
   (seed' = None ∧ image_installed s w w' ∧ BinaryStale (o_metrics w') = 1)).
Proof.
  intros [Ha Hs Ht (Hsrc1 & Hsrc2 & Hsrc3) [Himg1 Himg2] Hcfg] Hr. unfold ApplyInitialConfig in Hr.
  destruct (proj2 Ha _ Ht) as [Hb1 Hb2].
  apply bind_inv in Hr as [(ap & w1 & Hc & Hr)|(e & Hc & ?)]; [|done]. apply try_inv in Hc as (? & [= <-] & Hc).
  apply ApplyInitial_effect in Hc as [Hfr Hc]; [|done]. destruct ap as [fw1|e].
  { inv_run Hr. destruct Hc as (data & -> & Hd & Hd' & Hacc). split_and!; [by apply Hacc|by exists data|]. left. by rewrite Hfr. }
  apply bind_inv in Hr as [(rv & w2 & Hv & Hr)|(e' & Hv & ?)]; [|done]. apply try_inv in Hv as (? & [= <-] & Hv).
  apply RevertToImage_effect in Hv as [Hfr2 Hv]; [|done]. destruct rv as [[]|e']; [|by inv_run Hr..].
  apply bind_inv in Hr as [([] & w3 & Hst & Hr)|(e' & Hst & ?)]; [|done].
  unfold BinaryStale_Set, modify in Hst. injection Hst as <-.
  apply bind_inv in Hr as [(fw2 & w4 & Hc' & Hr)|(e' & Hc' & ?)]; [|done]. inv_run Hr.
  assert (quiet (ApplyInitial fw)) as Hq.
  { unfold ApplyInitial, materialize. pose proof (quiet_stage fw). keep. }
  destruct (Hq _ _ _ Hc') as [Hm _ _ _ _].
  apply ApplyInitial_effect in Hc' as [Hfr3 Hc']; [|done]. simpl in *.
  destruct Hc' as (data & -> & Hd & Hd' & Hacc). rewrite Hfr2, Hfr in Hd by done.
  split_and!; [by apply Hacc|by exists data|]. right. split_and!; [done| |by rewrite Hm].
  destruct Hv as (fi & f & Hfi & Hf & ?). exists fi, f. rewrite Hfr3 by done. by rewrite Hfr in Hfi.
Qed.

(** When the wrapper is allowed to start pg_doorman, the runtime config is
    the mounted one and the binary about to run accepts it; the installed binary
    is the one of the earlier startup step, with the watcher's seed unchanged, or
    else the image binary, with a nil seed (so that the watcher applies the
    desired binary again) and the stale gauge raised. *)
Theorem ApplyInitialConfig_accepted fw s seed w fw' seed' w' :
  startup_apart fw s → ApplyInitialConfig fw s seed w = (Ok (fw', seed'), w') →
  accepted_by (sy_runtimePath s) (fw_runtimePath fw) w' ∧
  (∃ data, fw' = with_lastApplied data fw ∧ f_Data <$> o_files w !! fw_sourcePath fw = Some data ∧
    f_Data <$> o_files w' !! fw_runtimePath fw = Some data) ∧
  ((seed' = seed ∧ o_files w' !! sy_runtimePath s = o_files w !! sy_runtimePath s) ∨
   (seed' = None ∧ image_installed s w w' ∧ BinaryStale (o_metrics w') = 1)).
Proof. apply ApplyInitialConfig_sound. Qed.
End lemmas.

(** ** Examples *)
Definition spec_for (digest : string) : BinarySpec :=
  {| bs_URL := "https://plugin/binary"; bs_SHA256 := {[ "amd64" := digest ]}; bs_CABundle := "ca" |}.
(** The document that asks for [v2]. *)
Definition wants_v2 : string := Eval vm_compute in marshal_spec (spec_for (Sum256 "v2")).
Definition example_spec_path : string := "/etc/pg-doorman-config/binary.json".
Definition example_syncer : BinarySyncer :=
  {| sy_specPath := example_spec_path; sy_imagePath := ImageBinaryPath; sy_runtimePath := RuntimeBinaryPath; sy_arch := "amd64" |}.
Definition answer (body : string) (broken : bool) : res response :=
  Ok {| rs_StatusCode := 200; rs_Status := "200 OK"; rs_ContentLength := -1; rs_Body := body; rs_Broken := broken |}.
(** A starting pod: nothing installed yet. *)
Definition starting_os (spec mounted : string) (network : list (res response)) : os :=
  Os {[ ConfigSourcePath := File mounted 420; example_spec_path := File spec 420; ImageBinaryPath := File "v1" 493 ]}
     {[ "/tmp"; "/tmp/bin" ]} [] ["a"; "b"] network zero_metrics 0 [] [] idle_process.

#[local] Instance bx_crypto : Crypto := example_crypto.
#[local] Instance bx_binary : PgDoormanBinary := example_binary.

Lemma temp_name_prefix dest k :
  temp_name dest k → String.prefix (Dir dest +:+ "/" +:+ tmp_prefix) k = true.
Proof.
  intros [s ->]. rewrite <- !app_string_assoc. generalize ((Dir dest +:+ "/") +:+ tmp_prefix). intros p.
  induction p as [|c p IH]; [by destruct s|]. change (String c p +:+ s) with (String c (p +:+ s)). cbn.
  by destruct (Ascii.ascii_dec c c).
Qed.

Lemma bx_apart : sy_apart example_syncer.
Proof.
  split; [|intros [H|H]; [by apply (bool_decide_eq_true_2 _) in H; vm_compute in H|]; revert H].
  - intros H%temp_name_prefix. vm_compute in H. done.
  - intros H%temp_name_prefix. vm_compute in H. done.
Qed.
Lemma bx_startup : startup_apart example_fw example_syncer.
Proof.
  split; try (repeat split; apply (bool_decide_eq_true_1 _); vm_compute; reflexivity).
  - exact fx_apart.
  - exact bx_apart.
  - split_and!; try (apply (bool_decide_eq_true_1 _); vm_compute; reflexivity).
    intros [H|H]; [by apply (bool_decide_eq_true_2 _) in H; vm_compute in H|].
    apply temp_name_prefix in H. vm_compute in H. done.
  - intros [H|H]; [by apply (bool_decide_eq_true_2 _) in H; vm_compute in H|].
    apply temp_name_prefix in H. vm_compute in H. done.
Qed.

(** The spec asks for [v2] and the endpoint serves it. *)
Lemma EnsureAtStartup_correct_witness :
  let w := starting_os wants_v2 "cfg1" [answer "v2" false] in
  let w' := (EnsureAtStartup example_syncer w).2 in
  o_files w' !! RuntimeBinaryPath = Some (File "v2" 493) ∧
  ensured example_syncer w (Ok (Some wants_v2)) w'.
Proof.
  intros w w'. split; [vm_compute; reflexivity|].
  apply (EnsureAtStartup_correct example_syncer w _ w' bx_apart). vm_compute. reflexivity.
Defined.

(** The endpoint serves something else: the pod starts on the image binary. *)
Lemma download_mismatch_example :
  let w := starting_os wants_v2 "cfg1" [answer "v666" false] in
  let '(r, w') := EnsureAtStartup example_syncer w in
  r = Ok None ∧ o_files w' !! RuntimeBinaryPath = Some (File "v1" 493) ∧ BinaryStale (o_metrics w') = 1 ∧
  size (o_files w') = 4%nat.
Proof. vm_compute. split_and!; reflexivity. Qed.

(** A spec that names no digest for this machine is handed to the watcher as
    applied although the pod runs the image binary. *)
Lemma unusable_spec_seed_example :
  let '(r, w') := EnsureAtStartup example_syncer (starting_os "not json" "cfg1" []) in
  r = Ok (Some "not json") ∧ o_files w' !! RuntimeBinaryPath = Some (File "v1" 493).
Proof. vm_compute. split; reflexivity. Qed.

(** [v2], installed as the spec asks, rejects the mounted config: back to [v1]. *)
Lemma ApplyInitialConfig_accepted_witness :
  let w := (EnsureAtStartup example_syncer (starting_os wants_v2 "cfg1" [answer "v2" false])).2 in
  let w' := (ApplyInitialConfig example_fw example_syncer (Some wants_v2) w).2 in
  o_files w' !! RuntimeBinaryPath = Some (File "v1" 493) ∧
  accepted_by RuntimeBinaryPath RuntimeConfigPath w'.
Proof.
  intros w w'. split; [vm_compute; reflexivity|].
  apply (ApplyInitialConfig_accepted example_fw example_syncer (Some wants_v2) w example_fw None w' bx_startup).
  vm_compute. reflexivity.
Defined.
