(* ===== verification/Binaries.v ===== *)
(** * The delivery endpoint (internal/binaries/binaries.go, cmd/plugin/plugin.go)

    The plugin hashes the binaries of its image into the spec it publishes and
    serves them to the wrappers.  The file ends with the delivery from one end to
    the other: from the binaries of the plugin image, over the published spec
    and the endpoint, to the binary a starting pod installs. *)
From S2P Require Import Prelude GoStd Sha256 Json Paths ConfigGen DoormanConfig Os WrapperFiles FileWatcher BinarySync.
From stdpp Require Import options.
Open Scope Z_scope.

Definition DefaultDir : string := "/binaries".
Definition binary_path (dir arch : string) : string := Join (Join dir arch) "pg_doorman".

(** One entry of the directory. *)
Definition add_binary (dir : string) (manifest : gmap string string) (entry : string * bool)
    : M os (gmap string string) :=
  let '(name, is_dir) := entry in
  if negb is_dir then mret manifest
  else
    let path := binary_path dir name in
    sum ← try_ (FileSHA256 path);
    match sum with
    | Err e => if is_not_exist e then mret manifest else throw (Wrapf "hashing %s: %w" [path] e)
    | Ok sum => mret (<[name := sum]> manifest)
    end.

(** [LoadManifest]: [None] is nil. *)
Definition LoadManifest (dir : string) : M os (option (gmap string string)) :=
  entries ← try_ (ReadDir dir);
  match entries with
  | Err e => if is_not_exist e then mret None else throw e
  | Ok entries =>
      manifest ← foldMW (add_binary dir) ∅ entries;
      mret (if decide (manifest = ∅) then None else Some manifest)
  end.

(** [loadBinarySpec] (plugin.go). *)
Definition loadBinarySpec (baseURL caFile : string) : M os (option BinarySpec) :=
  manifest ← LoadManifest DefaultDir;
  match manifest with
  | None => mret None
  | Some manifest =>
      if decide (baseURL = "") then mret None
      else if decide (caFile = "") then mret (Some {| bs_URL := baseURL; bs_SHA256 := manifest; bs_CABundle := "" |})
      else
        ca ← try_ (ReadFile caFile);
        match ca with
        | Err e => throw (Wrapf "reading binary CA bundle: %w" [] e)
        | Ok ca => mret (Some {| bs_URL := baseURL; bs_SHA256 := manifest; bs_CABundle := ca |})
        end
  end.

(** ** The server *)

Record Server : Type := { s_Dir : string; s_Addr : string; s_CertPath : string; s_KeyPath : string }.

(** The server [RunE] adds to the manager, when delivery is on. *)
Definition delivery_server (spec : option BinarySpec) (addr cert key : string) : option Server :=
  match spec with
  | Some _ => if decide (addr = "" ∨ addr = "0") then None
              else Some {| s_Dir := DefaultDir; s_Addr := addr; s_CertPath := cert; s_KeyPath := key |}
  | None => None
  end.

Definition http_reply (status : Z) (text body : string) : response :=
  {| rs_StatusCode := status; rs_Status := Itoa status +:+ " " +:+ text;
     rs_ContentLength := Z.of_nat (String.length body); rs_Body := body; rs_Broken := false |}.
Definition not_found : response := http_reply 404 "Not Found" ("404 page not found" +:+ bytes [10]).

Section server.
  (** What net/http answers for a directory. *)
  Variable dir_page : string → os → response.

(** [http.ServeFile] of a plain GET. *)
Definition ServeFile (path : string) : M os response :=
  data ← try_ (ReadFile path);
  match data with
  | Ok data => mret (http_reply 200 "OK" data)
  | Err e =>
      if is_not_exist e then mret not_found
      else
        w ← gets id;
        mret (if decide (path ∈ o_dirs w) then dir_page path w
              else http_reply 500 "Internal Server Error" ("500 Internal Server Error" +:+ bytes [10]))
  end.

(** The handler, given the path value of [{arch}]. *)
Definition serve_binary (s : Server) (arch : string) : M os response :=
  if ContainsAny arch "/\." then mret not_found
  else ServeFile (binary_path (s_Dir s) arch).

(** The pattern [GET /binaries/{arch}] on a path without escapes. *)
Definition binaries_route (path : string) : option string :=
  arch ← strip_prefix "/binaries/" path;
  if decide (arch = "" ∨ "/"%char ∈ chars arch) then None else Some arch.
Definition handle_get (s : Server) (path : string) : M os response :=
  match binaries_route path with
  | Some arch => serve_binary s arch
  | None => mret not_found
  end.
End server.

(** ** The manifest *)

(** A directory other than the root and the working directory, in clean form. *)
Definition plain_dir (dir : string) : Prop := dir ≠ "." ∧ dir ≠ "/" ∧ dir ≠ "".
Definition file_name (name : string) : Prop := name ≠ "" ∧ "/"%char ∉ chars name.
Definition digest_at (w : os) (path : string) : option string := Sum256 ∘ f_Data <$> o_files w !! path.
(** The image carries a binary for [arch], with digest [d]. *)
Definition carries (dir : string) (w : os) (arch d : string) : Prop :=
  dir ∈ o_dirs w ∧ Join dir arch ∈ o_dirs w ∧ file_name arch ∧ digest_at w (binary_path dir arch) = Some d.

(** Files and directories are only read. *)
Record reads_only (w w' : os) : Prop := { ro_files : o_files w' = o_files w; ro_dirs : o_dirs w' = o_dirs w }.
#[export] Instance reads_only_preorder : PreOrder reads_only.
Proof. split; [by split|]. intros w1 w2 w3 [] []. split; congruence. Qed.

Lemma reads_only_call {A} (f : os → res A) : keeps_rel reads_only (plain_call (λ w, (f w, w))).
Proof. apply keeps_syscall; [apply _|by split|done|done]. Qed.
Lemma ReadFile_reads_only path : keeps_rel reads_only (ReadFile path).
Proof. apply reads_only_call. Qed.
Lemma ReadDir_reads_only dir : keeps_rel reads_only (ReadDir dir).
Proof. apply reads_only_call. Qed.
#[local] Hint Resolve ReadFile_reads_only ReadDir_reads_only : frames.
Lemma add_binary_reads_only dir m e : keeps_rel reads_only (add_binary dir m e).
Proof. unfold add_binary, FileSHA256. keep. Qed.
#[local] Hint Resolve add_binary_reads_only : frames.

(** A call that only reads says what the files say, when it says anything. *)
Lemma plain_call_inv {A} (f : os → res A) w r w' :
  (∀ fs w, f (set_faults fs w) = f w) →
  plain_call (λ w, (f w, w)) w = (r, w') → (r = Err (ExtErr "io") ∧ o_faults w ≠ []) ∨ r = f w.
Proof.
  intros Hf. unfold plain_call, syscall. destruct (o_faults w) as [|[n|] fs]; intros [= <- <-]; auto.
Qed.
Lemma FileSHA256_cases path w r w' :
  FileSHA256 path w = (r, w') →
  match r with
  | Ok d => digest_at w path = Some d
  | Err e => if is_not_exist e then o_files w !! path = None else True
  end.
Proof.
  intros Hr. unfold FileSHA256 in Hr. apply bind_inv in Hr as [(data & w1 & Hc & Hr)|(e & Hc & ->)].
  - inv_run Hr. apply plain_call_inv in Hc as [[? _]|Hc]; [done| |done]. unfold digest_at.
    destruct (o_files w !! path); [|done]. by injection Hc as ->.
  - destruct (is_not_exist e) eqn:He; [|done]. apply plain_call_inv in Hc as [[[= ->] _]|Hc]; [done| |done].
    by destruct (o_files w !! path).
Qed.

Lemma add_binaries dir l m0 w r w' :
  foldMW (add_binary dir) m0 l w = (r, w') → reads_only w w' ∧
  ∀ m, r = Ok m → ∀ arch d, m !! arch = Some d ↔
    ((arch, true) ∈ l ∧ digest_at w (binary_path dir arch) = Some d) ∨
    (¬ ((arch, true) ∈ l ∧ is_Some (digest_at w (binary_path dir arch))) ∧ m0 !! arch = Some d).
Proof.
  revert m0 w. induction l as [|[name is_dir] l IH]; intros m0 w Hr.
  { injection Hr as <- <-. split; [done|]. intros m [= <-] arch d. set_solver. }
  apply bind_inv in Hr as [(m1 & w1 & Hc & Hr)|(e & Hc & ->)]; [|split; [by eapply add_binary_reads_only|done]].
  pose proof (add_binary_reads_only _ _ _ _ _ _ Hc) as Hro. apply IH in Hr as [Hro' Hr].
  split; [by etrans|]. intros m -> arch d. rewrite (Hr m eq_refl). clear Hr IH.
  assert (digest_at w1 = digest_at w) as -> by (unfold digest_at; by rewrite (ro_files _ _ Hro)).
  assert (∀ b, (arch, true) ∈ (name, b) :: l ↔ (arch = name ∧ b = true) ∨ (arch, true) ∈ l) as Hin.
  { intros b. rewrite elem_of_cons. naive_solver. }
  unfold add_binary in Hc. destruct is_dir; cbn [negb] in Hc; cbv iota in Hc.
  2: { inv_run Hc. rewrite Hin. naive_solver. }
  apply bind_inv in Hc as [(sum & w2 & Hs & Hc)|(e & Hs & ?)]; [|done]. apply try_inv in Hs as (? & [= <-] & Hs).
  apply FileSHA256_cases in Hs. rewrite Hin. destruct sum as [d'|e].
  - inv_run Hc. destruct (decide (arch = name)) as [->|Hne].
    + rewrite lookup_insert_eq, Hs. assert (is_Some (Some d')) by eauto.
      destruct (decide ((name, true) ∈ l)); naive_solver.
    + rewrite lookup_insert_ne by done. naive_solver.
  - destruct (is_not_exist e); [|by inv_run Hc]. inv_run Hc. unfold digest_at in *.
    destruct (decide (arch = name)) as [->|Hne]; [rewrite Hs|]; naive_solver.
Qed.

Lemma child_spec dir path name :
  dir ≠ "/" → child dir path = Some name ↔ path = dir +:+ "/" +:+ name ∧ file_name name.
Proof.
  intros Hd. unfold child. rewrite decide_False by done.
  destruct (strip_prefix (dir +:+ "/") path) as [n|] eqn:Hs; simpl.
  - apply strip_prefix_spec in Hs as ->. unfold file_name. case_decide; rewrite app_string_assoc; split.
    + done.
    + intros [Hp ?]. apply (inj (String.append _)) in Hp. apply (inj (String.append _)) in Hp. naive_solver.
    + intros [= ->]. tauto.
    + intros [Hp ?]. apply (inj (String.append _)) in Hp. apply (inj (String.append _)) in Hp. by subst.
  - split; [done|]. intros [-> _]. rewrite <- app_string_assoc in Hs. by rewrite (proj2 (strip_prefix_spec _ _ name) eq_refl) in Hs.
Qed.

Lemma ReadDir_entry dir w name :
  plain_dir dir →
  (name, true) ∈ (λ name, (name, bool_decide (Join dir name ∈ o_dirs w))) <$> children dir w ↔
  file_name name ∧ Join dir name ∈ o_dirs w.
Proof.
  intros (Hd1 & Hd2 & _). rewrite list_elem_of_fmap. split.
  - intros (n & [= -> Hb] & Hn). symmetry in Hb. apply bool_decide_eq_true in Hb. split; [|done].
    unfold children in Hn. rewrite sort_strings_perm in Hn. apply elem_of_remove_dups, list_elem_of_omap in Hn as (p & _ & Hp).
    by apply child_spec in Hp as [_ ?].
  - intros [Hn Hj]. exists name. split; [by rewrite bool_decide_eq_true_2|]. unfold children.
    rewrite sort_strings_perm. apply elem_of_remove_dups, list_elem_of_omap. exists (Join dir name). split.
    + apply elem_of_app. left. by apply elem_of_elements.
    + apply child_spec; [done|]. split; [|done]. unfold Join. by rewrite !decide_False.
Qed.

(** ** Without failing calls *)
Lemma FileSHA256_runs path w :
  o_faults w = [] →
  FileSHA256 path w = (match digest_at w path with Some d => Ok d | None => Err (no_file path w) end, w).
Proof.
  intros Hf. unfold FileSHA256, ReadFile, plain_call, digest_at, mbind, M_bind. rewrite no_fault by done.
  by destruct (o_files w !! path).
Qed.
Lemma add_binary_err dir m entry w e w' :
  o_faults w = [] → add_binary dir m entry w = (Err e, w') →
  entry.2 = true ∧ o_files w !! binary_path dir entry.1 = None ∧ binary_path dir entry.1 ∈ o_dirs w.
Proof.
  intros Hf Hr. unfold add_binary in Hr. destruct entry as [name []]; cbn [negb] in Hr; cbv iota in Hr; [|done].
  unfold try_, mbind, M_bind in Hr. rewrite FileSHA256_runs in Hr by done. unfold digest_at in Hr.
  destruct (o_files w !! binary_path dir name) eqn:Hn; [done|]. simpl in Hr. unfold no_file in Hr.
  case_decide; [by auto|]. done.
Qed.
Lemma add_binary_world dir m entry w m' w' : o_faults w = [] → add_binary dir m entry w = (Ok m', w') → w' = w.
Proof.
  intros Hf Hr. unfold add_binary in Hr. destruct entry as [name []]; cbn [negb] in Hr; cbv iota in Hr; [|by injection Hr].
  unfold try_, mbind, M_bind in Hr. rewrite FileSHA256_runs in Hr by done.
  destruct (digest_at _ _); [by injection Hr|]. by destruct (is_not_exist _); injection Hr.
Qed.
Lemma add_binaries_err dir l m w e w' :
  o_faults w = [] → foldMW (add_binary dir) m l w = (Err e, w') →
  ∃ arch, (arch, true) ∈ l ∧ o_files w !! binary_path dir arch = None ∧ binary_path dir arch ∈ o_dirs w.
Proof.
  intros Hf. revert m. induction l as [|[name b] l IH]; intros m Hr; [done|].
  apply bind_inv in Hr as [(m1 & w1 & Hc & Hr)|(e' & Hc & ?)].
  - apply add_binary_world in Hc as ->; [|done]. apply IH in Hr as (arch & ? & ?). exists arch. split; [by right|done].
  - apply add_binary_err in Hc as (Hb & Hc); [|done]. simpl in Hb, Hc. subst b. exists name. split; [left|done].
Qed.

(** What the plugin publishes is what its image carries: a digest is listed for
    an architecture exactly when there is a binary with that digest, delivery is
    off exactly when there is none, and nothing is written. An error is either a
    failing call or a binary that cannot be read. *)
Lemma LoadManifest_spec dir w r w' :
  plain_dir dir → LoadManifest dir w = (r, w') →
  o_files w' = o_files w ∧
  match r with
  | Ok (Some m) => m ≠ ∅ ∧ ∀ arch d, m !! arch = Some d ↔ carries dir w arch d
  | Ok None => ∀ arch d, ¬ carries dir w arch d
  | Err _ => o_faults w ≠ [] ∨ (dir ∉ o_dirs w ∧ is_Some (o_files w !! dir)) ∨
      ∃ arch, Join dir arch ∈ o_dirs w ∧ o_files w !! binary_path dir arch = None ∧ binary_path dir arch ∈ o_dirs w
  end.
Proof.
  intros Hd Hr. unfold LoadManifest in Hr.
  apply bind_inv in Hr as [(rd & w1 & Hc & Hr)|(e & Hc & ?)]; apply try_inv in Hc as (? & [= <-] & Hc).
  pose proof (ReadDir_reads_only _ _ _ _ Hc) as [Hf1 Hd1]. unfold ReadDir in Hc.
  assert (o_faults w = [] → w1 = w) as Hw by (intros Hnf; unfold plain_call in Hc; rewrite no_fault in Hc by done; congruence).
  apply plain_call_inv in Hc as [[-> Hno]|Hc]; [| |done].
  { simpl in Hr. inv_run Hr. by auto. }
  assert (∀ arch d, ¬ dir ∈ o_dirs w → ¬ carries dir w arch d) as Hnone by (unfold carries; tauto).
  case_decide as Hdir.
  2: { destruct (o_files w !! dir) eqn:Hfile; subst rd; simpl in Hr; inv_run Hr; (split; [done|]); [eauto|by auto]. }
  subst rd. cbv iota in Hr.
  apply bind_inv in Hr as [(m & w2 & Hc & Hr)|(e & Hc & ->)].
  - pose proof (add_binaries _ _ _ _ _ _ Hc) as [[Hf2 _] Hm]. specialize (Hm m eq_refl).
    assert (∀ arch d, m !! arch = Some d ↔ carries dir w arch d) as Hm'.
    { intros arch d. rewrite Hm, ReadDir_entry by done. unfold digest_at, carries. rewrite Hf1, lookup_empty. naive_solver. }
    unfold mret, M_ret in Hr. injection Hr as <- <-. split; [by rewrite Hf2|]. case_decide as He.
    + intros arch d. rewrite <- Hm', He. by rewrite lookup_empty.
    + done.
  - pose proof (add_binaries _ _ _ _ _ _ Hc) as [[Hf2 _] _]. split; [by rewrite Hf2|].
    destruct (o_faults w) eqn:Hnf; [|by left]. right; right. rewrite <- Hw in Hc by done.
    assert (w1 = w) as -> by auto. apply add_binaries_err in Hc as (arch & Hin & Hno & Hdir'); [|done].
    apply ReadDir_entry in Hin as [_ Hin]; [|done]. eauto.
Qed.

(** The spec the plugin publishes: delivery is on exactly when there is a base URL
    and a binary, and then the spec is the base URL, the digests of the binaries
    of the image, and the content of the CA file when there is one. *)
Definition loaded (baseURL caFile : string) (w : os) (spec : option BinarySpec) : Prop :=
  match spec with
  | None => baseURL = "" ∨ ∀ arch d, ¬ carries DefaultDir w arch d
  | Some spec =>
      bs_URL spec = baseURL ∧ baseURL ≠ "" ∧ bs_SHA256 spec ≠ ∅ ∧
      (∀ arch d, bs_SHA256 spec !! arch = Some d ↔ carries DefaultDir w arch d) ∧
      if decide (caFile = "") then bs_CABundle spec = ""
      else f_Data <$> o_files w !! caFile = Some (bs_CABundle spec)
  end.
Lemma DefaultDir_plain : plain_dir DefaultDir.
Proof. done. Qed.
Lemma loadBinarySpec_spec baseURL caFile w r w' :
  loadBinarySpec baseURL caFile w = (r, w') →
  o_files w' = o_files w ∧ ∀ spec, r = Ok spec → loaded baseURL caFile w spec.
Proof.
  intros Hr. unfold loadBinarySpec in Hr. apply bind_inv in Hr as [(m & w1 & Hc & Hr)|(e & Hc & ->)];
    apply LoadManifest_spec in Hc as [Hf Hm]; [|done| |done].
  2: { split; [done|]. by intros. }
  destruct m as [m|]; [|injection Hr as <- <-; split; [done|]; intros spec [= <-]; by right].
  case_decide as Hu; [injection Hr as <- <-; split; [done|]; intros spec [= <-]; by left|].
  destruct Hm as [Hne Hm]. case_decide as Hca.
  { injection Hr as <- <-. split; [done|]. intros spec [= <-]. simpl. split_and!; [done..|]. by rewrite decide_True. }
  apply bind_inv in Hr as [(ca & w2 & Hrd & Hr)|(e & Hrd & ?)]; apply try_inv in Hrd as (? & [= <-] & Hrd).
  pose proof (ReadFile_reads_only _ _ _ _ Hrd) as [Hf2 _]. destruct ca as [ca|e].
  - injection Hr as <- <-. split; [congruence|]. intros spec [= <-]. simpl. split_and!; [done..|].
    rewrite decide_False by done. apply ReadFile_ok in Hrd as [_ Hrd]. by rewrite <- Hf.
  - injection Hr as <- <-. split; [congruence|]. by intros.
Qed.

(** C23 — What the plugin publishes is what its image carries: delivery is off exactly
    when there is no base URL or no binary, and otherwise the spec lists a digest
    for an architecture exactly when the image has a binary with that digest,
    with the base URL, and the content of the CA file when there is one;
    nothing is written. *)
Theorem loadBinarySpec_correct baseURL caFile w r w' :
  loadBinarySpec baseURL caFile w = (r, w') →
  o_files w' = o_files w ∧ ∀ spec, r = Ok spec → loaded baseURL caFile w spec.
Proof. apply loadBinarySpec_spec. Qed.

(** ** The endpoint *)
Lemma ContainsAny_slash arch : "/"%char ∉ chars arch → ContainsAny arch "\." = false → ContainsAny arch "/\." = false.
Proof.
  induction arch as [|c arch IH]; [done|]. simpl. rewrite !orb_false_iff, !bool_decide_eq_false.
  rewrite !not_elem_of_cons. intros [? ?] [? ?]. split; [|by apply IH]. simpl in *. set_solver.
Qed.

Lemma binaries_route_app arch : file_name arch → binaries_route ("/binaries/" +:+ arch) = Some arch.
Proof.
  intros [Hn1 Hn2]. unfold binaries_route. rewrite (proj2 (strip_prefix_spec "/binaries/" _ arch) eq_refl).
  simpl. by rewrite decide_False by tauto.
Qed.

Section serving.
  #[local] Set Default Proof Using "Type*".
  Context (dir_page : string → os → response).

Lemma serve_binary_runs s arch d w :
  o_faults w = [] → ContainsAny arch "/\." = false → digest_at w (binary_path (s_Dir s) arch) = Some d →
  ∃ f, o_files w !! binary_path (s_Dir s) arch = Some f ∧ Sum256 (f_Data f) = d ∧
    serve_binary dir_page s arch w = (Ok (http_reply 200 "OK" (f_Data f)), w).
Proof.
  intros Hnf Hc (f & Hs & Hf)%fmap_Some. exists f. split_and!; [done..|].
  unfold serve_binary, ServeFile. rewrite Hc.
  rewrite (bind_run _ _ _ (Ok (f_Data f)) w); [done|]. apply no_fault_try; [done|]. by rewrite Hs.
Qed.


(** A binary of the image is served under the name of its architecture, when that
    has no dot or backslash. *)
Lemma carried_is_served s arch d w :
  o_faults w = [] → carries (s_Dir s) w arch d → ContainsAny arch "\." = false →
  ∃ data, Sum256 data = d ∧
    handle_get dir_page s ("/binaries/" +:+ arch) w = (Ok (http_reply 200 "OK" data), w).
Proof.
  intros Hnf (_ & _ & Hn & Hdig) Hc.
  destruct (serve_binary_runs s arch d w) as (f & _ & Hf & Hs); [done|apply ContainsAny_slash; [apply Hn|done]|done|].
  exists (f_Data f). split; [done|]. rewrite <- Hs. unfold handle_get. by rewrite binaries_route_app.
Qed.
End serving.

(** ** Example: a plugin image with two binaries, an empty directory and a readme *)
Definition example_plugin : os :=
  Os {[ "/binaries/amd64/pg_doorman" := File "v2" 493; "/binaries/arm64/pg_doorman" := File "v2 for arm" 493;
        "/binaries/README" := File "read me" 420; "/tls/ca.crt" := File "ca" 420 ]}
     {[ "/binaries"; "/binaries/amd64"; "/binaries/arm64"; "/binaries/empty" ]} [] [] [] zero_metrics 0 [] [] idle_process.
Definition example_url : string := "https://plugin:9091".
Definition example_loaded : BinarySpec :=
  {| bs_URL := example_url; bs_SHA256 := {[ "amd64" := Sum256 "v2"; "arm64" := Sum256 "v2 for arm" ]}; bs_CABundle := "ca" |}.
Definition example_server : Server := {| s_Dir := DefaultDir; s_Addr := ":9091"; s_CertPath := ""; s_KeyPath := "" |}.
Definition no_page (path : string) (w : os) : response := not_found.

Lemma example_loads : loadBinarySpec example_url "/tls/ca.crt" example_plugin = (Ok (Some example_loaded), example_plugin).
Proof. vm_compute. reflexivity. Qed.

Lemma loadBinarySpec_correct_witness : loaded example_url "/tls/ca.crt" example_plugin (Some example_loaded).
Proof. apply (loadBinarySpec_correct example_url "/tls/ca.crt" example_plugin (Ok (Some example_loaded)) example_plugin); [apply example_loads|done]. Defined.


(** A directory with a dot in its name is published and then refused. *)
Lemma dotted_directory_example :
  let image := set_files (<["/binaries/v1.2/pg_doorman" := File "v3" 493]> (o_files example_plugin))
                 (set_dirs ({["/binaries/v1.2"]} ∪ o_dirs example_plugin) example_plugin) in
  (m ← (LoadManifest DefaultDir image).1; Ok (map_get (default ∅ m) "v1.2")) = Ok (Sum256 "v3") ∧
  (handle_get no_page example_server "/binaries/v1.2" image).1 = Ok not_found.
Proof. vm_compute. split; reflexivity. Qed.
