(* ===== verification/Delivery.v ===== *)
(** * From the plugin image to the pod

    The parts of a delivery composed: [loadBinarySpec] hashes the binaries of the
    plugin image, [binarySpecJSON] writes the document of the rendered Secret, the
    wrapper of a starting pod parses it and downloads from the endpoint what it
    then installs. *)
From S2P Require Import Prelude GoStd Sha256 Json Paths ConfigGen DoormanConfig Kube Controller.
From S2P Require Import Os WrapperFiles FileWatcher BinarySync Binaries.
From stdpp Require Import options.
Open Scope Z_scope.

(** ** A download without failing calls *)

(** A suffix is left for the temporary file. *)
Definition free_temp (dest : string) (w : os) : Prop :=
  ∃ s, s ∈ o_temps w ∧ o_files w !! (Dir dest +:+ "/" +:+ tmp_prefix +:+ s) = None.
(** A complete answer with the content [data]. *)
Definition serves (resp : response) (data : string) : Prop :=
  rs_StatusCode resp = 200 ∧ rs_ContentLength resp ≤ maxBinaryBytes ∧ rs_Body resp = data ∧ rs_Broken resp = false ∧
  Z.of_nat (String.length data) ≤ maxBinaryBytes.

Section runs.
  #[local] Set Default Proof Using "Type*".
  Context {PB : PgDoormanBinary} {CR : Crypto}.

Lemma CreateTemp_runs dir w :
  o_faults w = [] → dir ∈ o_dirs w →
  (∃ s, s ∈ o_temps w ∧ o_files w !! (dir +:+ "/" +:+ tmp_prefix +:+ s) = None) →
  ∃ tmp, CreateTemp dir tmp_prefix w = (Ok tmp, set_files (<[tmp := File "" 384]> (o_files w)) w).
Proof using.
  intros Hnf Hd (s & Hs & Hn). unfold CreateTemp, plain_call. rewrite no_fault, decide_True by done.
  destruct (list_find _ _) as [[i s']|] eqn:Hf; [eauto|].
  apply list_find_None in Hf. rewrite Forall_forall in Hf. by destruct (Hf s Hs).
Qed.

Lemma create_download_tmp_runs dest w :
  o_faults w = [] → free_temp dest w →
  ∃ tmp w', create_download_tmp dest w = (Ok tmp, w') ∧ o_faults w' = [] ∧ Dir dest ∈ o_dirs w'.
Proof using.
  intros Hnf Hfree. unfold create_download_tmp. destruct (decide (Dir dest ∈ o_dirs w)) as [Hd|Hd].
  - destruct (CreateTemp_runs (Dir dest) w) as (tmp & Htmp); [done..|].
    erewrite (bind_run _ _ w (Ok tmp)) by (unfold try_; by rewrite Htmp). eexists _, _. by split_and!.
  - rewrite (bind_run _ _ w (Err (ENOENT (Dir dest))) w).
    2: { unfold try_, CreateTemp, plain_call. by rewrite no_fault, decide_False. }
    rewrite (bind_run _ _ w tt (set_dirs ({[Dir dest]} ∪ o_dirs w) w)).
    2: { unfold MkdirAll, plain_call. by rewrite no_fault. }
    destruct (CreateTemp_runs (Dir dest) (set_dirs ({[Dir dest]} ∪ o_dirs w) w)) as (tmp & Htmp); [done|set_solver|done|].
    rewrite Htmp. simpl. eexists _, _. split; [done|]. split; [done|]. simpl. set_solver.
Qed.

Lemma finish_install_runs tmp dest f w :
  o_faults w = [] → Dir dest ∈ o_dirs w → o_files w !! tmp = Some f →
  ∃ w', finish_install tmp dest w = (Ok (), w') ∧ o_files w' !! dest = Some (File (f_Data f) 493).
Proof using.
  intros Hnf Hd Hf. unfold finish_install.
  rewrite (bind_run _ _ w tt (set_files (<[tmp := File (f_Data f) 493]> (o_files w)) w)).
  2: { unfold Chmod, plain_call. rewrite no_fault by done. by rewrite Hf. }
  rewrite (bind_run _ _ _ tt (set_files (<[tmp := File (f_Data f) 493]> (o_files w)) w)).
  2: { unfold Sync, plain_call. by rewrite no_fault. }
  rewrite (bind_run _ _ _ tt (set_files (<[tmp := File (f_Data f) 493]> (o_files w)) w)).
  2: { unfold Close, plain_call. by rewrite no_fault. }
  rewrite (Rename_runs _ _ (File (f_Data f) 493)); [|done|apply lookup_insert_eq|done].
  eexists. split; [done|]. apply lookup_insert_eq.
Qed.

Lemma with_cleanup_result {A} tmp (body : M os A) w : (with_cleanup tmp body w).1 = (body w).1.
Proof using.
  unfold with_cleanup, try_, ignore, mbind, M_bind, lift, mret, M_ret. destruct (body w) as [r w1]. simpl.
  unfold try_. destruct (Close tmp w1) as [r1 w2]. by destruct (Remove tmp w2) as [r2 w3].
Qed.

Lemma receive_runs resp data tmp dest w :
  serves resp data → o_faults w = [] → Dir dest ∈ o_dirs w → o_files w !! tmp = Some (File "" 384) →
  ∃ w', receive resp (Sum256 data) tmp dest w = (Ok (), w') ∧ o_files w' !! dest = Some (File data 493).
Proof using.
  intros (_ & _ & Hb & Hbr & Hl) Hnf Hd Hf. unfold receive. rewrite Hb, Hbr.
  unfold limited. assert (Z.of_nat (String.length data) <=? maxBinaryBytes + 1 = true) as -> by lia. cbv zeta.
  rewrite (bind_run _ _ w tt (append_file tmp data w)).
  2: { unfold Write. by rewrite no_fault. }
  cbn [andb]. assert (maxBinaryBytes <? Z.of_nat (String.length data) = false) as -> by lia.
  rewrite decide_False by tauto. unfold append_file. rewrite Hf. simpl.
  apply (finish_install_runs tmp dest (File data 384)); [done..|]. simpl. apply lookup_insert_eq.
Qed.

(** With no failing call, an endpoint that serves [data] gets it installed. *)
Lemma Download_delivers spec data dest resp rest w :
  o_faults w = [] → httpClientFor spec = Ok () → o_network w = Ok resp :: rest → serves resp data →
  ¬ temp_name dest dest → free_temp dest w →
  ∃ w', Download spec (Sum256 data) dest w = (Ok (), w') ∧ o_files w' !! dest = Some (File data 493).
Proof.
  intros Hnf Hcl Hnet Hs Hnt Hfree. pose proof Hs as (Hst & Hlen & Hb & Hbr & Hl). unfold Download, lift.
  rewrite (bind_run _ _ w tt w) by (by rewrite Hcl).
  rewrite (bind_run _ _ w resp (set_network rest w)) by (unfold http_Do; by rewrite Hnet).
  rewrite Hst. cbn [negb Z.eqb Pos.eqb]. assert (maxBinaryBytes <? rs_ContentLength resp = false) as -> by lia.
  destruct (create_download_tmp_runs dest (set_network rest w)) as (tmp & w1 & Htmp & Hf1 & Hd1); [done..|].
  rewrite (bind_run _ _ _ tmp w1) by done.
  apply create_download_tmp_ok in Htmp as (Hname & _ & Hfiles).
  assert (dest ≠ tmp) as Hne by (by intros <-).
  destruct (receive_runs resp data tmp dest w1) as (w2 & Hr & Hd2); [done..|by rewrite Hfiles, lookup_insert_eq|].
  destruct (with_cleanup tmp (receive resp (Sum256 data) tmp dest) w1) as [r w'] eqn:Hw.
  pose proof (with_cleanup_result tmp (receive resp (Sum256 data) tmp dest) w1) as Hres. rewrite Hw, Hr in Hres.
  simpl in Hres. subst r. exists w'. split; [done|].
  apply with_cleanup_files in Hw as (w3 & Hr' & Hfr). rewrite Hr in Hr'. injection Hr' as <-. by rewrite Hfr by done.
Qed.

Lemma EnsureAtStartup_delivers s doc spec data resp rest w :
  o_faults w = [] → sy_apart s → f_Data <$> o_files w !! sy_specPath s = Some doc → ParseBinarySpec doc = Ok spec →
  map_get (bs_SHA256 spec) (sy_arch s) = Sum256 data →
  digest_at w (sy_runtimePath s) ≠ Some (Sum256 data) → digest_at w (sy_imagePath s) ≠ Some (Sum256 data) →
  httpClientFor spec = Ok () → o_network w = Ok resp :: rest → serves resp data → free_temp (sy_runtimePath s) w →
  ∃ w', EnsureAtStartup s w = (Ok (Some doc), w') ∧ o_files w' !! sy_runtimePath s = Some (File data 493) ∧
    BinaryStale (o_metrics w') = 0.
Proof.
  intros Hnf [Hnt _] (f & Hf & Hdoc)%fmap_Some Hp Hd Hrt Himg Hcl Hnet Hs Hfree. unfold EnsureAtStartup.
  rewrite (bind_run _ _ w (Ok doc) w).
  2: { apply no_fault_try; [done|]. by rewrite Hf, Hdoc. }
  rewrite (bind_run _ _ w (Some doc) w) by done. rewrite Hp. cbv zeta. rewrite Hd.
  rewrite decide_False by apply Sum256_nonempty. unfold ensure_desired.
  assert (∀ path, try_ (FileSHA256 path) w =
    (Ok (match digest_at w path with Some d => Ok d | None => Err (no_file path w) end), w)) as Hsha.
  { intros path. unfold try_. by rewrite FileSHA256_runs. }
  erewrite bind_run by apply Hsha. rewrite decide_False by (case_match; congruence).
  erewrite bind_run by apply Hsha. rewrite decide_False by (case_match; congruence).
  destruct (Download_delivers spec data (sy_runtimePath s) resp rest w) as (w' & Hw' & Hdest); [done..|].
  erewrite bind_run by (unfold try_; rewrite Hw'; reflexivity). cbv iota.
  eexists. split; [reflexivity|]. done.
Qed.

(** The plugin's image holds [binary] for [arch], small enough to be delivered. *)
Record offers (plugin : os) (arch : string) (binary : file) : Prop := {
  of_faults : o_faults plugin = [];
  of_carries : carries DefaultDir plugin arch (Sum256 (f_Data binary));
  of_arch : ContainsAny arch "\." = false;
  of_binary : o_files plugin !! binary_path DefaultDir arch = Some binary;
  of_size : Z.of_nat (String.length (f_Data binary)) ≤ maxBinaryBytes
}.
(** A pod on which [doc] is mounted and neither binary has the wanted digest. *)
Record awaits (s : BinarySyncer) (doc want : string) (w : os) : Prop := {
  aw_faults : o_faults w = [];
  aw_mounted : f_Data <$> o_files w !! sy_specPath s = Some doc;
  aw_runtime : digest_at w (sy_runtimePath s) ≠ Some want;
  aw_image : digest_at w (sy_imagePath s) ≠ Some want;
  aw_temp : free_temp (sy_runtimePath s) w
}.

End runs.

(** ** Example: the plugin of [Binaries.v] and a pod on [v1] *)
#[local] Instance dx_crypto : Crypto := example_crypto.
#[local] Instance dx_binary : PgDoormanBinary := example_binary.

Definition delivering : RenderedConfigReconciler := {| r_Recorder := false; r_Binary := Some example_loaded; r_SidecarImage := "" |}.
Definition example_doc : string := Eval vm_compute in marshal_spec example_loaded.
Definition awaiting_pod : os :=
  starting_os example_doc "cfg1" [(handle_get no_page example_server "/binaries/amd64" example_plugin).1].

