(* ===== verification/Plugin.v ===== *)
(** * The plugin command (cmd/plugin/plugin.go, main.go)

    What the command puts together: the options of the manager, the rendering
    controller with the spec it publishes, the hook server and the delivery
    endpoint.  controller-runtime itself is not modelled: each of its calls is a
    named one that works or does not. *)
From S2P Require Import Prelude GoStd Sha256 Api Specs K8s PluginConfig Paths Kube Controller.
From S2P Require Import Os WrapperFiles Binaries.
From stdpp Require Import options.
Open Scope Z_scope.

(** ** Flags *)
Record flags : Type := {
  leader_elect : bool;
  health_probe_bind_address : string;
  metrics_bind_address : string;
  binary_bind_address : string;
  binary_base_url : string;
  binary_ca_file : string;
  (* the flags of the machinery's own command *)
  plugin_path : string; server_cert : string; server_key : string; client_cert : string; server_address : string
}.
(** The defaults of the flags the command adds. *)
Definition NewCmd_defaults (path cert key client address : string) : flags := {|
  leader_elect := false; health_probe_bind_address := ":8081"; metrics_bind_address := ":8080";
  binary_bind_address := ":9091"; binary_base_url := ""; binary_ca_file := "";
  plugin_path := path; server_cert := cert; server_key := key; client_cert := client; server_address := address
|}.

(** ** The manager *)

(** A label selector that requires a key. *)
Definition secretLabelSelector (labels : gmap string string) : bool := bool_decide (is_Some (labels !! ClusterLabel)).

Record manager_options : Type := {
  mo_MetricsBindAddress : string;
  mo_HealthProbeBindAddress : string;
  mo_LeaderElection : bool;
  mo_LeaderElectionID : string;
  mo_LeaderElectionReleaseOnCancel : bool;
  mo_SecretSelector : gmap string string → bool;   (* the Secrets of the cache *)
  mo_DisableFor : list kind                        (* kinds read without the cache *)
}.
Definition options_of (f : flags) : manager_options := {|
  mo_MetricsBindAddress := metrics_bind_address f;
  mo_HealthProbeBindAddress := health_probe_bind_address f;
  mo_LeaderElection := leader_elect f;
  mo_LeaderElectionID := "pg-doorman.cnpg.io";
  mo_LeaderElectionReleaseOnCancel := true;
  mo_SecretSelector := secretLabelSelector;
  mo_DisableFor := [KRole; KRoleBinding; KService]
|}.

Record CNPGI : Type := {
  PluginPath : string; ServerCertPath : string; ServerKeyPath : string; ClientCertPath : string; ServerAddress : string
}.
Inductive runnable : Type :=
  | RenderedConfigController (r : RenderedConfigReconciler)
  | HookServer (c : CNPGI)
  | DeliveryServer (s : Server).
(** [NeedLeaderElection]; a controller needs it unless it says otherwise. *)
Definition NeedLeaderElection (x : runnable) : bool :=
  match x with
  | RenderedConfigController _ => true
  | HookServer _ | DeliveryServer _ => false
  end.

Record manager : Type := {
  mg_Options : manager_options;
  mg_Healthz : list string;
  mg_Readyz : list string;
  mg_Runnables : list runnable
}.

(** What a replica runs, leading or not. *)
Definition running (mg : manager) (leader : bool) : list runnable :=
  filter (λ x, mo_LeaderElection (mg_Options mg) && NeedLeaderElection x && negb leader = false) (mg_Runnables mg).

Section command.
  (** Whether the named call of controller-runtime works. *)
  Context (library : string → res unit).
  Context (SidecarImage : string).

Definition hook_server (f : flags) : CNPGI := {|
  PluginPath := plugin_path f; ServerCertPath := server_cert f; ServerKeyPath := server_key f;
  ClientCertPath := client_cert f; ServerAddress := server_address f
|}.

(** [RunE], up to the start of the manager. *)
Definition RunE (f : flags) : M os manager :=
  _ ← lift (library "NewManager");
  binarySpec ← loadBinarySpec (binary_base_url f) (binary_ca_file f);
  _ ← lift (library "SetupWithManager");
  let controller := {| r_Recorder := true; r_Binary := binarySpec; r_SidecarImage := SidecarImage |} in
  _ ← lift (library "AddHealthzCheck");
  _ ← lift (library "AddReadyzCheck");
  _ ← lift (library "Add");
  let server := delivery_server binarySpec (binary_bind_address f) (server_cert f) (server_key f) in
  _ ← (match server with Some _ => lift (library "Add") | None => mret () end);
  mret {| mg_Options := options_of f; mg_Healthz := ["healthz"]; mg_Readyz := ["readyz"];
          mg_Runnables := [RenderedConfigController controller; HookServer (hook_server f)] ++
            match server with Some s => [DeliveryServer s] | None => [] end |}.

Lemma RunE_inv f w mg w' :
  RunE f w = (Ok mg, w') →
  ∃ spec w1, loadBinarySpec (binary_base_url f) (binary_ca_file f) w = (Ok spec, w1) ∧ w' = w1 ∧
    mg = {| mg_Options := options_of f; mg_Healthz := ["healthz"]; mg_Readyz := ["readyz"];
            mg_Runnables := [RenderedConfigController {| r_Recorder := true; r_Binary := spec; r_SidecarImage := SidecarImage |};
                             HookServer (hook_server f)] ++
              match delivery_server spec (binary_bind_address f) (server_cert f) (server_key f) with
              | Some s => [DeliveryServer s] | None => [] end |}.
Proof.
  intros Hr. unfold RunE in Hr.
  assert (∀ A name (k : unit → M os A) w r w', (lift (library name) ≫= k) w = (Ok r, w') → k () w = (Ok r, w')) as Hlib.
  { intros A name k v r v' [([] & v1 & [= _ <-] & H)|(e & _ & ?)]%bind_inv; [exact H|done]. }
  apply Hlib in Hr. apply bind_inv in Hr as [(spec & w1 & Hl & Hr)|(e & _ & ?)]; [|done].
  do 4 apply Hlib in Hr. exists spec, w1. split; [done|].
  destruct (delivery_server _ _ _ _); [apply Hlib in Hr|apply bind_inv in Hr as [([] & w2 & [= <-] & Hr)|(e & ? & ?)]; [|done]];
    by injection Hr as <- <-.
Qed.

End command.

(** ** Example: a replica that does not lead, with and without an endpoint *)
Definition example_flags (address : string) : flags := {|
  leader_elect := true; health_probe_bind_address := ":8081"; metrics_bind_address := ":8080";
  binary_bind_address := address; binary_base_url := example_url; binary_ca_file := "/tls/ca.crt";
  plugin_path := ""; server_cert := "tls.crt"; server_key := "tls.key"; client_cert := "ca.crt"; server_address := ":9090"
|}.
Definition works (name : string) : res unit := Ok ().
Definition example_manager (address : string) : res manager * os := RunE works "img" (example_flags address) example_plugin.
Definition replica (address : string) (server : list runnable) : manager :=
  {| mg_Options := options_of (example_flags address); mg_Healthz := ["healthz"]; mg_Readyz := ["readyz"];
     mg_Runnables := [RenderedConfigController {| r_Recorder := true; r_Binary := Some example_loaded; r_SidecarImage := "img" |};
                      HookServer (hook_server (example_flags address))] ++ server |}.
Definition example_endpoint : Server :=
  {| s_Dir := DefaultDir; s_Addr := ":9091"; s_CertPath := "tls.crt"; s_KeyPath := "tls.key" |}.
Lemma example_manager_runs : example_manager ":9091" = (Ok (replica ":9091" [DeliveryServer example_endpoint]), example_plugin).
Proof. vm_compute. reflexivity. Qed.

(** The endpoint can be turned off while its address is still published: pods then
    ask an endpoint that does not exist and stay on the binary of their image. *)
Lemma published_without_endpoint_example :
  example_manager "0" = (Ok (replica "0" []), example_plugin).
Proof. vm_compute. reflexivity. Qed.
