(* ===== verification/BinaryWatcher.v ===== *)
(** * The binary watcher (internal/wrapper/binarywatcher.go)

    [check] brings the running pg_doorman to the binary the mounted spec asks
    for: download and digest check into a candidate file, a test run of the
    candidate on the current config, the swap of the executable, and only then
    the handover signal of the [Supervisor]. *)
From S2P Require Import Prelude GoStd Sha256 Paths ConfigGen DoormanConfig Os WrapperFiles FileWatcher BinarySync.
From stdpp Require Import options.
Open Scope Z_scope.

Definition binaryCandidateSuffix : string := ".next".

Record BinaryWatcher : Type := {
  bw_specPath : string;
  bw_runtimePath : string;
  bw_configPath : string;
  bw_arch : string;
  bw_lastSpec : option string   (* [None] for nil *)
}.
Definition with_lastSpec (spec : option string) (bw : BinaryWatcher) : BinaryWatcher :=
  {| bw_specPath := bw_specPath bw; bw_runtimePath := bw_runtimePath bw; bw_configPath := bw_configPath bw;
     bw_arch := bw_arch bw; bw_lastSpec := spec |}.
Definition NewBinaryWatcher (specPath goarch : string) : BinaryWatcher :=
  {| bw_specPath := specPath; bw_runtimePath := RuntimeBinaryPath; bw_configPath := RuntimeConfigPath;
     bw_arch := goarch; bw_lastSpec := None |}.
Definition Seed (bw : BinaryWatcher) (lastSpec : option string) : BinaryWatcher := with_lastSpec lastSpec bw.

(** [bytes.Equal], for which nil is the empty slice. *)
Definition bytes_Equal (a : string) (b : option string) : bool := bool_decide (a = default "" b).

Section binarywatcher.
  Context {PB : PgDoormanBinary} {CR : Crypto} {SV : Supervisor}.

(** Download and test run: the candidate is on disk, complete and accepted. *)
Definition stage_binary (bw : BinaryWatcher) (spec : BinarySpec) (desired : string) : M os unit :=
  let candidate := bw_runtimePath bw +:+ binaryCandidateSuffix in
  _ ← Download spec desired candidate;
  tested ← try_ (test_config candidate (bw_configPath bw));
  match tested with
  | Err e => _ ← ignore (Remove candidate); throw e
  | Ok _ => mret ()
  end.

(** From a spec whose digest is not the one installed on. *)
Definition upgrade_to (bw : BinaryWatcher) (data : string) (spec : BinarySpec) (desired : string) : M os BinaryWatcher :=
  _ ← BinaryStale_Set 1;
  inFlight ← UpgradeInFlight;
  if inFlight : bool then mret bw
  else
    let candidate := bw_runtimePath bw +:+ binaryCandidateSuffix in
    staged ← try_ (stage_binary bw spec desired);
    match staged with
    | Err _ => mret bw
    | Ok _ =>
        renamed ← try_ (Rename candidate (bw_runtimePath bw));
        match renamed with
        | Err _ => mret bw
        | Ok _ =>
            upgraded ← try_ Upgrade;
            match upgraded with
            | Err _ => mret bw
            | Ok _ => _ ← BinaryStale_Set 0; mret (with_lastSpec (Some data) bw)
            end
        end
    end.

Definition check (bw : BinaryWatcher) : M os BinaryWatcher :=
  read ← try_ (ReadFile (bw_specPath bw));
  match read with
  | Err _ => mret bw
  | Ok data =>
      if bytes_Equal data (bw_lastSpec bw) then mret bw
      else match ParseBinarySpec data with
      | Err _ => mret bw
      | Ok spec =>
          let desired := map_get (bs_SHA256 spec) (bw_arch bw) in
          if decide (desired = "") then mret (with_lastSpec (Some data) bw)
          else
            cur ← try_ (FileSHA256 (bw_runtimePath bw));
            if decide (cur = Ok desired) then
              _ ← BinaryStale_Set 0;
              mret (with_lastSpec (Some data) bw)
            else upgrade_to bw data spec desired
      end
  end.
End binarywatcher.

(** ** Properties *)

(** The files a check may touch: the executable, its candidate and the temporary
    files of the download. *)
Definition bw_candidate (bw : BinaryWatcher) : string := bw_runtimePath bw +:+ binaryCandidateSuffix.
Definition bw_files (bw : BinaryWatcher) (k : string) : Prop :=
  k = bw_runtimePath bw ∨ install_files (bw_candidate bw) k.
Definition bw_apart (bw : BinaryWatcher) : Prop :=
  ¬ install_files (bw_candidate bw) (bw_runtimePath bw) ∧ ¬ temp_name (bw_candidate bw) (bw_candidate bw) ∧
  ¬ bw_files bw (bw_configPath bw) ∧ ¬ bw_files bw (bw_specPath bw).

Section lemmas.
  #[local] Set Default Proof Using "Type*".
  Context {PB : PgDoormanBinary} {CR : Crypto} {SV : Supervisor} {SL : SupervisorLaws}.

(** The supervisor is asked to upgrade in a state where the swap is complete. *)
Definition swapped (bw : BinaryWatcher) (desired : string) (w : os) : Prop :=
  ∃ f, o_files w !! bw_runtimePath bw = Some f ∧ Sum256 (f_Data f) = desired ∧ f_Mode f = 493 ∧
    accepted_by (bw_runtimePath bw) (bw_configPath bw) w.

(** What a check did: nothing to the executable, or the swap and the signal. *)
Inductive bchecked (bw : BinaryWatcher) (w w' : os) : BinaryWatcher → Prop :=
  | B_idle : o_files w' = o_files w → o_metrics w' = o_metrics w → bchecked bw w w' bw
  | B_no_digest data spec : f_Data <$> o_files w !! bw_specPath bw = Some data →
      ParseBinarySpec data = Ok spec → map_get (bs_SHA256 spec) (bw_arch bw) = "" →
      o_files w' = o_files w → o_metrics w' = o_metrics w → bchecked bw w w' (with_lastSpec (Some data) bw)
  | B_current data spec f : f_Data <$> o_files w !! bw_specPath bw = Some data →
      ParseBinarySpec data = Ok spec → o_files w !! bw_runtimePath bw = Some f →
      Sum256 (f_Data f) = map_get (bs_SHA256 spec) (bw_arch bw) →
      o_files w' = o_files w → BinaryStale (o_metrics w') = 0 → bchecked bw w w' (with_lastSpec (Some data) bw)
  | B_postponed : o_files w' !! bw_runtimePath bw = o_files w !! bw_runtimePath bw →
      BinaryStale (o_metrics w') = 1 → bchecked bw w w' bw
  | B_unsignalled data spec w1 w2 e : f_Data <$> o_files w !! bw_specPath bw = Some data →
      ParseBinarySpec data = Ok spec → map_get (bs_SHA256 spec) (bw_arch bw) ≠ "" →
      (∃ w0 w0', UpgradeInFlight w0 = (Ok false, w0') ∧ o_files w0 = o_files w) →
      swapped bw (map_get (bs_SHA256 spec) (bw_arch bw)) w1 → Upgrade w1 = (Err e, w2) →
      o_files w' = o_files w1 → BinaryStale (o_metrics w') = 1 → bchecked bw w w' bw
  | B_upgraded data spec w1 w2 : f_Data <$> o_files w !! bw_specPath bw = Some data →
      ParseBinarySpec data = Ok spec → map_get (bs_SHA256 spec) (bw_arch bw) ≠ "" →
      (∃ w0 w0', UpgradeInFlight w0 = (Ok false, w0') ∧ o_files w0 = o_files w) →
      swapped bw (map_get (bs_SHA256 spec) (bw_arch bw)) w1 → Upgrade w1 = (Ok (), w2) →
      o_files w' = o_files w1 → BinaryStale (o_metrics w') = 0 → bchecked bw w w' (with_lastSpec (Some data) bw).

Lemma candidate_file bw : bw_files bw (bw_candidate bw).
Proof. right. by left. Qed.

Lemma stage_binary_effect bw spec desired w r w' :
  bw_apart bw → stage_binary bw spec desired w = (r, w') →
  (∀ k, ¬ install_files (bw_candidate bw) k → o_files w' !! k = o_files w !! k) ∧
  ∀ a, r = Ok a → ∃ data fc, o_files w' !! bw_candidate bw = Some (File data 493) ∧ Sum256 data = desired ∧
    o_files w' !! bw_configPath bw = Some fc ∧ test_accepts data (f_Data fc) = true.
Proof.
  intros (Hrt & Hct & Hcfg & _) Hr. unfold stage_binary in Hr. fold (bw_candidate bw) in Hr.
  apply bind_inv in Hr as [([] & w1 & Hd & Hr)|(e & Hd & ->)]; apply Download_effect in Hd as [Hfr Hd]; [|done| |done].
  2: { split; [done|]. by intros ? ?. }
  apply bind_inv in Hr as [(t & w2 & Ht & Hr)|(e & Ht & ->)]; apply try_inv in Ht as (? & [= <-] & Ht).
  destruct t as [[]|e].
  - inv_run Hr. apply test_config_ok in Ht as (Hf & fb & fc & Hfb & Hfc & Hacc). rewrite Hf.
    split; [done|]. intros _ _. destruct Hd as (data & Hd & Hsum). rewrite Hd in Hfb. injection Hfb as <-.
    by exists data, fc.
  - split.
    2: { intros a ->. apply bind_inv in Hr as [(? & ? & ? & Hr)|(? & ? & ?)]; [by inv_run Hr|done]. }
    intros k Hk. rewrite <- Hfr by done.
    assert (o_files w2 !! k = o_files w1 !! k) as <-.
    { eapply (framed_lookup (λ _, False)); [apply framed_test|exact Ht|tauto]. }
    apply bind_inv in Hr as [(? & w3 & Hc & Hr)|(? & Hc & ?)]; apply ignore_inv in Hc as [? [r1 Hc]]; [|done].
    inv_run Hr. eapply (framed_lookup (λ k, k = bw_candidate bw)); [by apply framed_remove|done|].
    intros ->. apply Hk. by left.
Qed.

Lemma quiet_Download spec want dest : quiet (Download spec want dest).
Proof using. unfold Download, create_download_tmp, with_cleanup, receive, finish_install. keep. Qed.
Lemma quiet_stage_binary bw spec desired : quiet (stage_binary bw spec desired).
Proof.
  pose proof quiet_Download. pose proof quiet_test. unfold stage_binary. keep_hints.
Qed.

Lemma upgrade_to_checked bw data spec w0 w r w' :
  bw_apart bw → o_files w = o_files w0 → f_Data <$> o_files w0 !! bw_specPath bw = Some data →
  ParseBinarySpec data = Ok spec → map_get (bs_SHA256 spec) (bw_arch bw) ≠ "" →
  upgrade_to bw data spec (map_get (bs_SHA256 spec) (bw_arch bw)) w = (r, w') →
  bchecked bw w0 w' (match r with Ok bw' => bw' | Err _ => bw end).
Proof.
  intros Ha Hw Hdata Hspec Hne Hr. pose proof Ha as (Hrt & Hct & Hcfg & _). unfold upgrade_to in Hr. fold (bw_candidate bw) in Hr.
  apply bind_inv in Hr as [([] & w1 & Hst & Hr)|(? & Hst & ?)]; [|done].
  unfold BinaryStale_Set, modify in Hst. injection Hst as <-.
  apply bind_inv in Hr as [(fl & w2 & Hfl & Hr)|(e & Hfl & ->)];
    destruct (UpgradeInFlight_disk _ _ _ Hfl) as (Hf2 & _ & Hm2); simpl in Hf2, Hm2.
  2: { apply B_postponed; [by rewrite Hf2, Hw|by rewrite Hm2]. }
  destruct fl; [inv_run Hr; apply B_postponed; [by rewrite Hf2, Hw|by rewrite Hm2]|].
  assert (∃ w3 w3', UpgradeInFlight w3 = (Ok false, w3') ∧ o_files w3 = o_files w0) as Hflight by (eexists _, _; by split).
  apply bind_inv in Hr as [(st & w3 & Hs & Hr)|(? & Hs & ->)]; apply try_inv in Hs as (? & [= <-] & Hs).
  destruct (quiet_stage_binary _ _ _ _ _ _ Hs) as [Hm3 _ _ _ _].
  apply stage_binary_effect in Hs as [Hfr Hs]; [|done]. rewrite Hf2, Hw in Hfr.
  destruct st as [[]|e].
  2: { inv_run Hr. apply B_postponed; [by rewrite Hfr|by rewrite Hm3, Hm2]. }
  destruct (Hs _ eq_refl) as (bin & fc & Hbin & Hsum & Hfc & Hacc). clear Hs.
  apply bind_inv in Hr as [(rn & w4 & Hs & Hr)|(? & Hs & ->)]; apply try_inv in Hs as (? & [= <-] & Hs).
  destruct (quiet_rename _ _ _ _ _ Hs) as [Hm4 _ _ _ _].
  destruct rn as [[]|e].
  2: { apply Rename_err in Hs. inv_run Hr. apply B_postponed; [by rewrite Hs, Hfr|by rewrite Hm4, Hm3, Hm2]. }
  apply Rename_ok in Hs as (f & Hf & Hw4). rewrite Hbin in Hf. injection Hf as <-.
  assert (swapped bw (map_get (bs_SHA256 spec) (bw_arch bw)) w4) as Hsw.
  { exists (File bin 493). rewrite Hw4, lookup_insert_eq. split_and!; [done..|]. exists (File bin 493), fc.
    rewrite Hw4, lookup_insert_eq. split_and!; [done| |done].
    rewrite lookup_insert_ne, lookup_delete_ne; [done| |].
    - intros Heq. apply Hcfg. rewrite <- Heq. apply candidate_file.
    - intros Heq. apply Hcfg. rewrite <- Heq. by left. }
  apply bind_inv in Hr as [(up & w5 & Hs & Hr)|(? & Hs & ->)]; apply try_inv in Hs as (? & [= <-] & Hs).
  destruct (Upgrade_disk _ _ _ Hs) as (Hf5 & _ & Hm5).
  destruct up as [[]|e].
  - unfold BinaryStale_Set in Hr. inv_run Hr. by eapply B_upgraded.
  - inv_run Hr. eapply B_unsignalled; try done. by rewrite Hm5, Hm4, Hm3, Hm2.
Qed.

Lemma check_bchecked bw w r w' :
  bw_apart bw → check bw w = (r, w') → bchecked bw w w' (match r with Ok bw' => bw' | Err _ => bw end).
Proof.
  intros Ha Hr. unfold check in Hr.
  apply bind_inv in Hr as [(rd & w1 & Hrd & Hr)|(e & Hrd & ->)]; apply try_inv in Hrd as (? & [= <-] & Hrd).
  destruct (quiet_read _ _ _ _ Hrd) as [Hm1 _ _ _ _]. pose proof (ReadFile_files _ _ _ _ Hrd) as Hf1.
  destruct rd as [data|e]; [|inv_run Hr; by apply B_idle].
  apply ReadFile_ok in Hrd as [_ Hdata].
  destruct (bytes_Equal _ _); [inv_run Hr; by apply B_idle|].
  destruct (ParseBinarySpec data) as [spec|e] eqn:Hspec; [|inv_run Hr; by apply B_idle].
  case_decide as Hd; [inv_run Hr; by eapply B_no_digest|].
  apply bind_inv in Hr as [(cur & w2 & Hc & Hr)|(e & Hc & ->)]; apply try_inv in Hc as (? & [= <-] & Hc).
  apply FileSHA256_inv in Hc as [Hf2 Hc]. rewrite Hf1 in Hf2, Hc. case_decide as Hcur.
  - unfold BinaryStale_Set in Hr. inv_run Hr. destruct (Hc _ eq_refl) as (f & Hf & Hs).
    by eapply B_current.
  - by apply (upgrade_to_checked bw data spec w w2).
Qed.

Lemma upgrade_to_frame bw data spec desired w r w' k :
  bw_apart bw → upgrade_to bw data spec desired w = (r, w') → ¬ bw_files bw k → o_files w' !! k = o_files w !! k.
Proof.
  intros Ha Hr Hk. unfold upgrade_to in Hr. fold (bw_candidate bw) in Hr.
  apply bind_inv in Hr as [([] & w1 & Hst & Hr)|(? & Hst & ?)]; [|done].
  unfold BinaryStale_Set, modify in Hst. injection Hst as <-.
  apply bind_inv in Hr as [(fl & w2 & Hfl & Hr)|(e & Hfl & ->)];
    destruct (UpgradeInFlight_disk _ _ _ Hfl) as (Hf2 & _); simpl in Hf2; [|by rewrite Hf2].
  rewrite <- Hf2. destruct fl; [by inv_run Hr|].
  apply bind_inv in Hr as [(st & w3 & Hs & Hr)|(? & Hs & ->)]; apply try_inv in Hs as (? & [= <-] & Hs).
  apply stage_binary_effect in Hs as [Hfr _]; [|done].
  rewrite <- Hfr by (intros ?; apply Hk; by right). destruct st as [[]|e]; [|by inv_run Hr].
  apply bind_inv in Hr as [(rn & w4 & Hs & Hr)|(? & Hs & ->)]; apply try_inv in Hs as (? & [= <-] & Hs).
  eapply (framed_lookup (bw_files bw) _ _ _ _ k) in Hs; [|apply framed_rename; [apply candidate_file|by left]|done].
  rewrite <- Hs. destruct rn as [[]|e]; [|by inv_run Hr].
  apply bind_inv in Hr as [(up & w5 & Hu & Hr)|(? & Hu & ->)]; apply try_inv in Hu as (? & [= <-] & Hu).
  destruct (Upgrade_disk _ _ _ Hu) as (Hf5 & _). rewrite <- Hf5.
  destruct up; unfold BinaryStale_Set in Hr; by inv_run Hr.
Qed.
Lemma check_bframe bw w r w' k :
  bw_apart bw → check bw w = (r, w') → ¬ bw_files bw k → o_files w' !! k = o_files w !! k.
Proof.
  intros Ha Hr Hk. unfold check in Hr.
  apply bind_inv in Hr as [(rd & w1 & Hrd & Hr)|(e & Hrd & ->)]; apply try_inv in Hrd as (? & [= <-] & Hrd).
  apply ReadFile_files in Hrd. rewrite <- Hrd. destruct rd as [data|e]; [|by inv_run Hr].
  destruct (bytes_Equal _ _); [by inv_run Hr|]. destruct (ParseBinarySpec data) as [spec|e]; [|by inv_run Hr].
  case_decide as Hd; [by inv_run Hr|].
  apply bind_inv in Hr as [(cur & w2 & Hc & Hr)|(e & Hc & ->)]; apply try_inv in Hc as (? & [= <-] & Hc).
  apply FileSHA256_inv in Hc as [Hf2 _]. rewrite <- Hf2. case_decide.
  - unfold BinaryStale_Set in Hr. by inv_run Hr.
  - by eapply upgrade_to_frame.
Qed.


Lemma bchecked_runtime bw w w' bw' :
  bw_apart bw → bchecked bw w w' bw' →
  o_files w' !! bw_runtimePath bw = o_files w !! bw_runtimePath bw ∨
  accepted_by (bw_runtimePath bw) (bw_configPath bw) w'.
Proof.
  intros Ha [Hf _|data spec _ _ _ Hf _|data spec f _ _ _ _ Hf _|Hf _|data spec w1 w2 e _ _ _ _ Hsw _ Hf _|data spec w1 w2 _ _ _ _ Hsw _ Hf _];
    try (left; congruence).
  all: right; destruct Hsw as (? & _ & _ & _ & fb & fc & ?); exists fb, fc; by rewrite Hf.
Qed.

Lemma check_bkeeps bw w r w' :
  bw_apart bw → accepted_by (bw_runtimePath bw) (bw_configPath bw) w → check bw w = (r, w') →
  accepted_by (bw_runtimePath bw) (bw_configPath bw) w'.
Proof.
  intros Ha (fb & fc & Hfb & Hfc & Hacc) Hr. pose proof Ha as (_ & _ & Hcfg & _).
  destruct (bchecked_runtime _ _ _ _ Ha (check_bchecked _ _ _ _ Ha Hr)) as [Hrt|]; [|done].
  exists fb, fc. by rewrite Hrt, (check_bframe _ _ _ _ _ Ha Hr Hcfg).
Qed.

(** The watcher of the binary keeps what the watcher of the config keeps: if
    the installed binary accepts the installed config before a check, it does so
    after it. *)
Theorem check_bkeeps_accepted bw w r w' :
  bw_apart bw → accepted_by (bw_runtimePath bw) (bw_configPath bw) w → check bw w = (r, w') →
  accepted_by (bw_runtimePath bw) (bw_configPath bw) w'.
Proof. apply check_bkeeps. Qed.
End lemmas.

(** ** Examples *)
#[local] Instance wx_crypto : Crypto := example_crypto.
#[local] Instance wx_binary : PgDoormanBinary := example_binary.
#[local] Instance wx_supervisor : Supervisor := recording_supervisor.
#[local] Instance wx_laws : SupervisorLaws := recording_supervisor_laws.

Definition example_bw : BinaryWatcher := NewBinaryWatcher example_spec_path "amd64".
(** A pod that runs [v1] on [runtime], while [mounted] is mounted and the spec
    asks for [v2], which the endpoint serves. *)
Definition upgrading_os (mounted runtime : string) (faults : list (option nat)) : os :=
  Os {[ ConfigSourcePath := File mounted 420; example_spec_path := File wants_v2 420; RuntimeConfigPath := File runtime 384;
        RuntimeBinaryPath := File "v1" 493; ImageBinaryPath := File "v1" 493 ]}
     {[ "/tmp"; "/tmp/bin" ]} faults ["a"; "b"] [answer "v2" false] zero_metrics 0 [] [] idle_process.

Lemma wx_apart : bw_apart example_bw.
Proof.
  assert (∀ k, String.prefix (Dir (bw_candidate example_bw) +:+ "/" +:+ tmp_prefix) k = false → k ≠ bw_candidate example_bw →
    ¬ install_files (bw_candidate example_bw) k) as Hno.
  { intros k Hk Hne [?|?%temp_name_prefix]; [done|]. congruence. }
  split_and!.
  - apply Hno; [by vm_compute|]. apply (bool_decide_eq_true_1 _). by vm_compute.
  - intros H%temp_name_prefix. vm_compute in H. done.
  - intros [H|H]; [by apply (bool_decide_eq_true_2 _) in H; vm_compute in H|]. revert H.
    apply Hno; [by vm_compute|]. apply (bool_decide_eq_true_1 _). by vm_compute.
  - intros [H|H]; [by apply (bool_decide_eq_true_2 _) in H; vm_compute in H|]. revert H.
    apply Hno; [by vm_compute|]. apply (bool_decide_eq_true_1 _). by vm_compute.
Qed.


(** The pod runs on [cfg1], which [v2] rejects: nothing is installed or left behind. *)
Lemma check_bkeeps_accepted_witness :
  let w := upgrading_os "cfg1" "cfg1" [] in
  let w' := (check example_bw w).2 in
  o_files w' = o_files w ∧ accepted_by RuntimeBinaryPath RuntimeConfigPath w'.
Proof.
  intros w w'. split; [apply (bool_decide_eq_true_1 _); vm_compute; reflexivity|].
  apply (check_bkeeps_accepted example_bw w (check example_bw w).1 w' wx_apart).
  - exists (File "v1" 493), (File "cfg1" 384). split_and!; vm_compute; reflexivity.
  - apply surjective_pairing.
Defined.

(** A supervisor whose process is gone for the moment. *)
Definition down_supervisor : Supervisor := {|
  Reload := throw (Errorf "process not running" []); Restart := throw (Errorf "process not running" []);
  Upgrade := throw (Errorf "process not running" []); UpgradeInFlight := mret false
|}.
(** The signal fails after the swap. The next check finds the wanted digest
    installed, clears the gauge and records the spec: the old binary keeps running
    and no check will signal it again. *)
Lemma unsignalled_upgrade_example :
  let '(r1, w1) := @check _ _ down_supervisor example_bw (upgrading_os "cfg2" "cfg2" []) in
  r1 = Ok example_bw ∧ BinaryStale (o_metrics w1) = 1 ∧
  let '(r2, w2) := check example_bw w1 in
  r2 = Ok (with_lastSpec (Some wants_v2) example_bw) ∧ BinaryStale (o_metrics w2) = 0 ∧ o_signals w2 = [].
Proof. vm_compute. split_and!; reflexivity. Qed.

(** The two watchers run concurrently, each testing its candidate against the
    installed file of the other. Interleaved like this, both tests pass and the
    installed pair is one the binary rejects. *)
Definition interleaved (fw : FileWatcher) (bw : BinaryWatcher) (data : string) (spec : BinarySpec) (desired : string) : M os unit :=
  _ ← stage_candidate fw data;
  _ ← stage_binary bw spec desired;
  _ ← Rename (fw_runtimePath fw +:+ CandidateSuffix) (fw_runtimePath fw);
  Rename (bw_candidate bw) (bw_runtimePath bw).
Lemma watchers_race_example :
  let '(r, w') := interleaved example_fw example_bw "cfg1" (spec_for (Sum256 "v2")) (Sum256 "v2") (upgrading_os "cfg1" "cfg2" []) in
  r = Ok () ∧ o_files w' !! RuntimeBinaryPath = Some (File "v2" 493) ∧ o_files w' !! RuntimeConfigPath = Some (File "cfg1" 384) ∧
  test_accepts "v2" "cfg1" = false.
Proof. vm_compute. split_and!; reflexivity. Qed.
