(* ===== verification/RoleWatcher.v ===== *)
(** * The role watcher (internal/wrapper/rolewatcher.go)

    [check] restarts pg_doorman when the pod's CNPG role changes from primary to
    anything else, so that clients of a demoted primary reconnect. *)
From S2P Require Import Prelude GoStd Os WrapperFiles FileWatcher.
From stdpp Require Import options.

Record RoleWatcher : Type := { rw_roleFile : string; rw_lastRole : string }.
Definition NewRoleWatcher (roleFile : string) : RoleWatcher := {| rw_roleFile := roleFile; rw_lastRole := "" |}.
Definition with_lastRole (role : string) (rw : RoleWatcher) : RoleWatcher :=
  {| rw_roleFile := rw_roleFile rw; rw_lastRole := role |}.

Section rolewatcher.
  Context {SV : Supervisor}.

Definition check (rw : RoleWatcher) : M os RoleWatcher :=
  read ← try_ (ReadFile (rw_roleFile rw));
  match read with
  | Err _ => mret rw
  | Ok data =>
      let role := TrimSpace data in
      if decide (role = "" ∨ role = rw_lastRole rw) then mret rw
      else
        let demoted := bool_decide (rw_lastRole rw = "primary" ∧ role ≠ "primary") in
        if negb demoted then mret (with_lastRole role rw)
        else
          restarted ← try_ Restart;
          match restarted with
          | Err _ => mret (with_lastRole "primary" rw)
          | Ok _ => mret (with_lastRole role rw)
          end
  end.
End rolewatcher.

(** ** Properties *)
Section lemmas.
  #[local] Set Default Proof Using "Type*".
  Context {SV : Supervisor}.

(** What a check did with the role it saw: [Some r] is a restart that ended in [r]. *)
Inductive rchecked (rw : RoleWatcher) (w w' : os) : option (res unit) → RoleWatcher → Prop :=
  | R_idle : quiet_rel w w' → rchecked rw w w' None rw
  | R_role data : f_Data <$> o_files w !! rw_roleFile rw = Some data → TrimSpace data ≠ "" →
      (rw_lastRole rw = "primary" → TrimSpace data = "primary") →
      quiet_rel w w' → rchecked rw w w' None (with_lastRole (TrimSpace data) rw)
  | R_restarted data w1 : f_Data <$> o_files w !! rw_roleFile rw = Some data → TrimSpace data ≠ "" →
      TrimSpace data ≠ "primary" → rw_lastRole rw = "primary" → quiet_rel w w1 →
      Restart w1 = (Ok (), w') → rchecked rw w w' (Some (Ok ())) (with_lastRole (TrimSpace data) rw)
  | R_failed data w1 e : f_Data <$> o_files w !! rw_roleFile rw = Some data → TrimSpace data ≠ "" →
      TrimSpace data ≠ "primary" → rw_lastRole rw = "primary" → quiet_rel w w1 →
      Restart w1 = (Err e, w') → rchecked rw w w' (Some (Err e)) rw.

Lemma check_rchecked rw w r w' :
  check rw w = (r, w') → ∃ ev rw', r = Ok rw' ∧ rchecked rw w w' ev rw'.
Proof.
  intros Hr. unfold check in Hr.
  apply bind_inv in Hr as [(rd & w1 & Hrd & Hr)|(e & Hrd & ->)]; apply try_inv in Hrd as (? & [= <-] & Hrd).
  pose proof (quiet_read _ _ _ _ Hrd) as Hq.
  destruct rd as [data|e]; [|inv_run Hr; eexists _, _; split; [done|by apply R_idle]].
  apply ReadFile_ok in Hrd as [_ Hdata].
  case_decide as Hsame; [inv_run Hr; eexists _, _; split; [done|by apply R_idle]|].
  assert (TrimSpace data ≠ "") by naive_solver.
  destruct (bool_decide _) eqn:Hdem; simpl in Hr.
  - apply bool_decide_eq_true in Hdem as [Hlast Hnew].
    apply bind_inv in Hr as [(rs & w2 & Hs & Hr)|(e & Hs & ->)]; apply try_inv in Hs as (? & [= <-] & Hs).
    destruct rs as [[]|e]; inv_run Hr; eexists _, _; (split; [done|]).
    + by eapply R_restarted.
    + replace (with_lastRole "primary" rw) with rw by (destruct rw; unfold with_lastRole; simpl in *; congruence).
      by eapply R_failed.
  - apply bool_decide_eq_false in Hdem. inv_run Hr. eexists _, _. split; [done|]. apply R_role; try done.
    intros Hl. destruct (decide (TrimSpace data = "primary")); [done|]. by destruct Hdem.
Qed.

(** Ticks, with arbitrary changes of the pod in between, and what each did. *)
Inductive role_trace (P : string → Prop) : RoleWatcher → list (option (res unit)) → RoleWatcher → Prop :=
  | T_nil rw : role_trace P rw [] rw
  | T_tick rw w r w' ev rw' evs rw'' :
      (∀ data, f_Data <$> o_files w !! rw_roleFile rw = Some data → P (TrimSpace data)) →
      check rw w = (r, w') → rchecked rw w w' ev rw' → r = Ok rw' →
      role_trace P rw' evs rw'' → role_trace P rw (ev :: evs) rw''.

(** The restarts of a trace that ended, in order. *)
Definition attempts (evs : list (option (res unit))) : list bool := is_ok <$> omap id evs.

Lemma attempts_some r evs : attempts (Some r :: evs) = is_ok r :: attempts evs.
Proof. reflexivity. Qed.

Lemma trace_not_primary P rw evs rw' :
  (∀ role, P role → role ≠ "primary") → role_trace P rw evs rw' →
  rw_lastRole rw ≠ "primary" → attempts evs = [] ∧ rw_lastRole rw' ≠ "primary".
Proof.
  intros HP Htr. induction Htr as [rw|rw w r w' ev rw1 evs rw2 Hfile Hr Hck Heq Htr IH]; intros Hl; [done|].
  destruct Hck as [Hq|data Hd Hne Himp Hq|data w1 ? ? ? ? ? ?|data w1 e ? ? ? ? ? ?]; try done; [by apply IH|].
  apply IH. simpl. by apply HP, Hfile.
Qed.

(** A check writes no file. *)
Lemma framed_check_role `{!SupervisorLaws} rw : framed (λ _, False) (check rw).
Proof. unfold check. pose proof (framed_disk (λ _, False) _ Restart_disk) as Hr. keep; exact Hr. Qed.


(** A check asks for a restart exactly when the last role was primary and the
    file now holds another one; no first reading, promotion, repeated or empty
    role restarts the pooler, and a failed restart leaves the watcher as it was. *)
Theorem check_rcorrect rw w r w' :
  check rw w = (r, w') → ∃ ev rw', r = Ok rw' ∧ rchecked rw w w' ev rw'.
Proof. apply check_rchecked. Qed.
End lemmas.

(** ** Examples *)
#[local] Instance rx_supervisor : Supervisor := recording_supervisor.
Definition role_os (role : string) : os :=
  Os {[ "/etc/podinfo/role" := File role 420 ]} ∅ [] [] [] zero_metrics 0 [] [] idle_process.
Definition primary_rw : RoleWatcher := with_lastRole "primary" (NewRoleWatcher "/etc/podinfo/role").
Definition down : Supervisor := {|
  Reload := throw ESRCH; Restart := throw ESRCH; Upgrade := throw ESRCH; UpgradeInFlight := mret false |}.

Lemma check_rcorrect_witness :
  let w := role_os ("replica" +:+ String (byte 10) "") in
  o_signals (check primary_rw w).2 = [(7%Z, SIGTERM)] ∧
  ∃ ev rw', Ok (with_lastRole "replica" primary_rw) = Ok rw' ∧ rchecked primary_rw w (check primary_rw w).2 ev rw'.
Proof.
  intros w. split; [vm_compute; reflexivity|].
  apply (check_rcorrect primary_rw w (Ok (with_lastRole "replica" primary_rw))). vm_compute. reflexivity.
Defined.

