(* ===== verification/Successor.v ===== *)
(** * Finding pg_doorman processes (internal/wrapper/successor_linux.go)

    The scan of /proc for processes that serve with a given binary: the
    successor of an upgrade, and survivors of a failed one. The scan sees one
    snapshot of /proc. *)
From S2P Require Import Prelude GoStd Os WrapperFiles.
From stdpp Require Import options.

Definition validateConfigShortFlag : string := "-t".
Definition NUL : string := String "000"%char "".

Definition readCmdline (p : proc) : option (list string) :=
  match pr_Cmdline p with
  | Some data => if decide (data = "") then None else Some (Split "000"%char (TrimSuffix data NUL))
  | None => None
  end.

Definition runsBinary (p : proc) (binaryPath : string) : bool :=
  match readCmdline p with
  | None => false
  | Some args =>
      if decide (ValidateConfigFlag ∈ args ∨ validateConfigShortFlag ∈ args) then false
      else if match pr_Exe p with
              | Some exe => bool_decide (TrimSuffix exe " (deleted)" = binaryPath)
              | None => false
              end then true
      else bool_decide (binaryPath ∈ take 2 args)
  end.

(** The pid of a /proc entry. *)
Definition proc_pid (p : proc) : option Z := Atoi (pr_Name p).
Definition alive (pid : Z) (w : os) : bool := existsb (λ p, bool_decide (proc_pid p = Some pid)) (o_procs w).

Definition ReadProc : M os (list proc) := plain_call (λ w, (Ok (o_procs w), w)).
(** [syscall.Kill] with a real signal. *)
Definition Kill (pid : Z) (sig : signal) : M os unit := plain_call (λ w,
  if alive pid w then (Ok (), set_signals (o_signals w ++ [(pid, sig)]) w) else (Err ESRCH, w)).

Section successor.
  (** The pid of the wrapper. *)
  Context (self : Z).

Definition candidate_pid (binaryPath : string) (excludePid : Z) (p : proc) : option Z :=
  match proc_pid p with
  | Some pid =>
      if decide (pid = excludePid ∨ pid = self) then None
      else if runsBinary p binaryPath then Some pid else None
  | None => None
  end.

Definition findSuccessorPid (binaryPath : string) (excludePid : Z) : M os (option Z) :=
  entries ← try_ ReadProc;
  match entries with
  | Err _ => mret None
  | Ok entries => mret (head (omap (candidate_pid binaryPath excludePid) entries))
  end.

(** The body of the loop. *)
Definition kill_step (binaryPath : string) (excludePid : Z) (killed : list Z) (p : proc) : M os (list Z) :=
  match candidate_pid binaryPath excludePid p with
  | None => mret killed
  | Some pid =>
      r ← try_ (Kill pid SIGKILL);
      match r with
      | Ok _ => mret (killed ++ [pid])
      | Err _ => mret killed
      end
  end.
Definition killStrays (binaryPath : string) (excludePid : Z) : M os (list Z) :=
  entries ← try_ ReadProc;
  match entries with
  | Err _ => mret []
  | Ok entries =>
      foldMW (kill_step binaryPath excludePid) [] entries
  end.

(** ** Properties *)

(** A process the supervisor may take for a pooler of its own. *)
Definition pooler (binaryPath : string) (pid : Z) (w : os) : Prop :=
  ∃ p, p ∈ o_procs w ∧ proc_pid p = Some pid ∧ runsBinary p binaryPath = true.

Lemma runsBinary_serving p b :
  runsBinary p b = true → ∃ args, readCmdline p = Some args ∧
    ValidateConfigFlag ∉ args ∧ validateConfigShortFlag ∉ args ∧
    (b ∈ take 2 args ∨ ∃ exe, pr_Exe p = Some exe ∧ (exe = b ∨ TrimSuffix exe " (deleted)" = b)).
Proof.
  unfold runsBinary. destruct (readCmdline p) as [args|]; [|done]. case_decide as Hv; [done|].
  intros Hr. exists args. split_and!; [done|naive_solver..|].
  destruct (pr_Exe p) as [exe|]; [|by left; apply bool_decide_eq_true in Hr].
  case_bool_decide; [right; eauto|]. left. by apply bool_decide_eq_true in Hr.
Qed.

Lemma candidate_pid_Some b ex p pid :
  candidate_pid b ex p = Some pid ↔ proc_pid p = Some pid ∧ pid ≠ ex ∧ pid ≠ self ∧ runsBinary p b = true.
Proof.
  unfold candidate_pid. destruct (proc_pid p) as [q|]; [|naive_solver]. case_decide; [naive_solver|].
  destruct (runsBinary p b) eqn:?; naive_solver.
Qed.

Lemma alive_iff pid w : alive pid w = true ↔ ∃ p, p ∈ o_procs w ∧ proc_pid p = Some pid.
Proof.
  unfold alive. rewrite existsb_exists. setoid_rewrite bool_decide_eq_true. setoid_rewrite list_elem_of_In. done.
Qed.

(** The scan: quiet, and what it returns. *)
Lemma findSuccessorPid_inv b ex w r w' :
  findSuccessorPid b ex w = (r, w') →
  quiet_rel w w' ∧ o_files w' = o_files w ∧ o_dirs w' = o_dirs w ∧ ∃ found, r = Ok found ∧
    match found with
    | Some pid => pid ≠ ex ∧ pid ≠ self ∧ pooler b pid w
    | None => o_faults w = [] → ∀ pid, pooler b pid w → pid = ex ∨ pid = self
    end.
Proof.
  intros Hr. unfold findSuccessorPid in Hr.
  apply bind_inv in Hr as [(es & w1 & Hc & Hr)|(e & Hc & ->)]; apply try_inv in Hc as (? & [= <-] & Hc).
  assert (quiet_rel w w1 ∧ o_files w1 = o_files w ∧ o_dirs w1 = o_dirs w ∧ (o_faults w = [] → ∃ l, es = Ok l) ∧
    ∀ l, es = Ok l → l = o_procs w) as (Hq & Hf & Hd & Hok & Hes).
  { revert Hc. unfold ReadProc, plain_call, syscall. destruct (o_faults w) as [|[n|] fs]; intros [= <- <-];
      split_and!; try done; eauto; naive_solver. }
  destruct es as [l|e]; inv_run Hr.
  - rewrite (Hes _ eq_refl). split_and!; try done. eexists. split; [done|].
    destruct (head _) as [pid|] eqn:Hh.
    + apply head_Some_elem_of, list_elem_of_omap in Hh as (p & Hp & (? & ? & ? & ?)%candidate_pid_Some).
      split_and!; [done..|]. by exists p.
    + intros _ pid (p & Hp & Hpid & Hrun). destruct (decide (pid = ex)); [by left|].
      destruct (decide (pid = self)); [by right|]. apply head_None in Hh.
      assert (pid ∈ omap (candidate_pid b ex) (o_procs w)) as Hin.
      { apply list_elem_of_omap. exists p. split; [done|]. by apply candidate_pid_Some. }
      rewrite Hh in Hin. set_solver.
  - split_and!; try done. eexists. split; [done|]. intros Hnf. by destruct (Hok Hnf).
Qed.

(** Only signals are sent. *)
Definition signals_only (w w' : os) : Prop :=
  o_files w' = o_files w ∧ o_dirs w' = o_dirs w ∧ o_metrics w' = o_metrics w ∧ o_process w' = o_process w ∧
  o_clock w' = o_clock w ∧ o_procs w' = o_procs w.
#[export] Instance signals_only_preorder : PreOrder signals_only.
Proof. split; [done|]. intros w1 w2 w3 (?&?&?&?&?&?) (?&?&?&?&?&?). unfold signals_only. split_and!; congruence. Qed.

Lemma Kill_inv pid sig w r w' :
  Kill pid sig w = (r, w') →
  signals_only w w' ∧
  match r with
  | Ok _ => alive pid w = true ∧ o_signals w' = o_signals w ++ [(pid, sig)]
  | Err e => o_signals w' = o_signals w ∧ (o_faults w = [] → alive pid w = false ∧ e = ESRCH)
  end ∧ (o_faults w = [] → o_faults w' = []).
Proof.
  unfold Kill, plain_call, syscall. destruct (o_faults w) as [|[n|] fs] eqn:Hfs.
  - destruct (alive pid w); intros [= <- <-]; by split_and!.
  - intros [= <- <-]; by split_and!.
  - change (alive pid (set_faults fs w)) with (alive pid w).
    destruct (alive pid w); intros [= <- <-]; by split_and!.
Qed.

(** The state of the sweep after the entries [pre]. *)
Definition swept b ex (w1 : os) (pre : list proc) (killed : list Z) (v : os) : Prop :=
  signals_only w1 v ∧ o_signals v = o_signals w1 ++ ((λ pid, (pid, SIGKILL)) <$> killed) ∧
  (∀ pid, pid ∈ killed → pid ∈ omap (candidate_pid b ex) pre) ∧
  (o_faults w1 = [] → o_faults v = [] ∧ ∀ pid, pid ∈ omap (candidate_pid b ex) pre → pid ∈ killed).

Lemma kill_step_swept b ex w1 pre p killed :
  p ∈ o_procs w1 →
  triple (swept b ex w1 pre killed) (kill_step b ex killed p)
    (λ r v, match r with Ok killed' => swept b ex w1 (pre ++ [p]) killed' v | Err _ => False end).
Proof.
  intros Hp v r0 v' (Hso & Hsg & Hk & Hall) Hrun. unfold kill_step in Hrun. unfold swept.
  rewrite omap_app. simpl. destruct (candidate_pid b ex p) as [pid|] eqn:Hcand.
  2: { inv_run Hrun. setoid_rewrite app_nil_r. by split_and!. }
  apply bind_inv in Hrun as [(x & v1 & Hc' & Hrun)|(e & Hc' & ->)]; apply try_inv in Hc' as (? & [= <-] & Hc').
  apply Kill_inv in Hc' as (Hso' & Hx & Hnf).
  assert (signals_only w1 v1) as Hso1 by (by etrans).
  assert (alive pid v = true) as Hal.
  { apply alive_iff. exists p. destruct Hso as (_&_&_&_&_&->). split; [done|].
    by apply candidate_pid_Some in Hcand as [? _]. }
  destruct x as [[]|e]; inv_run Hrun; destruct Hx as [Hx1 Hx2]; split_and!; try done.
  - by rewrite Hx2, Hsg, fmap_app, (assoc_L (++)).
  - intros q [Hq'|Hq']%elem_of_app; apply elem_of_app; [left; by apply Hk|by right].
  - intros Hw1. destruct (Hall Hw1) as [Hv Hin]. split; [by apply Hnf|].
    intros q [Hq'|Hq']%elem_of_app; apply elem_of_app; [left; by apply Hin|by right].
  - by rewrite Hx1.
  - intros q Hq'. apply elem_of_app. left. by apply Hk.
  - intros Hw1. destruct (Hall Hw1) as [Hv _]. destruct (Hx2 Hv) as [Hx _]. by rewrite Hal in Hx.
Qed.

Lemma ReadProc_inv w r w' :
  ReadProc w = (r, w') → signals_only w w' ∧ o_signals w' = o_signals w ∧
  (o_faults w = [] → r = Ok (o_procs w) ∧ o_faults w' = []) ∧ ∀ l, r = Ok l → l = o_procs w.
Proof.
  unfold ReadProc, plain_call, syscall. destruct (o_faults w) as [|[n|] fs] eqn:Hfs; intros [= <- <-];
    split_and!; try done; naive_solver.
Qed.

Lemma killStrays_inv b ex w r w' :
  killStrays b ex w = (r, w') → ∃ killed, r = Ok killed ∧ signals_only w w' ∧
    o_signals w' = o_signals w ++ ((λ pid, (pid, SIGKILL)) <$> killed) ∧
    (∀ pid, pid ∈ killed → pid ≠ ex ∧ pid ≠ self ∧ pooler b pid w) ∧
    (o_faults w = [] → ∀ pid, pooler b pid w → pid ≠ ex → pid ≠ self → pid ∈ killed).
Proof.
  intros Hr. unfold killStrays in Hr.
  apply bind_inv in Hr as [(es & w1 & Hc & Hr)|(e & Hc & ->)]; apply try_inv in Hc as (? & [= <-] & Hc).
  apply ReadProc_inv in Hc as (Hq & Hsig & Hok & Hes).
  destruct es as [l|e].
  2: { inv_run Hr. exists []. split_and!; try done; [by rewrite app_nil_r|set_solver|].
       intros Hnf. by destruct (Hok Hnf). }
  pose proof (Hes _ eq_refl) as ->. assert (o_procs w1 = o_procs w) as Hpr by apply Hq.
  assert (swept b ex w1 [] [] w1) as H0.
  { split_and!; [done|by rewrite app_nil_r|set_solver|]. intros ?. split; [done|set_solver]. }
  pose proof (triple_foldMW (swept b ex w1) (λ _ _, False) (kill_step b ex) (o_procs w) []
    (λ pre p killed Hp, kill_step_swept b ex w1 pre p killed ltac:(by rewrite Hpr)) w1 r w' H0 Hr) as Hsw.
  destruct r as [killed|]; [|done]. destruct Hsw as (Hso & Hsg & Hk & Hall).
  exists killed. split_and!; [done|by etrans|by rewrite Hsg, Hsig| |].
  - intros pid (p & Hp & (? & ? & ? & ?)%candidate_pid_Some)%Hk%list_elem_of_omap. split_and!; [done..|]. by exists p.
  - intros Hnf pid (p & Hp & Hpid & Hrun) ??. apply Hall; [by apply Hok|]. apply list_elem_of_omap. exists p.
    split; [done|]. by apply candidate_pid_Some.
Qed.

(** The sweep before a restart: it kills only live processes that serve with
    the binary, never the wrapper, the excluded process or a configuration check,
    reports exactly those it killed, and when no call fails it kills every one. *)
Theorem killStrays_correct b ex w r w' :
  killStrays b ex w = (r, w') → ∃ killed, r = Ok killed ∧ signals_only w w' ∧
    o_signals w' = o_signals w ++ ((λ pid, (pid, SIGKILL)) <$> killed) ∧
    (∀ pid, pid ∈ killed → pid ≠ ex ∧ pid ≠ self ∧ pooler b pid w) ∧
    (o_faults w = [] → ∀ pid, pooler b pid w → pid ≠ ex → pid ≠ self → pid ∈ killed).
Proof. apply killStrays_inv. Qed.
End successor.

(** ** Examples *)
Definition cmdline (args : list string) : option string := Some (String.concat "" ((λ a, a +:+ NUL) <$> args)).
Definition serving (pid : string) (exe : string) : proc :=
  {| pr_Name := pid; pr_Cmdline := cmdline ["/tmp/bin/pg_doorman"; "/tmp/pg_doorman.yaml"]; pr_Exe := Some exe |}.
Definition checking (pid : string) : proc :=
  {| pr_Name := pid; pr_Cmdline := cmdline ["/tmp/bin/pg_doorman"; "/tmp/pg_doorman.yaml.candidate"; "--test-config"];
     pr_Exe := Some "/tmp/bin/pg_doorman" |}.
Definition example_procs (procs : list proc) : os :=
  Os ∅ ∅ [] [] [] zero_metrics 0 procs [] {| p_cmd := None; p_adoptedPid := 0; p_upgradeRequested := false; p_upgradeRequestedAt := 0 |}.

Lemma killStrays_correct_witness :
  let w := example_procs [serving "1" "/usr/bin/wrapper"; {| pr_Name := "uptime"; pr_Cmdline := None; pr_Exe := None |};
    checking "20"; serving "31" "/tmp/bin/pg_doorman (deleted)"; serving "32" "/tmp/bin/pg_doorman"] in
  let w' := (killStrays 1 "/tmp/bin/pg_doorman" 0 w).2 in
  o_signals w' = [(31%Z, SIGKILL); (32%Z, SIGKILL)] ∧ ∃ killed, Ok [31%Z; 32%Z] = Ok killed ∧ signals_only w w' ∧
    o_signals w' = o_signals w ++ ((λ pid, (pid, SIGKILL)) <$> killed) ∧
    (∀ pid, pid ∈ killed → pid ≠ 0%Z ∧ pid ≠ 1%Z ∧ pooler "/tmp/bin/pg_doorman" pid w) ∧
    (o_faults w = [] → ∀ pid, pooler "/tmp/bin/pg_doorman" pid w → pid ≠ 0%Z → pid ≠ 1%Z → pid ∈ killed).
Proof.
  intros w w'. split; [vm_compute; reflexivity|].
  apply (killStrays_correct 1 "/tmp/bin/pg_doorman" 0 w (Ok [31%Z; 32%Z]) w'). vm_compute. reflexivity.
Defined.
