(* ===== verification/Process.v ===== *)
(** * The supervised process (internal/wrapper/process.go): operations

    Starting pg_doorman, signalling it, the bookkeeping of an in-place binary
    upgrade and the drain deadline. [Supervise.v] has the loop that runs them. *)
From S2P Require Import Prelude GoStd GoTime DoormanConfig Paths Os WrapperFiles FileWatcher Successor.
From stdpp Require Import options.
Open Scope Z_scope.

Definition initialBackoff : Z := 1 * Second.
Definition maxBackoff : Z := 30 * Second.
Definition backoffMultiplier : Z := 2.
Definition backoffResetUptime : Z := 60 * Second.
Definition defaultShutdownTimeout : Z := 10 * Second.
Definition shutdownWaitMargin : Z := 5 * Second.
Definition successorSearchTimeout : Z := 5 * Second.
Definition successorPollInterval : Z := 200 * Millisecond.

(** The fields of [Process] that do not change; the others are [o_process]. *)
Record settings : Type := {
  s_configPath : string;
  s_binary : string;
  s_waitMargin : Z;
  s_successorTimeout : Z;
  s_self : Z   (* the pid of the wrapper *)
}.
Definition NewProcess (configPath : string) (self : Z) : settings :=
  {| s_configPath := configPath; s_binary := RuntimeBinaryPath; s_waitMargin := shutdownWaitMargin;
     s_successorTimeout := successorSearchTimeout; s_self := self |}.

(** [time.Duration] arithmetic wraps around at 64 bits. *)
Definition wrap64 (n : Z) : Z := (n - int64_min) mod 2 ^ 64 + int64_min.

Definition set_cmd (pid : option Z) (p : process) : process :=
  {| p_cmd := pid; p_adoptedPid := p_adoptedPid p; p_upgradeRequested := p_upgradeRequested p;
     p_upgradeRequestedAt := p_upgradeRequestedAt p |}.
Definition set_adoptedPid (pid : Z) (p : process) : process :=
  {| p_cmd := p_cmd p; p_adoptedPid := pid; p_upgradeRequested := p_upgradeRequested p;
     p_upgradeRequestedAt := p_upgradeRequestedAt p |}.
Definition set_upgradeRequested (b : bool) (p : process) : process :=
  {| p_cmd := p_cmd p; p_adoptedPid := p_adoptedPid p; p_upgradeRequested := b;
     p_upgradeRequestedAt := p_upgradeRequestedAt p |}.
Definition set_upgradeRequestedAt (t : Z) (p : process) : process :=
  {| p_cmd := p_cmd p; p_adoptedPid := p_adoptedPid p; p_upgradeRequested := p_upgradeRequested p;
     p_upgradeRequestedAt := t |}.
Definition on_process (f : process → process) : M os unit := modify (λ w, set_process (f (o_process w)) w).

Section process.
  Context {YM : Yaml} (p : settings).

Definition waitDelay : M os Z :=
  read ← try_ (ReadFile (s_configPath p));
  let timeout :=
    match read with
    | Ok data =>
        match Unmarshal data with
        | Ok cfg => match ParseDuration (gc_ShutdownTimeout (dc_General cfg)) with
                    | Some d => d
                    | None => defaultShutdownTimeout
                    end
        | Err _ => defaultShutdownTimeout
        end
    | Err _ => defaultShutdownTimeout
    end in
  mret (wrap64 (timeout + s_waitMargin p)).

(** [exec.CommandContext] and [Start]: a cancelled context starts nothing;
    otherwise [spawned] is the kernel's answer, the pid of the child. *)
Definition Start (cancelled : bool) (spawned : res Z) : M os Z :=
  delay ← waitDelay;
  _ ← on_process (set_cmd None);
  _ ← on_process (set_adoptedPid 0);
  match (if cancelled then Err Canceled else spawned) with
  | Err e => throw (Wrapf "failed to start pg_doorman: %w" [] e)
  | Ok pid => _ ← on_process (set_cmd (Some pid)); mret delay
  end.

Definition pidLocked (pr : process) : Z :=
  if p_adoptedPid pr =? 0 then default 0 (p_cmd pr) else p_adoptedPid pr.
Definition Pid : M os Z := gets (λ w, pidLocked (o_process w)).

Definition signalLocked (sig : signal) : M os unit :=
  pid ← Pid;
  if pid =? 0 then throw (Errorf "process not running" []) else Kill pid sig.

Definition Restart : M os unit :=
  pid ← Pid;
  if pid =? 0 then throw (Errorf "process not running" []) else signalLocked SIGTERM.

Definition Reload : M os unit :=
  pid ← Pid;
  if pid =? 0 then throw (Errorf "process not running" []) else signalLocked SIGHUP.

Definition Upgrade : M os unit :=
  _ ← signalLocked SIGUSR2;
  _ ← on_process (set_upgradeRequested true);
  modify (λ w, set_process (set_upgradeRequestedAt (o_clock w) (o_process w)) w).

(** Whether the pending request, if any, can still explain an exit. *)
Definition upgradeRequestFreshLocked : M os bool :=
  requested ← gets (λ w, p_upgradeRequested (o_process w));
  if negb requested then mret false
  else
    age ← gets (λ w, o_clock w - p_upgradeRequestedAt (o_process w));
    delay ← waitDelay;
    mret (age <=? wrap64 (delay + s_successorTimeout p)).

Definition consumeUpgradeRequest : M os bool :=
  fresh ← upgradeRequestFreshLocked;
  _ ← on_process (set_upgradeRequested false);
  mret fresh.

Definition UpgradeInFlight : M os bool := upgradeRequestFreshLocked.

(** One round of the search loop of [adoptSuccessor]: adopted or not. *)
Definition search_once (oldPid : Z) : M os bool :=
  found ← findSuccessorPid (s_self p) (s_binary p) oldPid;
  match found with
  | Some pid =>
      _ ← on_process (set_cmd None);
      _ ← on_process (set_adoptedPid pid);
      mret true
  | None => mret false
  end.

Definition sweepStrays : M os unit := _ ← killStrays (s_self p) (s_binary p) 0; mret ().

(** [killAdopted]: only while [pid] is still the supervised one. *)
Definition killAdopted (pid : Z) (sig : signal) : M os unit :=
  current ← gets (λ w, p_adoptedPid (o_process w));
  if current =? pid then ignore (Kill pid sig) else mret ().

(** [terminateIfAdopted]: the pid and the delay of the SIGKILL it arms. *)
Definition terminateIfAdopted : M os (option (Z * Z)) :=
  pid ← gets (λ w, p_adoptedPid (o_process w));
  if pid =? 0 then mret None
  else
    _ ← killAdopted pid SIGTERM;
    delay ← waitDelay;
    mret (Some (pid, delay)).
End process.

Definition backoffAfterExit (current uptime : Z) : Z :=
  if backoffResetUptime <=? uptime then initialBackoff
  else Z.min (wrap64 (current * backoffMultiplier)) maxBackoff.

Definition ProcessRestartsTotal_Inc : M os unit := modify (λ w, let m := o_metrics w in
  set_metrics {| ReloadsSuccess := ReloadsSuccess m; ReloadsFailure := ReloadsFailure m;
    ProcessRestartsTotal := ProcessRestartsTotal m + 1; UpgradesSuccess := UpgradesSuccess m;
    UpgradesFailure := UpgradesFailure m; ConfigStale := ConfigStale m; BinaryStale := BinaryStale m |} w).
Definition BinaryUpgradesTotal_Inc (success : bool) : M os unit := modify (λ w, let m := o_metrics w in
  set_metrics {| ReloadsSuccess := ReloadsSuccess m; ReloadsFailure := ReloadsFailure m;
    ProcessRestartsTotal := ProcessRestartsTotal m; UpgradesSuccess := UpgradesSuccess m + (if success then 1 else 0);
    UpgradesFailure := UpgradesFailure m + (if success then 0 else 1); ConfigStale := ConfigStale m;
    BinaryStale := BinaryStale m |} w).

(** The process as the supervisor of the watchers. *)
Definition process_supervisor `{Yaml} (p : settings) : Supervisor := {|
  FileWatcher.Reload := Reload; FileWatcher.Restart := Restart; FileWatcher.Upgrade := Upgrade;
  FileWatcher.UpgradeInFlight := UpgradeInFlight p
|}.

(** ** Frames *)
Section frames.
  #[local] Set Default Proof Using "Type*".
  Context {YM : Yaml} (p : settings).

(** What a run of [waitDelay] read. *)
Definition drain (data : option string) : Z :=
  let timeout :=
    match data with
    | Some data =>
        match Unmarshal data with
        | Ok cfg => default defaultShutdownTimeout (ParseDuration (gc_ShutdownTimeout (dc_General cfg)))
        | Err _ => defaultShutdownTimeout
        end
    | None => defaultShutdownTimeout
    end in
  wrap64 (timeout + s_waitMargin p).

(** Nothing changes but the script of faults. *)
Definition only_reads (w w' : os) : Prop := ∃ fs, w' = set_faults fs w ∧ (o_faults w = [] → fs = []).
#[export] Instance only_reads_preorder : PreOrder only_reads.
Proof.
  split.
  - intros w. exists (o_faults w). split; [by destruct w|done].
  - intros w1 w2 w3 (fs & -> & H1) (fs' & -> & H2). exists fs'. split; [done|]. intros H0. by apply H2, H1.
Qed.
Lemma only_reads_disk w w' : only_reads w w' → same_disk w w'.
Proof. by intros (fs & -> & _). Qed.

Lemma waitDelay_inv w r w' :
  waitDelay p w = (r, w') → only_reads w w' ∧ ∃ data, r = Ok (drain data) ∧
    (∀ d, data = Some d → f_Data <$> o_files w !! s_configPath p = Some d) ∧
    (o_faults w = [] → data = f_Data <$> o_files w !! s_configPath p).
Proof.
  intros Hr. unfold waitDelay in Hr.
  apply bind_inv in Hr as [(rd & w1 & Hc & Hr)|(e & Hc & ->)]; apply try_inv in Hc as (? & [= <-] & Hc).
  assert (only_reads w w1 ∧ match rd with
    | Ok d => f_Data <$> o_files w !! s_configPath p = Some d
    | Err _ => o_faults w = [] → f_Data <$> o_files w !! s_configPath p = None end) as [Ho Hrd].
  { revert Hc. unfold ReadFile, plain_call, syscall. destruct (o_faults w) as [|[n|] fs] eqn:Hfs.
    2: { intros [= <- <-]. split; [by exists fs; rewrite Hfs|done]. }
    - destruct (o_files w !! _) as [f|] eqn:Hf; intros [= <- <-]; (split; [done|by simpl; rewrite ?Hf]).
    - destruct (o_files (set_faults fs w) !! _) as [f|] eqn:Hf; simpl in Hf; intros [= <- <-];
        (split; [by exists fs; rewrite Hfs|by rewrite Hf]). }
  inv_run Hr. split; [done|]. destruct rd as [d|e].
  - exists (Some d). split_and!; [|by intros ? [= <-]|done].
    unfold drain. destruct (Unmarshal d) as [c|]; [|done]. by destruct (ParseDuration _).
  - exists None. split_and!; [done|done|]. intros Hnf. by rewrite Hrd.
Qed.
Lemma waitDelay_runs w :
  o_faults w = [] → waitDelay p w = (Ok (drain (f_Data <$> o_files w !! s_configPath p)), w).
Proof.
  intros Hf. unfold waitDelay, ReadFile, plain_call.
  destruct (o_files w !! s_configPath p) as [f|] eqn:Hfile; (erewrite bind_run; [|unfold try_; rewrite no_fault by done; rewrite Hfile; reflexivity]).
  - unfold drain. cbn. destruct (Unmarshal _) as [c|]; [|done]. by destruct (ParseDuration _).
  - done.
Qed.

Lemma signals_only_disk w w' : signals_only w w' → same_disk w w'.
Proof. by intros (? & ? & ? & _). Qed.
Lemma disk_Kill pid sig : keeps_rel same_disk (Kill pid sig).
Proof. intros w r w' (Hs & _)%Kill_inv. by apply signals_only_disk. Qed.
Lemma disk_Pid : keeps_rel same_disk Pid.
Proof. apply keeps_gets, _. Qed.
Lemma disk_process f : keeps_rel same_disk (on_process f).
Proof. apply keeps_modify; [apply _|]. by intros w. Qed.
Lemma disk_waitDelay : keeps_rel same_disk (waitDelay p).
Proof. intros w r w' [Ho _]%waitDelay_inv. by apply only_reads_disk. Qed.
Lemma disk_read path : keeps_rel same_disk (ReadFile path).
Proof. apply keeps_syscall; [apply _|done|done|]. intros w. by destruct (o_files w !! path). Qed.
#[local] Hint Resolve disk_read disk_Kill disk_Pid disk_process disk_waitDelay : frames.
Lemma disk_signalLocked sig : keeps_rel same_disk (signalLocked sig).
Proof. unfold signalLocked. keep. Qed.
#[local] Hint Resolve disk_signalLocked : frames.

Lemma process_supervisor_laws : @SupervisorLaws (process_supervisor p).
Proof.
  split; simpl.
  - unfold Reload. keep.
  - unfold Restart. keep.
  - unfold Upgrade. keep. by apply keeps_modify; [apply _|].
  - unfold UpgradeInFlight, upgradeRequestFreshLocked. keep.
Qed.

(** ** The drain deadline *)

(** After SIGTERM the wrapper waits for the configured shutdown_timeout plus
    the margin before it kills pg_doorman, when the timeout is written as digits
    and one of the units ms, s, m and h, and the sum fits in 64 bits. *)
Theorem waitDelay_correct w f cfg ds u n :
  o_faults w = [] → o_files w !! s_configPath p = Some f → Unmarshal (f_Data f) = Ok cfg →
  gc_ShutdownTimeout (dc_General cfg) = ds +:+ u → ds ≠ "" → all_digits ds →
  unitMap u = Some n → u ∈ ["ms"; "s"; "m"; "h"] → 0 ≤ s_waitMargin p →
  dec_value 0 ds * n + s_waitMargin p ≤ int64_max →
  waitDelay p w = (Ok (dec_value 0 ds * n + s_waitMargin p), w).
Proof.
  intros Hnf Hf Hcfg Ht Hds Hdig Hn Hu Hm Hfit. rewrite waitDelay_runs by done. rewrite Hf. cbn. unfold drain.
  rewrite Hcfg, Ht, ParseDuration_digits; [|done|done|].
  2: { unfold no_digit_or_dot. set_unfold in Hu. by destruct_or! Hu; subst u; repeat constructor. }
  rewrite decide_False by (intros [_ ->]; done).
  assert (u ≠ "") as Hne by (intros ->; done).
  pose proof (dec_value_ge 0 ds ltac:(lia) Hdig). pose proof (unitMap_pos _ _ Hn).
  unfold group_value. rewrite decide_False, Hn by done. cbn. rewrite decide_True by lia. simpl.
  do 3 f_equal. unfold wrap64. assert (int64_min = - int64_max - 1) as Hmin by done. assert (2 ^ 64 = 2 * int64_max + 2) as H64 by done.
  rewrite Z.mod_small; lia.
Qed.

(** A timeout in plain digits is not read by [time.ParseDuration]. *)
Lemma plain_digits_ignored w f cfg ds :
  o_faults w = [] → o_files w !! s_configPath p = Some f → Unmarshal (f_Data f) = Ok cfg →
  gc_ShutdownTimeout (dc_General cfg) = ds → ds ≠ "" → ds ≠ "0" → all_digits ds →
  waitDelay p w = (Ok (wrap64 (defaultShutdownTimeout + s_waitMargin p)), w).
Proof.
  intros Hnf Hf Hcfg Ht Hne H0 Hds. rewrite waitDelay_runs, Hf by done. cbn. unfold drain.
  by rewrite Hcfg, Ht, ParseDuration_no_suffix.
Qed.

(** ** The bookkeeping of an upgrade *)

Lemma Pid_run w : Pid w = (Ok (pidLocked (o_process w)), w).
Proof. done. Qed.
Lemma signalLocked_inv sig w r w' :
  signalLocked sig w = (r, w') → signals_only w w' ∧
  match r with
  | Ok _ => pidLocked (o_process w) ≠ 0 ∧ o_signals w' = o_signals w ++ [(pidLocked (o_process w), sig)]
  | Err _ => o_signals w' = o_signals w
  end.
Proof.
  intros Hr. unfold signalLocked in Hr.
  apply bind_inv in Hr as [(pid & w1 & Hc & Hr)|(e & Hc & ->)]; rewrite Pid_run in Hc; [|done].
  injection Hc as <- <-. destruct (Z.eqb_spec (pidLocked (o_process w)) 0); [by inv_run Hr|].
  apply Kill_inv in Hr as (Hs & Hr & _). split; [done|]. destruct r; [by destruct Hr|]. by destruct Hr.
Qed.

(** The request an [Upgrade] leaves behind. *)
Definition requested_at (t : Z) (pr : process) : Prop := p_upgradeRequested pr = true ∧ p_upgradeRequestedAt pr = t.

Lemma Upgrade_inv w r w' :
  Upgrade w = (r, w') →
  match r with
  | Ok _ => requested_at (o_clock w) (o_process w') ∧ pidLocked (o_process w') = pidLocked (o_process w) ∧
      o_signals w' = o_signals w ++ [(pidLocked (o_process w), SIGUSR2)]
  | Err _ => o_process w' = o_process w ∧ o_signals w' = o_signals w
  end.
Proof.
  intros Hr. unfold Upgrade in Hr.
  apply bind_inv in Hr as [([] & w1 & Hc & Hr)|(e & Hc & ->)]; apply signalLocked_inv in Hc as [(_&_&_&Hp&Ht&_) Hc].
  - unfold on_process in Hr. inv_run Hr. destruct Hc as [? Hc]. split_and!; [split; simpl; congruence| |done].
    unfold pidLocked. simpl. by rewrite Hp.
  - by split.
Qed.

(** How old a request may be to explain an exit, from the config on disk. *)
Definition handover_window (files : gmap string file) : Z :=
  wrap64 (drain (f_Data <$> files !! s_configPath p) + s_successorTimeout p).

Lemma fresh_run w :
  o_faults w = [] →
  upgradeRequestFreshLocked p w =
    (Ok (p_upgradeRequested (o_process w) &&
         (o_clock w - p_upgradeRequestedAt (o_process w) <=? handover_window (o_files w))), w).
Proof.
  intros Hnf. unfold upgradeRequestFreshLocked. erewrite bind_run by done. cbv beta.
  destruct (p_upgradeRequested _); [|done]. cbn [negb andb]. erewrite bind_run by done. cbv beta.
  erewrite bind_run by (by apply waitDelay_runs). done.
Qed.

(** C29 — A requested upgrade explains an exit only inside the handover window:
    once [Upgrade] has signalled the process at time [t], then (no call failing)
    the upgrade is in flight, and the next exit is taken for its handover, exactly
    while the clock is within the drain plus the search time of [t]; taking an
    exit for it forgets the request, so that one request explains one exit. *)
Theorem upgrade_window w0 w1 w :
  Upgrade w0 = (Ok (), w1) → o_process w = o_process w1 → o_faults w = [] →
  let fresh := o_clock w - o_clock w0 <=? handover_window (o_files w) in
  UpgradeInFlight p w = (Ok fresh, w) ∧
  ∃ w', consumeUpgradeRequest p w = (Ok fresh, w') ∧ UpgradeInFlight p w' = (Ok false, w') ∧
    consumeUpgradeRequest p w' = (Ok false, w').
Proof.
  intros [[Hreq Hat] _]%Upgrade_inv Hp Hnf fresh.
  assert (upgradeRequestFreshLocked p w = (Ok fresh, w)) as Hf.
  { rewrite fresh_run by done. by rewrite Hp, Hreq, Hat. }
  split; [exact Hf|]. eexists. split_and!.
  - unfold consumeUpgradeRequest. erewrite bind_run by exact Hf. reflexivity.
  - unfold UpgradeInFlight. by rewrite fresh_run.
  - unfold consumeUpgradeRequest. erewrite bind_run by (by rewrite fresh_run). reflexivity.
Qed.
End frames.

(** ** The backoff *)
Lemma wrap64_small n : int64_min ≤ n ≤ int64_max → wrap64 n = n.
Proof. intros Hn. unfold wrap64, int64_min, int64_max in *. rewrite Z.mod_small; lia. Qed.
Lemma next_backoff b :
  initialBackoff ≤ b ≤ maxBackoff → Z.min (wrap64 (b * backoffMultiplier)) maxBackoff = Z.min (2 * b) maxBackoff.
Proof.
  unfold initialBackoff, maxBackoff, backoffMultiplier, Second. intros Hb.
  rewrite wrap64_small; [lia|]. unfold int64_min, int64_max. lia.
Qed.
Lemma backoffAfterExit_bounds b u : initialBackoff ≤ b ≤ maxBackoff → initialBackoff ≤ backoffAfterExit b u ≤ maxBackoff.
Proof.
  intros Hb. unfold backoffAfterExit. destruct (_ <=? _); [done|]. rewrite next_backoff by done.
  unfold initialBackoff, maxBackoff, Second in *. lia.
Qed.

(** Exponential backoff with a reset: after any history, a run of [n] crashes
    that each came within a minute of the start makes the next delay 2^n seconds,
    capped at 30, where the history before counts only back to the last run of
    a minute or more. *)
Theorem backoff_growth (before : list Z) (long : Z) (short : list Z) :
  backoffResetUptime ≤ long → Forall (λ u, u < backoffResetUptime) short →
  foldl backoffAfterExit initialBackoff (before ++ long :: short) =
    Z.min (2 ^ Z.of_nat (length short) * Second) maxBackoff.
Proof.
  intros Hl Hs. rewrite foldl_app. simpl.
  assert (backoffAfterExit (foldl backoffAfterExit initialBackoff before) long = initialBackoff) as ->.
  { unfold backoffAfterExit. by destruct (Z.leb_spec backoffResetUptime long); [|lia]. }
  assert (∀ b, initialBackoff ≤ b ≤ maxBackoff →
    foldl backoffAfterExit b short = Z.min (2 ^ Z.of_nat (length short) * b) maxBackoff) as Hgen.
  { induction Hs as [|u us Hu Hs IH]; intros b Hb; cbn [foldl length]; [unfold maxBackoff in *; lia|].
    rewrite IH by (by apply backoffAfterExit_bounds).
    unfold backoffAfterExit. destruct (Z.leb_spec backoffResetUptime u); [lia|]. rewrite next_backoff by done.
    rewrite Nat2Z.inj_succ, Z.pow_succ_r by lia.
    pose proof (Z.pow_pos_nonneg 2 (Z.of_nat (length us)) ltac:(lia) ltac:(lia)). unfold maxBackoff, initialBackoff, Second in *. nia. }
  apply Hgen. unfold initialBackoff, maxBackoff, Second. lia.
Qed.

(** ** Examples *)
Definition shutdown_config (timeout : string) : DoormanConfig :=
  {| dc_General :=
       {| gc_Host := "0.0.0.0"; gc_Port := 6432; gc_TLSCertificate := ""; gc_TLSPrivateKey := "";
          gc_AdminUsername := "admin"; gc_AdminPassword := "secret"; gc_WorkerThreads := None; gc_MaxConnections := None;
          gc_ConnectTimeout := ""; gc_IdleTimeout := ""; gc_ServerLifetime := ""; gc_ShutdownTimeout := timeout |};
     dc_Pools := ∅; dc_Prometheus := None |}.
#[local] Instance px_docs : Yaml := table_yaml ((λ t, (t, shutdown_config t)) <$> ["20s"; "60000"; "1d"; "30S"]).
Definition example_process : settings := NewProcess RuntimeConfigPath 1.
Definition process_os (timeout : string) (clock : Z) : os :=
  Os {[ RuntimeConfigPath := File timeout 384 ]} ∅ [] [] [] zero_metrics clock [serving "7" RuntimeBinaryPath] []
     {| p_cmd := Some 7; p_adoptedPid := 0; p_upgradeRequested := false; p_upgradeRequestedAt := 0 |}.

Lemma waitDelay_correct_witness :
  waitDelay example_process (process_os "20s" 0) = (Ok (dec_value 0 "20" * Second + s_waitMargin example_process), process_os "20s" 0).
Proof.
  apply (waitDelay_correct example_process _ (File "20s" 384) (shutdown_config "20s") "20" "s"); try (vm_compute; reflexivity).
  - done.
  - unfold all_digits. by repeat constructor.
  - apply (bool_decide_eq_true_1 _). vm_compute. reflexivity.
  - vm_compute. done.
  - vm_compute. done.
Defined.

(** Timeouts that the validation accepts and the drain deadline does not read:
    each of them means 15 seconds. *)
Lemma unread_timeouts_example :
  Forall (λ t, validateDuration ["general.shutdown_timeout"] t = Ok () ∧
    waitDelay example_process (process_os t 0) = (Ok (15 * Second), process_os t 0)) ["60000"; "1d"; "30S"].
Proof. repeat constructor; vm_compute; reflexivity. Qed.

Lemma upgrade_window_witness :
  let w0 := process_os "20s" 100 in
  let w1 := (Upgrade w0).2 in
  let w := set_clock (100 + 31 * Second) w1 in
  UpgradeInFlight example_process w = (Ok false, w).
Proof.
  intros w0 w1 w. destruct (upgrade_window example_process w0 w1 w eq_refl eq_refl eq_refl) as [H _].
  etrans; [exact H|vm_compute; reflexivity].
Defined.

Lemma backoff_growth_witness :
  foldl backoffAfterExit initialBackoff ([3 * Second] ++ (90 * Second) :: [Second; Second; Second]) = Z.min (2 ^ 3 * Second) maxBackoff.
Proof. apply (backoff_growth [3 * Second] (90 * Second) [Second; Second; Second]); [vm_compute; done|by repeat constructor]. Defined.
