(* ===== verification/Supervise.v ===== *)
(** * The supervision loop (internal/wrapper/process.go: RunWithRestart)

    [RunWithRestart] as a state machine: the goroutine is at one of its blocking
    points (a phase) and an action either wakes it there or is something that
    happens beside it: a call of a watcher, the cancellation of the context, a
    SIGKILL timer, time passing, a change of the process table. *)
From S2P Require Import Prelude GoStd GoTime DoormanConfig Paths Os WrapperFiles FileWatcher Successor Process.
From stdpp Require Import options.
Open Scope Z_scope.

(** What [waitCtx] waits for: nothing ([cmd] is nil), the child of [cmd] with its
    [WaitDelay], or the adopted process with its drain. *)
Inductive target : Type := T_none | T_child (pid delay : Z) | T_adopted (pid delay : Z).

Inductive phase : Type :=
  | Starting
  | StartDelay (until : Z)              (* after a failed start *)
  | Waiting (t : target)                (* in waitCtx *)
  | Searching (deadline next : Z)       (* in adoptSuccessor *)
  | RestartDelay (until : Z)            (* after an exit *)
  | Returned (e : gerr).

(** The variables of the loop. *)
Record runner : Type := {
  n_phase : phase;
  n_backoff : Z;
  n_startedAt : option Z;   (* [None] before the first start *)
  n_pid : Z
}.
Definition at_phase (ph : phase) (st : runner) : runner :=
  {| n_phase := ph; n_backoff := n_backoff st; n_startedAt := n_startedAt st; n_pid := n_pid st |}.
Definition initial_runner : runner :=
  {| n_phase := Starting; n_backoff := initialBackoff; n_startedAt := None; n_pid := 0 |}.

(** A SIGKILL armed for a pid: by [terminateIfAdopted], or by [exec.Cmd]. *)
Record timer : Type := { t_at : Z; t_pid : Z; t_adopted : bool }.

Definition clock : M os Z := gets o_clock.

Section supervise.
  Context {YM : Yaml} (p : settings).

(** Entering [waitCtx] with the context cancelled or not; [delay] is the
    [WaitDelay] of [cmd]. An armed [terminateIfAdopted] runs at once when the
    context already is cancelled. *)
Definition enter_wait (cancelled : bool) (delay : Z) (st : runner) : M os (runner * list timer) :=
  armed ← (if cancelled then terminateIfAdopted p else mret None);
  now ← clock;
  let timers := match armed with
                | Some (pid, d) => [{| t_at := now + d; t_pid := pid; t_adopted := true |}]
                | None => []
                end in
  adopted ← gets (λ w, p_adoptedPid (o_process w));
  if adopted =? 0 then
    cmd ← gets (λ w, p_cmd (o_process w));
    mret (at_phase (Waiting match cmd with Some pid => T_child pid delay | None => T_none end) st, timers)
  else
    drain ← waitDelay p;
    mret (at_phase (Waiting (T_adopted adopted drain)) st, timers).

(** The top of the loop: [spawned] is the answer of the kernel. *)
Definition start_step (cancelled : bool) (spawned : res Z) (st : runner) : M os (runner * list timer) :=
  now ← clock;
  let st := {| n_phase := n_phase st; n_backoff := n_backoff st; n_startedAt := Some now; n_pid := n_pid st |} in
  started ← try_ (Start p cancelled spawned);
  match started with
  | Err _ =>
      if cancelled then mret (at_phase (Returned Canceled) st, [])
      else mret (at_phase (StartDelay (now + n_backoff st)) st, [])
  | Ok delay =>
      pid ← Pid;
      enter_wait cancelled delay
        {| n_phase := n_phase st; n_backoff := n_backoff st; n_startedAt := n_startedAt st; n_pid := pid |}
  end.

(** A real exit: the backoff and the delay before the next start. *)
Definition restart_step (st : runner) : M os (runner * list timer) :=
  now ← clock;
  let uptime := now - default now (n_startedAt st) in
  _ ← ProcessRestartsTotal_Inc;
  let backoff := backoffAfterExit (n_backoff st) uptime in
  mret ({| n_phase := RestartDelay (now + backoff); n_backoff := backoff; n_startedAt := n_startedAt st;
           n_pid := n_pid st |}, []).

Definition handover_failed (st : runner) : M os (runner * list timer) :=
  _ ← BinaryUpgradesTotal_Inc false;
  _ ← sweepStrays p;
  restart_step st.

Definition handover_done (cancelled : bool) (st : runner) : M os (runner * list timer) :=
  _ ← BinaryUpgradesTotal_Inc true;
  _ ← ignore Reload;
  now ← clock;
  pid ← Pid;
  enter_wait cancelled 0 {| n_phase := n_phase st; n_backoff := n_backoff st; n_startedAt := Some now; n_pid := pid |}.

(** A round of the search of [adoptSuccessor]. *)
Definition search_step (cancelled : bool) (deadline : Z) (st : runner) : M os (runner * list timer) :=
  adopted ← search_once p (n_pid st);
  if adopted : bool then handover_done cancelled st
  else
    now ← clock;
    if deadline <? now then handover_failed st
    else mret (at_phase (Searching deadline (now + successorPollInterval)) st, []).

(** [waitCtx] returns: the adopted pid is forgotten. *)
Definition exit_step (cancelled : bool) (t : target) (st : runner) : M os (runner * list timer) :=
  _ ← (match t with
       | T_adopted a _ => on_process (λ pr, if p_adoptedPid pr =? a then set_adoptedPid 0 pr else pr)
       | _ => mret ()
       end);
  if cancelled then mret (at_phase (Returned Canceled) st, [])
  else
    requested ← consumeUpgradeRequest p;
    if requested : bool then
      now ← clock;
      search_step cancelled (now + s_successorTimeout p) st
    else restart_step st.

(** ** The state machine *)
Inductive call : Type := C_Reload | C_Restart | C_Upgrade | C_UpgradeInFlight.
Definition run_call (c : call) : M os unit :=
  match c with
  | C_Reload => Reload
  | C_Restart => Restart
  | C_Upgrade => Upgrade
  | C_UpgradeInFlight => _ ← UpgradeInFlight p; mret ()
  end.

Record sys : Type := {
  y_cancelled : option Z;   (* when the context was cancelled *)
  y_runner : runner;
  y_timers : list timer;
  y_os : os
}.

Inductive action : Type :=
  | ASpawn (answer : res Z)     (* Starting: fork and exec *)
  | AExit                       (* Waiting: waitCtx returns *)
  | ATimer                      (* the timer branch of a select *)
  | ADone                       (* the ctx.Done branch of a select *)
  | ACall (c : call)            (* a watcher calls the process *)
  | ACancel
  | AKill                       (* the first timer fires *)
  | ATime (d : Z)
  | AProcs (procs : list proc). (* processes start, exit, exec *)

Definition is_cancelled (s : sys) : bool := bool_decide (is_Some (y_cancelled s)).

(** When [waitCtx] may return: the process is gone, or it was adopted and has
    outlived its drain since the cancellation. *)
Definition wait_over (s : sys) (t : target) : bool :=
  match t with
  | T_none => true
  | T_child pid _ => negb (alive pid (y_os s))
  | T_adopted pid drain =>
      negb (alive pid (y_os s)) ||
      match y_cancelled s with Some at_ => at_ + drain <? o_clock (y_os s) | None => false end
  end.

Definition with_os (w : os) (s : sys) : sys :=
  {| y_cancelled := y_cancelled s; y_runner := y_runner s; y_timers := y_timers s; y_os := w |}.
(** The goroutine runs [m]. *)
Definition resume (m : M os (runner * list timer)) (s : sys) : option sys :=
  match m (y_os s) with
  | (Ok (st, armed), w) =>
      Some {| y_cancelled := y_cancelled s; y_runner := st; y_timers := y_timers s ++ armed; y_os := w |}
  | (Err _, _) => None
  end.
Definition goto (st : runner) (s : sys) : option sys := resume (mret (st, [])) s.

(** The cancellation: what [exec.Cmd] and [terminateIfAdopted] do at once. *)
Definition cancel_step (t : target) : M os (list timer) :=
  match t with
  | T_child pid delay =>
      _ ← ignore (Kill pid SIGTERM);
      now ← clock;
      mret [{| t_at := now + delay; t_pid := pid; t_adopted := false |}]
  | _ =>
      armed ← terminateIfAdopted p;
      now ← clock;
      mret match armed with
           | Some (pid, d) => [{| t_at := now + d; t_pid := pid; t_adopted := true |}]
           | None => []
           end
  end.

(** The kill of a timer: an adopted process only while it is the supervised one,
    a child only while it is waited for. *)
Definition kill_now (t : timer) (ph : phase) : M os unit :=
  if t_adopted t then killAdopted (t_pid t) SIGKILL
  else match ph with
       | Waiting (T_child pid _) => if pid =? t_pid t then ignore (Kill pid SIGKILL) else mret ()
       | _ => mret ()
       end.

(** Actions of the goroutine; [None] when it is not at such a point. *)
Definition act_runner (a : action) (s : sys) : option sys :=
  let st := y_runner s in
  let now := o_clock (y_os s) in
  match a, n_phase st with
  | ASpawn answer, Starting =>
      if match answer with Ok pid => (0 <? pid) && alive pid (y_os s) | Err _ => true end
      then resume (start_step (is_cancelled s) answer st) s else None
  | AExit, Waiting t => if wait_over s t then resume (exit_step (is_cancelled s) t st) s else None
  | ATimer, StartDelay until =>
      if until <=? now then
        goto {| n_phase := Starting; n_backoff := Z.min (wrap64 (n_backoff st * backoffMultiplier)) maxBackoff;
                n_startedAt := n_startedAt st; n_pid := n_pid st |} s
      else None
  | ATimer, RestartDelay until => if until <=? now then goto (at_phase Starting st) s else None
  | ATimer, Searching deadline next =>
      if next <=? now then resume (search_step (is_cancelled s) deadline st) s else None
  | ADone, (StartDelay _ | RestartDelay _) =>
      if is_cancelled s then goto (at_phase (Returned Canceled) st) s else None
  | ADone, Searching _ _ => if is_cancelled s then resume (handover_failed st) s else None
  | _, _ => None
  end.

(** Everything that happens beside the goroutine. *)
Definition act_env (a : action) (s : sys) : option sys :=
  match a with
  | ACall c => let '(_, w) := run_call c (y_os s) in Some (with_os w s)
  | ACancel =>
      if is_cancelled s then None
      else
        let s := {| y_cancelled := Some (o_clock (y_os s)); y_runner := y_runner s; y_timers := y_timers s; y_os := y_os s |} in
        match n_phase (y_runner s) with
        | Waiting t =>
            match cancel_step t (y_os s) with
            | (Ok armed, w) => Some {| y_cancelled := y_cancelled s; y_runner := y_runner s; y_timers := y_timers s ++ armed; y_os := w |}
            | (Err _, _) => None
            end
        | _ => Some s
        end
  | AKill =>
      match y_timers s with
      | t :: ts =>
          if t_at t <=? o_clock (y_os s) then
            let '(_, w) := kill_now t (n_phase (y_runner s)) (y_os s) in
            Some {| y_cancelled := y_cancelled s; y_runner := y_runner s; y_timers := ts; y_os := w |}
          else None
      | [] => None
      end
  | ATime d => if 0 <? d then Some (with_os (set_clock (o_clock (y_os s) + d) (y_os s)) s) else None
  | AProcs procs =>
      if forallb (λ pr, match proc_pid pr with Some pid => 0 <? pid | None => true end) procs
      then Some (with_os (set_procs procs (y_os s)) s) else None
  | _ => None
  end.

Definition of_runner (a : action) : bool :=
  match a with ASpawn _ | AExit | ATimer | ADone => true | _ => false end.
Definition act (a : action) (s : sys) : option sys := if of_runner a then act_runner a s else act_env a s.

Fixpoint run (acts : list action) (s : sys) : option sys :=
  match acts with
  | [] => Some s
  | a :: acts => s' ← act a s; run acts s'
  end.
End supervise.

(** ** Frames *)

(** Time does not pass and processes do not change during a step. *)
Definition instant (w w' : os) : Prop := o_clock w' = o_clock w ∧ o_procs w' = o_procs w.
#[export] Instance instant_preorder : PreOrder instant.
Proof. split; [done|]. intros w1 w2 w3 [] []. unfold instant. split; congruence. Qed.

Section instants.
  #[local] Set Default Proof Using "Type*".
  Context {YM : Yaml} (p : settings).

Lemma instant_Kill pid sig : keeps_rel instant (Kill pid sig).
Proof. intros w r w' ((_ & _ & _ & _ & ? & ?) & _)%Kill_inv. done. Qed.
Lemma instant_process f : keeps_rel instant (on_process f).
Proof. apply keeps_modify; [apply _|]. by intros w. Qed.
Lemma instant_waitDelay : keeps_rel instant (waitDelay p).
Proof. intros w r w' [(fs & -> & _) _]%waitDelay_inv. done. Qed.
Lemma instant_clock : keeps_rel instant clock.
Proof. apply keeps_gets, _. Qed.
Lemma instant_find b ex : keeps_rel instant (findSuccessorPid (s_self p) b ex).
Proof. intros w r w' ([] & _)%findSuccessorPid_inv. done. Qed.
Lemma instant_killStrays b ex : keeps_rel instant (killStrays (s_self p) b ex).
Proof. intros w r w' (killed & _ & (_ & _ & _ & _ & ? & ?) & _)%killStrays_inv. done. Qed.
Lemma instant_read path : keeps_rel instant (ReadFile path).
Proof. apply keeps_syscall; [apply _|done|done|]. intros w. by destruct (o_files w !! path). Qed.
#[local] Hint Resolve instant_read instant_Kill instant_process instant_waitDelay instant_clock instant_find instant_killStrays : frames.
Lemma instant_Pid : keeps_rel instant Pid.
Proof. apply keeps_gets, _. Qed.
Lemma instant_signal sig : keeps_rel instant (signalLocked sig).
Proof. unfold signalLocked, Pid. keep. Qed.
#[local] Hint Resolve instant_Pid instant_signal : frames.
Lemma instant_Reload : keeps_rel instant Reload.
Proof. unfold Reload. keep. Qed.
Lemma instant_Restart : keeps_rel instant Restart.
Proof. unfold Restart. keep. Qed.
Lemma instant_Upgrade : keeps_rel instant Upgrade.
Proof. unfold Upgrade. keep. by apply keeps_modify; [apply _|]. Qed.
Lemma instant_fresh : keeps_rel instant (upgradeRequestFreshLocked p).
Proof. unfold upgradeRequestFreshLocked. keep. Qed.
Lemma instant_terminate : keeps_rel instant (terminateIfAdopted p).
Proof. unfold terminateIfAdopted, killAdopted. keep. Qed.
End instants.

(** ** What the steps of the loop do *)

(** [t] is what the process record says is supervised. *)
Definition watches (t : target) (pr : process) : Prop :=
  match t with
  | T_none => p_adoptedPid pr = 0 ∧ p_cmd pr = None
  | T_child pid _ => p_adoptedPid pr = 0 ∧ p_cmd pr = Some pid
  | T_adopted pid _ => p_adoptedPid pr = pid ∧ pid ≠ 0
  end.
Definition same_process (w w' : os) : Prop := instant w w' ∧ o_process w' = o_process w.
#[export] Instance same_process_preorder : PreOrder same_process.
Proof. split; [done|]. intros w1 w2 w3 [? ?] [? ?]. split; [by etrans|congruence]. Qed.

Section steps.
  #[local] Set Default Proof Using "Type*".
  Context {YM : Yaml} (p : settings).

Lemma terminate_inv w r w' :
  terminateIfAdopted p w = (r, w') → same_process w w' ∧ ∃ armed, r = Ok armed ∧
    (∀ pid d, armed = Some (pid, d) → pid = p_adoptedPid (o_process w)).
Proof.
  intros Hr. pose proof (instant_terminate _ _ _ _ Hr) as Hi. unfold terminateIfAdopted in Hr.
  apply bind_inv in Hr as [(pid & w1 & [= <- <-] & Hr)|(e & ? & ->)]; [|done].
  destruct (_ =? 0); [inv_run Hr; split; [done|]; eexists; split; [done|]; by intros ??|].
  apply bind_inv in Hr as [([] & w1 & Hk & Hr)|(e & Hk & ->)].
  - assert (o_process w1 = o_process w) as Hp.
    { unfold killAdopted in Hk. apply bind_inv in Hk as [(c & w2 & [= <- <-] & Hk)|(e & ? & ?)]; [|done].
      destruct (_ =? _); [|by inv_run Hk]. apply ignore_inv in Hk as (_ & r' & ((_&_&_&?&_)&_)%Kill_inv). done. }
    apply bind_inv in Hr as [(d & w2 & Hd & Hr)|(e & Hd & ->)]; apply waitDelay_inv in Hd as ((fs & -> & _) & data & Hok & _); [|done].
    inv_run Hr. split; [done|]. eexists. split; [done|]. by intros ?? [= <- <-].
  - unfold killAdopted in Hk. apply bind_inv in Hk as [(c & w2 & [= <- <-] & Hk)|(e' & ? & ?)]; [|done].
    destruct (_ =? _); [|by inv_run Hk]. by apply ignore_inv in Hk as (? & _).
Qed.

Lemma enter_wait_inv c d st w r w' :
  enter_wait p c d st w = (r, w') →
  same_process w w' ∧ ∃ t armed, r = Ok (at_phase (Waiting t) st, armed) ∧ watches t (o_process w).
Proof.
  intros Hr. unfold enter_wait in Hr.
  apply bind_inv in Hr as [(a & w1 & Ha & Hr)|(e & Ha & ->)].
  2: { destruct c; [by apply terminate_inv in Ha as (_ & ? & ? & _)|by inv_run Ha]. }
  assert (same_process w w1) as Hs.
  { destruct c; [by apply terminate_inv in Ha as (? & _)|by inv_run Ha]. }
  apply bind_inv in Hr as [(now & w2 & [= <- <-] & Hr)|(e & ? & ->)]; [|done].
  apply bind_inv in Hr as [(ad & w2 & [= <- <-] & Hr)|(e & ? & ->)]; [|done].
  destruct Hs as [Hs Hp]. rewrite <- Hp.
  destruct (Z.eqb_spec (p_adoptedPid (o_process w1)) 0) as [Had|Had].
  - apply bind_inv in Hr as [(cmd & w2 & [= <- <-] & Hr)|(e & ? & ->)]; [|done]. inv_run Hr. split; [by split|].
    eexists _, _. split; [done|]. by destruct (p_cmd _) eqn:?.
  - apply bind_inv in Hr as [(dr & w2 & Hd & Hr)|(e & Hd & ->)];
      apply waitDelay_inv in Hd as ((fs & -> & _) & data & Hok & _); [|done].
    inv_run Hr. split; [by split|]. eexists _, _. by split.
Qed.

Lemma restart_step_run st w :
  let backoff := backoffAfterExit (n_backoff st) (o_clock w - default (o_clock w) (n_startedAt st)) in
  ∃ w', restart_step st w =
    (Ok ({| n_phase := RestartDelay (o_clock w + backoff); n_backoff := backoff; n_startedAt := n_startedAt st;
            n_pid := n_pid st |}, []), w') ∧
  same_process w w' ∧ o_signals w' = o_signals w ∧
  o_metrics w' = {| ReloadsSuccess := ReloadsSuccess (o_metrics w); ReloadsFailure := ReloadsFailure (o_metrics w);
    ProcessRestartsTotal := ProcessRestartsTotal (o_metrics w) + 1; UpgradesSuccess := UpgradesSuccess (o_metrics w);
    UpgradesFailure := UpgradesFailure (o_metrics w); ConfigStale := ConfigStale (o_metrics w);
    BinaryStale := BinaryStale (o_metrics w) |}.
Proof. intros backoff. eexists. split; [unfold restart_step; do 2 (erewrite bind_run by reflexivity; cbv beta zeta); reflexivity|]. split; [by split|done]. Qed.

(** A start: refused by the cancelled context, failed, or running and supervised. *)
Lemma start_step_inv c sp st w r w' :
  start_step p c sp st w = (r, w') →
  instant w w' ∧
  ∃ ph pid armed, r = Ok ({| n_phase := ph; n_backoff := n_backoff st; n_startedAt := Some (o_clock w); n_pid := pid |}, armed) ∧
    match ph with
    | Returned e => e = Canceled ∧ c = true ∧ p_cmd (o_process w') = None
    | StartDelay until => c = false ∧ until = o_clock w + n_backoff st ∧ p_cmd (o_process w') = None
    | Waiting t => c = false ∧ sp = Ok pid ∧ (∃ d, t = T_child pid d) ∧ watches t (o_process w')
    | _ => False
    end.
Proof.
  intros Hr. unfold start_step in Hr.
  apply bind_inv in Hr as [(now & w1 & [= <- <-] & Hr)|(e & ? & ->)]; [|done].
  apply bind_inv in Hr as [(st' & w1 & Hs & Hr)|(e & Hs & ->)]; apply try_inv in Hs as (? & [= <-] & Hs).
  unfold Start in Hs.
  apply bind_inv in Hs as [(d & w2 & Hd & Hs)|(e & Hd & ?)]; apply waitDelay_inv in Hd as ((fs & -> & _) & data & Hok & _); [|done].
  unfold on_process in Hs.
  apply bind_inv in Hs as [([] & w2 & [= <-] & Hs)|(e & ? & ?)]; [|done].
  apply bind_inv in Hs as [([] & w2 & [= <-] & Hs)|(e & ? & ?)]; [|done].
  destruct c.
  - inv_run Hs. inv_run Hr. split; [done|]. by eexists _, _, _.
  - destruct sp as [pid|e].
    + apply bind_inv in Hs as [([] & w2 & [= <-] & Hs)|(e & ? & ?)]; [|done]. inv_run Hs.
      apply bind_inv in Hr as [(q & w3 & [= <- <-] & Hr)|(e & ? & ->)]; [|done].
      apply enter_wait_inv in Hr as ((Hi & Hp) & t & armed & -> & Ht). split; [by destruct Hi|].
      eexists _, _, _. split; [done|]. rewrite Hp. simpl in *.
      destruct t as [|q d'|q d']; simpl in Ht; [naive_solver| |naive_solver].
      destruct Ht as [_ [= <-]]. unfold pidLocked. simpl. split_and!; [done..|by eexists|done|done].
    + inv_run Hs. inv_run Hr. split; [done|]. by eexists _, _, _.
Qed.

(** The accounting of a real exit at time [now]. *)
Definition restarting (now : Z) (st st' : runner) : Prop :=
  let backoff := backoffAfterExit (n_backoff st) (now - default now (n_startedAt st)) in
  st' = {| n_phase := RestartDelay (now + backoff); n_backoff := backoff; n_startedAt := n_startedAt st; n_pid := n_pid st |}.

(** A failed handover: survivors are killed before the next start. *)
Lemma handover_failed_inv st w r w' :
  handover_failed p st w = (r, w') → same_process w w' ∧ ∃ st' killed, r = Ok (st', []) ∧ restarting (o_clock w) st st' ∧
    o_signals w' = o_signals w ++ ((λ pid, (pid, SIGKILL)) <$> killed) ∧
    (∀ pid, pid ∈ killed → pid ≠ s_self p ∧ pooler (s_binary p) pid w) ∧
    (o_faults w = [] → ∀ pid, pooler (s_binary p) pid w → pid ≠ 0 → pid ≠ s_self p → pid ∈ killed) ∧
    UpgradesFailure (o_metrics w') = UpgradesFailure (o_metrics w) + 1 ∧
    UpgradesSuccess (o_metrics w') = UpgradesSuccess (o_metrics w) ∧
    ProcessRestartsTotal (o_metrics w') = ProcessRestartsTotal (o_metrics w) + 1.
Proof.
  intros Hr. unfold handover_failed, BinaryUpgradesTotal_Inc, sweepStrays in Hr.
  apply bind_inv in Hr as [([] & w1 & [= <-] & Hr)|(e & ? & ->)]; [|done].
  apply bind_inv in Hr as [([] & w2 & Hk & Hr)|(e & Hk & ->)].
  2: { apply bind_inv in Hk as [(? & ? & ? & [=])|(? & Hk & ?)]. by apply killStrays_inv in Hk as (? & ? & _). }
  apply bind_inv in Hk as [(ks & w3 & Hk & [= <-])|(? & Hk & ?)]; [|done].
  apply killStrays_inv in Hk as (killed & _ & (_ & _ & Hm & Hp & Hc & Hpr) & Hsig & Hks & Hall). simpl in *.
  destruct (restart_step_run st w3) as (w4 & Hrun & ([Hc4 Hpr4] & Hp4) & Hs4 & Hm4). rewrite Hrun in Hr. injection Hr as <- <-.
  split; [split; [split|]; congruence|].
  eexists _, killed. split; [done|]. split; [by rewrite Hc|]. split; [by rewrite Hs4|].
  split; [intros pid Hin; by destruct (Hks _ Hin) as (_ & ? & ?)|].
  split; [intros Hnf pid Hpl H0 Hself; by apply Hall|]. rewrite Hm4, Hm. simpl. lia.
Qed.

(** An adopted successor: counted as an upgrade, told to read its config again,
    with the backoff as it was and the uptime starting over. *)
Lemma handover_done_inv c st w r w' :
  handover_done p c st w = (r, w') → same_process w w' ∧ ∃ t armed,
    r = Ok ({| n_phase := Waiting t; n_backoff := n_backoff st; n_startedAt := Some (o_clock w);
               n_pid := pidLocked (o_process w) |}, armed) ∧ watches t (o_process w).
Proof.
  intros Hr. unfold handover_done, BinaryUpgradesTotal_Inc in Hr.
  apply bind_inv in Hr as [([] & w1 & [= <-] & Hr)|(e & ? & ->)]; [|done].
  apply bind_inv in Hr as [([] & w2 & Hc & Hr)|(e & Hc & ->)]; apply ignore_inv in Hc as [? [r1 Hc]]; [|done].
  assert (same_process w w2) as [Hi Hp].
  { pose proof (instant_Reload _ _ _ Hc) as Hi. split; [done|]. unfold Reload in Hc.
    apply bind_inv in Hc as [(pid & w3 & [= <- <-] & Hc)|(e & ? & ?)]; [|done].
    destruct (_ =? 0); [by inv_run Hc|]. by apply signalLocked_inv in Hc as [(_&_&_&?&_) _]. }
  apply bind_inv in Hr as [(now & w3 & [= <- <-] & Hr)|(e & ? & ->)]; [|done].
  apply bind_inv in Hr as [(pid & w3 & [= <- <-] & Hr)|(e & ? & ->)]; [|done].
  apply enter_wait_inv in Hr as ([Hi' Hp'] & t & armed & -> & Ht).
  split; [split; [by etrans|congruence]|]. exists t, armed. rewrite Hp in Ht. split; [|done].
  destruct Hi as [-> _]. by rewrite Hp.
Qed.

Lemma search_once_inv old w r w' :
  search_once p old w = (r, w') → instant w w' ∧ ∃ b, r = Ok b ∧
    if b : bool then ∃ pid, pid ≠ old ∧ pid ≠ s_self p ∧ pooler (s_binary p) pid w ∧ pooler (s_binary p) pid w' ∧
      p_cmd (o_process w') = None ∧ p_adoptedPid (o_process w') = pid
    else o_process w' = o_process w.
Proof.
  intros Hr. unfold search_once, on_process in Hr.
  apply bind_inv in Hr as [(found & w1 & Hf & Hr)|(e & Hf & ->)];
    apply findSuccessorPid_inv in Hf as ([_ Hp _ Hc Hpr] & _ & _ & fd & Heq & Hfd); [|done].
  injection Heq as <-. destruct found as [pid|]; inv_run Hr.
  - split; [by split|]. eexists. split; [done|]. destruct Hfd as (? & ? & Hpl). exists pid. split_and!; try done.
    unfold pooler in *. simpl. by rewrite Hpr.
  - split; [by split|]. by eexists.
Qed.

(** How a round of the search ends. *)
Inductive searched (c : bool) (deadline : Z) (st : runner) (w w' : os) : runner → Prop :=
  | Found t pid : watches t (o_process w') → pidLocked (o_process w') = pid → pid ≠ n_pid st → pid ≠ s_self p →
      pooler (s_binary p) pid w → p_cmd (o_process w') = None →
      searched c deadline st w w' {| n_phase := Waiting t; n_backoff := n_backoff st; n_startedAt := Some (o_clock w); n_pid := pid |}
  | Search_on : o_clock w ≤ deadline → o_process w' = o_process w →
      searched c deadline st w w' (at_phase (Searching deadline (o_clock w + successorPollInterval)) st)
  | Given_up st' : deadline < o_clock w → restarting (o_clock w) st st' → o_process w' = o_process w →
      searched c deadline st w w' st'.

Lemma search_step_inv c deadline st w r w' :
  search_step p c deadline st w = (r, w') → instant w w' ∧ ∃ st' armed, r = Ok (st', armed) ∧ searched c deadline st w w' st'.
Proof.
  intros Hr. unfold search_step in Hr.
  apply bind_inv in Hr as [(b & w1 & Hs & Hr)|(e & Hs & ->)]; apply search_once_inv in Hs as (Hi & b' & Heq & Hs); [|done].
  injection Heq as <-. pose proof Hi as [Hc _]. destruct b.
  - destruct Hs as (pid & Hold & Hself & Hpl & _ & Hcmd & Had).
    apply handover_done_inv in Hr as ((Hi' & Hp) & t & armed & -> & Ht). split; [by etrans|].
    assert (pidLocked (o_process w1) = pid) as Hpid.
    { unfold pidLocked. rewrite Had, Hcmd. by destruct (Z.eqb_spec pid 0). }
    eexists _, _. split; [done|]. rewrite Hc, Hpid. apply Found; try done; by rewrite Hp.
  - apply bind_inv in Hr as [(now & w2 & [= <- <-] & Hr)|(e & ? & ->)]; [|done]. rewrite Hc in Hr.
    destruct (Z.ltb_spec deadline (o_clock w)).
    + apply handover_failed_inv in Hr as ((Hi' & Hp) & st' & killed & -> & Hres & _). split; [by etrans|].
      eexists _, _. split; [done|]. rewrite Hc in Hres. apply Given_up; [done|done|congruence].
    + inv_run Hr. split; [done|]. eexists _, _. split; [done|]. by apply Search_on.
Qed.

Lemma fresh_inv w r w' :
  upgradeRequestFreshLocked p w = (r, w') → only_reads w w' ∧ ∃ b, r = Ok b ∧ (b = true → p_upgradeRequested (o_process w) = true).
Proof.
  intros Hr. unfold upgradeRequestFreshLocked in Hr.
  apply bind_inv in Hr as [(q & w1 & [= <- <-] & Hr)|(e & ? & ->)]; [|done].
  destruct (p_upgradeRequested (o_process w)) eqn:Hreq; simpl in Hr; [|inv_run Hr; split; [done|]; by eexists].
  apply bind_inv in Hr as [(age & w1 & [= <- <-] & Hr)|(e & ? & ->)]; [|done].
  apply bind_inv in Hr as [(d & w1 & Hd & Hr)|(e & Hd & ->)]; apply waitDelay_inv in Hd as (Ho & data & Hok & _); [|done].
  inv_run Hr. split; [done|]. by eexists.
Qed.
Lemma consume_inv w r w' :
  consumeUpgradeRequest p w = (r, w') → instant w w' ∧ o_process w' = set_upgradeRequested false (o_process w) ∧
  ∃ b, r = Ok b ∧ (b = true → p_upgradeRequested (o_process w) = true).
Proof.
  intros Hr. unfold consumeUpgradeRequest, on_process in Hr.
  apply bind_inv in Hr as [(b & w1 & Hf & Hr)|(e & Hf & ->)]; apply fresh_inv in Hf as ((fs & -> & _) & b' & Heq & Hb); [|done].
  inv_run Hr. split; [done|]. split; [done|]. by eexists.
Qed.

Lemma keeps_metrics_consume w r w' : consumeUpgradeRequest p w = (r, w') → o_metrics w' = o_metrics w.
Proof.
  intros Hr. unfold consumeUpgradeRequest, on_process in Hr.
  apply bind_inv in Hr as [(b & w1 & Hf & Hr)|(e & Hf & ->)]; apply fresh_inv in Hf as ((fs & -> & _) & b' & Heq & Hb); [|done].
  by inv_run Hr.
Qed.

(** How an exit is taken: shutdown, a crash, or the start of a handover (for which
    an upgrade must have been requested). *)
Inductive exited (c : bool) (st : runner) (w w' : os) : runner → Prop :=
  | Stopped : c = true → p_cmd (o_process w') = p_cmd (o_process w) →
      exited c st w w' (at_phase (Returned Canceled) st)
  | Crashed st' : c = false → restarting (o_clock w) st st' → p_cmd (o_process w') = p_cmd (o_process w) →
      ProcessRestartsTotal (o_metrics w') = ProcessRestartsTotal (o_metrics w) + 1 → exited c st w w' st'
  | Handing_over w1 st' : c = false → p_upgradeRequested (o_process w) = true → instant w w1 →
      p_cmd (o_process w1) = p_cmd (o_process w) →
      searched c (o_clock w + s_successorTimeout p) st w1 w' st' → exited c st w w' st'.

Lemma exit_step_inv c t st w r w' :
  exit_step p c t st w = (r, w') → instant w w' ∧ ∃ st' armed, r = Ok (st', armed) ∧ exited c st w w' st'.
Proof.
  intros Hr. unfold exit_step in Hr.
  apply bind_inv in Hr as [([] & w1 & Hf & Hr)|(e & Hf & ->)]; [|by destruct t].
  assert (instant w w1 ∧ p_cmd (o_process w1) = p_cmd (o_process w) ∧ o_metrics w1 = o_metrics w ∧
    p_upgradeRequested (o_process w1) = p_upgradeRequested (o_process w)) as (Hi & Hcmd & Hm & Hreq).
  { destruct t; [by inv_run Hf|by inv_run Hf|]. unfold on_process in Hf. inv_run Hf. simpl. by destruct (_ =? _). }
  pose proof Hi as [Hc Hpr]. destruct c.
  - inv_run Hr. split; [done|]. eexists _, _. split; [done|]. by apply Stopped.
  - apply bind_inv in Hr as [(b & w2 & Hb & Hr)|(e & Hb & ->)];
      [|by apply consume_inv in Hb as (_ & _ & ? & ? & _)].
    pose proof (keeps_metrics_consume _ _ _ Hb) as Hm2.
    apply consume_inv in Hb as (Hi2 & Hp2 & b' & Heq & Hb). injection Heq as <-.
    pose proof Hi2 as [Hc2 _]. destruct b.
    + apply bind_inv in Hr as [(now & w3 & [= <- <-] & Hr)|(e & ? & ->)]; [|done].
      apply search_step_inv in Hr as (Hi3 & st' & armed & -> & Hs). split; [by do 2 (etrans; [done|])|].
      eexists _, _. split; [done|]. apply (Handing_over _ _ _ _ w2); [done|by rewrite <- Hreq; apply Hb|by etrans|by rewrite Hp2|].
      by rewrite <- Hc, <- Hc2.
    + destruct (restart_step_run st w2) as (w4 & Hrun & ([Hc4 Hpr4] & Hp4) & _ & Hm4). rewrite Hrun in Hr. injection Hr as <- <-.
      split; [by do 2 (etrans; [done|])|]. eexists _, _. split; [done|].
      apply Crashed; [done|unfold restarting; congruence|by rewrite Hp4, Hp2|by rewrite Hm4, Hm2, Hm].
Qed.
End steps.

(** ** The invariant of the loop *)
Definition positive_pids (procs : list proc) : Prop := Forall (λ pr, ∀ pid, proc_pid pr = Some pid → 0 < pid) procs.

Record sys_inv (p : settings) (s : sys) : Prop := {
  iv_backoff : initialBackoff ≤ n_backoff (y_runner s) ≤ maxBackoff;
  iv_started : ∀ t, n_startedAt (y_runner s) = Some t → t ≤ o_clock (y_os s);
  iv_paced : ∀ t, n_startedAt (y_runner s) = Some t →
    match n_phase (y_runner s) with
    | Starting => t + initialBackoff ≤ o_clock (y_os s)
    | StartDelay until | RestartDelay until => t + initialBackoff ≤ until
    | _ => True
    end;
  iv_phase :
    match n_phase (y_runner s) with
    | Waiting t => watches t (o_process (y_os s)) ∧ pidLocked (o_process (y_os s)) = n_pid (y_runner s) ∧
        0 < n_pid (y_runner s)
    | Searching deadline next => deadline - next ≤ s_successorTimeout p - successorPollInterval
    | _ => True
    end;
  iv_procs : positive_pids (o_procs (y_os s))
}.

(** Nothing about the supervised process changes but the upgrade request. *)
Definition same_supervised (w w' : os) : Prop :=
  instant w w' ∧ p_cmd (o_process w') = p_cmd (o_process w) ∧ p_adoptedPid (o_process w') = p_adoptedPid (o_process w).
#[export] Instance same_supervised_preorder : PreOrder same_supervised.
Proof. split; [done|]. intros w1 w2 w3 (?&?&?) (?&?&?). split; [by etrans|split; congruence]. Qed.

Section invariant.
  #[local] Set Default Proof Using "Type*".
  Context {YM : Yaml} (p : settings).

Lemma sup_Kill pid sig : keeps_rel same_supervised (Kill pid sig).
Proof. intros w r w' ((_ & _ & _ & Hp & ? & ?) & _)%Kill_inv. split; [done|by rewrite Hp]. Qed.
Lemma sup_read path : keeps_rel same_supervised (ReadFile path).
Proof. apply keeps_syscall; [apply _|done|done|]. intros w. by destruct (o_files w !! path). Qed.
Lemma sup_waitDelay : keeps_rel same_supervised (waitDelay p).
Proof. intros w r w' [(fs & -> & _) _]%waitDelay_inv. done. Qed.
Lemma sup_Pid : keeps_rel same_supervised Pid.
Proof. apply keeps_gets, _. Qed.
#[local] Hint Resolve sup_Kill sup_read sup_waitDelay sup_Pid : frames.
Lemma sup_signal sig : keeps_rel same_supervised (signalLocked sig).
Proof. unfold signalLocked. keep. Qed.
#[local] Hint Resolve sup_signal : frames.
Lemma sup_call c : keeps_rel same_supervised (run_call p c).
Proof.
  destruct c; simpl; unfold Reload, Restart, Upgrade, UpgradeInFlight, upgradeRequestFreshLocked, on_process; keep;
    by apply keeps_modify; [apply _|].
Qed.
Lemma sup_terminate : keeps_rel same_supervised (terminateIfAdopted p).
Proof. unfold terminateIfAdopted, killAdopted. keep. Qed.
#[local] Hint Resolve sup_terminate : frames.
Lemma sup_cancel t : keeps_rel same_supervised (cancel_step p t).
Proof. unfold cancel_step, clock. destruct t; keep. Qed.
Lemma sup_kill_now t ph : keeps_rel same_supervised (kill_now t ph).
Proof. unfold kill_now, killAdopted. keep. Qed.

Lemma watches_same t w w' : same_supervised w w' → watches t (o_process w) → watches t (o_process w').
Proof. intros (_ & Hc & Ha). destruct t; simpl; by rewrite ?Hc, ?Ha. Qed.
Lemma pidLocked_same w w' : same_supervised w w' → pidLocked (o_process w') = pidLocked (o_process w).
Proof. intros (_ & Hc & Ha). unfold pidLocked. by rewrite Hc, Ha. Qed.

(** A change of the world that leaves the loop where it is. *)
Lemma inv_beside s cancelled timers w' :
  sys_inv p s → same_supervised (y_os s) w' →
  sys_inv p {| y_cancelled := cancelled; y_runner := y_runner s; y_timers := timers; y_os := w' |}.
Proof.
  intros [Hb Hs Hpc Hph Hpr] Hsame. pose proof Hsame as ([Hc Hp] & _). split; simpl; rewrite ?Hc, ?Hp; try done.
  destruct (n_phase _); try done. destruct Hph as (Hw & Hpid & Hpos). split_and!; [by eapply watches_same| |done].
  by rewrite (pidLocked_same _ _ Hsame).
Qed.

Lemma pooler_positive b pid w : positive_pids (o_procs w) → pooler b pid w → 0 < pid.
Proof. intros Hpos (pr & Hin & Hpid & _). unfold positive_pids in Hpos. rewrite Forall_forall in Hpos. by eapply Hpos. Qed.

Lemma restarting_inv s cancelled timers st' w' now :
  sys_inv p s → restarting now (y_runner s) st' → now = o_clock (y_os s) → instant (y_os s) w' →
  sys_inv p {| y_cancelled := cancelled; y_runner := st'; y_timers := timers; y_os := w' |}.
Proof.
  intros [Hb Hs Hpc Hph Hpr] -> -> [Hc Hp]. split; simpl; rewrite ?Hc, ?Hp; try done.
  - by apply backoffAfterExit_bounds.
  - intros t Ht. specialize (Hs t Ht). pose proof (backoffAfterExit_bounds (n_backoff (y_runner s))
      (o_clock (y_os s) - default (o_clock (y_os s)) (n_startedAt (y_runner s))) Hb). lia.
Qed.

Lemma searched_inv s c deadline w st' w' cancelled timers :
  sys_inv p s → instant (y_os s) w → instant w w' → deadline - o_clock w ≤ s_successorTimeout p →
  searched p c deadline (y_runner s) w w' st' →
  sys_inv p {| y_cancelled := cancelled; y_runner := st'; y_timers := timers; y_os := w' |}.
Proof.
  intros Hinv Hi1 Hi2 Hd Hsr. pose proof Hinv as [Hb Hs Hpc Hph Hpr]. pose proof Hi1 as [Hc1 Hp1]. pose proof Hi2 as [Hc2 Hp2].
  destruct Hsr as [t pid Hw Hpid Hold Hself Hpl Hcmd|Hle Hp|st' Hlt Hres Hp].
  - split; simpl; rewrite ?Hc2, ?Hp2, ?Hc1, ?Hp1; try done.
    + intros t' [= <-]. lia.
    + split_and!; [done..|]. eapply pooler_positive; [|done]. by rewrite Hp1.
  - split; simpl; rewrite ?Hc2, ?Hp2, ?Hc1, ?Hp1; try done. lia.
  - eapply (restarting_inv s); [done|done|by rewrite Hc1|by etrans].
Qed.

Lemma exited_inv s w' t st' cancelled timers :
  sys_inv p s → n_phase (y_runner s) = Waiting t → instant (y_os s) w' →
  exited p (is_cancelled s) (y_runner s) (y_os s) w' st' →
  sys_inv p {| y_cancelled := cancelled; y_runner := st'; y_timers := timers; y_os := w' |}.
Proof.
  intros Hinv Ht Hi Hex. pose proof Hinv as [Hb Hs Hpc Hph Hpr]. pose proof Hi as [Hc Hp].
  destruct Hex as [_ _|st' _ Hres _ _|w1 st' _ _ Hi1 _ Hsr].
  - split; simpl; by rewrite ?Hc, ?Hp.
  - by eapply (restarting_inv s).
  - pose proof Hi1 as [Hc1 Hp1]. eapply searched_inv; [done|exact Hi1| |..|exact Hsr].
    + split; congruence.
    + lia.
Qed.

Lemma resume_Some m s s' :
  resume m s = Some s' → ∃ st armed w, m (y_os s) = (Ok (st, armed), w) ∧
    s' = {| y_cancelled := y_cancelled s; y_runner := st; y_timers := y_timers s ++ armed; y_os := w |}.
Proof. unfold resume. destruct (m (y_os s)) as [[[st armed]|] w]; [|done]. intros [= <-]. eauto. Qed.
Lemma goto_Some st s s' :
  goto st s = Some s' → s' = {| y_cancelled := y_cancelled s; y_runner := st; y_timers := y_timers s ++ []; y_os := y_os s |}.
Proof. by intros [= <-]. Qed.

Lemma start_inv s answer s' :
  sys_inv p s → match answer with Ok pid => (0 <? pid) && alive pid (y_os s) | Err _ => true end = true →
  resume (start_step p (is_cancelled s) answer (y_runner s)) s = Some s' → sys_inv p s'.
Proof.
  intros [Hb Hs Hpc Hph Hpr] Hans (st & armed & w & Hr & ->)%resume_Some.
  apply start_step_inv in Hr as ([Hc Hp] & ph & pid & armed' & [= -> ->] & Hres).
  assert (initialBackoff ≤ n_backoff (y_runner s)) as Hb1 by lia.
  split; simpl; rewrite ?Hc, ?Hp; try done.
  - intros t [= <-]. lia.
  - intros t [= <-]. destruct ph; try done. destruct Hres as (_ & -> & _). lia.
  - destruct ph; try done. destruct Hres as (_ & -> & (d & ->) & Hw). split; [done|]. simpl in Hw. destruct Hw as [Ha Hcm].
    unfold pidLocked. rewrite Ha, Hcm. simpl. split; [done|]. apply andb_prop in Hans as [? _]. by apply Z.ltb_lt.
Qed.

Lemma runner_step_inv a s s' : sys_inv p s → act_runner p a s = Some s' → sys_inv p s'.
Proof.
  intros Hinv Ha. pose proof Hinv as [Hb Hs Hpc Hph Hpr]. unfold act_runner in Ha.
  destruct a as [answer| | | | | | | |]; try done; destruct (n_phase (y_runner s)) as [|until|t|deadline next|until|e] eqn:Hn; try done.
  - destruct (match answer with Ok _ => _ | Err _ => _ end) eqn:Hans; [|done]. by eapply start_inv.
  - destruct (wait_over s t); [|done]. apply resume_Some in Ha as (st & armed & w & Hr & ->).
    apply exit_step_inv in Hr as (Hi & st' & armed' & [= -> ->] & Hex). by eapply exited_inv.
  - destruct (Z.leb_spec until (o_clock (y_os s))); [|done]. apply goto_Some in Ha as ->. split; simpl; try done.
    + rewrite next_backoff by done. unfold initialBackoff, maxBackoff, Second in *. lia.
    + intros t Ht. specialize (Hpc t Ht). lia.
  - destruct (Z.leb_spec next (o_clock (y_os s))); [|done]. apply resume_Some in Ha as (st & armed & w & Hr & ->).
    apply search_step_inv in Hr as (Hi & st' & armed' & [= -> ->] & Hsr).
    eapply searched_inv; [done| |exact Hi| |exact Hsr]; [done|].
    unfold successorPollInterval, Millisecond in Hph. lia.
  - destruct (Z.leb_spec until (o_clock (y_os s))); [|done]. apply goto_Some in Ha as ->. split; simpl; try done.
    intros t Ht. specialize (Hpc t Ht). lia.
  - destruct (is_cancelled s); [|done]. apply goto_Some in Ha as ->. by split.
  - destruct (is_cancelled s); [|done]. apply resume_Some in Ha as (st & armed & w & Hr & ->).
    apply handover_failed_inv in Hr as ((Hi & Hp) & st' & killed & [= -> ->] & Hres & _). by eapply (restarting_inv s).
  - destruct (is_cancelled s); [|done]. apply goto_Some in Ha as ->. by split.
Qed.

Lemma positive_pids_forallb procs :
  forallb (λ pr, match proc_pid pr with Some pid => 0 <? pid | None => true end) procs = true → positive_pids procs.
Proof.
  intros Hf. unfold positive_pids. rewrite Forall_forall. intros pr Hin pid Hpid.
  rewrite forallb_forall in Hf. specialize (Hf pr (proj1 (list_elem_of_In _ _) Hin)). rewrite Hpid in Hf. by apply Z.ltb_lt.
Qed.

Lemma env_step_inv a s s' : sys_inv p s → act_env p a s = Some s' → sys_inv p s'.
Proof.
  intros Hinv Ha. pose proof Hinv as [Hb Hs Hpc Hph Hpr]. unfold act_env in Ha.
  destruct a as [| | | |c| | |d|procs]; try done.
  - destruct (run_call p c (y_os s)) as [r w] eqn:Hr. injection Ha as <-.
    by apply inv_beside; [|eapply sup_call].
  - destruct (is_cancelled s); [done|]. simpl in Ha. destruct (n_phase (y_runner s)) as [|until|t|deadline next|until|e];
      try (injection Ha as <-; by apply inv_beside).
    destruct (cancel_step p t (y_os s)) as [[armed|] w] eqn:Hr; [|done]. injection Ha as <-.
    apply inv_beside; [done|]. by eapply sup_cancel.
  - destruct (y_timers s) as [|t ts]; [done|]. destruct (_ <=? _); [|done].
    destruct (kill_now t _ (y_os s)) as [r w] eqn:Hr. injection Ha as <-. apply inv_beside; [done|]. by eapply sup_kill_now.
  - destruct (Z.ltb_spec 0 d); [|done]. injection Ha as <-. split; simpl; try done.
    + intros t Ht. specialize (Hs t Ht). lia.
    + intros t Ht. specialize (Hpc t Ht). destruct (n_phase _); lia.
  - destruct (forallb _ procs) eqn:Hf; [|done]. injection Ha as <-. split; simpl; try done. by apply positive_pids_forallb.
Qed.

Lemma act_inv a s s' : sys_inv p s → act p a s = Some s' → sys_inv p s'.
Proof. unfold act. destruct (of_runner a); [apply runner_step_inv|apply env_step_inv]. Qed.
Lemma run_cons a acts s s' : run p (a :: acts) s = Some s' ↔ ∃ s1, act p a s = Some s1 ∧ run p acts s1 = Some s'.
Proof. simpl. destruct (act p a s) as [s1|]; naive_solver. Qed.
Lemma run_inv acts s s' : sys_inv p s → run p acts s = Some s' → sys_inv p s'.
Proof.
  revert s. induction acts as [|a acts IH]; intros s Hinv; [by intros [= <-]|].
  intros (s1 & Ha & Hr)%run_cons. eapply IH; [by eapply act_inv|done].
Qed.

(** Any state the wrapper starts the loop in. *)
Definition initial (s : sys) : Prop :=
  y_runner s = initial_runner ∧ y_cancelled s = None ∧ y_timers s = [] ∧ o_process (y_os s) = idle_process ∧
  positive_pids (o_procs (y_os s)).
Lemma initial_inv s : initial s → sys_inv p s.
Proof. intros (Hr & _ & _ & _ & Hp). split; rewrite ?Hr; done. Qed.

(** ** Pacing *)

(** The times at which a run asks the kernel for a process. *)
Fixpoint spawn_times (acts : list action) (s : sys) : list Z :=
  match acts with
  | [] => []
  | a :: acts =>
      match act p a s with
      | Some s' => (match a with ASpawn _ => [o_clock (y_os s)] | _ => [] end) ++ spawn_times acts s'
      | None => []
      end
  end.

(** The start the uptime counts from only moves forward. *)
Definition start_le (a b : option Z) : Prop := ∀ t, a = Some t → ∃ t', b = Some t' ∧ t ≤ t'.
Lemma start_le_refl a : start_le a a.
Proof. intros t ->. by exists t. Qed.
Lemma start_le_now s now : sys_inv p s → now = o_clock (y_os s) → start_le (n_startedAt (y_runner s)) (Some now).
Proof. intros [_ Hs _ _ _] -> t Ht. exists (o_clock (y_os s)). split; [done|by apply Hs]. Qed.
Lemma restarting_start now st st' : restarting now st st' → n_startedAt st' = n_startedAt st.
Proof. by intros ->. Qed.
Lemma searched_start s c deadline w w' st' :
  sys_inv p s → o_clock w = o_clock (y_os s) → searched p c deadline (y_runner s) w w' st' →
  start_le (n_startedAt (y_runner s)) (n_startedAt st').
Proof.
  intros Hinv Hc [t pid _ _ _ _ _ _|_ _|st1 _ Hres _]; simpl; [by apply start_le_now|apply start_le_refl|].
  rewrite (restarting_start _ _ _ Hres). apply start_le_refl.
Qed.

Lemma act_start_le a s s' :
  sys_inv p s → act p a s = Some s' →
  start_le (n_startedAt (y_runner s)) (n_startedAt (y_runner s')) ∧
  match a with ASpawn _ => n_startedAt (y_runner s') = Some (o_clock (y_os s)) ∧ n_phase (y_runner s) = Starting | _ => True end.
Proof.
  intros Hinv Ha. unfold act in Ha. destruct (of_runner a) eqn:Hof.
  2: { assert (y_runner s' = y_runner s) as ->; [|split; [apply start_le_refl|by destruct a]].
       unfold act_env in Ha. destruct a; try done; repeat case_match; simplify_eq; done. }
  unfold act_runner in Ha. destruct a as [answer| | | | | | | |]; try done;
    destruct (n_phase (y_runner s)) as [|until|t|deadline next|until|e] eqn:Hn; try done; (split; [|try done]).
  all: repeat match type of Ha with (if ?b then _ else _) = _ => destruct b; [|done] end.
  all: try (apply goto_Some in Ha as ->; apply start_le_refl).
  all: apply resume_Some in Ha as (st & armed & w & Hr & ->); simpl.
  - apply start_step_inv in Hr as (_ & ph & pid & armed' & [= -> ->] & _). by apply start_le_now.
  - apply start_step_inv in Hr as (_ & ph & pid & armed' & [= -> ->] & _). done.
  - apply exit_step_inv in Hr as (_ & st' & armed' & [= -> ->] & [_ _|st1 _ Hres _ _|w1 st1 _ _ [Hc1 _] _ Hsr]).
    + apply start_le_refl.
    + rewrite (restarting_start _ _ _ Hres). apply start_le_refl.
    + by eapply searched_start.
  - apply search_step_inv in Hr as (_ & st' & armed' & [= -> ->] & Hsr). by eapply searched_start.
  - apply handover_failed_inv in Hr as (_ & st' & killed & [= -> ->] & Hres & _).
    rewrite (restarting_start _ _ _ Hres). apply start_le_refl.
Qed.

Lemma spawn_times_paced acts s :
  sys_inv p s → Sorted (λ a b, a + initialBackoff ≤ b) (spawn_times acts s) ∧
  ∀ t, start_le (Some t) (n_startedAt (y_runner s)) → HdRel (λ a b, a + initialBackoff ≤ b) t (spawn_times acts s).
Proof.
  revert s. induction acts as [|a acts IH]; intros s Hinv; simpl; [by split|].
  destruct (act p a s) as [s'|] eqn:Ha; [|by split].
  destruct (act_start_le _ _ _ Hinv Ha) as [Hle Hsp]. pose proof (act_inv _ _ _ Hinv Ha) as Hinv'.
  destruct (IH s' Hinv') as [Hsorted Hhd].
  assert (∀ t, start_le (Some t) (n_startedAt (y_runner s)) → start_le (Some t) (n_startedAt (y_runner s'))) as Htrans.
  { intros t Ht t1 [= <-]. destruct (Ht t eq_refl) as (t' & Ht' & ?). destruct (Hle t' Ht') as (t2 & ? & ?).
    exists t2. split; [done|lia]. }
  destruct a as [answer| | | | | | | |]; simpl; try (split; [done|]; intros t Ht; by apply Hhd, Htrans).
  destruct Hsp as [Hst Hph]. split.
  - constructor; [done|]. apply Hhd. rewrite Hst. apply start_le_refl.
  - intros t Ht. constructor. destruct (Ht t eq_refl) as (t' & Ht' & ?).
    pose proof (iv_paced _ _ Hinv t' Ht') as Hp. rewrite Hph in Hp. lia.
Qed.

(** ** Shutdown *)

(** How often the goroutine can still be woken once the context is cancelled. *)
Definition wakes_left (ph : phase) : nat :=
  match ph with
  | Returned _ => 0
  | Starting | Waiting _ => 1
  | StartDelay _ | RestartDelay _ => 2
  | Searching deadline next => 3 + Z.to_nat ((deadline - next) / successorPollInterval + 1)
  end.
Definition started_nothing (w w' : os) : Prop :=
  p_cmd (o_process w') = p_cmd (o_process w) ∨ p_cmd (o_process w') = None.
#[export] Instance started_nothing_preorder : PreOrder started_nothing.
Proof. split; [by left|]. unfold started_nothing. intros w1 w2 w3 [] []; naive_solver congruence. Qed.

Lemma polls_decrease deadline next now :
  next ≤ now → now ≤ deadline →
  (Z.to_nat ((deadline - (now + successorPollInterval)) / successorPollInterval + 1) <
   Z.to_nat ((deadline - next) / successorPollInterval + 1))%nat.
Proof.
  intros Hn Hd. unfold successorPollInterval, Millisecond in *.
  replace (deadline - (now + 200 * 1000000)) with (deadline - now + (-1) * (200 * 1000000)) by lia.
  rewrite Z.div_add by lia. pose proof (Z.div_le_mono (deadline - now) (deadline - next) (200 * 1000000) ltac:(lia) ltac:(lia)).
  pose proof (Z.div_pos (deadline - now) (200 * 1000000) ltac:(lia) ltac:(lia)). lia.
Qed.

Lemma restarting_wakes now st st' : restarting now st st' → wakes_left (n_phase st') = 2%nat.
Proof. by intros ->. Qed.

Lemma cancelled_step a s s' :
  is_cancelled s = true → act_runner p a s = Some s' →
  (wakes_left (n_phase (y_runner s')) < wakes_left (n_phase (y_runner s)))%nat ∧
  y_cancelled s' = y_cancelled s ∧ started_nothing (y_os s) (y_os s').
Proof.
  intros Hcan Ha. unfold act_runner in Ha. rewrite Hcan in Ha.
  destruct a as [answer| | | | | | | |]; try done;
    destruct (n_phase (y_runner s)) as [|until|t|deadline next|until|e] eqn:Hn; try done.
  all: try (repeat match type of Ha with (if ?b then _ else _) = _ => destruct b; [|done] end;
            apply goto_Some in Ha as ->; simpl; split_and!; [lia|done|by left]).
  - repeat match type of Ha with (if ?b then _ else _) = _ => destruct b; [|done] end.
    apply resume_Some in Ha as (st & armed & w & Hr & ->).
    apply start_step_inv in Hr as (_ & ph & pid & armed' & [= -> ->] & Hres). simpl.
    destruct ph; destruct_and? Hres; try done. split_and!; [simpl; lia|done|by right].
  - destruct (wait_over s t); [|done]. apply resume_Some in Ha as (st & armed & w & Hr & ->).
    apply exit_step_inv in Hr as (_ & st' & armed' & [= -> ->] & [_ Hcmd|? ? ? ? ?|? ? ? ? ? ? ?]); try done.
    split_and!; [simpl; lia|done|by left].
  - destruct (Z.leb_spec next (o_clock (y_os s))); [|done]. apply resume_Some in Ha as (st & armed & w & Hr & ->).
    apply search_step_inv in Hr as (Hi & st' & armed' & [= -> ->] & [t pid _ _ _ _ _ Hcmd|Hle Hp|st1 _ Hres Hp]).
    + split_and!; [simpl; lia|done|by right].
    + split_and!; [|done|by left; simpl; rewrite Hp]. simpl.
      pose proof (polls_decrease deadline next (o_clock (y_os s)) ltac:(lia) Hle). lia.
    + split_and!; [|done|by left; simpl; rewrite Hp]. simpl. rewrite (restarting_wakes _ _ _ Hres). lia.
  - apply resume_Some in Ha as (st & armed & w & Hr & ->).
    apply handover_failed_inv in Hr as ((Hi & Hp) & st' & killed & [= -> ->] & Hres & _).
    split_and!; [|done|by left; simpl; rewrite Hp]. simpl. rewrite (restarting_wakes _ _ _ Hres). lia.
Qed.

Lemma env_same a s s' :
  act_env p a s = Some s' → y_runner s' = y_runner s ∧ (is_cancelled s = true → y_cancelled s' = y_cancelled s) ∧
  started_nothing (y_os s) (y_os s').
Proof.
  intros Ha. unfold act_env in Ha. destruct a as [| | | |c| | |d|procs]; try done.
  - destruct (run_call p c (y_os s)) as [r w] eqn:Hr. injection Ha as <-.
    apply sup_call in Hr as (_ & ? & _). split_and!; [done|done|by left].
  - destruct (is_cancelled s); [done|]. simpl in Ha. destruct (n_phase (y_runner s)) as [|until|t|deadline next|until|e];
      try (injection Ha as <-; split_and!; [done|done|by left]).
    destruct (cancel_step p t (y_os s)) as [[armed|] w] eqn:Hr; [|done]. injection Ha as <-.
    apply sup_cancel in Hr as (_ & ? & _). split_and!; [done|done|by left].
  - destruct (y_timers s) as [|t ts]; [done|]. destruct (_ <=? _); [|done].
    destruct (kill_now t _ (y_os s)) as [r w] eqn:Hr. injection Ha as <-.
    apply sup_kill_now in Hr as (_ & ? & _). split_and!; [done|done|by left].
  - destruct (_ <? _); [|done]. injection Ha as <-. split_and!; [done|done|by left].
  - destruct (forallb _ procs); [|done]. injection Ha as <-. split_and!; [done|done|by left].
Qed.

Lemma cancelled_run acts s s' :
  is_cancelled s = true → run p acts s = Some s' →
  (length (filter (λ a, of_runner a = true) acts) + wakes_left (n_phase (y_runner s')) ≤ wakes_left (n_phase (y_runner s)))%nat ∧
  is_cancelled s' = true ∧ started_nothing (y_os s) (y_os s').
Proof.
  revert s. induction acts as [|a acts IH]; intros s Hcan; [intros [= <-]; by split_and!|].
  intros (s1 & Ha & Hr)%run_cons. rewrite filter_cons. unfold act in Ha. destruct (of_runner a) eqn:Hof.
  - destruct (cancelled_step _ _ _ Hcan Ha) as (Hm & Hc1 & Hn1).
    destruct (IH s1) as (Hlen & Hc & Hn); [by unfold is_cancelled; rewrite Hc1|done|].
    rewrite decide_True by done. simpl. split_and!; [lia|done|by etrans].
  - destruct (env_same _ _ _ Ha) as (Hst & Hc1 & Hn1).
    destruct (IH s1) as (Hlen & Hc & Hn); [by unfold is_cancelled; rewrite Hc1|done|].
    rewrite decide_False by done. rewrite Hst in Hlen. split_and!; [done|done|by etrans].
Qed.

Lemma resume_Ok m s st armed w : m (y_os s) = (Ok (st, armed), w) → ∃ s', resume m s = Some s'.
Proof. intros Hm. unfold resume. rewrite Hm. by eexists. Qed.
Lemma cancelled_progress s :
  is_cancelled s = true →
  (∃ e, n_phase (y_runner s) = Returned e) ∨ (∃ t, n_phase (y_runner s) = Waiting t ∧ wait_over s t = false) ∨
  ∃ a s', of_runner a = true ∧ act p a s = Some s'.
Proof.
  intros Hcan. destruct (n_phase (y_runner s)) as [|until|t|deadline next|until|e] eqn:Hn.
  - right; right. exists (ASpawn (Err Canceled)). unfold act, act_runner. rewrite Hn. simpl.
    destruct (start_step p (is_cancelled s) (Err Canceled) (y_runner s) (y_os s)) as [r w] eqn:Hr.
    destruct (start_step_inv _ _ _ _ _ _ _ Hr) as (_ & ph & pid & armed & -> & _).
    destruct (resume_Ok _ _ _ _ _ Hr) as [s' Hs']. by exists s'.
  - right; right. exists ADone. unfold act, act_runner. rewrite Hn, Hcan. by eexists.
  - destruct (wait_over s t) eqn:Hw; [|right; left; by exists t]. right; right. exists AExit. unfold act, act_runner.
    rewrite Hn, Hw. simpl. destruct (exit_step p (is_cancelled s) t (y_runner s) (y_os s)) as [r w] eqn:Hr.
    destruct (exit_step_inv _ _ _ _ _ _ _ Hr) as (_ & st' & armed & -> & _).
    destruct (resume_Ok _ _ _ _ _ Hr) as [s' Hs']. by exists s'.
  - right; right. exists ADone. unfold act, act_runner. rewrite Hn, Hcan. simpl.
    destruct (handover_failed p (y_runner s) (y_os s)) as [r w] eqn:Hr.
    destruct (handover_failed_inv _ _ _ _ _ Hr) as (_ & st' & killed & -> & _).
    destruct (resume_Ok _ _ _ _ _ Hr) as [s' Hs']. by exists s'.
  - right; right. exists ADone. unfold act, act_runner. rewrite Hn, Hcan. by eexists.
  - left. by exists e.
Qed.

Lemma wakes_bound s :
  sys_inv p s → s_successorTimeout p = successorSearchTimeout → (wakes_left (n_phase (y_runner s)) ≤ 28)%nat.
Proof using.
  intros [_ _ _ Hph _] Htm. destruct (n_phase (y_runner s)) as [|until|t|deadline next|until|e]; simpl; try lia. rewrite Htm in Hph.
  assert ((deadline - next) / successorPollInterval ≤ 24); [|lia].
  change 24 with ((successorSearchTimeout - successorPollInterval) / successorPollInterval). by apply Z.div_le_mono.
Qed.

(** The loop returns only once it was cancelled, and says so. *)
Definition returned_cancelled (s : sys) : Prop :=
  ∀ e, n_phase (y_runner s) = Returned e → e = Canceled ∧ is_cancelled s = true.
Lemma act_returned a s s' : returned_cancelled s → act p a s = Some s' → returned_cancelled s'.
Proof.
  intros Hinv Ha. unfold act in Ha. destruct (of_runner a) eqn:Hof.
  - unfold act_runner in Ha.
    destruct a as [answer| | | | | | | |]; try done;
      destruct (n_phase (y_runner s)) as [|until|t|deadline next|until|e0] eqn:Hn; try done;
      unfold returned_cancelled, is_cancelled in *;
      repeat match type of Ha with (if ?b then _ else _) = _ => destruct b eqn:?; [|done] end;
      try (by apply goto_Some in Ha as ->; intros e [= <-]);
      apply resume_Some in Ha as (st & armed & w & Hr & ->); intros e He; cbn [y_runner y_cancelled] in *.
    + apply start_step_inv in Hr as (_ & ph & pid & armed' & [= -> ->] & Hres). simpl in He. subst ph. naive_solver.
    + apply exit_step_inv in Hr as (_ & st' & armed' & [= -> ->] & Hx). revert He. destruct Hx as [Hc|st1 _ Hres|w1 st1 _ _ _ _ Hs].
      * by intros [= <-].
      * by rewrite Hres.
      * destruct Hs as [| |st2 _ Hres]; [done|done|by rewrite Hres].
    + apply search_step_inv in Hr as (_ & st' & armed' & [= -> ->] & Hs). revert He.
      destruct Hs as [| |st1 _ Hres]; [done|done|by rewrite Hres].
    + apply handover_failed_inv in Hr as (_ & st' & killed & [= -> ->] & Hres & _). by rewrite Hres in He.
  - destruct (env_same _ _ _ Ha) as (Hst & Hc & _). intros e He. rewrite Hst in He. apply Hinv in He as [-> He].
    split; [done|]. unfold is_cancelled in *. by rewrite Hc.
Qed.

(** ** Properties *)

(** Whom the loop waits for. *)
Lemma waiting_pid s t :
  sys_inv p s → n_phase (y_runner s) = Waiting t →
  let pid := n_pid (y_runner s) in
  0 < pid ∧ (∃ d, t = T_child pid d ∨ t = T_adopted pid d) ∧ pidLocked (o_process (y_os s)) = pid.
Proof using.
  intros [_ _ _ Hph _] Ht pid. rewrite Ht in Hph. destruct Hph as (Hw & Hpid & Hpos). split_and!; [done| |done].
  unfold pid. rewrite <- Hpid. unfold pidLocked. destruct t as [|q d|q d]; simpl in Hw; destruct Hw as [Ha Hc].
  - unfold pidLocked in Hpid. rewrite Ha, Hc in Hpid. simpl in Hpid. lia.
  - exists d. left. by rewrite Ha, Hc.
  - exists d. right. rewrite Ha. by destruct (Z.eqb_spec q 0).
Qed.

(** C5 — Exactly one process is supervised: whatever processes, watchers, failing
    calls and cancellations do, whenever the loop waits, it waits for the process
    of [Pid()], the started child or the adopted successor, and every signal a
    watcher asks for goes to that process. *)
Theorem supervises_one acts s0 s t :
  initial s0 → run p acts s0 = Some s → n_phase (y_runner s) = Waiting t →
  let pid := n_pid (y_runner s) in
  0 < pid ∧ (∃ d, t = T_child pid d ∨ t = T_adopted pid d) ∧
  ∀ c w', run_call p c (y_os s) = (Ok (), w') →
    o_signals w' = o_signals (y_os s) ++
      match c with C_Reload => [(pid, SIGHUP)] | C_Restart => [(pid, SIGTERM)] | C_Upgrade => [(pid, SIGUSR2)] | C_UpgradeInFlight => [] end.
Proof.
  intros H0 Hr Ht pid. destruct (waiting_pid _ _ (run_inv _ _ _ (initial_inv _ H0) Hr) Ht) as (Hpos & Hd & Hpid).
  split_and!; [done..|].
  intros c w' Hc. unfold pid. rewrite <- Hpid. destruct c; simpl in Hc.
    + unfold Reload in Hc. apply bind_inv in Hc as [(? & ? & [= <- <-] & Hc)|(? & ? & ?)]; [|done].
      destruct (_ =? 0); [by inv_run Hc|]. by apply signalLocked_inv in Hc as [_ [_ ?]].
    + unfold Restart in Hc. apply bind_inv in Hc as [(? & ? & [= <- <-] & Hc)|(? & ? & ?)]; [|done].
      destruct (_ =? 0); [by inv_run Hc|]. by apply signalLocked_inv in Hc as [_ [_ ?]].
    + by apply Upgrade_inv in Hc as (_ & _ & ?).
    + apply bind_inv in Hc as [(b & w1 & Hf & [= <-])|(? & ? & ?)]; [|done].
      apply fresh_inv in Hf as ((fs & -> & _) & _). by rewrite app_nil_r.
Qed.

(** C26 — No crash loop is hot: in every run, two requests for a process are at
    least a second apart. *)
Theorem starts_paced acts s0 :
  initial s0 → Sorted (λ a b, a + initialBackoff ≤ b) (spawn_times acts s0).
Proof. intros H0. by apply spawn_times_paced, initial_inv. Qed.

(** Shutdown: from the cancellation on, in every run, no process is started
    and the loop is woken at most 28 more times before it has returned; and it is
    always either done, waiting for a process that is entitled to its drain, or
    able to go on. *)
Theorem shutdown_returns acts0 s0 s acts s' :
  initial s0 → s_successorTimeout p = successorSearchTimeout →
  run p acts0 s0 = Some s → is_cancelled s = true → run p acts s = Some s' →
  (length (filter (λ a, of_runner a = true) acts) ≤ 28)%nat ∧ started_nothing (y_os s) (y_os s') ∧
  ((∃ e, n_phase (y_runner s') = Returned e) ∨ (∃ t, n_phase (y_runner s') = Waiting t ∧ wait_over s' t = false) ∨
   ∃ a s'', of_runner a = true ∧ act p a s' = Some s'').
Proof.
  intros H0 Htm Hr0 Hcan Hr. destruct (cancelled_run _ _ _ Hcan Hr) as (Hlen & Hcan' & Hn).
  split_and!; [|done|by apply cancelled_progress].
  pose proof (wakes_bound _ (run_inv _ _ _ (initial_inv _ H0) Hr0) Htm). lia.
Qed.


(** A handover that failed leaves no pooler behind: the sweep kills, before
    the next start, every process that serves with the binary, and nothing else;
    the failure and the restart are counted. *)
Theorem failed_handover_sweeps st w r w' :
  handover_failed p st w = (r, w') → ∃ st' killed, r = Ok (st', []) ∧ restarting (o_clock w) st st' ∧
    o_signals w' = o_signals w ++ ((λ pid, (pid, SIGKILL)) <$> killed) ∧
    (∀ pid, pid ∈ killed → pid ≠ s_self p ∧ pooler (s_binary p) pid w) ∧
    (o_faults w = [] → ∀ pid, pooler (s_binary p) pid w → pid ≠ 0 → pid ≠ s_self p → pid ∈ killed) ∧
    UpgradesFailure (o_metrics w') = UpgradesFailure (o_metrics w) + 1 ∧
    ProcessRestartsTotal (o_metrics w') = ProcessRestartsTotal (o_metrics w) + 1.
Proof. intros (_ & st' & killed & ? & ? & ? & ? & ? & ? & _ & ?)%handover_failed_inv. by exists st', killed. Qed.
End invariant.

(** ** Examples *)
#[local] Instance sx_docs : Yaml := table_yaml [("20s", shutdown_config "20s")].
Definition fresh_sys : sys :=
  {| y_cancelled := None; y_runner := initial_runner; y_timers := [];
     y_os := Os {[ RuntimeConfigPath := File "20s" 384 ]} ∅ [] [] [] zero_metrics 0 [] [] idle_process |}.
Lemma fresh_initial : initial fresh_sys.
Proof. split_and!; try done. by constructor. Qed.

(** Started as 7, upgraded to 9 (adopted, told to read its config again). *)
Definition upgrade_run : list action :=
  [AProcs [serving "7" RuntimeBinaryPath]; ASpawn (Ok 7); ATime Second; ACall C_Upgrade; ATime Second;
   AProcs [checking "8"; serving "9" RuntimeBinaryPath]].
(** Two crashes and a failed start. *)
Definition crash_run : list action :=
  [AProcs [serving "7" RuntimeBinaryPath]; ASpawn (Ok 7); ATime Second; AProcs []; AExit; ATime (2 * Second); ATimer;
   ASpawn (Err (ExtErr "fork")); ATime (4 * Second); ATimer; AProcs [serving "11" RuntimeBinaryPath]; ASpawn (Ok 11)].
(** The state a run leads to. *)
Definition after (acts : list action) : sys := default fresh_sys (run example_process acts fresh_sys).

Lemma supervises_one_witness :
  let s := after (upgrade_run ++ [AExit]) in
  o_signals (y_os s) = [(7, SIGUSR2); (9, SIGHUP)] ∧ 0 < n_pid (y_runner s) ∧ n_pid (y_runner s) = 9.
Proof.
  intros s. split; [vm_compute; reflexivity|]. split; [|vm_compute; reflexivity].
  apply (supervises_one example_process (upgrade_run ++ [AExit]) fresh_sys s (T_adopted 9 (25 * Second)) fresh_initial);
    vm_compute; reflexivity.
Defined.

Lemma starts_paced_witness :
  spawn_times example_process crash_run fresh_sys = [0; 3 * Second; 7 * Second] ∧
  Sorted (λ a b, a + initialBackoff ≤ b) (spawn_times example_process crash_run fresh_sys).
Proof. split; [vm_compute; reflexivity|]. apply (starts_paced example_process crash_run fresh_sys fresh_initial). Defined.

(** Cancelled while it searches for a successor. *)
Lemma shutdown_returns_witness :
  let before := [AProcs [serving "7" RuntimeBinaryPath]; ASpawn (Ok 7); ACall C_Upgrade; ATime Second; AProcs []; AExit; ACancel] in
  let later := [ATime Second; ATimer; ADone; ADone] in
  (length (filter (λ a, of_runner a = true) later) ≤ 28)%nat ∧
  n_phase (y_runner (after (before ++ later))) = Returned Canceled.
Proof.
  intros before later. split; [|vm_compute; reflexivity].
  apply (shutdown_returns example_process before fresh_sys (after before) later (after (before ++ later)) fresh_initial);
    vm_compute; reflexivity.
Defined.


(** The scan missed a process that still serves with the binary. *)
Lemma failed_handover_sweeps_witness :
  let w := example_procs [serving "7" "/usr/bin/other"; checking "8"; serving "9" (RuntimeBinaryPath +:+ " (deleted)")] in
  let r := handover_failed example_process initial_runner w in
  o_signals r.2 = [(7, SIGKILL); (9, SIGKILL)] ∧ ∃ st' killed, r.1 = Ok (st', []) ∧
    o_signals r.2 = o_signals w ++ ((λ pid, (pid, SIGKILL)) <$> killed).
Proof.
  intros w r. split; [vm_compute; reflexivity|].
  destruct (failed_handover_sweeps example_process initial_runner w r.1 r.2 (surjective_pairing _)) as (st' & killed & H1 & _ & H2 & _).
  exists st', killed. split; [exact H1|exact H2].
Defined.

(** During the backoff [Pid] still names the process that was reaped, and a reload
    signals whoever has that pid now. *)
Example stale_pid_example :
  let acts := [AProcs [serving "7" RuntimeBinaryPath]; ASpawn (Ok 7); ATime Second; AProcs []; AExit;
               AProcs [serving "7" "/usr/bin/other"]; ACall C_Reload] in
  n_phase (y_runner (after acts)) = RestartDelay (3 * Second) ∧ pidLocked (o_process (y_os (after acts))) = 7 ∧
  o_signals (y_os (after acts)) = [(7, SIGHUP)].
Proof. split_and!; vm_compute; reflexivity. Qed.

(** Cancelled between two looks for the successor, which is there by now: it is
    killed, with no drain. *)
Example undrained_successor_example :
  let acts := [AProcs [serving "7" RuntimeBinaryPath]; ASpawn (Ok 7); ACall C_Upgrade; ATime Second; AProcs []; AExit;
               ACancel; AProcs [serving "9" RuntimeBinaryPath]; ADone; ADone] in
  o_signals (y_os (after acts)) = [(7, SIGUSR2); (9, SIGKILL)] ∧ n_phase (y_runner (after acts)) = Returned Canceled.
Proof. split; vm_compute; reflexivity. Qed.
