(* ===== verification/Wrapper.v ===== *)
(** * The wrapper process (cmd/wrapper/main.go, internal/wrapper: loglevel.go, rlimit_linux.go)

    Startup, the three watchers and the supervised process together: what main
    wires up, and the property the wiring is for. *)
From S2P Require Import Prelude GoStd GoTime Sha256 Paths ConfigGen DoormanConfig Os WrapperFiles FileWatcher.
From S2P Require Import BinarySync BinaryWatcher RoleWatcher Successor Process Supervise.
From stdpp Require Import options.
Open Scope Z_scope.

(** ** Settings from the environment *)
Definition envOr (v defaultVal : string) : string := if decide (v = "") then defaultVal else v.
Definition envInt (v : string) (defaultVal : Z) : Z :=
  if decide (v = "") then defaultVal
  else match Atoi v with Some i => i | None => defaultVal end.

Inductive Level : Type := LevelDebug | LevelInfo | LevelWarn | LevelError.
#[export] Instance Level_eq_dec : EqDecision Level.
Proof. solve_decision. Defined.
Definition ParseLogLevel (s : string) : Level :=
  if decide (s = "error") then LevelError
  else if decide (s = "warn") then LevelWarn
  else if decide (s = "debug" ∨ s = "trace") then LevelDebug
  else LevelInfo.

(** The soft and hard RLIMIT_NOFILE. *)
Record Rlimit : Type := { rl_Cur : Z; rl_Max : Z }.
Definition MaxNoFile : Z := 65536.
(** From what [Getrlimit] answered and whether [Setrlimit] works: the limit after it. *)
Definition CapFileDescriptorLimit (current : Rlimit) (readable settable : bool) : Rlimit :=
  if negb readable then current
  else if rl_Cur current <=? MaxNoFile then current
  else if settable then {| rl_Cur := MaxNoFile; rl_Max := rl_Max current |} else current.

Record wrapper : Type := { wr_fw : FileWatcher; wr_bw : BinaryWatcher; wr_rw : RoleWatcher }.

Section wrapper.
  Context {PB : PgDoormanBinary} {CR : Crypto} {YM : Yaml}.

Definition NewBinarySyncer (specPath imagePath runtimePath arch : string) : BinarySyncer :=
  {| sy_specPath := specPath; sy_imagePath := imagePath; sy_runtimePath := runtimePath; sy_arch := arch |}.

(** What main does before it starts pg_doorman; an error ends the wrapper. *)
Definition startup (CONFIG_SOURCE TLS_KEY_PATH ROLE_FILE goarch : string) : M os wrapper :=
  let sourcePath := envOr CONFIG_SOURCE ConfigSourcePath in
  let fw := NewFileWatcher sourcePath RuntimeConfigPath TLS_KEY_PATH ConvertedTLSKeyPath in
  let specSource := Join (Dir sourcePath) BinarySpecKey in
  let syncer := NewBinarySyncer specSource ImageBinaryPath RuntimeBinaryPath goarch in
  appliedSpec ← EnsureAtStartup syncer;
  applied ← ApplyInitialConfig fw syncer appliedSpec;
  let '(fw, appliedSpec) := applied in
  mret {| wr_fw := fw; wr_bw := Seed (NewBinaryWatcher specSource goarch) appliedSpec; wr_rw := NewRoleWatcher ROLE_FILE |}.

(** Everything after startup: a tick of one of the watchers, which call the
    process [p], or anything else (the loop of [Supervise.v], the processes, the
    kubelet, time) that leaves the two installed files alone. *)
Context (p : settings).
#[local] Instance process_sv : Supervisor := process_supervisor p.

Inductive watch (wr : wrapper) (w : os) : wrapper → os → Prop :=
  | Watch_config ρ1 ρ2 fw w' : FileWatcher.check ρ1 ρ2 (wr_fw wr) w = (Ok fw, w') →
      watch wr w {| wr_fw := fw; wr_bw := wr_bw wr; wr_rw := wr_rw wr |} w'
  | Watch_binary bw w' : BinaryWatcher.check (wr_bw wr) w = (Ok bw, w') →
      watch wr w {| wr_fw := wr_fw wr; wr_bw := bw; wr_rw := wr_rw wr |} w'
  | Watch_role rw w' : rw_roleFile (wr_rw wr) ≠ "" → RoleWatcher.check (wr_rw wr) w = (Ok rw, w') →
      watch wr w {| wr_fw := wr_fw wr; wr_bw := wr_bw wr; wr_rw := rw |} w'.
(** A step that leaves the two installed files alone. *)
Definition beside (w w' : os) : Prop :=
  o_files w' !! RuntimeBinaryPath = o_files w !! RuntimeBinaryPath ∧
  o_files w' !! RuntimeConfigPath = o_files w !! RuntimeConfigPath.
Inductive tick (wr : wrapper) (w : os) : wrapper → os → Prop :=
  | Tick_watch wr' w' : watch wr w wr' w' → tick wr w wr' w'
  | Tick_other w' : beside w w' → tick wr w wr w'.
Inductive ticks (wr : wrapper) (w : os) : wrapper → os → Prop :=
  | Ticks_nil : ticks wr w wr w
  | Ticks_snoc wr1 w1 wr2 w2 : ticks wr w wr1 w1 → tick wr1 w1 wr2 w2 → ticks wr w wr2 w2.

(** ** Properties *)

(** A mounted file is none of those the wrapper writes. *)
Definition written : list string :=
  [RuntimeConfigPath; RuntimeConfigPath +:+ CandidateSuffix; (RuntimeConfigPath +:+ CandidateSuffix) +:+ ".tmp";
   ConvertedTLSKeyPath; ConvertedTLSKeyPath +:+ ".tmp"; RuntimeBinaryPath; RuntimeBinaryPath +:+ binaryCandidateSuffix].
Definition mounted (path : string) : Prop :=
  path ∉ written ∧ String.prefix (RuntimeBinaryDir +:+ "/" +:+ tmp_prefix) path = false.

Lemma mounted_not_temp path dest :
  Dir dest = RuntimeBinaryDir → String.prefix (RuntimeBinaryDir +:+ "/" +:+ tmp_prefix) path = false → ¬ temp_name dest path.
Proof. intros Hd Hp Ht%temp_name_prefix. rewrite Hd in Ht. congruence. Qed.

Lemma config_apart source key : apart (NewFileWatcher source RuntimeConfigPath key ConvertedTLSKeyPath).
Proof.
  unfold apart, fw_files. simpl. case_decide; (split; [apply (bool_decide_eq_true_1 _); by vm_compute|]);
    intros b [= <-]; split; apply (bool_decide_eq_true_1 _); by vm_compute.
Qed.
Lemma wired_apart source key spec goarch :
  mounted source →
  startup_apart (NewFileWatcher source RuntimeConfigPath key ConvertedTLSKeyPath)
    (NewBinarySyncer spec ImageBinaryPath RuntimeBinaryPath goarch).
Proof.
  intros [Hw Hp]. unfold written in Hw. split; simpl; try done.
  - apply config_apart.
  - split; simpl; [by apply mounted_not_temp|]. intros [H|H]; [|revert H; by apply mounted_not_temp].
    apply (bool_decide_eq_true_2 _) in H. by vm_compute in H.
  - unfold fw_files. simpl. split_and!; [set_solver|case_decide; set_solver|].
    intros [H|H]; [set_solver|revert H; by apply mounted_not_temp].
  - unfold fw_files. simpl. case_decide; split; apply (bool_decide_eq_true_1 _); by vm_compute.
  - intros [H|H]; [|revert H; by apply mounted_not_temp]. apply (bool_decide_eq_true_2 _) in H. by vm_compute in H.
Qed.
Lemma binary_apart spec goarch : mounted spec → bw_apart (NewBinaryWatcher spec goarch).
Proof.
  intros [Hw Hp]. unfold written in Hw. unfold bw_apart, bw_files, bw_candidate. simpl. split_and!.
  - intros [H|H]; [|revert H; by apply mounted_not_temp]. apply (bool_decide_eq_true_2 _) in H. by vm_compute in H.
  - by apply mounted_not_temp.
  - intros [H|[H|H]]; [| |revert H; by apply mounted_not_temp]; apply (bool_decide_eq_true_2 _) in H; by vm_compute in H.
  - intros [H|[H|H]]; [set_solver|set_solver|revert H; by apply mounted_not_temp].
Qed.

Lemma check_config_paths ρ1 ρ2 fw w fw' w' :
  apart fw → FileWatcher.check ρ1 ρ2 fw w = (Ok fw', w') → ∃ l, fw' = with_lastApplied l fw.
Proof.
  intros Ha Hc. destruct (@check_checked _ _ _ process_sv (process_supervisor_laws p) _ _ _ _ _ _ Ha Hc) as (fw1 & [= ->] & Hck).
  destruct Hck; try (exists (fw_lastApplied fw); by destruct fw). by eexists.
Qed.
Lemma check_binary_paths bw w bw' w' :
  bw_apart bw → BinaryWatcher.check bw w = (Ok bw', w') → ∃ l, bw' = with_lastSpec l bw.
Proof.
  intros Ha Hc. pose proof (@check_bchecked _ _ process_sv (process_supervisor_laws p) _ _ _ _ Ha Hc) as Hck. simpl in Hck.
  destruct Hck; try (exists (bw_lastSpec bw); by destruct bw); by eexists.
Qed.

(** The watchers keep their paths, and the installed pair is an accepted one. *)
Definition wired (source key spec goarch : string) (wr : wrapper) (w : os) : Prop :=
  (∃ l, wr_fw wr = with_lastApplied l (NewFileWatcher source RuntimeConfigPath key ConvertedTLSKeyPath)) ∧
  (∃ l, wr_bw wr = with_lastSpec l (NewBinaryWatcher spec goarch)) ∧
  accepted_by RuntimeBinaryPath RuntimeConfigPath w.

Lemma tick_wired source key spec goarch wr w wr' w' :
  mounted spec → wired source key spec goarch wr w → tick wr w wr' w' → wired source key spec goarch wr' w'.
Proof.
  intros Hspec ([l Hfw] & [l2 Hbw] & Hacc) Ht.
  assert (apart (wr_fw wr)) as Ha by (rewrite Hfw; apply config_apart).
  assert (bw_apart (wr_bw wr)) as Hb by (rewrite Hbw; by apply (binary_apart spec goarch)).
  destruct Ht as [wr' w' [ρ1 ρ2 fw w'' Hc|bw w'' Hc|rw w'' _ Hc]|w' [H1 H2]].
  - destruct (check_config_paths _ _ _ _ _ _ Ha Hc) as [l' ->]. rewrite Hfw. split_and!; [by eexists|by eexists|].
    rewrite Hfw in Hc, Ha. exact (@check_keeps _ _ _ process_sv (process_supervisor_laws p) _ _ _ RuntimeBinaryPath w _ _ Ha eq_refl Hacc Hc).
  - destruct (check_binary_paths _ _ _ _ Hb Hc) as [l' ->]. rewrite Hbw. split_and!; [by eexists|by eexists|].
    rewrite Hbw in Hc, Hb. exact (@check_bkeeps _ _ process_sv (process_supervisor_laws p) _ w _ _ Hb Hacc Hc).
  - split_and!; [by eexists|by eexists|]. pose proof (@framed_check_role _ (process_supervisor_laws p) _ _ _ _ Hc) as [Hf _].
    destruct Hacc as (fb & fc & ?). exists fb, fc. by rewrite !Hf by tauto.
  - split_and!; [by eexists|by eexists|]. destruct Hacc as (fb & fc & ?). exists fb, fc. by rewrite H1, H2.
Qed.

Lemma startup_wired CONFIG_SOURCE TLS_KEY_PATH ROLE_FILE goarch w wr w' :
  let source := envOr CONFIG_SOURCE ConfigSourcePath in
  mounted source →
  startup CONFIG_SOURCE TLS_KEY_PATH ROLE_FILE goarch w = (Ok wr, w') →
  wired source TLS_KEY_PATH (Join (Dir source) BinarySpecKey) goarch wr w'.
Proof.
  intros source Hsrc Hr. unfold startup in Hr. fold source in Hr.
  apply bind_inv in Hr as [(seed & w1 & _ & Hr)|(e & _ & ?)]; [|done].
  apply bind_inv in Hr as [([fw seed'] & w2 & Ha & Hr)|(e & _ & ?)]; [|done]. inv_run Hr.
  apply ApplyInitialConfig_sound in Ha as (Hacc & (data & -> & _) & _); [|by apply wired_apart].
  split_and!; [by eexists|by eexists|exact Hacc].
Qed.

(** From startup on, the binary on disk always accepts the config on disk:
    once the wrapper has started, after any sequence of checks of the three
    watchers, with any network answers, failing calls, mounted files, processes
    and supervision in between, a (re)start of pg_doorman runs a binary on a
    config it accepts. (Each check is one step here; see the race in
    [BinaryWatcher.v].) *)
Theorem always_startable CONFIG_SOURCE TLS_KEY_PATH ROLE_FILE goarch w0 wr w wr' w' :
  let source := envOr CONFIG_SOURCE ConfigSourcePath in
  mounted source → mounted (Join (Dir source) BinarySpecKey) →
  startup CONFIG_SOURCE TLS_KEY_PATH ROLE_FILE goarch w0 = (Ok wr, w) → ticks wr w wr' w' →
  accepted_by RuntimeBinaryPath RuntimeConfigPath w'.
Proof.
  intros source Hsrc Hspec Hs Ht. apply startup_wired in Hs; [|done].
  cut (wired source TLS_KEY_PATH (Join (Dir source) BinarySpecKey) goarch wr' w'); [by intros (_ & _ & ?)|].
  induction Ht as [|wr1 w1 wr2 w2 _ IH Ht]; [exact Hs|]. by eapply tick_wired.
Qed.

(** One handover at a time: while an upgrade is in flight, a check of the
    binary spec neither replaces the executable nor signals the process. *)
Theorem no_swap_in_flight bw w r w' :
  o_faults w = [] → Process.UpgradeInFlight p w = (Ok true, w) →
  BinaryWatcher.check (SV := process_sv) bw w = (r, w') →
  o_files w' = o_files w ∧ o_signals w' = o_signals w.
Proof.
  intros Hnf Hfl Hr. unfold Process.UpgradeInFlight in Hfl. rewrite fresh_run in Hfl by done. injection Hfl as Hfl.
  assert (∀ path, ∃ x, ReadFile path w = (x, w)) as Hrd.
  { intros path. unfold ReadFile, plain_call. rewrite no_fault by done. eauto. }
  unfold BinaryWatcher.check in Hr.
  apply bind_inv in Hr as [(rd & w1 & Hc & Hr)|(e & Hc & ->)]; apply try_inv in Hc as (? & [= <-] & Hc).
  destruct (Hrd (bw_specPath bw)) as [x Hx]. rewrite Hx in Hc. injection Hc as -> <-.
  destruct rd as [data|e]; [|by inv_run Hr]. destruct (bytes_Equal _ _); [by inv_run Hr|].
  destruct (ParseBinarySpec data) as [spec|e]; [|by inv_run Hr]. case_decide; [by inv_run Hr|].
  apply bind_inv in Hr as [(cur & w1 & Hc & Hr)|(e & Hc & ->)]; apply try_inv in Hc as (? & [= <-] & Hc).
  unfold FileSHA256 in Hc. destruct (Hrd (bw_runtimePath bw)) as [y Hy].
  assert (w1 = w) as ->.
  { apply bind_inv in Hc as [(d & w2 & Hc & Hd)|(e & Hc & ?)]; rewrite Hy in Hc; injection Hc as ? <-; [by inv_run Hd|done]. }
  case_decide; [unfold BinaryStale_Set in Hr; by inv_run Hr|]. unfold upgrade_to in Hr.
  apply bind_inv in Hr as [([] & w1 & [= <-] & Hr)|(e & ? & ->)]; [|done].
  apply bind_inv in Hr as [(fl & w1 & Hc' & Hr)|(e & Hc' & ->)]; simpl in Hc'; unfold Process.UpgradeInFlight in Hc';
    rewrite fresh_run in Hc' by done; simpl in Hc'; rewrite Hfl in Hc'; [|done].
  injection Hc' as <- <-. by inv_run Hr.
Qed.
End wrapper.

(** ** Examples *)
#[local] Instance wr_crypto : Crypto := example_crypto.
#[local] Instance wr_binary : PgDoormanBinary := example_binary.
#[local] Instance wr_docs : Yaml := example_docs.

Definition example_start : res wrapper * os := startup "" "" "" "amd64" (starting_os wants_v2 "cfg2" [answer "v2" false]).
Definition example_wr : wrapper :=
  {| wr_fw := with_lastApplied "cfg2" (NewFileWatcher ConfigSourcePath RuntimeConfigPath "" ConvertedTLSKeyPath);
     wr_bw := Seed (NewBinaryWatcher (Join (Dir ConfigSourcePath) BinarySpecKey) "amd64") (Some wants_v2);
     wr_rw := NewRoleWatcher "" |}.
Lemma example_mounted : mounted ConfigSourcePath ∧ mounted (Join (Dir ConfigSourcePath) BinarySpecKey).
Proof. split; split; try (vm_compute; reflexivity); apply (bool_decide_eq_true_1 _); vm_compute; reflexivity. Qed.

(** Started on [v2], which the spec asks for; then the mounted config changes. *)
Lemma always_startable_witness :
  example_start.1 = Ok example_wr ∧ accepted_by RuntimeBinaryPath RuntimeConfigPath (remount "cfg3" example_start.2).
Proof.
  split; [vm_compute; reflexivity|].
  apply (always_startable example_process "" "" "" "amd64" (starting_os wants_v2 "cfg2" [answer "v2" false])
           example_wr example_start.2 example_wr); [apply example_mounted|apply example_mounted|vm_compute; reflexivity|].
  eapply Ticks_snoc; [apply Ticks_nil|]. apply Tick_other; split; vm_compute; reflexivity.
Defined.

(** A second spec arrives 2 seconds after the upgrade was signalled. *)
Definition in_flight_os : os :=
  set_process {| p_cmd := Some 7; p_adoptedPid := 0; p_upgradeRequested := true; p_upgradeRequestedAt := 0 |}
    (set_clock (2 * Second) (upgrading_os "cfg2" "cfg2" [])).
Lemma no_swap_in_flight_witness :
  let w' := (@BinaryWatcher.check _ _ (process_sv example_process) example_bw in_flight_os).2 in
  o_files w' = o_files in_flight_os ∧ o_signals w' = o_signals in_flight_os.
Proof.
  intros w'. apply (no_swap_in_flight example_process example_bw in_flight_os
    (@BinaryWatcher.check _ _ (process_sv example_process) example_bw in_flight_os).1);
    [reflexivity|vm_compute; reflexivity|apply surjective_pairing].
Defined.
