(* ===== verification/Deployed.v ===== *)
(** * The pod the plugin asks for, and the wrapper that runs in it

    Names and numbers cross four programs that never call each other: the
    controller writes paths and ports into a configuration, the hooks build the
    Service and the sidecar, the kubelet mounts volumes and probes, and main of
    the wrapper (cmd/wrapper/main.go) reads its environment. The theorem says
    that they agree. *)
From S2P Require Import Prelude GoStd Api K8s PluginConfig DoormanConfig ConfigGen Specs Paths Kube Machinery Controller Lifecycle Os WrapperFiles FileWatcher BinarySync Binaries Wrapper.
From stdpp Require Import options.
Open Scope Z_scope.

(** ** What main reads, and its health server *)
Record main_settings : Type := {
  mn_logLevel : Level;
  mn_healthPort : Z;
  mn_sourcePath : string;
  mn_rawKeyPath : string;
  mn_specSource : string;
  mn_roleFile : option string
}.
Definition main_env (Getenv : string → string) : main_settings :=
  let sourcePath := envOr (Getenv "CONFIG_SOURCE") ConfigSourcePath in
  {| mn_logLevel := ParseLogLevel (Getenv "LOG_LEVEL");
     mn_healthPort := envInt (Getenv "HEALTH_PORT") 8081;
     mn_sourcePath := sourcePath;
     mn_rawKeyPath := Getenv "TLS_KEY_PATH";
     mn_specSource := Join (Dir sourcePath) BinarySpecKey;
     mn_roleFile := if decide (Getenv "ROLE_FILE" = "") then None else Some (Getenv "ROLE_FILE") |}.

(** The two routes of serveHealth, on a clean path; [metrics] is the page of
    promhttp. *)
Definition serveHealth (metrics : response) (path : string) : response :=
  if decide (path = "/healthz") then http_reply 200 "OK" ("ok" +:+ bytes [10])
  else if decide (path = "/metrics") then metrics
  else not_found.

(** ** The container's side *)
Section deployed.
  #[local] Set Default Proof Using "Type*".
  Context {QS : Quantities} {MC : Machinery}.

(** The environment of a container. *)
Definition container_env (s : Container) (name : string) : string :=
  match list_find (λ e, e.1 = name) (ct_Env s) with Some (_, e) => e.2 | None => "" end.

(** The file [path] of the container is the file [rel] of the volume [source]. *)
Definition in_volume (s : Container) (vs : list Volume) (path : string) (source : VolumeSource) (rel : string) : Prop :=
  ∃ m, m ∈ ct_VolumeMounts s ∧ path = vm_MountPath m +:+ "/" +:+ rel ∧ volume_source vs (vm_Name m) = Some source.
(** The file [path] is in a volume that is mounted for writing. *)
Definition writable (s : Container) (vs : list Volume) (path : string) : Prop :=
  ∃ m rel, m ∈ ct_VolumeMounts s ∧ path = vm_MountPath m +:+ "/" +:+ rel ∧ vm_ReadOnly m = false ∧
    is_Some (volume_source vs (vm_Name m)).

(** The sidecar [s], the volumes of its pod, the configurations the controller
    generates for [cfg] and the Service of the cluster fit together. *)
Record agreement (cfg : PluginConfiguration) (cluster : Cluster) (s : Container) (vs : list Volume) : Prop := {
  (** The probe is the health server's, whatever pg_doorman does. *)
  ag_probe : ∃ p, ct_LivenessProbe s = Some p ∧ pr_Port p = mn_healthPort (main_env (container_env s)) ∧
    ∀ metrics, rs_StatusCode (serveHealth metrics (pr_Path p)) = 200;
  (** No two servers of the container share a port. *)
  ag_ports : NoDup [mn_healthPort (main_env (container_env s)); PoolerPort cfg; MetricsPort cfg];
  (** pg_doorman listens where the container's ports and the Service lead. *)
  ag_listens spec pw tls :
    let g := generated spec (PoolerPort cfg) (MetricsPort cfg) pw tls in
    ((λ p, (cp_Name p, cp_ContainerPort p)) <$> ct_Ports s) =
      [("pooler", gc_Port (dc_General g)); ("pgd-metrics", MetricsPort cfg)] ∧
    (sp_TargetPort <$> svc_Ports (BuildDoormanService cluster (PoolerPort cfg))) = [gc_Port (dc_General g)] ∧
    (∀ pm, dc_Prometheus g = Some pm → pm_Port pm = MetricsPort cfg);
  (** The wrapper reads the keys of the Secret the controller publishes. *)
  ag_config : in_volume s vs (mn_sourcePath (main_env (container_env s)))
    (SecretVolume (RenderedSecretName (cl_Name cluster))) ConfigKey;
  ag_spec : in_volume s vs (mn_specSource (main_env (container_env s)))
    (SecretVolume (RenderedSecretName (cl_Name cluster))) BinarySpecKey;
  (** The certificate the configuration names and the key the wrapper converts
      are the cluster's server pair, and the configuration names the converted
      key. *)
  ag_certificate : in_volume s vs (tls_Certificate tls_files) (SecretVolume (serverTLSSecretName cluster)) "tls.crt";
  ag_rawKey : in_volume s vs (mn_rawKeyPath (main_env (container_env s)))
    (SecretVolume (serverTLSSecretName cluster)) "tls.key";
  ag_key : tls_PrivateKey tls_files = ConvertedTLSKeyPath;
  (** The role is watched, in the file that follows the pod's label. *)
  ag_role : ∃ file, mn_roleFile (main_env (container_env s)) = Some file ∧
    in_volume s vs file (DownwardAPI [("role", "metadata.labels['" +:+ instanceRoleLabel +:+ "']")]) "role";
  (** Under a read-only root the wrapper can write what it writes, and writes
      nothing of what it reads. *)
  ag_written : Forall (writable s vs) written;
  ag_mounted : mounted (mn_sourcePath (main_env (container_env s))) ∧ mounted (mn_specSource (main_env (container_env s)))
}.

Lemma sidecar_agrees cfg cluster spec :
  valid_config cfg →
  agreement cfg cluster (sidecar cfg) (pod_Volumes (injectSidecar cfg cluster spec)).
Proof.
  intros (_ & _ & [Hp Hpr] & [Hm Hmr] & Hne & _).
  assert (main_env (container_env (sidecar cfg)) = {|
    mn_logLevel := ParseLogLevel (LogLevel cfg); mn_healthPort := 8081; mn_sourcePath := ConfigSourcePath;
    mn_rawKeyPath := RawTLSKeyPath; mn_specSource := "/etc/pg-doorman-config/binary.json";
    mn_roleFile := Some "/etc/pg-doorman-podinfo/role" |}) as Hmain by reflexivity.
  pose proof (injected_volume cfg cluster spec) as Hv. destruct (injected_scratch cfg cluster spec) as [Hs _].
  split; rewrite ?Hmain; cbn [mn_healthPort mn_sourcePath mn_rawKeyPath mn_specSource mn_roleFile].
  - eexists. split_and!; [reflexivity|reflexivity|]. done.
  - rewrite !not_elem_of_cons in Hpr, Hmr. destruct Hpr as (?&?&?&?&_), Hmr as (?&?&?&?&_).
    repeat constructor; rewrite ?elem_of_cons, ?elem_of_nil; intuition lia.
  - intros pgs pw tls. simpl. rewrite !to_int32_id by lia. split_and!; [done..|].
    intros pm. case_decide; [done|]. by intros [= <-].
  - eexists. split_and!; [by do 2 right; left|reflexivity|]. apply (Hv (config_volume cluster)). do 2 right; left.
  - eexists. split_and!; [by do 2 right; left|reflexivity|]. apply (Hv (config_volume cluster)). do 2 right; left.
  - eexists. split_and!; [by right; left|reflexivity|]. apply (Hv (tls_volume cluster)). left.
  - eexists. split_and!; [by right; left|reflexivity|]. apply (Hv (tls_volume cluster)). left.
  - done.
  - eexists. split; [done|]. eexists. split_and!; [by do 3 right; left|reflexivity|]. apply (Hv podinfo_volume). right; left.
  - repeat constructor; (eexists _, _; split_and!; [by left|reflexivity|done|done]).
  - apply example_mounted.
Qed.

(** C6 — A pod that gets a patch fits the plugin and the wrapper: the patch adds the
    sidecar of the cluster's parameters, whose liveness probe is answered by the
    health server main starts, whatever pg_doorman does; health server, pooler and
    metrics have three ports; every configuration the controller generates for the
    parameters listens where the container's ports and the Service of the
    reconciler hook lead; main finds in its environment the mounted keys of the
    very Secret the controller publishes, the cluster's TLS pair and the file of
    the pod's role; all it writes lies on the one writable volume, and none of it
    is a file it reads. *)
Theorem patched_pod_agrees img ρ object clusterDefinition patch :
  lifecycleHook img ρ object clusterDefinition = Ok (Some patch) →
  ∃ cluster pod, DecodeCluster clusterDefinition = Ok cluster ∧ DecodePod object = Ok pod ∧
    let cfg := NewFromCluster img cluster in
    let pod' := injectSidecar cfg cluster pod in
    CreatePodPatch pod' pod = Ok patch ∧
    first_named ct_Name (sidecar cfg) (pod_InitContainers pod') ∧
    agreement cfg cluster (sidecar cfg) (pod_Volumes pod').
Proof.
  unfold lifecycleHook. destruct (GetKind object) as [kind|]; [|done].
  destruct (DecodeCluster clusterDefinition) as [cluster|]; [|done]. set (cfg := NewFromCluster img cluster).
  destruct (Enabled cfg); [|done]. simpl. unfold mbind, res_bind.
  destruct (Validate ρ cfg) as [[]|e] eqn:Hval; [|done]. case_decide; [|done]. unfold reconcilePod.
  destruct (DecodePod object) as [pod|]; [|done]. destruct (CreatePodPatch _ pod) as [patch'|] eqn:Hpatch; [|done].
  intros [= <-]. exists cluster, pod. split_and!; [done..| |].
  - apply replace_or_append_first.
  - apply sidecar_agrees, (Validate_is_ok ρ). fold cfg. by rewrite Hval.
Qed.
End deployed.

(** ** Example: the pod of the lifecycle hook's example *)
#[local] Existing Instances lx_quantities lx_machinery.

Lemma patched_pod_agrees_witness :
  lifecycleHook "img" default_ranger "Pod" "" = Ok (Some "patch") ∧
  writable (sidecar lx_config) (pod_Volumes (injectSidecar lx_config example_cluster lx_pod)) RuntimeBinaryPath.
Proof.
  assert (lifecycleHook "img" default_ranger "Pod" "" = Ok (Some "patch")) as Hr by (vm_compute; reflexivity).
  split; [exact Hr|].
  destruct (patched_pod_agrees "img" default_ranger "Pod" "" "patch" Hr) as (cluster & pod & Hc & Hp & _ & _ & Hag).
  injection Hc as <-. injection Hp as <-. apply ag_written in Hag. rewrite Forall_forall in Hag. apply Hag.
  apply (bool_decide_eq_true_1 _). vm_compute. reflexivity.
Defined.
