(* ===== verification/Container.v ===== *)
(** * The sidecar container: the watchers and the supervision loop together

    main (cmd/wrapper) runs the loop of [Supervise.v] and the three watchers
    beside each other, on one file system and one supervised process.  A container
    steps by an action of the loop or of its surroundings, by a check of a
    watcher, whose calls act on the process of the loop, or by the rest of the
    world: new mounted files, answers of the network and failing calls. *)
From S2P Require Import Prelude GoStd GoTime DoormanConfig Paths ConfigGen Os WrapperFiles FileWatcher BinarySync BinaryWatcher RoleWatcher Successor Process Supervise Wrapper.
From stdpp Require Import options.
Open Scope Z_scope.

Record container : Type := { ct_wrapper : wrapper; ct_sys : sys }.

(** The rest of the world: processes, the clock and the supervised process are
    the business of the loop, the two installed files of the watchers. *)
Definition surroundings (w w' : os) : Prop :=
  beside w w' ∧ o_process w' = o_process w ∧ o_signals w' = o_signals w ∧ o_clock w' = o_clock w ∧ o_procs w' = o_procs w.

Section container.
  Context {PB : PgDoormanBinary} {CR : Crypto} {YM : Yaml} (p : settings).

Inductive cstep (k : container) : container → Prop :=
  | C_loop a s' : (∀ c, a ≠ ACall c) → act p a (ct_sys k) = Some s' →
      cstep k {| ct_wrapper := ct_wrapper k; ct_sys := s' |}
  | C_watch wr' w' : watch p (ct_wrapper k) (y_os (ct_sys k)) wr' w' →
      cstep k {| ct_wrapper := wr'; ct_sys := with_os w' (ct_sys k) |}
  | C_world w' : surroundings (y_os (ct_sys k)) w' →
      cstep k {| ct_wrapper := ct_wrapper k; ct_sys := with_os w' (ct_sys k) |}.

(** The container when main has passed its startup. *)
Definition started (wr : wrapper) (w : os) : container :=
  {| ct_wrapper := wr; ct_sys := {| y_cancelled := None; y_runner := initial_runner; y_timers := []; y_os := w |} |}.
End container.

(** ** What a watcher does to the process *)

(** Time and processes stand still, the supervised process stays the same one, and
    signals go to it alone. *)
Record watched (w w' : os) : Prop := {
  wd_same : same_supervised w w';
  wd_signals : ∃ l, o_signals w' = o_signals w ++ l ∧ Forall (λ s, s.1 = pidLocked (o_process w)) l
}.
#[export] Instance watched_preorder : PreOrder watched.
Proof.
  split.
  - intros w. split; [done|]. exists []. by rewrite app_nil_r.
  - intros w1 w2 w3 [S1 (l1 & H1 & F1)] [S2 (l2 & H2 & F2)]. split; [by etrans|]. exists (l1 ++ l2).
    rewrite H2, H1, app_assoc. split; [done|]. apply Forall_app. split; [done|].
    destruct S1 as (_ & Hc & Ha). unfold pidLocked in *. by rewrite Hc, Ha in F2.
Qed.
Lemma watched_process w w' :
  o_clock w' = o_clock w → o_procs w' = o_procs w → p_cmd (o_process w') = p_cmd (o_process w) →
  p_adoptedPid (o_process w') = p_adoptedPid (o_process w) → o_signals w' = o_signals w → watched w w'.
Proof. intros ?? Hc Ha Hs. split; [done|]. exists []. by rewrite Hs, app_nil_r. Qed.
Lemma signals_to (pid : Z) (l : list (Z * signal)) : Forall (λ s, s.1 = pid) l → l = (λ sig, (pid, sig)) <$> l.*2.
Proof. induction 1 as [|[q sig] l Hq _ IH]; [done|]. simpl in Hq. subst q. rewrite !fmap_cons. simpl. by f_equal. Qed.
Lemma watched_quiet {A} (m : M os A) : quiet m → keeps_rel watched m.
Proof. intros Hm w r w' Hr. destruct (Hm _ _ _ Hr) as [_ Hp Hs Hc Hpr]. apply watched_process; by rewrite ?Hp. Qed.

Section frames.
  #[local] Set Default Proof Using "Type*".
  Context {YM : Yaml} (p : settings).

#[local] Hint Resolve watched_quiet : frames.
Lemma watched_read path : keeps_rel watched (ReadFile path).
Proof using. apply watched_quiet, quiet_read. Qed.
Lemma watched_signal sig : keeps_rel watched (signalLocked sig).
Proof using.
  intros w r w' Hr. split; [by eapply sup_signal|]. apply signalLocked_inv in Hr as [_ Hr]. destruct r.
  - destruct Hr as [_ ->]. eexists. split; [done|]. by constructor.
  - exists []. by rewrite Hr, app_nil_r.
Qed.
Lemma watched_Pid : keeps_rel watched Pid.
Proof using. apply keeps_gets, _. Qed.
Lemma watched_waitDelay : keeps_rel watched (waitDelay p).
Proof. intros w r w' [(fs & -> & _) _]%waitDelay_inv. by apply watched_process. Qed.
#[local] Hint Resolve watched_read watched_signal watched_Pid watched_waitDelay : frames.
Lemma watched_on_process f :
  (∀ pr, p_cmd (f pr) = p_cmd pr ∧ p_adoptedPid (f pr) = p_adoptedPid pr) → keeps_rel watched (on_process f).
Proof using. intros Hf. apply keeps_modify; [apply _|]. intros w. by apply watched_process; try apply Hf. Qed.

Lemma watched_Reload : keeps_rel watched Reload.
Proof using. unfold Reload. keep_hints. Qed.
Lemma watched_Restart : keeps_rel watched Restart.
Proof using. unfold Restart. keep_hints. Qed.
Lemma watched_Upgrade : keeps_rel watched Upgrade.
Proof using.
  unfold Upgrade. keep_hints; [by apply watched_on_process|]. apply keeps_modify; [apply _|]. intros w. by apply watched_process.
Qed.
Lemma watched_UpgradeInFlight : keeps_rel watched (UpgradeInFlight p).
Proof. unfold UpgradeInFlight, upgradeRequestFreshLocked. keep_hints. Qed.
#[local] Hint Resolve watched_Reload watched_Restart watched_Upgrade watched_UpgradeInFlight : frames.

Context {PB : PgDoormanBinary} {CR : Crypto}.
#[local] Instance container_sv : Supervisor := process_supervisor p.
Lemma watched_ConfigStale v : keeps_rel watched (ConfigStale_Set v).
Proof using. apply keeps_modify; [apply _|]. intros w. by apply watched_process. Qed.
Lemma watched_BinaryStale v : keeps_rel watched (BinaryStale_Set v).
Proof using. apply keeps_modify; [apply _|]. intros w. by apply watched_process. Qed.
Lemma watched_ReloadsTotal b : keeps_rel watched (ReloadsTotal_Inc b).
Proof using. apply keeps_modify; [apply _|]. intros w. by apply watched_process. Qed.
Lemma watched_materialize fw data : keeps_rel watched (materialize fw data).
Proof using. apply watched_quiet. unfold materialize. pose proof (quiet_stage fw). keep_hints. Qed.
#[local] Hint Resolve watched_ConfigStale watched_BinaryStale watched_ReloadsTotal watched_materialize : frames.

Lemma watched_check_config ρ1 ρ2 fw : keeps_rel watched (FileWatcher.check ρ1 ρ2 fw).
Proof.
  unfold FileWatcher.check, apply_change. cbn [FileWatcher.Reload FileWatcher.Restart container_sv process_supervisor]. keep_hints.
Qed.
Lemma watched_check_role rw : keeps_rel watched (RoleWatcher.check rw).
Proof. unfold RoleWatcher.check. cbn [FileWatcher.Restart container_sv process_supervisor]. keep_hints. Qed.
Lemma watched_check_binary bw : keeps_rel watched (BinaryWatcher.check bw).
Proof.
  unfold BinaryWatcher.check, upgrade_to, stage_binary, FileSHA256.
  cbn [FileWatcher.Upgrade FileWatcher.UpgradeInFlight container_sv process_supervisor]. keep_hints.
Qed.

(** ** The loop and the files *)
Definition same_files (w w' : os) : Prop := o_files w' = o_files w.
#[export] Instance same_files_preorder : PreOrder same_files.
Proof using. split; [done|]. unfold same_files. intros w1 w2 w3. congruence. Qed.
Lemma files_disk {A} (m : M os A) : keeps_rel same_disk m → keeps_rel same_files m.
Proof using. intros Hm w r w' Hr. by destruct (Hm _ _ _ Hr). Qed.
Lemma files_read path : keeps_rel same_files (ReadFile path).
Proof using. apply files_disk, disk_read. Qed.
Lemma files_Kill pid sig : keeps_rel same_files (Kill pid sig).
Proof using. apply files_disk, disk_Kill. Qed.
Lemma files_ReadProc : keeps_rel same_files ReadProc.
Proof using. by apply keeps_syscall; [apply _|..]. Qed.
Lemma files_Pid : keeps_rel same_files Pid.
Proof using. apply keeps_gets, _. Qed.
Lemma files_on_process f : keeps_rel same_files (on_process f).
Proof using. by apply keeps_modify; [apply _|]. Qed.
Lemma files_waitDelay : keeps_rel same_files (waitDelay p).
Proof. apply files_disk, disk_waitDelay. Qed.
Lemma files_signal sig : keeps_rel same_files (signalLocked sig).
Proof using. apply files_disk, disk_signalLocked. Qed.
Lemma files_Restarts : keeps_rel same_files ProcessRestartsTotal_Inc.
Proof using. by apply keeps_modify; [apply _|]. Qed.
Lemma files_Upgrades b : keeps_rel same_files (BinaryUpgradesTotal_Inc b).
Proof using. by apply keeps_modify; [apply _|]. Qed.
Lemma files_clock : keeps_rel same_files clock.
Proof using. apply keeps_gets, _. Qed.
#[local] Hint Resolve files_read files_Kill files_ReadProc files_Pid files_on_process files_waitDelay files_signal files_Restarts
  files_Upgrades files_clock : frames.
Lemma files_Reload : keeps_rel same_files Reload.
Proof using. unfold Reload. keep_hints. Qed.
Lemma files_fresh : keeps_rel same_files (upgradeRequestFreshLocked p).
Proof. unfold upgradeRequestFreshLocked. keep_hints. Qed.
Lemma files_terminate : keeps_rel same_files (terminateIfAdopted p).
Proof. unfold terminateIfAdopted, killAdopted. keep_hints. Qed.
Lemma files_sweep : keeps_rel same_files (sweepStrays p).
Proof.
  unfold sweepStrays, killStrays. keep_hints. apply keeps_foldMW; [apply _|]. intros killed pr.
  unfold kill_step. keep_hints.
Qed.
Lemma files_search pid : keeps_rel same_files (search_once p pid).
Proof. unfold search_once, findSuccessorPid. keep_hints. Qed.
Lemma files_Restart : keeps_rel same_files Restart.
Proof using. unfold Restart. keep_hints. Qed.
Lemma files_InFlight : keeps_rel same_files (UpgradeInFlight p).
Proof. apply files_fresh. Qed.
Lemma files_Upgrade : keeps_rel same_files Upgrade.
Proof using. unfold Upgrade. keep_hints. by apply keeps_modify; [apply _|]. Qed.
#[local] Hint Resolve files_Restart files_Reload files_fresh files_terminate files_sweep files_search : frames.
Lemma files_enter c d st : keeps_rel same_files (enter_wait p c d st).
Proof. unfold enter_wait. keep_hints. Qed.
Lemma files_restart st : keeps_rel same_files (restart_step st).
Proof using. unfold restart_step. keep_hints. Qed.
#[local] Hint Resolve files_enter files_restart : frames.
Lemma files_failed st : keeps_rel same_files (handover_failed p st).
Proof. unfold handover_failed. keep_hints. Qed.
Lemma files_done c st : keeps_rel same_files (handover_done p c st).
Proof. unfold handover_done. keep_hints. Qed.
#[local] Hint Resolve files_failed files_done : frames.
Lemma files_search_step c d st : keeps_rel same_files (search_step p c d st).
Proof. unfold search_step. keep_hints. Qed.
#[local] Hint Resolve files_search_step : frames.
Lemma files_exit c t st : keeps_rel same_files (exit_step p c t st).
Proof. unfold exit_step, consumeUpgradeRequest. keep_hints. Qed.
Lemma files_start c a st : keeps_rel same_files (start_step p c a st).
Proof. unfold start_step, Start. keep_hints. Qed.
Lemma files_cancel t : keeps_rel same_files (cancel_step p t).
Proof. unfold cancel_step. keep_hints. Qed.
Lemma files_kill_now t ph : keeps_rel same_files (kill_now t ph).
Proof using. unfold kill_now, killAdopted. keep_hints. Qed.

Lemma resume_files m s s' : keeps_rel same_files m → resume m s = Some s' → o_files (y_os s') = o_files (y_os s).
Proof using. intros Hm (st & armed & w & Hr & ->)%resume_Some. by apply Hm in Hr. Qed.
Lemma act_files a s s' : act p a s = Some s' → o_files (y_os s') = o_files (y_os s).
Proof.
  intros Ha. unfold act in Ha. destruct (of_runner a).
  - unfold act_runner in Ha. destruct a as [answer| | | | | | | |]; try done; destruct (n_phase (y_runner s)); try done;
      repeat match type of Ha with (if ?b then _ else _) = _ => destruct b; [|done] end;
      try (by apply goto_Some in Ha as ->);
      (eapply resume_files; [|exact Ha]); auto using files_start, files_exit, files_search_step, files_failed.
  - unfold act_env in Ha. destruct a as [| | | |c| | |d|procs]; try done.
    + destruct (run_call p c (y_os s)) as [r w] eqn:Hr. injection Ha as <-. simpl.
      assert (keeps_rel same_files (run_call p c)) as Hc; [|by apply Hc in Hr].
      destruct c; simpl; unfold Restart, Upgrade, UpgradeInFlight; keep_hints. by apply keeps_modify; [apply _|].
    + destruct (is_cancelled s); [done|]. simpl in Ha.
      destruct (n_phase (y_runner s)) as [|until|t|deadline next|until|e]; try (by injection Ha as <-).
      destruct (cancel_step p t (y_os s)) as [[armed|] w] eqn:Hr; [|done]. injection Ha as <-. by apply files_cancel in Hr.
    + destruct (y_timers s) as [|t ts]; [done|]. destruct (_ <=? _); [|done].
      destruct (kill_now t _ (y_os s)) as [r w] eqn:Hr. injection Ha as <-. by apply files_kill_now in Hr.
    + destruct (_ <? _); [|done]. by injection Ha as <-.
    + destruct (forallb _ procs); [|done]. by injection Ha as <-.
Qed.
End frames.

(** ** The container *)
Section invariant.
  #[local] Set Default Proof Using "Type*".
  Context {PB : PgDoormanBinary} {CR : Crypto} {YM : Yaml} (p : settings).

Definition container_inv (source key spec goarch : string) (k : container) : Prop :=
  sys_inv p (ct_sys k) ∧ wired source key spec goarch (ct_wrapper k) (y_os (ct_sys k)).

Lemma watch_watched wr w wr' w' : watch p wr w wr' w' → watched w w'.
Proof.
  intros [ρ1 ρ2 fw w1 Hc|bw w1 Hc|rw w1 _ Hc].
  - by eapply watched_check_config.
  - by eapply watched_check_binary.
  - by eapply watched_check_role.
Qed.

Lemma cstep_sys_inv k k' : sys_inv p (ct_sys k) → cstep p k k' → sys_inv p (ct_sys k').
Proof.
  intros Hinv [a s' _ Ha|wr' w' Ht|w' (Hb & Hp & Hs & Hc & Hpr)]; simpl.
  - by eapply act_inv.
  - apply inv_beside; [done|]. by apply watch_watched in Ht as [].
  - apply inv_beside; [done|]. unfold same_supervised, instant. by rewrite Hp.
Qed.
Lemma cstep_inv source key spec goarch k k' :
  mounted spec → container_inv source key spec goarch k → cstep p k k' → container_inv source key spec goarch k'.
Proof.
  intros Hspec [Hinv Hw] Hst. split; [by eapply cstep_sys_inv|].
  destruct Hst as [a s' _ Ha|wr' w' Ht|w' (Hb & _)]; simpl; eapply (tick_wired p); try done.
  - apply Tick_other. split; by rewrite (act_files _ _ _ _ Ha).
  - by apply Tick_watch.
  - by apply Tick_other.
Qed.

End invariant.

(** ** Example: started as 7 on [v2], then a config is mounted that [v2] rejects *)
#[local] Existing Instances wr_crypto wr_binary wr_docs.
Definition loop (a : action) (k : container) : container :=
  match act example_process a (ct_sys k) with
  | Some s => {| ct_wrapper := ct_wrapper k; ct_sys := s |}
  | None => k
  end.
Definition mount (data : string) (k : container) : container :=
  {| ct_wrapper := ct_wrapper k; ct_sys := with_os (remount data (y_os (ct_sys k))) (ct_sys k) |}.
Definition watch_config (k : container) : container :=
  match @FileWatcher.check _ _ _ (process_supervisor example_process) default_ranger default_ranger (wr_fw (ct_wrapper k)) (y_os (ct_sys k)) with
  | (Ok fw, w) => {| ct_wrapper := {| wr_fw := fw; wr_bw := wr_bw (ct_wrapper k); wr_rw := wr_rw (ct_wrapper k) |};
                     ct_sys := with_os w (ct_sys k) |}
  | (Err _, _) => k
  end.
Definition spawned : container :=
  loop (ASpawn (Ok 7)) (loop (AProcs [serving "7" RuntimeBinaryPath]) (started example_wr example_start.2)).
Definition rejected : container := watch_config (mount "cfg1" spawned).

Lemma loop_step a k : (∀ c, a ≠ ACall c) → cstep example_process k (loop a k) ∨ loop a k = k.
Proof. intros Ha. unfold loop. destruct (act _ _ _) as [s|] eqn:Hs; [left; by eapply C_loop|by right]. Qed.
Lemma watch_config_step k : cstep example_process k (watch_config k) ∨ watch_config k = k.
Proof.
  unfold watch_config. destruct (FileWatcher.check _ _ _ _) as [[fw|e] w] eqn:Hc; [left|by right].
  apply C_watch. by eapply Watch_config.
Qed.
Lemma mount_step data k : cstep example_process k (mount data k).
Proof. apply C_world. split_and!; [|done..]. split; simpl; by rewrite lookup_insert_ne. Qed.
Lemma rejected_reached : rtc (cstep example_process) (started example_wr example_start.2) rejected.
Proof.
  assert (∀ k k' k'', rtc (cstep example_process) k k' → cstep example_process k' k'' ∨ k'' = k' →
    rtc (cstep example_process) k k'') as Hstep by (intros k k' k'' Hr [Hs| ->]; [by eapply rtc_r|done]).
  unfold rejected. eapply Hstep; [|apply watch_config_step]. eapply rtc_r; [|apply mount_step]. unfold spawned.
  eapply Hstep; [|by apply loop_step]. eapply Hstep; [|by apply loop_step]. apply rtc_refl.
Qed.

