(* ===== verification/Main.v ===== *)
(** * main of the wrapper (cmd/wrapper/main.go)

    From the environment to the exit of the container: startup, the goroutines of
    [Container.v], the signal that cancels them, and the ways main ends. *)
From S2P Require Import Prelude GoStd GoTime DoormanConfig Paths ConfigGen Os WrapperFiles FileWatcher BinarySync BinaryWatcher RoleWatcher.
From S2P Require Import Successor Process Supervise Wrapper Deployed Container.
From stdpp Require Import options.
Open Scope Z_scope.

(** Why main exits with status 1. *)
Inductive failure : Type :=
  | F_startup (e : gerr)   (* "initial binary sync failed", "initial config apply failed" *)
  | F_run (e : gerr)       (* "pg_doorman run failed" *)
  | F_health.              (* "health server failed" *)
Inductive main_state : Type :=
  | Booting (w : os)
  | Running (k : container)
  | Finished (k : container)   (* main returns *)
  | Failed (why : failure).

Section main.
  #[local] Set Default Proof Using "Type*".
  Context {PB : PgDoormanBinary} {CR : Crypto} {YM : Yaml} (Getenv : string → string) (goarch : string) (self : Z).
  #[local] Notation proc := (NewProcess RuntimeConfigPath self).

Definition main_startup : M os wrapper :=
  startup (Getenv "CONFIG_SOURCE") (Getenv "TLS_KEY_PATH") (Getenv "ROLE_FILE") goarch.

(** When RunWithRestart has returned: the goroutine exits unless the context is
    cancelled; main waits for the context and for the goroutine. *)
Definition main_end (k : container) : option main_state :=
  match n_phase (y_runner (ct_sys k)) with
  | Returned e => Some (if is_cancelled (ct_sys k) then Finished k else Failed (F_run e))
  | _ => None
  end.

(** SIGTERM and SIGINT are the [ACancel] of the loop: one that arrives during
    startup is seen by its first step. The health server ends main when it cannot
    listen. *)
Inductive main_step : main_state → main_state → Prop :=
  | M_boot w wr w' : main_startup w = (Ok wr, w') → main_step (Booting w) (Running (started wr w'))
  | M_boot_failed w e w' : main_startup w = (Err e, w') → main_step (Booting w) (Failed (F_startup e))
  | M_run k k' : cstep proc k k' → main_step (Running k) (Running k')
  | M_end k m : main_end k = Some m → main_step (Running k) m
  | M_health_boot w : main_step (Booting w) (Failed F_health)
  | M_health k : main_step (Running k) (Failed F_health).

(** A step of the loop itself, and one beside it. *)
Definition with_sys (s : sys) (k : container) : container := {| ct_wrapper := ct_wrapper k; ct_sys := s |}.
Definition loop_moves (k k' : container) : Prop :=
  ∃ a s', of_runner a = true ∧ act proc a (ct_sys k) = Some s' ∧ k' = with_sys s' k.
Inductive beside_step (k : container) : container → Prop :=
  | B_env a s' : of_runner a = false → (∀ c, a ≠ ACall c) → act proc a (ct_sys k) = Some s' → beside_step k (with_sys s' k)
  | B_watch wr' w' : watch proc (ct_wrapper k) (y_os (ct_sys k)) wr' w' →
      beside_step k {| ct_wrapper := wr'; ct_sys := with_os w' (ct_sys k) |}
  | B_world w' : surroundings (y_os (ct_sys k)) w' → beside_step k (with_sys (with_os w' (ct_sys k)) k).
(** [k'] is reached from [k], and [n] of the steps are the loop's. *)
Inductive woken (k : container) : nat → container → Prop :=
  | Woken_nil : woken k 0 k
  | Woken_loop n k1 k2 : woken k n k1 → loop_moves k1 k2 → woken k (S n) k2
  | Woken_beside n k1 k2 : woken k n k1 → beside_step k1 k2 → woken k n k2.

Lemma cstep_split k k' : cstep proc k k' ↔ loop_moves k k' ∨ beside_step k k'.
Proof.
  split.
  - intros [a s' Hc Ha|wr' w' Hw|w' Hw]; [|right; by apply B_watch|right; by apply B_world].
    destruct (of_runner a) eqn:Hof; [left; by exists a, s'|right; by eapply B_env].
  - intros [(a & s' & Hof & Ha & ->)|[a s' _ Hc Ha|wr' w' Hw|w' Hw]].
    + eapply C_loop; [|done]. by intros c ->.
    + by eapply C_loop.
    + by apply C_watch.
    + by apply C_world.
Qed.

(** ** Startup leaves the process alone *)
#[local] Hint Resolve watched_quiet watched_read watched_BinaryStale watched_materialize : frames.
Lemma watched_startup : keeps_rel watched main_startup.
Proof.
  unfold main_startup, startup, EnsureAtStartup, ApplyInitialConfig, ensure_desired, RevertToImage, ApplyInitial.
  pose proof quiet_installFromImage. pose proof quiet_Download. keep_hints.
Qed.

(** ** Properties *)
Lemma woken_bound k n k' :
  is_cancelled (ct_sys k) = true → woken k n k' →
  (n + wakes_left (n_phase (y_runner (ct_sys k'))) ≤ wakes_left (n_phase (y_runner (ct_sys k))))%nat ∧
  is_cancelled (ct_sys k') = true ∧ started_nothing (y_os (ct_sys k)) (y_os (ct_sys k')).
Proof.
  intros Hcan. induction 1 as [|n k1 k2 _ IH (a & s' & Hof & Ha & ->)|n k1 k2 _ IH Hb]; [done| |];
    destruct IH as (Hlen & Hc1 & Hn1).
  - unfold act in Ha. rewrite Hof in Ha. destruct (cancelled_step _ _ _ _ Hc1 Ha) as (Hm & Hc & Hn). simpl.
    split_and!; [lia|unfold is_cancelled in *; by rewrite Hc|by etrans].
  - destruct Hb as [a s' Hof _ Ha|wr' w' [(_ & Hcmd & _) _]%watch_watched|w' (_ & Hp & _)]; simpl.
    + unfold act in Ha. rewrite Hof in Ha. destruct (env_same _ _ _ _ Ha) as (Hst & Hc & Hn).
      rewrite Hst. split_and!; [done|unfold is_cancelled in *; by rewrite Hc|by etrans].
    + split_and!; [done|done|]. etrans; [exact Hn1|by left].
    + split_and!; [done|done|]. etrans; [exact Hn1|]. left. by rewrite Hp.
Qed.

Definition main_ok (m : main_state) : Prop :=
  match m with
  | Booting w => positive_pids (o_procs w)
  | Running k => sys_inv proc (ct_sys k) ∧ returned_cancelled (ct_sys k)
  | Finished k => n_phase (y_runner (ct_sys k)) = Returned Canceled ∧ is_cancelled (ct_sys k) = true
  | Failed why => ∀ e, why ≠ F_run e
  end.
Lemma main_step_ok m m' : main_ok m → main_step m m' → main_ok m'.
Proof.
  intros Hok Hs. destruct Hs as [w wr w' Hst|w e w' _|k k' Hk|k m Hm|w|k]; simpl in *; try done.
  - apply watched_startup in Hst as [([_ Hp] & _) _]. split; [|done]. split; simpl; try done. by rewrite Hp.
  - destruct Hok as [Hinv Hret]. split; [by eapply cstep_sys_inv|].
    destruct Hk as [a s' _ Ha|wr' w' _|w' _]; [by eapply act_returned|exact Hret|exact Hret].
  - destruct Hok as [_ Hret]. unfold main_end in Hm. destruct (n_phase _) as [| | | | |e] eqn:Hn; try done.
    destruct (Hret e Hn) as [-> Hc]. rewrite Hc in Hm. by injection Hm as <-.
Qed.

End main.

(** ** Example: started as 7, signalled, drained *)
#[local] Existing Instances wr_crypto wr_binary wr_docs.
Definition no_env (name : string) : string := "".
Definition signalled : container := loop ACancel spawned.
Definition drained : container := loop (AProcs []) signalled.
Definition stopped : container := loop AExit drained.
#[local] Notation boot := (Booting (starting_os wants_v2 "cfg2" [answer "v2" false])).
#[local] Notation mstep := (main_step no_env "amd64" (s_self example_process)).

Lemma loop_runs a k m :
  (∀ c, a ≠ ACall c) → rtc mstep m (Running k) → rtc mstep m (Running (loop a k)).
Proof.
  intros Ha Hr. destruct (loop_step a k Ha) as [Hs| ->]; [|done]. eapply rtc_r; [exact Hr|]. by apply M_run.
Qed.
Lemma signalled_reached : rtc mstep boot (Running signalled).
Proof.
  unfold signalled, spawned. do 3 (apply loop_runs; [done|]). apply rtc_once, M_boot. vm_compute. reflexivity.
Qed.
Lemma stopped_reached : rtc mstep boot (Finished stopped).
Proof.
  apply (rtc_r _ (Running stopped)); [unfold stopped, drained; do 2 (apply loop_runs; [done|]); apply signalled_reached|].
  apply M_end. vm_compute. reflexivity.
Qed.

