(* ===== verification/Interleave.v ===== *)
(** * The watchers interleaved call by call

    [Container.v] takes each check of a watcher as one step. Here the three
    watchers run as main starts them, as goroutines: between two calls of one
    check the other watchers, the supervision loop and the world may move. A call
    is a system call on a shared file, a test run, an operation of the process
    (which holds its mutex), or a block that reads and writes files of the
    watcher alone: [AtomicWrite] of the candidate, the key conversion, the
    download. *)
From S2P Require Import Prelude Threads GoStd GoTime Sha256 DoormanConfig Paths ConfigGen Os WrapperFiles FileWatcher BinarySync BinaryWatcher RoleWatcher Successor Process Supervise Wrapper Container.
From stdpp Require Import options.
Open Scope Z_scope.

(** ** The checks as sequences of calls *)
Section cuts.
  Context {PB : PgDoormanBinary} {CR : Crypto} {YM : Yaml} {SV : Supervisor}.

#[export] Instance cut_ReadFile path : Steps (ReadFile path) := one_call _.
#[export] Instance cut_FileSHA256 path : Steps (FileSHA256 path) := one_call _.
#[export] Instance cut_Remove path : Steps (Remove path) := one_call _.
#[export] Instance cut_Rename src dst : Steps (Rename src dst) := one_call _.
#[export] Instance cut_test b path : Steps (test_config b path) := one_call _.
#[export] Instance cut_key src dst : Steps (EnsurePKCS8Key src dst) := one_call _.
#[export] Instance cut_AtomicWrite path data : Steps (AtomicWrite path data) := one_call _.
#[export] Instance cut_Download spec want dest : Steps (Download spec want dest) := one_call _.
#[export] Instance cut_ConfigStale v : Steps (ConfigStale_Set v) := one_call _.
#[export] Instance cut_BinaryStale v : Steps (BinaryStale_Set v) := one_call _.
#[export] Instance cut_Reloads b : Steps (ReloadsTotal_Inc b) := one_call _.
#[export] Instance cut_Reload : Steps FileWatcher.Reload := one_call _.
#[export] Instance cut_Restart : Steps FileWatcher.Restart := one_call _.
#[export] Instance cut_Upgrade : Steps FileWatcher.Upgrade := one_call _.
#[export] Instance cut_UpgradeInFlight : Steps FileWatcher.UpgradeInFlight := one_call _.
#[export] Instance cut_ignore {A} (m : M os A) `{!Steps m} : Steps (ignore m).
Proof. unfold ignore. cut_steps. Defined.

#[export] Instance cut_stage_candidate fw data : Steps (stage_candidate fw data).
Proof. unfold stage_candidate. cut_steps. Defined.
#[export] Instance cut_materialize fw data : Steps (materialize fw data).
Proof. unfold materialize. cut_steps. Defined.
#[export] Instance cut_apply_change fw data b : Steps (apply_change fw data b).
Proof. unfold apply_change. cut_steps. Defined.
#[export] Instance cut_check_config ρ1 ρ2 fw : Steps (FileWatcher.check ρ1 ρ2 fw).
Proof. unfold FileWatcher.check. cut_steps. Defined.

#[export] Instance cut_stage_binary bw spec desired : Steps (stage_binary bw spec desired).
Proof. unfold stage_binary. cut_steps. Defined.
#[export] Instance cut_upgrade_to bw data spec desired : Steps (upgrade_to bw data spec desired).
Proof. unfold upgrade_to. cut_steps. Defined.
#[export] Instance cut_check_binary bw : Steps (BinaryWatcher.check bw).
Proof. unfold BinaryWatcher.check. cut_steps. Defined.

#[export] Instance cut_check_role rw : Steps (RoleWatcher.check rw).
Proof. unfold RoleWatcher.check. cut_steps. Defined.
End cuts.

(** ** Who writes what *)

(** The files only the config watcher writes, and those only the binary watcher does. *)
Definition config_files : list string :=
  [RuntimeConfigPath; RuntimeConfigPath +:+ CandidateSuffix; (RuntimeConfigPath +:+ CandidateSuffix) +:+ ".tmp";
   ConvertedTLSKeyPath; ConvertedTLSKeyPath +:+ ".tmp"].
Definition binary_files (k : string) : Prop :=
  k = RuntimeBinaryPath ∨ install_files (RuntimeBinaryPath +:+ binaryCandidateSuffix) k.
Lemma files_disjoint k : k ∈ config_files → ¬ binary_files k.
Proof.
  intros Hk. assert (Forall (λ k, k ≠ RuntimeBinaryPath ∧ k ≠ RuntimeBinaryPath +:+ binaryCandidateSuffix ∧
    String.prefix (RuntimeBinaryDir +:+ "/" +:+ tmp_prefix) k = false) config_files) as Hall
    by (apply (bool_decide_eq_true_1 _); by vm_compute).
  rewrite Forall_forall in Hall. destruct (Hall k Hk) as (? & ? & Hp).
  intros [?|[?|Ht]]; [done..|]. revert Ht. by apply mounted_not_temp.
Qed.

Definition same_config (w w' : os) : Prop := ∀ k, k ∈ config_files → o_files w' !! k = o_files w !! k.
Definition same_binary (w w' : os) : Prop := ∀ k, binary_files k → o_files w' !! k = o_files w !! k.

(** [data] was accepted by the binary that was installed at some moment, and a
    binary accepted the config of some moment. *)
Definition config_tested `{PgDoormanBinary} (data : string) (h : history os) : Prop :=
  ∃ w fb, seen h w ∧ o_files w !! RuntimeBinaryPath = Some fb ∧ test_accepts (f_Data fb) data = true.
Definition binary_tested `{PgDoormanBinary} (data : string) (h : history os) : Prop :=
  ∃ w fc, seen h w ∧ o_files w !! RuntimeConfigPath = Some fc ∧ test_accepts data (f_Data fc) = true.
(** A mounted spec named this digest for this machine. *)
Definition digest_wanted (specPath goarch digest : string) (h : history os) : Prop :=
  ∃ w data spec, seen h w ∧ f_Data <$> o_files w !! specPath = Some data ∧ ParseBinarySpec data = Ok spec ∧
    map_get (bs_SHA256 spec) goarch = digest ∧ digest ≠ "".

Section guarantees.
  Context {PB : PgDoormanBinary} (specPath goarch : string).

(** What a call of the config watcher may do, and one of the binary watcher. *)
Record config_call (h : history os) (w' : os) : Prop := {
  cc_frame : ∀ k, k ∉ config_files → o_files w' !! k = o_files (now h) !! k;
  cc_watched : watched (now h) w';
  cc_install : o_files w' !! RuntimeConfigPath = o_files (now h) !! RuntimeConfigPath ∨
    ∃ fc, o_files w' !! RuntimeConfigPath = Some fc ∧ config_tested (f_Data fc) h
}.
Definition verified (fb : file) (h : history os) : Prop :=
  f_Mode fb = 493 ∧ digest_wanted specPath goarch (Sum256 (f_Data fb)) h.
Record binary_call (h : history os) (w' : os) : Prop := {
  bc_frame : ∀ k, ¬ binary_files k → o_files w' !! k = o_files (now h) !! k;
  bc_watched : watched (now h) w';
  bc_install : o_files w' !! RuntimeBinaryPath = o_files (now h) !! RuntimeBinaryPath ∨
    ∃ fb, o_files w' !! RuntimeBinaryPath = Some fb ∧ binary_tested (f_Data fb) h ∧ verified fb h
}.
Definition role_call (h : history os) (w' : os) : Prop := same_files (now h) w' ∧ watched (now h) w'.
End guarantees.

(** *** What the others cannot undo *)
Section stability.
  Context {PB : PgDoormanBinary} (R : os → os → Prop).

Lemma stable_True : stable R (λ _, True).
Proof. done. Qed.
Lemma stable_and P Q : stable R P → stable R Q → stable R (λ h, P h ∧ Q h).
Proof. intros HP HQ h h' Ho [??]. split; [by eapply HP|by eapply HQ]. Qed.
Lemma stable_impl (P : Prop) Q : (P → stable R Q) → stable R (λ h, P → Q h).
Proof. intros HQ h h' Ho Hh HP. by eapply (HQ HP), Hh. Qed.
Lemma stable_seen (P : os → Prop) : stable R (λ h, ∃ w, seen h w ∧ P w).
Proof. apply stable_step. intros h w _ (w1 & Hw & HP). exists w1. split; [by apply seen_push; right|done]. Qed.
Lemma stable_config_tested data : stable R (config_tested data).
Proof. apply stable_step. intros h w _ (w1 & fb & Hw & ?). exists w1, fb. by rewrite seen_push; auto. Qed.
Lemma stable_binary_tested data : stable R (binary_tested data).
Proof. apply stable_step. intros h w _ (w1 & fc & Hw & ?). exists w1, fc. by rewrite seen_push; auto. Qed.
Lemma stable_digest s g d : stable R (digest_wanted s g d).
Proof. apply stable_step. intros h w _ (w1 & data & spec & Hw & ?). exists w1, data, spec. by rewrite seen_push; auto. Qed.
Lemma stable_file k x : (∀ w w', R w w' → o_files w' !! k = o_files w !! k) → stable R (λ h, o_files (now h) !! k = x).
Proof. intros HR. apply stable_step. intros h w Hw <-. by apply HR. Qed.
Lemma stable_data k x :
  (∀ w w', R w w' → o_files w' !! k = o_files w !! k) → stable R (λ h, f_Data <$> o_files (now h) !! k = x).
Proof. intros HR. apply stable_step. intros h w Hw <-. f_equal. by apply HR. Qed.
End stability.
#[export] Hint Resolve stable_True stable_and stable_config_tested stable_binary_tested stable_digest : stability.

(** ** The config watcher *)
Section config_thread.
  #[local] Set Default Proof Using "Type*".
  Context {PB : PgDoormanBinary} {CR : Crypto} {YM : Yaml} (p : settings).
#[local] Instance config_sv : Supervisor := process_supervisor p.
  #[local] Notation csound := (sound same_config config_call).
  #[local] Notation cstable := (stable same_config).

Definition candidate : string := RuntimeConfigPath +:+ CandidateSuffix.
Definition is_ours (fw : FileWatcher) : Prop :=
  fw_runtimePath fw = RuntimeConfigPath ∧ fw_keyPath fw = ConvertedTLSKeyPath ∧ fw_testConfig fw = Some RuntimeBinaryPath.
(** The candidate holds the new config, and a test run accepted it. *)
Definition staged (data : string) (h : history os) : Prop :=
  f_Data <$> o_files (now h) !! candidate = Some data ∧ config_tested data h.

Lemma stable_candidate data : cstable (λ h, f_Data <$> o_files (now h) !! candidate = Some data).
Proof using. apply stable_data. intros w w' Hw. apply Hw. by right; left. Qed.
Lemma stable_staged data : cstable (staged data).
Proof using PB. apply stable_and; [apply stable_candidate|apply stable_config_tested]. Qed.
#[local] Hint Resolve stable_candidate stable_staged : stability.

(** A call that does not touch the installed config. *)
Lemma config_beside {A} (m : M os A) P (Q : res A → history os → Prop) :
  cstable P → (∀ x, cstable (Q x)) → keeps_rel watched m → framed (λ k, k ∈ tail config_files) m →
  (∀ h x w, P h → m (now h) = (x, w) → Q x (push w h)) → csound P m (cut := one_call m) Q.
Proof using PB.
  intros HP HQ Hw Hf Hm. apply sound_call; [done..|]. intros h x w Hh Hr. split; [|by apply (Hm h)]. split.
  - destruct (Hf _ _ _ Hr) as [Hk _]. intros k Hn. apply Hk. revert Hn. simpl. set_solver.
  - by eapply Hw.
  - left. destruct (Hf _ _ _ Hr) as [Hk _]. apply Hk. apply (bool_decide_eq_true_1 _). by vm_compute.
Qed.
(** One whose result and effect do not matter. *)
Lemma config_any {A} (m : M os A) P :
  cstable P → keeps_rel watched m → framed (λ k, k ∈ tail config_files) m →
  (∀ h x w, P h → m (now h) = (x, w) → P (push w h)) → csound P m (cut := one_call m) (λ _, P).
Proof using PB. intros. by apply config_beside. Qed.

Lemma sound_stage fw data :
  is_ours fw → csound (λ _, True) (stage_candidate fw data) (λ r h, r = Ok () → staged data h).
Proof using PB.
  intros (Hrt & Hk & Ht). unfold stage_candidate, cut_stage_candidate.
  apply sound_bind with (P' := λ _ _, True).
  { destruct (decide _) as [|Hraw]; [by apply sound_ret|].
    eapply sound_post; [apply (config_any _ (λ _, True))|by intros [?|?] h]; [done|..|done].
    - apply watched_quiet, quiet_EnsurePKCS8Key.
    - rewrite Hk. apply framed_EnsurePKCS8Key; simpl; set_solver. }
  intros _. rewrite Hrt, Ht. fold candidate.
  apply sound_bind with (P' := λ _ h, f_Data <$> o_files (now h) !! candidate = Some data).
  { eapply sound_post; [apply (config_beside _ (λ _, True)
      (λ r h, r = Ok () → f_Data <$> o_files (now h) !! candidate = Some data))|by intros [[]|e] h; auto].
    - done.
    - intros r. apply stable_impl. auto with stability.
    - apply watched_quiet, quiet_AtomicWrite.
    - apply framed_AtomicWrite; simpl; set_solver.
    - intros h r w _ Hr ->. by apply AtomicWrite_ok in Hr. }
  intros _. apply sound_bind_try with (P' := λ r h, r = Ok () → staged data h).
  - apply config_beside.
    + auto with stability.
    + intros r. apply stable_impl. auto with stability.
    + apply watched_quiet, quiet_test.
    + apply framed_test.
    + intros h r w Hd Hr ->. apply test_config_ok in Hr as (Hf & fb & fc & Hfb & Hfc & Hacc). split.
      * unfold now, push. simpl. by rewrite Hf.
      * rewrite Hfc in Hd. injection Hd as <-. exists (now h), fb. split; [|done]. apply seen_push. right. by left.
  - intros [[]|e].
    + apply sound_ret; [apply stable_impl; auto with stability|]. by auto.
    + unfold ignore, cut_ignore. apply sound_bind with (P' := λ _ _, True); [|intros _; by apply sound_throw].
      apply sound_bind_try with (P' := λ _ _, True); [|intros r; by apply sound_ret].
      apply sound_pre with (P' := λ _, True); [done|]. apply (config_any _ (λ _, True)); [done|..|done].
      * apply watched_quiet, quiet_remove.
      * apply framed_remove. simpl. set_solver.
Qed.

Lemma sound_materialize fw data : is_ours fw → csound (λ _, True) (materialize fw data) (λ _ _, True).
Proof using PB.
  intros Hfw. unfold materialize, cut_materialize. apply sound_bind with (P' := λ _, staged data).
  { eapply sound_post; [by apply sound_stage|]. intros [[]|e] h; auto. }
  intros _. destruct Hfw as (-> & _). fold candidate. apply sound_call; [auto with stability|done|].
  intros h x w [Hd Hacc] Hr. split; [|done]. split.
  - eapply (framed_rename (λ k, k ∈ config_files)); [..|exact Hr]; simpl; set_solver.
  - eapply watched_quiet; [apply quiet_rename|exact Hr].
  - destruct x as [[]|e]; [right|left; by rewrite (Rename_err _ _ _ _ _ Hr)].
    apply Rename_ok in Hr as (f & Hf & ->). exists f. rewrite lookup_insert_eq. split; [done|].
    rewrite Hf in Hd. by injection Hd as ->.
Qed.

(** A metric. *)
Lemma config_metric {B} g (f : unit → M os B) `{!∀ a, Steps (f a)} Q :
  keeps_rel watched (modify g) → framed (λ k, k ∈ tail config_files) (modify g) →
  csound (λ _, True) (f ()) Q → csound (λ _, True) (modify g ≫= f) (cut := @steps_bind _ _ _ (modify g) f (one_call _) _) Q.
Proof using PB.
  intros Hw Hf HQ. apply (sound_bind _ _ _ (λ _ _, True)); [|by intros []].
  eapply sound_post; [apply (config_beside _ (λ _, True) (λ r _, r = Ok ()))|]; try done.
  - intros r. by apply stable_step.
  - intros h r w _ Hr. unfold modify in Hr. by injection Hr as <- _.
  - by intros r h ->.
Qed.
Lemma sound_apply_change fw data b :
  is_ours fw → csound (λ _, True) (apply_change fw data b) (λ r _, ∃ l, r = Ok (with_lastApplied l fw)).
Proof.
  intros Hfw. unfold apply_change, cut_apply_change. apply sound_bind_try with (P' := λ _ _, True); [by apply sound_materialize|].
  assert (∃ l, Ok fw = Ok (with_lastApplied l fw)) as Hsame by (exists (fw_lastApplied fw); by destruct fw).
  assert (csound (λ _, True) (ReloadsTotal_Inc false ≫= λ _, mret fw) (λ r _, ∃ l, r = Ok (with_lastApplied l fw))) as Hfail.
  { apply config_metric; [apply (watched_ReloadsTotal false)|by apply framed_modify|by apply sound_ret]. }
  intros [[]|e]; [|exact Hfail]. apply sound_bind_try with (P' := λ _ _, True).
  - destruct b; apply (config_any _ (λ _, True)); try done.
    + apply watched_Restart.
    + apply framed_disk, (@Restart_disk _ (process_supervisor_laws p)).
    + apply watched_Reload.
    + apply framed_disk, (@Reload_disk _ (process_supervisor_laws p)).
  - intros [[]|e]; [|exact Hfail].
    apply config_metric; [apply (watched_ConfigStale 0)|by apply framed_modify|].
    apply config_metric; [apply (watched_ReloadsTotal true)|by apply framed_modify|].
    apply sound_ret; [done|]. eauto.
Qed.

(** A check keeps the watcher's paths, whatever the others do. *)
Lemma sound_check_config ρ1 ρ2 fw :
  is_ours fw → csound (λ _, True) (FileWatcher.check ρ1 ρ2 fw) (λ r _, ∃ l, r = Ok (with_lastApplied l fw)).
Proof.
  intros Hfw. unfold FileWatcher.check, cut_check_config.
  assert (∃ l, Ok fw = Ok (with_lastApplied l fw)) as Hsame by (exists (fw_lastApplied fw); by destruct fw).
  apply sound_bind_try with (P' := λ _ _, True).
  { apply (config_any _ (λ _, True)); [done|apply watched_read|apply framed_read|done]. }
  intros [data|e]; [|by apply sound_ret]. destruct (decide _); [by apply sound_ret|].
  apply config_metric; [apply (watched_ConfigStale 1)|by apply framed_modify|].
  destruct (ValidateConfigBytes ρ1 data); [by apply sound_apply_change|].
  apply config_metric; [apply (watched_ReloadsTotal false)|by apply framed_modify|by apply sound_ret].
Qed.
End config_thread.

(** ** The binary watcher *)
Section binary_thread.
  #[local] Set Default Proof Using "Type*".
  Context {PB : PgDoormanBinary} {CR : Crypto} {YM : Yaml} (p : settings).
  Context (specPath goarch : string).
#[local] Instance binary_sv : Supervisor := process_supervisor p.
  #[local] Notation bsound := (sound same_binary (binary_call specPath goarch)).
  #[local] Notation bstable := (stable same_binary).

Definition next_binary : string := RuntimeBinaryPath +:+ binaryCandidateSuffix.
Definition is_ours_b (bw : BinaryWatcher) : Prop :=
  bw_specPath bw = specPath ∧ bw_runtimePath bw = RuntimeBinaryPath ∧ bw_configPath bw = RuntimeConfigPath ∧ bw_arch bw = goarch.

Definition spec_read (data : string) (h : history os) : Prop :=
  ∃ w, seen h w ∧ f_Data <$> o_files w !! specPath = Some data.
(** The candidate is the complete download of the wanted digest. *)
Definition downloaded (desired : string) (h : history os) : Prop :=
  digest_wanted specPath goarch desired h ∧
  ∃ data, o_files (now h) !! next_binary = Some (File data 493) ∧ Sum256 data = desired.
(** And a test run on the installed config went well. *)
Definition staged_binary (desired : string) (h : history os) : Prop :=
  digest_wanted specPath goarch desired h ∧
  ∃ data, o_files (now h) !! next_binary = Some (File data 493) ∧ Sum256 data = desired ∧ binary_tested data h.

Lemma next_apart : ¬ temp_name next_binary next_binary ∧ ¬ install_files next_binary RuntimeBinaryPath.
Proof using.
  assert (∀ k, String.prefix (RuntimeBinaryDir +:+ "/" +:+ tmp_prefix) k = false → ¬ temp_name next_binary k) as Ht
    by (intros k; by apply mounted_not_temp).
  split; [by apply Ht|]. intros [H|H]; [|revert H; by apply Ht]. apply (bool_decide_eq_true_2 _) in H. by vm_compute in H.
Qed.
Lemma same_next w w' : same_binary w w' → o_files w' !! next_binary = o_files w !! next_binary.
Proof using. intros Hw. apply Hw. right. by left. Qed.
Lemma stable_spec_read data : bstable (spec_read data).
Proof using. apply stable_seen. Qed.
Lemma stable_downloaded desired : bstable (downloaded desired).
Proof using.
  apply stable_step. intros h w Hw (Hd & data & Hf & Hs). split.
  - eapply stable_digest; [|exact Hd]. apply rtc_once. by exists w.
  - exists data. split; [|done]. unfold now, push in *. simpl. by rewrite (same_next _ _ Hw).
Qed.
Lemma stable_staged_binary desired : bstable (staged_binary desired).
Proof using PB.
  apply stable_step. intros h w Hw (Hd & data & Hf & Hs & Ht).
  assert (others same_binary h (push w h)) as Ho by (apply rtc_once; by exists w). split; [by eapply stable_digest|].
  exists data. split_and!; [|done|by eapply stable_binary_tested]. unfold now, push in *. simpl. by rewrite (same_next _ _ Hw).
Qed.
#[local] Hint Resolve stable_spec_read stable_downloaded stable_staged_binary : stability.

(** A call that writes at most the candidate and temporary files. *)
Lemma binary_beside {A} (m : M os A) P (Q : res A → history os → Prop) :
  bstable P → (∀ x, bstable (Q x)) → keeps_rel watched m →
  (∀ w x w', m w = (x, w') → ∀ k, ¬ install_files next_binary k → o_files w' !! k = o_files w !! k) →
  (∀ h x w, P h → m (now h) = (x, w) → Q x (push w h)) → bsound P m (cut := one_call m) Q.
Proof using PB.
  intros HP HQ Hw Hf Hm. apply sound_call; [done..|]. intros h x w Hh Hr. split; [|by apply (Hm h)]. split.
  - intros k Hk. apply (Hf _ _ _ Hr). intros ?. apply Hk. by right.
  - by eapply Hw.
  - left. apply (Hf _ _ _ Hr), next_apart.
Qed.
(** One that writes no file at all. *)
Lemma binary_idle {A} (m : M os A) P :
  bstable P → keeps_rel watched m → keeps_rel same_files m →
  (∀ h w, P h → P (push w h)) → bsound P m (cut := one_call m) (λ _, P).
Proof using PB.
  intros HP Hw Hf Hm. apply binary_beside; try done; [|by eauto].
  intros w x w' Hr k _. by rewrite (Hf _ _ _ Hr).
Qed.
Lemma binary_metric {B} g (f : unit → M os B) `{!∀ a, Steps (f a)} P Q :
  bstable P → (∀ h w, P h → P (push w h)) → keeps_rel watched (modify g) → keeps_rel same_files (modify g) →
  bsound P (f ()) Q → bsound P (modify g ≫= f) (cut := @steps_bind _ _ _ (modify g) f (one_call _) _) Q.
Proof using PB.
  intros HP Hpush Hw Hf HQ. apply (sound_bind _ _ _ (λ _, P)); [|by intros []].
  eapply sound_post; [apply (binary_beside _ P (λ r h, r = Ok () ∧ P h))|]; try done.
  - intros r. apply stable_and; [by apply stable_step|done].
  - intros w x w' Hr k _. by rewrite (Hf _ _ _ Hr).
  - intros h r w Hh Hr. unfold modify in Hr. injection Hr as <- _. auto.
  - by intros r h [-> ?].
Qed.

Lemma wanted_push desired h w : digest_wanted specPath goarch desired h → digest_wanted specPath goarch desired (push w h).
Proof using. intros (w1 & data & spec & Hw & ?). exists w1, data, spec. rewrite seen_push. auto. Qed.
#[local] Hint Resolve stable_True stable_digest wanted_push : stability.

Lemma sound_stage_binary bw spec desired :
  is_ours_b bw → bsound (digest_wanted specPath goarch desired) (stage_binary bw spec desired)
    (λ r h, r = Ok () → staged_binary desired h).
Proof using PB.
  intros (_ & Hrt & Hcfg & _). unfold stage_binary, cut_stage_binary. rewrite Hrt, Hcfg. fold next_binary.
  apply sound_bind with (P' := λ _, downloaded desired).
  { eapply sound_post; [apply (binary_beside _ (digest_wanted specPath goarch desired) (λ r h, r = Ok () → downloaded desired h))|
      by intros [[]|e] h; auto].
    - auto with stability.
    - intros r. apply stable_impl. auto with stability.
    - apply watched_quiet, quiet_Download.
    - intros w x w' Hr. apply Download_effect in Hr as [? _]; [done|]. apply next_apart.
    - intros h r w Hd Hr ->. split; [auto with stability|]. by apply Download_effect in Hr as [_ ?]; [|apply next_apart]. }
  intros _. apply sound_bind_try with (P' := λ r h, r = Ok () → staged_binary desired h).
  - apply binary_beside.
    + auto with stability.
    + intros r. apply stable_impl. auto with stability.
    + apply watched_quiet, quiet_test.
    + intros w x w' Hr k _. eapply (framed_lookup (λ _, False)); [apply framed_test|exact Hr|tauto].
    + intros h r w (Hd & data & Hf & Hs) Hr ->. apply test_config_ok in Hr as (Hw & fb & fc & Hfb & Hfc & Hacc).
      split; [auto with stability|]. exists data. unfold now, push in *. simpl. rewrite Hw. split_and!; [done..|].
      rewrite Hf in Hfb. injection Hfb as <-. exists h.1, fc. split; [|done]. apply seen_push. right. by left.
  - intros [[]|e].
    + apply sound_ret; [apply stable_impl; auto with stability|]. by auto.
    + unfold ignore, cut_ignore. apply sound_bind with (P' := λ _ _, True); [|intros _; by apply sound_throw].
      apply sound_bind_try with (P' := λ _ _, True); [|intros r; by apply sound_ret].
      apply sound_pre with (P' := λ _, True); [done|]. apply binary_beside; try done.
      * apply watched_quiet, quiet_remove.
      * intros w x w' Hr k Hk. eapply (framed_lookup (λ k, k = next_binary)); [by apply framed_remove|exact Hr|].
        intros ->. apply Hk. by left.
Qed.

Lemma UpgradeInFlight_total w r w' : Process.UpgradeInFlight p w = (r, w') → ∃ b, r = Ok b.
Proof.
  unfold Process.UpgradeInFlight, upgradeRequestFreshLocked, waitDelay, mbind, M_bind, gets, try_, mret, M_ret.
  destruct (negb _); [intros [= <- _]; eauto|]. simpl.
  destruct (ReadFile (s_configPath p) w) as [rd w1]. simpl. intros [= <- _]. eauto.
Qed.

Lemma sound_upgrade_to bw data spec desired :
  is_ours_b bw → bsound (digest_wanted specPath goarch desired) (upgrade_to bw data spec desired)
    (λ r _, ∃ l, r = Ok (with_lastSpec l bw)).
Proof.
  intros Hbw. unfold upgrade_to, cut_upgrade_to. pose proof Hbw as (_ & Hrt & _). rewrite Hrt. fold next_binary.
  assert (∃ l, Ok bw = Ok (with_lastSpec l bw)) as Hsame by (exists (bw_lastSpec bw); by destruct bw).
  apply binary_metric; [auto with stability..|apply (watched_BinaryStale 1)|by apply keeps_modify; [apply _|]|].
  apply sound_bind with (P' := λ _, digest_wanted specPath goarch desired).
  { eapply sound_post; [apply (binary_beside _ (digest_wanted specPath goarch desired)
      (λ r h, (∃ b, r = Ok b) ∧ digest_wanted specPath goarch desired h))|by intros [b|e] h [[? ?] ?]].
    - auto with stability.
    - intros r. apply stable_and; [by apply stable_step|auto with stability].
    - apply watched_UpgradeInFlight.
    - intros w x w' Hr k _. by rewrite (files_InFlight p _ _ _ Hr).
    - intros h r w Hd Hr. split; [exact (UpgradeInFlight_total _ _ _ Hr)|auto with stability]. }
  intros [|]; [apply sound_ret; [auto with stability|done]|].
  apply sound_bind_try with (P' := λ r h, r = Ok () → staged_binary desired h); [by apply sound_stage_binary|].
  intros [[]|e]; [|by apply sound_ret; [apply stable_impl|]].
  apply sound_bind_try with (P' := λ _ _, True).
  { apply sound_call; [apply stable_impl; auto with stability|done|]. intros h x w Hst Hr. split; [|done].
    destruct (Hst eq_refl) as (Hd & d & Hf & Hs & Ht). split.
    - eapply (framed_rename binary_files next_binary RuntimeBinaryPath); [right; by left|by left|exact Hr].
    - eapply watched_quiet; [apply quiet_rename|exact Hr].
    - destruct x as [[]|e]; [right|left; by rewrite (Rename_err _ _ _ _ _ Hr)].
      apply Rename_ok in Hr as (f & Hf' & ->). rewrite Hf in Hf'. injection Hf' as <-. exists (File d 493).
      rewrite lookup_insert_eq. split_and!; [done..|]. by rewrite <- Hs in Hd. }
  intros [[]|e]; [|by apply sound_ret]. apply sound_bind_try with (P' := λ _ _, True).
  { apply (binary_idle _ (λ _, True)); try done; [apply watched_Upgrade|apply files_Upgrade]. }
  intros [[]|e]; [|by apply sound_ret].
  apply binary_metric; [done..|apply (watched_BinaryStale 0)|by apply keeps_modify; [apply _|]|]. apply sound_ret; [done|]. eauto.
Qed.

Lemma sound_check_binary bw :
  is_ours_b bw → bsound (λ _, True) (BinaryWatcher.check bw) (λ r _, ∃ l, r = Ok (with_lastSpec l bw)).
Proof.
  intros Hbw. unfold BinaryWatcher.check, cut_check_binary. pose proof Hbw as (Hsp & Hrt & _ & Hgo).
  assert (∃ l, Ok bw = Ok (with_lastSpec l bw)) as Hsame by (exists (bw_lastSpec bw); by destruct bw).
  rewrite Hsp. apply sound_bind_try with (P' := λ r h, match r with Ok data => spec_read data h | Err _ => True end).
  { apply binary_beside; [done| |apply watched_read| |].
    - intros [?|?]; auto with stability.
    - intros w x w' Hr k _. by rewrite (ReadFile_files _ _ _ _ Hr).
    - intros h [data|e] w _ Hr; [|done]. apply ReadFile_ok in Hr as [_ Hr]. exists (now h). split; [|done].
      apply seen_push. right. by left. }
  intros [data|e]; [|by apply sound_ret]. destruct (bytes_Equal _ _); [apply sound_ret; [auto with stability|done]|].
  destruct (ParseBinarySpec data) as [spec|e] eqn:Hspec; [|apply sound_ret; [auto with stability|done]].
  rewrite Hgo. destruct (decide _) as [|Hne]; [apply sound_ret; [auto with stability|eauto]|].
  apply sound_pre with (P' := digest_wanted specPath goarch (map_get (bs_SHA256 spec) goarch)).
  { intros h (w & Hw & Hd). by exists w, data, spec. }
  apply sound_bind_try with (P' := λ _, digest_wanted specPath goarch (map_get (bs_SHA256 spec) goarch)).
  { apply binary_idle; [auto with stability| | |auto with stability].
    - unfold FileSHA256. apply keeps_bind; [apply _|apply watched_read|intros; apply keeps_ret, _].
    - intros w r w' [Hf _]%FileSHA256_inv. done. }
  intros cur. destruct (decide _); [|by apply sound_upgrade_to].
  apply binary_metric; [auto with stability..|apply (watched_BinaryStale 0)|by apply keeps_modify; [apply _|]|].
  apply sound_ret; [auto with stability|eauto].
Qed.
End binary_thread.

(** ** The role watcher *)
Section role_thread.
  #[local] Set Default Proof Using "Type*".
  Context {YM : Yaml} (p : settings).
#[local] Instance role_sv : Supervisor := process_supervisor p.
  #[local] Notation rsound := (sound (λ _ _ : os, True) role_call).

Lemma role_any {A} (m : M os A) :
  keeps_rel watched m → keeps_rel same_files m → rsound (λ _, True) m (cut := one_call m) (λ _ _, True).
Proof using. intros Hw Hf. apply sound_call; [done..|]. intros h x w _ Hr. split; [split|done]; [by eapply Hf|by eapply Hw]. Qed.

Lemma sound_check_role rw : rsound (λ _, True) (RoleWatcher.check rw) (λ r _, ∃ l, r = Ok (with_lastRole l rw)).
Proof.
  unfold RoleWatcher.check, cut_check_role.
  assert (∃ l, Ok rw = Ok (with_lastRole l rw)) as Hsame by (exists (rw_lastRole rw); by destruct rw).
  apply sound_bind_try with (P' := λ _ _, True); [apply role_any; [apply watched_read|apply files_read]|].
  intros [data|e]; [|by apply sound_ret]. cbv zeta. destruct (decide _); [by apply sound_ret|].
  destruct (negb _); [apply sound_ret; [done|eauto]|].
  apply sound_bind_try with (P' := λ _ _, True); [apply role_any; [apply watched_Restart|apply files_Restart]|].
  intros [[]|e]; (apply sound_ret; [done|eauto]).
Qed.
End role_thread.

(** ** The machine *)
Record threads : Type := {
  th_config : prog os FileWatcher; th_binary : prog os BinaryWatcher; th_role : prog os RoleWatcher
}.
(** The threads, the loop with the present state, and the earlier states. *)
Record machine : Type := { mc_threads : threads; mc_sys : sys; mc_past : list os }.
Definition mc_history (k : machine) : history os := (y_os (mc_sys k), mc_past k).
Definition moved (s : sys) (k : machine) : machine :=
  {| mc_threads := mc_threads k; mc_sys := s; mc_past := y_os (mc_sys k) :: mc_past k |}.
Definition called (ts : threads) (w : os) (k : machine) : machine :=
  {| mc_threads := ts; mc_sys := with_os w (mc_sys k); mc_past := y_os (mc_sys k) :: mc_past k |}.

(** The world may write any file but those of the watchers. *)
Definition elsewhere (w w' : os) : Prop :=
  same_config w w' ∧ same_binary w w' ∧
  o_process w' = o_process w ∧ o_signals w' = o_signals w ∧ o_clock w' = o_clock w ∧ o_procs w' = o_procs w.

(** One call of a thread; after a check it starts the next one. *)
Definition tstep {A} (again : A → prog os A → Prop) (p : prog os A) (w : os) (p' : prog os A) (w' : os) : Prop :=
  match p with
  | Ret (Ok a) => again a p' ∧ w' = w
  | Ret (Err _) => False
  | Do m k => ∃ x, m w = (x, w') ∧ p' = k x
  end.

Section machine.
  Context {PB : PgDoormanBinary} {CR : Crypto} {YM : Yaml} (p : settings).
#[local] Instance machine_sv : Supervisor := process_supervisor p.

Definition config_again (fw : FileWatcher) (t : prog os FileWatcher) : Prop :=
  ∃ ρ1 ρ2, t = steps (FileWatcher.check ρ1 ρ2 fw).
Definition binary_again (bw : BinaryWatcher) (t : prog os BinaryWatcher) : Prop := t = steps (BinaryWatcher.check bw).
(** (Without a role file, where main starts no such goroutine, a check reads
    nothing and changes nothing.) *)
Definition role_again (rw : RoleWatcher) (t : prog os RoleWatcher) : Prop := t = steps (RoleWatcher.check rw).

(** A step of one of the three goroutines. *)
Inductive watcher_step (k : machine) : machine → Prop :=
  | W_config t w : tstep config_again (th_config (mc_threads k)) (y_os (mc_sys k)) t w →
      watcher_step k (called {| th_config := t; th_binary := th_binary (mc_threads k); th_role := th_role (mc_threads k) |} w k)
  | W_binary t w : tstep binary_again (th_binary (mc_threads k)) (y_os (mc_sys k)) t w →
      watcher_step k (called {| th_config := th_config (mc_threads k); th_binary := t; th_role := th_role (mc_threads k) |} w k)
  | W_role t w : tstep role_again (th_role (mc_threads k)) (y_os (mc_sys k)) t w →
      watcher_step k (called {| th_config := th_config (mc_threads k); th_binary := th_binary (mc_threads k); th_role := t |} w k).
Inductive mstep (k : machine) : machine → Prop :=
  | S_watcher k' : watcher_step k k' → mstep k k'
  | S_loop a s' : (∀ c, a ≠ ACall c) → act p a (mc_sys k) = Some s' → mstep k (moved s' k)
  | S_world w' : elsewhere (y_os (mc_sys k)) w' → mstep k (moved (with_os w' (mc_sys k)) k).

(** The goroutines of main, before their first check. *)
Definition begun (wr : wrapper) (w : os) : machine :=
  {| mc_threads := {| th_config := Ret (Ok (wr_fw wr)); th_binary := Ret (Ok (wr_bw wr)); th_role := Ret (Ok (wr_rw wr)) |};
     mc_sys := ct_sys (started wr w); mc_past := [] |}.

(** ** Invariant *)
(** The installed pair: each file was tested against the other one of some moment. *)
Definition pair_inv (specPath goarch : string) (w0 : os) (h : history os) : Prop :=
  (∃ fc, o_files (now h) !! RuntimeConfigPath = Some fc ∧ config_tested (f_Data fc) h) ∧
  ∃ fb, o_files (now h) !! RuntimeBinaryPath = Some fb ∧ binary_tested (f_Data fb) h ∧
    (o_files w0 !! RuntimeBinaryPath = Some fb ∨ verified specPath goarch fb h).
Lemma pair_push s g w0 h w :
  pair_inv s g w0 h →
  (o_files w !! RuntimeConfigPath = o_files (now h) !! RuntimeConfigPath ∨
    ∃ fc, o_files w !! RuntimeConfigPath = Some fc ∧ config_tested (f_Data fc) h) →
  (o_files w !! RuntimeBinaryPath = o_files (now h) !! RuntimeBinaryPath ∨
    ∃ fb, o_files w !! RuntimeBinaryPath = Some fb ∧ binary_tested (f_Data fb) h ∧ verified s g fb h) →
  pair_inv s g w0 (push w h).
Proof using.
  intros [(fc & Hc & Htc) (fb & Hb & Htb & Hv)] Hcase Hbase.
  assert (others (λ _ _, True) h (push w h)) as Ho by (apply rtc_once; by exists w).
  assert (∀ fb, verified s g fb h → verified s g fb (push w h)) as Hver
    by (intros f [? Hd]; split; [done|by eapply stable_digest]).
  unfold pair_inv. change (now (push w h)) with w. split.
  - destruct Hcase as [->|(fc' & -> & Ht)]; eexists; (split; [eassumption || done|by eapply stable_config_tested]).
  - destruct Hbase as [->|(fb' & -> & Ht & Hv')]; eexists; (split; [eassumption || done|]);
      (split; [by eapply stable_binary_tested|]); [destruct Hv; auto|auto].
Qed.

Lemma thread_step {A} again (R : os → os → Prop) G Q (t t' : prog os A) h w :
  safe R G Q t h → tstep again t (now h) t' w → (∀ h, G h (now h)) →
  (∀ a h1 h2 t, Q (Ok a) h1 → again a t → safe R G Q t h2) → G h w ∧ safe R G Q t' (push w h).
Proof using.
  intros Hs Ht HG Hq. destruct t as [[a|e]|X m k]; simpl in Ht; [|done|].
  - destruct Ht as [Ha ->]. split; [done|]. by eapply Hq, Ha; apply Hs, rtc_refl.
  - destruct Ht as (x & Hr & ->). by apply (Hs h); [apply rtc_refl|].
Qed.

(** Each thread is in the middle of a check of its own watcher. *)
Record machine_inv (source key specPath goarch : string) (w0 : os) (k : machine) : Prop := {
  mi_sys : sys_inv p (mc_sys k);
  mi_pair : pair_inv specPath goarch w0 (mc_history k);
  mi_config : safe same_config config_call
    (λ r _, ∃ l, r = Ok (with_lastApplied l (NewFileWatcher source RuntimeConfigPath key ConvertedTLSKeyPath)))
    (th_config (mc_threads k)) (mc_history k);
  mi_binary : safe same_binary (binary_call specPath goarch)
    (λ r _, ∃ l, r = Ok (with_lastSpec l (NewBinaryWatcher specPath goarch))) (th_binary (mc_threads k)) (mc_history k);
  mi_role : safe (λ _ _, True) role_call (λ r _, ∃ rw, r = Ok rw) (th_role (mc_threads k)) (mc_history k)
}.

Lemma config_call_refl h : config_call h (now h).
Proof using. split; [done|done|by left]. Qed.
Lemma binary_call_refl specPath goarch h : binary_call specPath goarch h (now h).
Proof using. split; [done|done|by left]. Qed.
Lemma safe_push {A} (R : os → os → Prop) G Q (t : prog os A) h w : R (now h) w → safe R G Q t h → safe R G Q t (push w h).
Proof using. intros Hw. apply safe_others, rtc_once. by exists w. Qed.

Lemma watcher_step_inv source key s g w0 k k' :
  machine_inv source key s g w0 k → watcher_step k k' →
  watched (y_os (mc_sys k)) (y_os (mc_sys k')) ∧ machine_inv source key s g w0 k'.
Proof.
  intros [Hsys Hpair Hc Hb Hr] [t w Ht|t w Ht|t w Ht].
  - destruct (thread_step _ _ _ _ _ _ (mc_history k) _ Hc Ht config_call_refl) as [[Hf Hw Hi] Hs].
    { intros a h1 h2 t' [l [= ->]] (ρ1 & ρ2 & ->). eapply safe_mono; [|by apply (sound_check_config p)].
         intros r h' [l' ->]. by exists l'. }
    split; [done|]. split; simpl; [apply inv_beside; [done|apply Hw]| |done| |by apply (safe_push _ _ _ _ (mc_history k))].
    + apply (pair_push _ _ _ (mc_history k)); [done|exact Hi|]. left. apply Hf. intros Hk%files_disjoint. apply Hk. by left.
    + apply (safe_push _ _ _ _ (mc_history k)); [|done]. intros x Hx. apply Hf. by intros ?%files_disjoint.
  - destruct (thread_step _ _ _ _ _ _ (mc_history k) _ Hb Ht (binary_call_refl s g)) as [[Hf Hw Hi] Hs].
    { intros a h1 h2 t' [l [= ->]] ->. eapply safe_mono; [|by apply (sound_check_binary p s g)].
         intros r h' [l' ->]. by exists l'. }
    split; [done|]. split; simpl; [apply inv_beside; [done|apply Hw]| | |done|by apply (safe_push _ _ _ _ (mc_history k))].
    + apply (pair_push _ _ _ (mc_history k)); [done| |exact Hi]. left. apply Hf. apply files_disjoint. by left.
    + apply (safe_push _ _ _ _ (mc_history k)); [|done]. intros x Hx. by apply Hf, files_disjoint.
  - destruct (thread_step _ _ _ _ _ _ (mc_history k) _ Hr Ht (λ h, conj eq_refl (reflexivity (now h)))) as [[Hf Hw] Hs].
    { intros a h1 h2 t' _ ->. eapply safe_mono; [|by apply (sound_check_role p)]. intros r h' [l ->]. eauto. }
    unfold same_files in Hf. split; [done|]. split; simpl; [apply inv_beside; [done|apply Hw]| | | |done].
    + apply (pair_push _ _ _ (mc_history k)); [done|left|left]; simpl; by rewrite Hf.
    + apply (safe_push _ _ _ _ (mc_history k)); [|done]. intros x _. simpl. by rewrite Hf.
    + apply (safe_push _ _ _ _ (mc_history k)); [|done]. intros x _. simpl. by rewrite Hf.
Qed.

Lemma moved_inv source key s g w0 k sy :
  machine_inv source key s g w0 k → sys_inv p sy →
  same_config (y_os (mc_sys k)) (y_os sy) → same_binary (y_os (mc_sys k)) (y_os sy) →
  machine_inv source key s g w0 (moved sy k).
Proof using.
  intros [_ Hpair Hc Hb Hr] Hsys Hsc Hsb. split; simpl; [done| | | |]; try by apply (safe_push _ _ _ _ (mc_history k)).
  apply (pair_push _ _ _ (mc_history k)); [done|left; apply Hsc; by left|left; apply Hsb; by left].
Qed.
Lemma mstep_inv source key s g w0 k k' :
  machine_inv source key s g w0 k → mstep k k' → machine_inv source key s g w0 k'.
Proof.
  intros Hinv [k1 Hw|a sy _ Ha|w (Hc & Hb & Hp & Hs & Hcl & Hpr)].
  - by eapply watcher_step_inv.
  - pose proof (act_files _ _ _ _ Ha) as Hf. apply moved_inv; [done|eapply act_inv; [|exact Ha]; apply Hinv| |]; intros x _; by rewrite Hf.
  - apply moved_inv; [done| |done|done]. apply inv_beside; [apply Hinv|]. unfold same_supervised, instant. by rewrite Hp.
Qed.

Lemma begun_inv source key s g wr w :
  wired source key s g wr w → sys_inv p (ct_sys (started wr w)) → machine_inv source key s g w (begun wr w).
Proof using.
  intros ([l Hfw] & [l2 Hbw] & fb & fc & Hfb & Hfc & Hacc) Hsys. split; simpl; [done| | | |].
  - split; [exists fc|exists fb]; (split; [done|]); [exists w, fb|split; [exists w, fc|by left]]; split_and!; try done; by left.
  - intros h _. rewrite Hfw. eauto.
  - intros h _. rewrite Hbw. eauto.
  - intros h _. eauto.
Qed.

(** A thread is never stuck. *)
Lemma thread_runs {A} again (R : os → os → Prop) G Q (t : prog os A) h :
  safe R G Q t h → (∀ r h', Q r h' → ∃ a, r = Ok a) → (∀ a, ∃ t', again a t') → ∃ t' w', tstep again t (now h) t' w'.
Proof using.
  intros Hs HQ Ha. destruct t as [r|X m c].
  - destruct (HQ r h) as [a ->]; [by apply Hs, rtc_refl|]. destruct (Ha a) as [t' ?]. by exists t', (now h).
  - destruct (m (now h)) as [x w] eqn:Hr. exists (c x), w, x. done.
Qed.

(** A check that is not interrupted is the check of [Container.v]. *)
Definition idle (wr : wrapper) (k : machine) : Prop :=
  mc_threads k = {| th_config := Ret (Ok (wr_fw wr)); th_binary := Ret (Ok (wr_bw wr)); th_role := Ret (Ok (wr_rw wr)) |}.
Lemma alone_thread {A} again (put : prog os A → threads) (t : prog os A) k r w :
  (∀ t1 t2 k1 w2, mc_threads k1 = put t1 → tstep again t1 (y_os (mc_sys k1)) t2 w2 → watcher_step k1 (called (put t2) w2 k1)) →
  mc_threads k = put t → alone t (y_os (mc_sys k)) = (r, w) →
  ∃ k', rtc watcher_step k k' ∧ mc_threads k' = put (Ret r) ∧ mc_sys k' = with_os w (mc_sys k).
Proof using.
  intros Hput. revert k. induction t as [r0|X m c IH]; intros k Hk Hr; simpl in Hr.
  - injection Hr as <- <-. exists k. split_and!; [done..|]. by destruct k as [? [] ?].
  - destruct (m (y_os (mc_sys k))) as [x w1] eqn:Hm.
    destruct (IH x (called (put (c x)) w1 k)) as (k' & Hs & Ht & Hsys); [done|done|].
    exists k'. split_and!; [|done|by rewrite Hsys]. eapply rtc_l; [|exact Hs]. eapply Hput; [done|]. by exists x.
Qed.

Lemma check_thread {A} again (put : prog os A → threads) (a a' : A) (m : M os A) `{!Steps m} k w :
  (∀ t1 t2 k1 w2, mc_threads k1 = put t1 → tstep again t1 (y_os (mc_sys k1)) t2 w2 → watcher_step k1 (called (put t2) w2 k1)) →
  again a (steps m) → mc_threads k = put (Ret (Ok a)) → m (y_os (mc_sys k)) = (Ok a', w) →
  ∃ k', rtc watcher_step k k' ∧ mc_threads k' = put (Ret (Ok a')) ∧ mc_sys k' = with_os w (mc_sys k).
Proof using.
  intros Hput Ha Hk Hm. set (k1 := called (put (steps m)) (y_os (mc_sys k)) k).
  destruct (alone_thread again put (steps m) k1 (Ok a') w) as (k' & Hs & Ht & Hsys); [done|done|by rewrite <- Hm; apply steps_alone|].
  exists k'. split_and!; [|done|by rewrite Hsys]. eapply rtc_l; [|exact Hs]. by eapply Hput; [exact Hk|].
Qed.
Lemma watch_uninterrupted wr k wr' w :
  idle wr k → watch p wr (y_os (mc_sys k)) wr' w →
  ∃ k', rtc watcher_step k k' ∧ idle wr' k' ∧ mc_sys k' = with_os w (mc_sys k).
Proof using.
  intros Hk [ρ1 ρ2 fw w' Hc|bw w' Hc|rw w' _ Hc].
  - eapply (check_thread config_again (λ t, {| th_config := t; th_binary := _; th_role := _ |})); [|by exists ρ1, ρ2|exact Hk|exact Hc].
    intros t1 t2 k1 w2 Ht Hs. pose proof (W_config k1 t2 w2) as H. rewrite Ht in H. by apply H.
  - eapply (check_thread binary_again (λ t, {| th_config := _; th_binary := t; th_role := _ |})); [|done|exact Hk|exact Hc].
    intros t1 t2 k1 w2 Ht Hs. pose proof (W_binary k1 t2 w2) as H. rewrite Ht in H. by apply H.
  - eapply (check_thread role_again (λ t, {| th_config := _; th_binary := _; th_role := t |})); [|done|exact Hk|exact Hc].
    intros t1 t2 k1 w2 Ht Hs. pose proof (W_role k1 t2 w2) as H. rewrite Ht in H. by apply H.
Qed.

(** No goroutine ever waits for another one, and no check ends in an error. *)
Lemma watchers_run source key s g w0 k :
  machine_inv source key s g w0 k →
  (∃ t w, tstep config_again (th_config (mc_threads k)) (y_os (mc_sys k)) t w) ∧
  (∃ t w, tstep binary_again (th_binary (mc_threads k)) (y_os (mc_sys k)) t w) ∧
  (∃ t w, tstep role_again (th_role (mc_threads k)) (y_os (mc_sys k)) t w).
Proof using.
  intros [_ _ Hc Hb Hr]. split_and!.
  - apply (thread_runs config_again _ _ _ _ _ Hc); [intros r h [l ->]; eauto|].
    intros fw. eexists. by exists default_ranger, default_ranger.
  - apply (thread_runs binary_again _ _ _ _ _ Hb); [intros r h [l ->]; eauto|]. intros bw. by eexists.
  - apply (thread_runs role_again _ _ _ _ _ Hr); [auto|]. intros rw. by eexists.
Qed.

(** C3 — Safety call by call: under every interleaving of the calls of the three
    watchers with the loop and the world, the installed config was accepted by a
    binary that was installed at some moment of the run, and the installed binary
    is the one of the start or complete, executable, of a digest the spec asked
    for, and accepted a config that was installed at some moment; so the pair is
    one the binary accepts unless both files were replaced during the run.
    And while the loop waits, whatever call a watcher makes next, its signals go
    to the one process the loop waits for. *)
Theorem interleaved_correct CONFIG_SOURCE TLS_KEY_PATH ROLE_FILE goarch w0 wr w k :
  let source := envOr CONFIG_SOURCE ConfigSourcePath in
  mounted source → startup CONFIG_SOURCE TLS_KEY_PATH ROLE_FILE goarch w0 = (Ok wr, w) → positive_pids (o_procs w) →
  rtc mstep (begun wr w) k →
  let h := mc_history k in
  (∃ fb fc, o_files (now h) !! RuntimeBinaryPath = Some fb ∧ o_files (now h) !! RuntimeConfigPath = Some fc ∧
     config_tested (f_Data fc) h ∧ binary_tested (f_Data fb) h ∧
     (o_files w !! RuntimeBinaryPath = Some fb ∨ verified (Join (Dir source) BinarySpecKey) goarch fb h) ∧
     ((∀ w1, seen h w1 → o_files w1 !! RuntimeBinaryPath = Some fb) ∨
      (∀ w1, seen h w1 → o_files w1 !! RuntimeConfigPath = Some fc) → test_accepts (f_Data fb) (f_Data fc) = true)) ∧
  ∀ t, n_phase (y_runner (mc_sys k)) = Waiting t →
    let pid := n_pid (y_runner (mc_sys k)) in
    0 < pid ∧ ∀ k', watcher_step k k' →
      ∃ sigs, o_signals (y_os (mc_sys k')) = o_signals (y_os (mc_sys k)) ++ ((λ sig, (pid, sig)) <$> sigs).
Proof.
  intros source Hsrc Hs Hpos Hrun h. apply startup_wired in Hs; [|done]. fold source in Hs.
  assert (machine_inv source TLS_KEY_PATH (Join (Dir source) BinarySpecKey) goarch w k) as Hinv.
  { assert (machine_inv source TLS_KEY_PATH (Join (Dir source) BinarySpecKey) goarch w (begun wr w)) as H0
      by (apply begun_inv; [done|by split]).
    clear Hs Hpos h. remember (begun wr w) as k0 eqn:Hk0. clear Hk0. induction Hrun as [|k1 k2 k3 Hst _ IH]; [done|].
    by eapply IH, mstep_inv. }
  pose proof (mi_pair _ _ _ _ _ _ Hinv) as [(fc & Hfc & Hc) (fb & Hfb & Hb & Hv)]. split.
  - exists fb, fc. split_and!; try done. intros [Hall|Hall].
    + destruct Hc as (w1 & fb1 & Hw1 & Hfb1 & Hacc). rewrite (Hall _ Hw1) in Hfb1. by injection Hfb1 as ->.
    + destruct Hb as (w1 & fc1 & Hw1 & Hfc1 & Hacc). rewrite (Hall _ Hw1) in Hfc1. by injection Hfc1 as ->.
  - intros t Ht pid. destruct (waiting_pid _ _ _ (mi_sys _ _ _ _ _ _ Hinv) Ht) as (Hp & _ & Hpid). split; [done|].
    intros k' Hk'. destruct (watcher_step_inv _ _ _ _ _ _ _ Hinv Hk') as [[_ (l & -> & Hl)] _]. exists l.*2. f_equal.
    rewrite Hpid in Hl. by apply signals_to.
Qed.
End machine.

(** ** Example: both files change at once *)
#[local] Existing Instances wr_crypto wr_binary wr_docs.
#[local] Instance ix_sv : Supervisor := process_supervisor example_process.

Definition go_config (k : machine) : machine :=
  let ts := mc_threads k in
  match th_config ts with
  | Ret (Ok fw) => called {| th_config := steps (FileWatcher.check default_ranger default_ranger fw);
                             th_binary := th_binary ts; th_role := th_role ts |} (y_os (mc_sys k)) k
  | Ret (Err _) => k
  | Do m c => let '(x, w) := m (y_os (mc_sys k)) in
              called {| th_config := c x; th_binary := th_binary ts; th_role := th_role ts |} w k
  end.
Definition go_binary (k : machine) : machine :=
  let ts := mc_threads k in
  match th_binary ts with
  | Ret (Ok bw) => called {| th_config := th_config ts; th_binary := steps (BinaryWatcher.check bw);
                             th_role := th_role ts |} (y_os (mc_sys k)) k
  | Ret (Err _) => k
  | Do m c => let '(x, w) := m (y_os (mc_sys k)) in
              called {| th_config := th_config ts; th_binary := c x; th_role := th_role ts |} w k
  end.
Definition go_loop (a : action) (k : machine) : machine :=
  match act example_process a (mc_sys k) with Some s => moved s k | None => k end.
(** The mounted config and spec change, and the endpoint answers. *)
Definition go_mount (config spec : string) (network : list (res response)) (k : machine) : machine :=
  let w := y_os (mc_sys k) in
  moved (with_os (set_network network (set_files (<[ConfigSourcePath := File config 420]> (<[example_spec_path := File spec 420]> (o_files w))) w))
    (mc_sys k)) k.

Definition reaches (k k' : machine) : Prop := mstep example_process k k' ∨ k' = k.
Lemma go_config_step k : reaches k (go_config k).
Proof.
  unfold go_config, reaches. destruct (th_config (mc_threads k)) as [[fw|e]|X m c] eqn:Ht; [left|by right|].
  - apply S_watcher, W_config. rewrite Ht. split; [by eexists _, _|done].
  - destruct (m _) as [x w] eqn:Hr. left. apply S_watcher, W_config. rewrite Ht. by exists x.
Qed.
Lemma go_binary_step k : reaches k (go_binary k).
Proof.
  unfold go_binary, reaches. destruct (th_binary (mc_threads k)) as [[bw|e]|X m c] eqn:Ht; [left|by right|].
  - apply S_watcher, W_binary. rewrite Ht. by split.
  - destruct (m _) as [x w] eqn:Hr. left. apply S_watcher, W_binary. rewrite Ht. by exists x.
Qed.
Lemma go_loop_step a k : (∀ c, a ≠ ACall c) → reaches k (go_loop a k).
Proof. intros Ha. unfold go_loop, reaches. destruct (act _ _ _) as [s|] eqn:Hs; [left; by eapply S_loop|by right]. Qed.
Lemma go_mount_step config spec network k : reaches k (go_mount config spec network k).
Proof.
  left. apply S_world. split_and!; try done; intros x Hx; simpl; rewrite !lookup_insert_ne; try done.
  - intros <-. revert Hx. apply (bool_decide_eq_false_1 _). by vm_compute.
  - intros <-. revert Hx. apply (bool_decide_eq_false_1 _). by vm_compute.
  - intros <-. destruct Hx as [?|[?|Hx]]; [done|done|]. revert Hx. by apply mounted_not_temp.
  - intros <-. destruct Hx as [?|[?|Hx]]; [done|done|]. revert Hx. by apply mounted_not_temp.
Qed.
Lemma reaches_rtc k k' : reaches k k' → rtc (mstep example_process) k k'.
Proof. intros [Hs| ->]; [by apply rtc_once|done]. Qed.
Lemma go_iter f n k : (∀ k, reaches k (f k)) → rtc (mstep example_process) k (Nat.iter n f k).
Proof.
  intros Hf. induction n as [|n IH]; [done|]. simpl. destruct (Hf (Nat.iter n f k)) as [Hs| ->]; [by eapply rtc_r|done].
Qed.

Definition race_start : res wrapper * os := startup "" "" "" "amd64" (starting_os "" "cfg2" []).
Definition race_wr : wrapper :=
  {| wr_fw := with_lastApplied "cfg2" (NewFileWatcher ConfigSourcePath RuntimeConfigPath "" ConvertedTLSKeyPath);
     wr_bw := Seed (NewBinaryWatcher (Join (Dir ConfigSourcePath) BinarySpecKey) "amd64") (Some "");
     wr_rw := NewRoleWatcher "" |}.
(** Started on [v1] with [cfg2], as process 7; then [cfg1] and a spec for [v2]
    are mounted. *)
Definition race_mounted : machine :=
  go_mount "cfg1" wants_v2 [answer "v2" false]
    (go_loop (ASpawn (Ok 7)) (go_loop (AProcs [serving "7" RuntimeBinaryPath]) (begun race_wr race_start.2))).
(** Both watchers get as far as their test runs; then both rename. *)
Definition race_tested : machine := Nat.iter 7 go_binary (Nat.iter 5 go_config race_mounted).
Definition raced : machine := go_binary (go_config race_tested).

Lemma raced_reached : rtc (mstep example_process) (begun race_wr race_start.2) raced.
Proof.
  unfold raced. etrans; [|apply reaches_rtc, go_binary_step]. etrans; [|apply reaches_rtc, go_config_step]. unfold race_tested.
  etrans; [|apply go_iter, go_binary_step]. etrans; [|apply go_iter, go_config_step]. unfold race_mounted.
  etrans; [|apply reaches_rtc, go_mount_step]. etrans; [|by apply reaches_rtc, go_loop_step]. by apply reaches_rtc, go_loop_step.
Qed.

(** The race: both tests passed, and the installed pair is one the binary rejects. *)
Lemma interleaved_correct_witness :
  o_files (now (mc_history raced)) !! RuntimeBinaryPath = Some (File "v2" 493) ∧
  o_files (now (mc_history raced)) !! RuntimeConfigPath = Some (File "cfg1" 384) ∧
  config_tested "cfg1" (mc_history raced) ∧ binary_tested "v2" (mc_history raced) ∧ test_accepts "v2" "cfg1" = false ∧
  0 < n_pid (y_runner (mc_sys raced)).
Proof.
  destruct (interleaved_correct example_process "" "" "" "amd64" (starting_os "" "cfg2" []) race_wr race_start.2 raced)
    as [(fb & fc & Hfb & Hfc & Hc & Hb & _) Hwait].
  - apply example_mounted.
  - vm_compute. reflexivity.
  - constructor.
  - apply raced_reached.
  - assert (o_files (now (mc_history raced)) !! RuntimeBinaryPath = Some (File "v2" 493)) as Hv2 by (vm_compute; reflexivity).
    assert (o_files (now (mc_history raced)) !! RuntimeConfigPath = Some (File "cfg1" 384)) as Hc1 by (vm_compute; reflexivity).
    rewrite Hv2 in Hfb. injection Hfb as <-. rewrite Hc1 in Hfc. injection Hfc as <-.
    split_and!; [exact Hv2|exact Hc1|exact Hc|exact Hb|vm_compute; reflexivity|].
    apply (Hwait (T_child 7 (15 * Second))). vm_compute. reflexivity.
Defined.
